(** * back-ldif: the LDIF file backend of slapd (servers/slapd/back-ldif/ldif.c)

    A shallow embedding of the path codec, the entry file I/O, the tree
    enumerator, the add/delete/bind operations and the tool cursor, with
    the properties of the backend's specification proved over it.

    Conventions.
    - A [struct berval] is a list of bytes ([ascii]); [bv_len] is [length].
    - The file is modelled as compiled for Unix (the [#ifndef _WIN32]
      branch of the macros).
    - System calls act on an explicit file-system state; failures that
      do not depend on that state (EIO, EACCES, ...) are injected by the
      caller of the model. *)

From Stdlib Require Import Ascii String List ZArith Lia Bool Permutation Sorted.
From stdpp Require Import gmap strings list fin_maps.
Import ListNotations.

(** ** Bytes and bervals *)

Abbreviation berval := (list ascii).

Definition bv (s : string) : berval := list_ascii_of_string s.
Arguments bv s%_string.

Definition NUL : ascii := Ascii.zero.
Definition BACKSLASH : ascii := "092"%char.

Definition ch_eq (a b : ascii) : bool := Ascii.eqb a b.

Fixpoint bv_eqb (a b : berval) : bool :=
  match a, b with
  | [], [] => true
  | x :: a', y :: b' => ch_eq x y && bv_eqb a' b'
  | _, _ => false
  end.

(** [p .. end-1] of a buffer. *)
Definition slice (s : berval) (p end_ : nat) : berval :=
  firstn (end_ - p) (skipn p s).

(** [bv_val] read as a C string: the bytes before the first NUL. *)
Fixpoint cstr (s : berval) : berval :=
  match s with
  | [] => []
  | c :: t => if ch_eq c NUL then [] else c :: cstr t
  end.

Definition code (c : ascii) : Z := Z.of_N (N_of_ascii c).

(** strcmp(3) on C strings, bytes compared as unsigned char. *)
Fixpoint strcmp (a b : berval) : Z :=
  match a, b with
  | [], [] => 0
  | [], y :: _ => 0 - code y
  | x :: _, [] => code x
  | x :: a', y :: b' => if ch_eq x y then strcmp a' b' else code x - code y
  end%Z.

Definition INT_MAX : Z := 2147483647.
Definition LONG_MAX : Z := 9223372036854775807.
Definition LONG_MIN : Z := - LONG_MAX - 1.

(** Conversion of a [long] to [int] (two's complement, 32 bits). *)
Definition int_wrap (z : Z) : Z := ((z + 2 ^ 31) mod 2 ^ 32 - 2 ^ 31)%Z.

(** ** Result codes and scopes

    The values of ldap.h (RFC 4511); the header is not part of this
    file. *)

Definition LDAP_SUCCESS : Z := 0.
Definition LDAP_NO_SUCH_OBJECT : Z := 32.
Definition LDAP_INAPPROPRIATE_AUTH : Z := 48.
Definition LDAP_INVALID_CREDENTIALS : Z := 49.
Definition LDAP_BUSY : Z := 51.
Definition LDAP_UNWILLING_TO_PERFORM : Z := 53.
Definition LDAP_NOT_ALLOWED_ON_NONLEAF : Z := 66.
Definition LDAP_ALREADY_EXISTS : Z := 68.
Definition LDAP_OTHER : Z := 80.

Inductive scope :=
  | LDAP_SCOPE_BASE
  | LDAP_SCOPE_ONELEVEL
  | LDAP_SCOPE_SUBTREE
  | LDAP_SCOPE_SUBORDINATE.

#[global] Instance scope_eq_dec : EqDecision scope.
Proof. solve_decision. Defined.

(** ** Entries, operations and the backend's private data *)

Record Attribute := {
  a_desc : berval;
  a_vals : list berval
}.

Record Entry := {
  e_name : berval;
  e_nname : berval;
  e_attrs : list Attribute;
  e_ocflags : Z
}.

(** The fields of [Operation] that this file reads or writes.  The
    search filter is kept as the predicate
    [test_filter( op, e, op->ors_filter ) == LDAP_COMPARE_TRUE]. *)
Record Operation := {
  o_req_dn : berval;
  o_req_ndn : berval;
  ors_scope : scope;
  ors_filter : Entry -> bool;
  o_manageDSAit : bool
}.

(** What the front end has been handed for the client. *)
Inductive reply :=
  | SearchEntry (e : Entry)
  | SearchReference (e : Entry).

Record SlapReply := {
  sr_sent : list reply
}.

Definition ID := N.
Definition NOID : ID := (2 ^ 64 - 1)%N.

Record enumCookie := {
  ck_op : Operation;
  ck_rs : option SlapReply;                (* NULL in tool mode *)
  ck_entries : option (list (option Entry)); (* NULL, or [elen] slots *)
  ck_elen : ID;
  ck_eind : ID
}.

Record ldif_info := {
  li_base_path : berval;
  li_tool_cookie : enumCookie;
  li_tool_current : ID
}.

Record BackendDB := {
  be_private : ldif_info;
  be_suffix : berval;    (* be_suffix[0] *)
  be_nsuffix : berval    (* be_nsuffix[0] *)
}.

Definition ENTRY_BUFF_INCREMENT : ID := 500%N.

(** ** Unsafe/translated characters in the filesystem (Unix version) *)

Definition LDIF : berval := bv ".ldif".
Definition LDIF_FILETYPE_SEP : ascii := "."%char.
Definition LDAP_DIRSEP : ascii := "/"%char.

Definition LDIF_ESCAPE_CHAR : ascii := BACKSLASH.
Definition LDIF_UNSAFE_CHAR (c : ascii) : bool :=
  ch_eq c "/"%char || ch_eq c ":"%char.

Definition IX_DNL : ascii := "{"%char.
Definition IX_DNR : ascii := "}"%char.
Definition IX_FSL : ascii := IX_DNL.
Definition IX_FSR : ascii := IX_DNR.

(** Treat character [x] as unsafe if back-ldif does not already treat it
    specially. *)
Definition LDIF_MAYBE_UNSAFE (c x : ascii) : bool :=
  negb (LDIF_UNSAFE_CHAR x || ch_eq x BACKSLASH || ch_eq x IX_DNL || ch_eq x IX_DNR)
  && ch_eq c x.

Definition LDIF_NEED_ESCAPE (c : ascii) : bool :=
  LDIF_UNSAFE_CHAR c
  || LDIF_MAYBE_UNSAFE c LDIF_ESCAPE_CHAR
  || LDIF_MAYBE_UNSAFE c LDIF_FILETYPE_SEP
  || LDIF_MAYBE_UNSAFE c IX_FSL
  || (negb (ch_eq IX_FSR IX_FSL) && LDIF_MAYBE_UNSAFE c IX_FSR).

(** Modelled from the spec: the RDN separator test [DN_SEPARATOR] of
    slap.h is not part of this file; a DN is "a comma-separated sequence
    of RDNs". *)
Definition DN_SEPARATOR (c : ascii) : bool := ch_eq c ","%char.

(** ** dn2path *)

Definition hex : berval := bv "0123456789ABCDEF".

Definition hex_hi (ch : ascii) : ascii :=
  nth (N.to_nat (N.shiftr (N.land (N_of_ascii ch) 255) 4)) hex NUL.
Definition hex_lo (ch : ascii) : ascii :=
  nth (N.to_nat (N.land (N_of_ascii ch) 15)) hex NUL.

(** The bytes the inner loop of [dn2path] appends for one DN byte. *)
Definition dn2path_char (ch : ascii) : berval :=
  if negb (ch_eq LDIF_ESCAPE_CHAR BACKSLASH) && ch_eq ch BACKSLASH then
    [LDIF_ESCAPE_CHAR]
  else if negb (ch_eq IX_FSL IX_DNL) && ch_eq ch IX_DNL then [IX_FSL]
  else if negb (ch_eq IX_FSR IX_DNR) && ch_eq ch IX_DNR then [IX_FSR]
  else if LDIF_NEED_ESCAPE ch then [LDIF_ESCAPE_CHAR; hex_hi ch; hex_lo ch]
  else [ch].

Definition dn2path_encode (component : berval) : berval :=
  flat_map dn2path_char component.

(** [while ( (p = next) > start ) { --next; if ( DN_SEPARATOR( *next ) )
    break; }], as the pair [(p, next)] it leaves. *)
Fixpoint dn2path_scan (dn : berval) (next : nat) : nat * nat :=
  match next with
  | 0 => (0, 0)
  | S n => if DN_SEPARATOR (nth n dn NUL) then (S n, n) else dn2path_scan dn n
  end.

(** The outer [for] loop; it runs while [end > start] and [end] strictly
    decreases, so [length dn] iterations are enough. *)
Fixpoint dn2path_loop (fuel : nat) (dn : berval) (next end_ : nat) : berval :=
  match fuel with
  | 0 => []
  | S fuel' =>
      if end_ =? 0 then []
      else
        let '(p, next') := dn2path_scan dn next in
        (LDAP_DIRSEP :: dn2path_encode (slice dn p end_))
          ++ dn2path_loop fuel' dn next' next'
  end.

(** Set [*res] = LDIF filename path for the normalized DN. *)
Definition dn2path (be : BackendDB) (dn : berval) : berval :=
  let end_ := length dn in
  li_base_path (be_private be)
    ++ dn2path_loop (length dn) dn (end_ - length (be_nsuffix be)) end_
    ++ LDIF.

(** Modelled from the spec: [dnIsSuffix] (dn.c) is asserted by [dn2path]
    but is not part of this file.  "A DN B is a suffix of A iff A = C,B
    for some (possibly empty) prefix": [dn] is the suffix itself, or ends
    with a separator followed by the suffix. *)
Definition dnIsSuffix (dn suffix : berval) : bool :=
  bv_eqb dn suffix
  || (let d := length dn - length suffix in
      (length suffix <? length dn)
      && DN_SEPARATOR (nth (d - 1) dn NUL)
      && bv_eqb (skipn d dn) suffix).

(** Is [h1 h2] the hex pair that [dn2path] writes for some escaped byte? *)
Definition all_bytes : berval := map ascii_of_nat (seq 0 256).
Definition escapes_as (h1 h2 : ascii) : bool :=
  existsb (fun c => LDIF_NEED_ESCAPE c && ch_eq (hex_hi c) h1 && ch_eq (hex_lo c) h2)
          all_bytes.

Fixpoint no_hexpair_alias (dn : berval) : bool :=
  match dn with
  | [] => true
  | c :: t =>
      negb (ch_eq c LDIF_ESCAPE_CHAR
            && match t with h1 :: h2 :: _ => escapes_as h1 h2 | _ => false end)
      && no_hexpair_alias t
  end.

(** Modelled from the spec: DN normalization is an external collaborator
    ([dnNormalize] is not part of this file) and the spec does not define
    its output.  Two facts about a normalized DN are used: it does not
    begin with an RDN separator (its leaf RDN is not empty), and it never
    spells as a backslash hex pair a byte that [dn2path] itself escapes
    ('/', ':' and '.' need no escape in a DN string, so the normalizer
    writes them literally). *)
Definition normalized (dn : berval) : bool :=
  match dn with
  | [] => true
  | c :: _ => negb (DN_SEPARATOR c)
  end
  && no_hexpair_alias dn.

(** ** Error numbers and system-call results *)

Inductive errno :=
  | ENOENT | EEXIST | ENOTEMPTY | ENOTDIR | EISDIR
  | EINTR | EACCES | EIO | ENOSPC | ENOMEM | EBADF.

#[global] Instance errno_eq_dec : EqDecision errno.
Proof. solve_decision. Defined.

Inductive result (A : Type) :=
  | Ok (a : A)
  | Err (e : errno).
Arguments Ok {A} a.
Arguments Err {A} e.

(** Failures a call can suffer whatever the file-system state is. *)
Inductive fault := FAULT_EINTR | FAULT_EACCES | FAULT_EIO | FAULT_ENOSPC.

Definition fault_errno (f : fault) : errno :=
  match f with
  | FAULT_EINTR => EINTR
  | FAULT_EACCES => EACCES
  | FAULT_EIO => EIO
  | FAULT_ENOSPC => ENOSPC
  end.

(** ** ldif_read_file

    The function is first modelled against the bare outcomes of the calls
    it makes; [read_calls_of] further down derives these outcomes from a
    file-system state. *)

Inductive syscall :=
  | SYS_stat | SYS_open | SYS_fstat | SYS_malloc | SYS_read | SYS_close.

Record read_calls := {
  rc_stat : result unit;            (* stat( path, &st ) *)
  rc_open : result unit;            (* open( path, O_RDONLY ) *)
  rc_fstat : result Z;              (* fstat( fd, &st ), giving st.st_size *)
  rc_malloc : bool;                 (* SLAP_MALLOC( len + 1 ) != NULL *)
  rc_read : list (result berval);   (* successive read( fd, ptr, len ) *)
  rc_close : result unit            (* close( fd ) *)
}.

Record read_state := {
  rs_res : Z;                  (* res *)
  rs_errno : option errno;     (* errno; None: a value with no name here *)
  rs_data : option berval;     (* data, with what has been read into it *)
  rs_calls : list syscall      (* the calls made so far, in order *)
}.

(** [while ( len && (res = read( fd, ptr, len )) )].  A read hands over
    at most [len] bytes; no bytes, or no further outcome, is end of
    file. *)
Fixpoint ldif_read_loop (reads : list (result berval)) (len : Z)
    (st : read_state) (buf : berval) : read_state :=
  if (len =? 0)%Z then
    {| rs_res := rs_res st; rs_errno := rs_errno st;
       rs_data := Some buf; rs_calls := rs_calls st |}
  else
    match reads with
    | [] =>
        {| rs_res := 0; rs_errno := rs_errno st;
           rs_data := Some buf; rs_calls := rs_calls st ++ [SYS_read] |}
    | Ok chunk :: reads' =>
        let got := firstn (Z.to_nat len) chunk in
        let st' := {| rs_res := Z.of_nat (length got); rs_errno := rs_errno st;
                      rs_data := Some buf;
                      rs_calls := rs_calls st ++ [SYS_read] |} in
        if (Z.of_nat (length got) =? 0)%Z then st'
        else ldif_read_loop reads' (len - Z.of_nat (length got)) st' (buf ++ got)
    | Err e :: reads' =>
        let st' := {| rs_res := -1; rs_errno := Some e;
                      rs_data := Some buf;
                      rs_calls := rs_calls st ++ [SYS_read] |} in
        if decide (e = EINTR) then ldif_read_loop reads' len st' buf
        else st'
    end.

Record read_result := {
  rr_rc : Z;
  rr_data : option berval;     (* the contents of *datap on success *)
  rr_errno : option errno;     (* errno when the result is chosen *)
  rr_calls : list syscall
}.

(** Read a file, or stat() it if [datap == NULL].  [errno0] is errno on
    entry. *)
Definition ldif_read_file (env : read_calls) (errno0 : option errno)
    (datap_null : bool) : read_result :=
  let st0 := {| rs_res := -1; rs_errno := errno0; rs_data := None;
                rs_calls := [] |} in
  let st :=
    if datap_null then
      match rc_stat env with
      | Ok _ => {| rs_res := 0; rs_errno := errno0; rs_data := None;
                   rs_calls := [SYS_stat] |}
      | Err e => {| rs_res := -1; rs_errno := Some e; rs_data := None;
                    rs_calls := [SYS_stat] |}
      end
    else
      match rc_open env with
      | Err e => {| rs_res := -1; rs_errno := Some e; rs_data := None;
                    rs_calls := [SYS_open] |}
      | Ok _ =>
          let st1 :=
            match rc_fstat env with
            | Err e => {| rs_res := -1; rs_errno := Some e; rs_data := None;
                          rs_calls := [SYS_open; SYS_fstat] |}
            | Ok st_size =>
                let st2 := {| rs_res := -1; rs_errno := errno0; rs_data := None;
                              rs_calls := [SYS_open; SYS_fstat] |} in
                if (st_size >? INT_MAX - 2)%Z then
                  {| rs_res := 1; rs_errno := errno0; rs_data := None;
                     rs_calls := rs_calls st2 |}
                else
                  let len := (st_size + 1)%Z in
                  if rc_malloc env then
                    ldif_read_loop (rc_read env) len
                      {| rs_res := -1; rs_errno := errno0; rs_data := None;
                         rs_calls := rs_calls st2 ++ [SYS_malloc] |} []
                  else
                    {| rs_res := -1; rs_errno := Some ENOMEM; rs_data := None;
                       rs_calls := rs_calls st2 ++ [SYS_malloc] |}
            end in
          match rc_close env with
          | Ok _ => {| rs_res := rs_res st1; rs_errno := rs_errno st1;
                       rs_data := rs_data st1;
                       rs_calls := rs_calls st1 ++ [SYS_close] |}
          | Err e => {| rs_res := -1; rs_errno := Some e;
                        rs_data := rs_data st1;
                        rs_calls := rs_calls st1 ++ [SYS_close] |}
          end
      end in
  (* done: *)
  if (rs_res st =? 0)%Z then
    {| rr_rc := LDAP_SUCCESS; rr_data := rs_data st;
       rr_errno := rs_errno st; rr_calls := rs_calls st |}
  else
    let rc :=
      if (rs_res st <? 0)%Z && bool_decide (rs_errno st = Some ENOENT)
      then LDAP_NO_SUCH_OBJECT else LDAP_OTHER in
    {| rr_rc := rc; rr_data := None;
       rr_errno := rs_errno st; rr_calls := rs_calls st |}.

(** ** The file system

    A map from path names to inodes.  A directory keeps the names of its
    members in the order readdir(3) reports them. *)

Inductive inode :=
  | IFile (data : berval)
  | IDir (mode : Z) (names : list berval).

Abbreviation filesys := (gmap berval inode).

(** Index of the last '/' of a path (0 when there is none). *)
Fixpoint last_slash (p : berval) (i : nat) : nat :=
  match i with
  | 0 => 0
  | S j => if ch_eq (nth j p NUL) "/"%char then j else last_slash p j
  end.

Definition has_slash (p : berval) : bool := existsb (fun c => ch_eq c "/"%char) p.

Definition path_dirname (p : berval) : berval :=
  firstn (last_slash p (length p)) p.
Definition path_basename (p : berval) : berval :=
  if has_slash p then skipn (S (last_slash p (length p))) p else p.

Definition is_dir (fs : filesys) (p : berval) : bool :=
  match fs !! p with
  | Some (IDir _ _) => true
  | _ => false
  end.

Definition in_names (n : berval) (ns : list berval) : bool :=
  existsb (bv_eqb n) ns.

Definition add_name (n : berval) (d : inode) : inode :=
  match d with
  | IDir m ns => IDir m (if in_names n ns then ns else ns ++ [n])
  | IFile _ => d
  end.

Definition del_name (n : berval) (d : inode) : inode :=
  match d with
  | IDir m ns => IDir m (List.filter (fun x => negb (bv_eqb n x)) ns)
  | IFile _ => d
  end.

(** Enter / remove a directory entry. *)
Definition fs_link (p : berval) (i : inode) (fs : filesys) : filesys :=
  <[p := i]> (alter (add_name (path_basename p)) (path_dirname p) fs).
Definition fs_unlink (p : berval) (fs : filesys) : filesys :=
  delete p (alter (del_name (path_basename p)) (path_dirname p) fs).

(** The nearest ancestor of a path that the file system holds: the
    parent directory's inode, or failing that the parent's nearest
    ancestor.  A path has at most [length p] ancestors. *)
Fixpoint nearest_ancestor (fuel : nat) (fs : filesys) (p : berval)
    : option inode :=
  match fuel with
  | 0 => None
  | S fuel' =>
      if has_slash p then
        match fs !! path_dirname p with
        | Some i => Some i
        | None => nearest_ancestor fuel' fs (path_dirname p)
        end
      else None
  end.

(** errno of path resolution for a name that is not there: ENOTDIR when
    the walk meets a regular file where it needs a directory, ENOENT
    otherwise. *)
Definition absent_errno (fs : filesys) (p : berval) : errno :=
  match nearest_ancestor (length p) fs p with
  | Some (IFile _) => ENOTDIR
  | _ => ENOENT
  end.

Definition sys_stat (inj : option fault) (fs : filesys) (p : berval)
    : result inode :=
  match inj with
  | Some f => Err (fault_errno f)
  | None =>
      match fs !! p with
      | Some i => Ok i
      | None => Err (absent_errno fs p)
      end
  end.

Definition sys_mkdir (inj : option fault) (fs : filesys) (p : berval)
    (mode : Z) : result unit * filesys :=
  match inj with
  | Some f => (Err (fault_errno f), fs)
  | None =>
      match fs !! p with
      | Some _ => (Err EEXIST, fs)
      | None =>
          if is_dir fs (path_dirname p)
          then (Ok tt, fs_link p (IDir mode []) fs)
          else (Err (absent_errno fs p), fs)
      end
  end.

Definition sys_rmdir (inj : option fault) (fs : filesys) (p : berval)
    : result unit * filesys :=
  match inj with
  | Some f => (Err (fault_errno f), fs)
  | None =>
      match fs !! p with
      | None => (Err (absent_errno fs p), fs)
      | Some (IFile _) => (Err ENOTDIR, fs)
      | Some (IDir _ (_ :: _)) => (Err ENOTEMPTY, fs)
      | Some (IDir _ []) => (Ok tt, fs_unlink p fs)
      end
  end.

(** unlink(2).  A missing name is answered with ENOENT: the file unlinks
    a name that may be missing only after a call on a sibling name has
    found the directory. *)
Definition sys_unlink (inj : option fault) (fs : filesys) (p : berval)
    : result unit * filesys :=
  match inj with
  | Some f => (Err (fault_errno f), fs)
  | None =>
      match fs !! p with
      | None => (Err ENOENT, fs)
      | Some (IDir _ _) => (Err EISDIR, fs)
      | Some (IFile _) => (Ok tt, fs_unlink p fs)
      end
  end.

(** rename(2) of a regular file, replacing a regular file at [to]. *)
Definition sys_rename (inj : option fault) (fs : filesys) (from to : berval)
    : result unit * filesys :=
  match inj with
  | Some f => (Err (fault_errno f), fs)
  | None =>
      match fs !! from with
      | None => (Err ENOENT, fs)
      | Some (IDir _ _) => (Err EISDIR, fs)
      | Some (IFile d) =>
          match fs !! to with
          | Some (IDir _ _) => (Err EISDIR, fs)
          | _ =>
              if is_dir fs (path_dirname to)
              then (Ok tt, fs_link to (IFile d) (fs_unlink from fs))
              else (Err (absent_errno fs to), fs)
          end
      end
  end.

(** The six characters mkstemp(3) puts in place of "XXXXXX", drawn from
    its alphabet by the digits of [seed]. *)
Definition mkstemp_alphabet : berval :=
  bv "abcdefghijklmnopqrstuvwxyzABCDEFGHIJKLMNOPQRSTUVWXYZ0123456789".

Fixpoint mkstemp_chars (n : nat) (seed : nat) : berval :=
  match n with
  | 0 => []
  | S n' =>
      nth (seed mod 62) mkstemp_alphabet "a"%char :: mkstemp_chars n' (seed / 62)
  end.

(** mkstemp(3) on a template ending in "XXXXXX": the name tried is the
    one [seed] selects; the new file is empty.  The descriptor returned
    is identified with the name. *)
Definition sys_mkstemp (inj : option fault) (seed : nat) (fs : filesys)
    (template : berval) : result berval * filesys :=
  match inj with
  | Some f => (Err (fault_errno f), fs)
  | None =>
      let name := firstn (length template - 6) template ++ mkstemp_chars 6 seed in
      if negb (is_dir fs (path_dirname name)) then (Err (absent_errno fs name), fs)
      else
        match fs !! name with
        | Some _ => (Err EEXIST, fs)
        | None => (Ok name, fs_link name (IFile []) fs)
        end
  end.

(** A write(2) through [fd] appends to the file. *)
Definition fs_append (fs : filesys) (fd : berval) (data : berval) : filesys :=
  alter (fun i => match i with
                  | IFile d => IFile (d ++ data)
                  | IDir _ _ => i
                  end) fd fs.

(** opendir(3) followed by readdir(3) until it returns NULL. *)
Definition sys_readdir (fs : filesys) (p : berval) : result (list berval) :=
  match fs !! p with
  | None => Err ENOENT
  | Some (IFile _) => Err ENOTDIR
  | Some (IDir _ names) => Ok (bv "." :: bv ".." :: names)
  end.

(** The outcomes of the calls of [ldif_read_file] on a file-system
    state.  A path that is not there is reported with ENOENT, also where
    a regular file among its ancestors would make it ENOTDIR. *)
Definition read_calls_of (fs : filesys) (path : berval) : read_calls :=
  match fs !! path with
  | None =>
      {| rc_stat := Err ENOENT; rc_open := Err ENOENT; rc_fstat := Err EBADF;
         rc_malloc := true; rc_read := []; rc_close := Err EBADF |}
  | Some (IFile d) =>
      {| rc_stat := Ok tt; rc_open := Ok tt;
         rc_fstat := Ok (Z.of_nat (length d));
         rc_malloc := true; rc_read := [Ok d]; rc_close := Ok tt |}
  | Some (IDir _ _) =>
      {| rc_stat := Ok tt; rc_open := Ok tt; rc_fstat := Ok 4096%Z;
         rc_malloc := true; rc_read := [Err EISDIR]; rc_close := Ok tt |}
  end.

(** ** Collaborators outside this file

    The DN helpers of dn.c, the entry serializer and parser, and the
    front end's senders and checkers are used through their
    interfaces. *)

Class Slapd := {
  dnRdn : berval -> berval;              (* the leaf RDN of a DN *)
  dnParent : berval -> berval;           (* the DN without its leaf RDN *)
  entry2str : Entry -> option berval;    (* None: NULL *)
  str2entry : berval -> option Entry;    (* None: NULL *)
  is_entry_referral : Entry -> bool;
  (* the result of sending, given what has been sent before *)
  send_search_entry : list reply -> Entry -> Z;
  send_search_reference : list reply -> Entry -> Z;
  (* slap_passwd_check( op, entry, a, cred, &text ) *)
  slap_passwd_check : Entry -> Attribute -> berval -> Z
}.

(** Modelled from the spec: [build_new_dn] (dn.c) is not part of this
    file; the full DN is reconstructed "by concatenating the file's
    stored (leaf-RDN-only) DN with parent_dn". *)
Definition build_new_dn (parent_dn rdn : berval) : berval :=
  rdn ++ bv "," ++ parent_dn.

Definition slap_schema_si_ad_userPassword : berval := bv "userPassword".

(** [attr_find] (attr.c): the first attribute of the list with the given
    description. *)
Definition attr_find (attrs : list Attribute) (desc : berval) : option Attribute :=
  List.find (fun a => bv_eqb (a_desc a) desc) attrs.

(** ** Writing an entry file *)

(** Make temporary filename pattern for mkstemp() based on dnpath. *)
Definition ldif_tempname (dnpath : berval) : berval :=
  firstn (length dnpath - length LDIF) dnpath ++ bv ".XXXXXX".

(** One write(2): the number of bytes accepted beyond the first, or an
    error. *)
Inductive write_outcome :=
  | W_wrote (extra : nat)
  | W_err (e : errno).

(** [spew_file]: returns [writeres] and the saved errno.  When the
    outcomes run out, a write accepts all that is left. *)
Fixpoint spew_file (writes : list write_outcome) (fs : filesys) (fd : berval)
    (spew : berval) (writeres : Z) (save_errno : option errno)
    : Z * option errno * filesys :=
  match spew with
  | [] => (writeres, save_errno, fs)
  | _ :: _ =>
      match writes with
      | [] => (Z.of_nat (length spew), save_errno, fs_append fs fd spew)
      | W_err e :: writes' =>
          if decide (e = EINTR)
          then spew_file writes' fs fd spew (-1) (Some e)
          else ((-1)%Z, Some e, fs)
      | W_wrote extra :: writes' =>
          let n := Nat.min (S extra) (length spew) in
          spew_file writes' (fs_append fs fd (firstn n spew)) fd (skipn n spew)
            (Z.of_nat n) save_errno
      end
  end.

(** Outcomes of the calls of [ldif_write_entry] that do not follow from
    the file-system state. *)
Record write_calls := {
  wc_tempname : bool;              (* SLAP_MALLOC in ldif_tempname != NULL *)
  wc_seed : nat;                   (* mkstemp's choice of name *)
  wc_mkstemp : option fault;
  wc_write : list write_outcome;
  wc_close : option fault;
  wc_move : option fault
}.

Definition with_name (e : Entry) (dn : berval) : Entry :=
  {| e_name := dn; e_nname := e_nname e; e_attrs := e_attrs e;
     e_ocflags := e_ocflags e |}.

Section WithSlapd.
Context `{!Slapd}.

(** The entry as it is serialized: only the RDN is saved onto disk. *)
Definition stored_entry (e : Entry) : Entry :=
  let dn_len := length (e_name e) in
  let rdn := dnRdn (e_name e) in
  if negb (length rdn =? dn_len)
  then with_name e (firstn (length rdn) (e_name e)) else e.

Definition ldif_write_entry (env : write_calls) (fs : filesys) (e : Entry)
    (path : berval) : Z * filesys :=
  let tmpfname := ldif_tempname path in
  let '(fd, fs0) :=
    if wc_tempname env
    then sys_mkstemp (wc_mkstemp env) (wc_seed env) fs tmpfname
    else (Err ENOMEM, fs) in
  let '(rc, save_errno, fs') :=
    match fd with
    | Err en => (LDAP_OTHER, Some en, fs0)
    | Ok fd =>
        let '(res, save_errno, fs1) :=
          match entry2str (stored_entry e) with
          | Some entry_as_string => spew_file (wc_write env) fs0 fd entry_as_string 0 None
          | None => ((-2)%Z, None, fs0)
          end in
        let '(res, save_errno) :=
          match wc_close env with
          | Some f => if (res >=? 0)%Z then ((-1)%Z, Some (fault_errno f))
                      else (res, save_errno)
          | None => (res, save_errno)
          end in
        let '(rc, save_errno, fs2) :=
          if (res >=? 0)%Z then
            match sys_rename (wc_move env) fs1 fd path with
            | (Ok _, fs2) => (LDAP_SUCCESS, save_errno, fs2)
            | (Err en, fs2) => (LDAP_OTHER, Some en, fs2)
            end
          else (LDAP_OTHER, save_errno, fs1) in
        if negb (rc =? LDAP_SUCCESS)%Z
        then (rc, save_errno, snd (sys_unlink None fs2 fd))
        else (rc, save_errno, fs2)
    end in
  if (rc =? LDAP_OTHER)%Z && bool_decide (save_errno = Some ENOENT)
  then (LDAP_NO_SUCH_OBJECT, fs')
  else (rc, fs').

(** ** Reading an entry file *)

(** Read the entry at path, or if [entryp == NULL] just see if it exists.
    [parent] is the parent's DN and normalized DN, or None for both
    NULL. *)
Definition ldif_read_entry (fs : filesys) (path : berval)
    (parent : option (berval * berval)) (entryp_null : bool)
    : Z * option Entry :=
  let r := ldif_read_file (read_calls_of fs path) None entryp_null in
  if (rr_rc r =? LDAP_SUCCESS)%Z then
    if entryp_null then (LDAP_SUCCESS, None)
    else
      match str2entry (default [] (rr_data r)) with
      | None => (LDAP_OTHER, None)
      | Some entry =>
          match parent with
          | None => (LDAP_SUCCESS, Some entry)
          | Some ([], _) => (LDAP_SUCCESS, Some entry)
          | Some (pdn, pndn) =>
              (* Append parent DN to DN from LDIF file *)
              (LDAP_SUCCESS,
               Some {| e_name := build_new_dn pdn (e_name entry);
                       e_nname := build_new_dn pndn (e_nname entry);
                       e_attrs := e_attrs entry;
                       e_ocflags := e_ocflags entry |})
          end
      end
  else (rr_rc r, None).

(** The entry a file stores, as [ldif_read_entry] hands it over below a
    parent with a DN: the parent's DN appended to the stored one. *)
Definition entry_below (parent e0 : Entry) : Entry :=
  {| e_name := build_new_dn (e_name parent) (e_name e0);
     e_nname := build_new_dn (e_nname parent) (e_nname e0);
     e_attrs := e_attrs e0; e_ocflags := e_ocflags e0 |}.

(** Read the operation's entry; the entry filename is returned with it. *)
Definition get_entry (be : BackendDB) (fs : filesys) (op : Operation)
    (entryp_null : bool) : Z * option Entry * berval :=
  let pdn := dnParent (o_req_dn op) in
  let pndn := dnParent (o_req_ndn op) in
  let path := dn2path be (o_req_ndn op) in
  let '(rc, e) := ldif_read_entry fs path (Some (pdn, pndn)) entryp_null in
  (rc, e, path).

End WithSlapd.

(** ** The tree enumerator *)

(** The [struct berval] of a path in [r_enum_tree]: [pb_val] is the C
    string in the buffer, [pb_len] the recorded length. *)
Record pathbuf := {
  pb_val : berval;
  pb_len : nat
}.

Definition pathbuf_of (p : berval) : pathbuf :=
  {| pb_val := p; pb_len := length p |}.

Record bvlist := {
  bvl_bv : berval;           (* the [bv_len] bytes of bv.bv_val *)
  bvl_num : option berval;   (* num.bv_val, None when NULL *)
  bvl_inum : Z;
  bvl_off : nat
}.

(** [ber_bvchr]: position of the first [c] among the bytes of [s]. *)
Fixpoint ber_bvchr (s : berval) (c : ascii) : option nat :=
  match s with
  | [] => None
  | x :: t => if ch_eq x c then Some 0 else option_map S (ber_bvchr t c)
  end.

(** strtol(3) with base 0, reading a C string. *)
Definition isspace (c : ascii) : bool :=
  let n := N_of_ascii c in (n =? 32)%N || ((9 <=? n)%N && (n <=? 13)%N).

Definition digit_val (c : ascii) : option Z :=
  let n := Z.of_N (N_of_ascii c) in
  if ((48 <=? n) && (n <=? 57))%Z then Some (n - 48)%Z
  else if ((97 <=? n) && (n <=? 122))%Z then Some (n - 87)%Z
  else if ((65 <=? n) && (n <=? 90))%Z then Some (n - 55)%Z
  else None.

Definition is_digit_in (base : Z) (c : ascii) : bool :=
  match digit_val c with
  | Some d => (d <? base)%Z
  | None => false
  end.

Fixpoint strtol_digits (base : Z) (s : berval) (acc : Z) : Z :=
  match s with
  | [] => acc
  | c :: t =>
      match digit_val c with
      | Some d => if (d <? base)%Z then strtol_digits base t (acc * base + d)%Z
                  else acc
      | None => acc
      end
  end.

Fixpoint skip_space (s : berval) : berval :=
  match s with
  | c :: t => if isspace c then skip_space t else s
  | [] => []
  end.

Definition strtol0 (nptr : berval) : Z :=
  let s := skip_space (cstr nptr) in
  let '(neg, s) :=
    match s with
    | c :: t => if ch_eq c "-"%char then (true, t)
                else if ch_eq c "+"%char then (false, t)
                else (false, s)
    | [] => (false, s)
    end in
  let v :=
    match s with
    | z :: x :: h :: t =>
        if ch_eq z "0"%char then
          if (ch_eq x "x"%char || ch_eq x "X"%char) && is_digit_in 16 h
          then strtol_digits 16 (h :: t) 0
          else strtol_digits 8 s 0
        else strtol_digits 10 s 0
    | z :: _ =>
        if ch_eq z "0"%char then strtol_digits 8 s 0 else strtol_digits 10 s 0
    | [] => 0%Z
    end in
  let v := if neg then (- v)%Z else v in
  Z.max LONG_MIN (Z.min LONG_MAX v).

(** The list node made for a directory entry name: the "{num}" of an
    ordered RDN is split off and its first byte overwritten by NUL. *)
Definition bvlist_of (fname : berval) : bvlist :=
  let plain := {| bvl_bv := fname; bvl_num := None; bvl_inum := 0; bvl_off := 0 |} in
  match ber_bvchr fname IX_FSL with
  | None => plain
  | Some i =>
      let itmp := S i in
      match ber_bvchr (skipn itmp fname) IX_FSR with
      | None => plain
      | Some len =>
          {| bvl_bv := <[itmp := NUL]> fname;
             bvl_num := Some (slice fname itmp (itmp + len));
             bvl_inum := int_wrap (strtol0 (skipn itmp fname));
             bvl_off := itmp |}
      end
  end.

(** The insertion loop: [bvl] goes before the first node it compares
    less than. *)
Fixpoint bvlist_insert (bvl : bvlist) (lst : list bvlist) : list bvlist :=
  match lst with
  | [] => [bvl]
  | ptr :: rest =>
      let cmp := strcmp (cstr (bvl_bv bvl)) (cstr (bvl_bv ptr)) in
      let cmp := if (cmp =? 0)%Z && bool_decide (bvl_num bvl <> None)
                 then int_wrap (bvl_inum bvl - bvl_inum ptr) else cmp in
      if (cmp <? 0)%Z then bvl :: ptr :: rest
      else ptr :: bvlist_insert bvl rest
  end.

(** The readdir loop: names ending in ".ldif" (and longer than it) are
    inserted into the sorted list. *)
Fixpoint enum_readdir (names : list berval) (lst : list bvlist) : list bvlist :=
  match names with
  | [] => lst
  | d_name :: names' =>
      let fname := cstr d_name in
      if length fname <=? length LDIF then enum_readdir names' lst
      else if negb (strcmp (skipn (length fname - length LDIF) fname) LDIF =? 0)%Z
      then enum_readdir names' lst
      else enum_readdir names' (bvlist_insert (bvlist_of fname) lst)
  end.

(** [AC_MEMCPY( ptr->bv.bv_val + ptr->off, ptr->num.bv_val,
    ptr->num.bv_len )]. *)
Definition bvlist_restore (ptr : bvlist) : berval :=
  match bvl_num ptr with
  | Some num =>
      firstn (bvl_off ptr) (bvl_bv ptr) ++ num
        ++ skipn (bvl_off ptr + length num) (bvl_bv ptr)
  | None => bvl_bv ptr
  end.

(** The separator is stored at offset [base->bv_len]; it is part of the
    resulting C string only if the C string of [base] reaches there. *)
Definition fullpath (base : pathbuf) (name : berval) : pathbuf :=
  {| pb_val := if length (pb_val base) <? pb_len base then pb_val base
               else pb_val base ++ LDAP_DIRSEP :: cstr name;
     pb_len := length name + pb_len base + 1 |}.

(** [path->bv_len -= STRLENOF( LDIF ); path->bv_val[path->bv_len] = '\0';] *)
Definition ldif2dir (path : pathbuf) : pathbuf :=
  let len := pb_len path - length LDIF in
  {| pb_val := firstn len (pb_val path); pb_len := len |}.

Definition set_scope (op : Operation) (s : scope) : Operation :=
  {| o_req_dn := o_req_dn op; o_req_ndn := o_req_ndn op; ors_scope := s;
     ors_filter := ors_filter op; o_manageDSAit := o_manageDSAit op |}.

Definition ck_set_op (ck : enumCookie) (op : Operation) : enumCookie :=
  {| ck_op := op; ck_rs := ck_rs ck; ck_entries := ck_entries ck;
     ck_elen := ck_elen ck; ck_eind := ck_eind ck |}.

Definition ck_send (ck : enumCookie) (r : reply) : enumCookie :=
  {| ck_op := ck_op ck;
     ck_rs := option_map (fun rs => {| sr_sent := sr_sent rs ++ [r] |}) (ck_rs ck);
     ck_entries := ck_entries ck; ck_elen := ck_elen ck; ck_eind := ck_eind ck |}.

(** The cookie of a search that had sent [pre] before. *)
Definition ck_after (pre : list reply) (ck : enumCookie) : enumCookie :=
  {| ck_op := ck_op ck;
     ck_rs := option_map (fun rs => {| sr_sent := pre ++ sr_sent rs |}) (ck_rs ck);
     ck_entries := ck_entries ck; ck_elen := ck_elen ck; ck_eind := ck_eind ck |}.

(** Queueing up for tool mode. *)
Definition ck_queue (ck : enumCookie) (e : Entry) : enumCookie :=
  let '(entries, elen) :=
    match ck_entries ck with
    | None => (replicate (N.to_nat ENTRY_BUFF_INCREMENT) None, ENTRY_BUFF_INCREMENT)
    | Some entries => (entries, ck_elen ck)
    end in
  let '(entries, elen) :=
    if (elen <=? ck_eind ck)%N  (* grow entries if necessary *)
    then (entries ++ replicate (N.to_nat elen) None, (elen * 2)%N)
    else (entries, elen) in
  {| ck_op := ck_op ck; ck_rs := ck_rs ck;
     ck_entries := Some (<[N.to_nat (ck_eind ck) := Some e]> entries);
     ck_elen := elen; ck_eind := (ck_eind ck + 1)%N |}.

(** The loop over the sorted children; [recurse] is [r_enum_tree] on a
    child. *)
Definition enum_children
    (recurse : enumCookie -> pathbuf -> option (Z * enumCookie))
    (path : pathbuf)
    : list bvlist -> Z -> enumCookie -> option (Z * enumCookie) :=
  fix go (lst : list bvlist) (rc : Z) (ck : enumCookie) :=
    match lst with
    | [] => Some (rc, ck)
    | ptr :: lst' =>
        if (rc =? LDAP_SUCCESS)%Z then
          match recurse ck (fullpath path (bvlist_restore ptr)) with
          | Some (rc', ck') => go lst' rc' ck'
          | None => None
          end
        else go lst' rc ck
    end.

Section Operations.
Context `{!Slapd}.

(** What the first half of [r_enum_tree] leaves for the second: a
    return, or the entry read (if any) and the return code so far. *)
Inductive enum_self :=
  | SelfReturn (rc : Z) (ck : enumCookie)
  | SelfDone (e : option Entry) (ck : enumCookie).

Definition enum_self_entry (fs : filesys) (ck : enumCookie) (path : pathbuf)
    (base : bool) (pdn pndn : berval) : enum_self :=
  if base then SelfDone None ck
  else
    match ldif_read_entry fs (cstr (pb_val path)) (Some (pdn, pndn)) false with
    | (rc, None) => SelfReturn LDAP_NO_SUCH_OBJECT ck  (* rc is not success *)
    | (rc, Some e) =>
        if negb (rc =? LDAP_SUCCESS)%Z then SelfReturn LDAP_NO_SUCH_OBJECT ck
        else
          let sc := ors_scope (ck_op ck) in
          if bool_decide (sc = LDAP_SCOPE_BASE) || bool_decide (sc = LDAP_SCOPE_SUBTREE)
          then
            match ck_rs ck with
            | Some rs =>
                (* Send right away *)
                let '(rc, ck') :=
                  if negb (o_manageDSAit (ck_op ck))
                     && negb (bool_decide (sc = LDAP_SCOPE_BASE))
                     && is_entry_referral e
                  then (send_search_reference (sr_sent rs) e,
                        ck_send ck (SearchReference e))
                  else if ors_filter (ck_op ck) e
                  then (send_search_entry (sr_sent rs) e,
                        ck_send ck (SearchEntry e))
                  else (LDAP_SUCCESS, ck) in
                if negb (rc =? 0)%Z then SelfReturn rc ck'
                else SelfDone (Some e) ck'
            | None =>
                (* Queueing up for tool mode *)
                SelfDone (Some e) (ck_queue ck e)
            end
          else SelfDone (Some e) ck
    end.

(** [r_enum_tree]; [fuel] bounds the depth of the recursion, None is
    "out of fuel". *)
Fixpoint r_enum_tree (fuel : nat) (fs : filesys) (ck : enumCookie)
    (path : pathbuf) (base : bool) (pdn pndn : berval)
    : option (Z * enumCookie) :=
  match fuel with
  | 0 => None
  | S fuel' =>
      match enum_self_entry fs ck path base pdn pndn with
      | SelfReturn rc ck' => Some (rc, ck')
      | SelfDone e ck1 =>
          if negb (bool_decide (ors_scope (ck_op ck1) = LDAP_SCOPE_BASE)) then
            let path' := ldif2dir path in
            match sys_readdir fs (cstr (pb_val path')) with
            | Err en =>
                (* can't open directory: not an error only if the
                   directory doesn't exist *)
                Some (if negb (bool_decide (en = ENOENT)) then LDAP_BUSY
                      else LDAP_SUCCESS, ck1)
            | Ok names =>
                let lst := enum_readdir names [] in
                let sc := ors_scope (ck_op ck1) in
                let ck2 :=
                  if bool_decide (sc = LDAP_SCOPE_ONELEVEL)
                  then ck_set_op ck1 (set_scope (ck_op ck1) LDAP_SCOPE_BASE)
                  else if bool_decide (sc = LDAP_SCOPE_SUBORDINATE)
                  then ck_set_op ck1 (set_scope (ck_op ck1) LDAP_SCOPE_SUBTREE)
                  else ck1 in
                let cpdn := match e with Some e => e_name e | None => pdn end in
                let cpndn := match e with Some e => e_nname e | None => pndn end in
                enum_children
                  (fun ck p => r_enum_tree fuel' fs ck p false cpdn cpndn)
                  path' lst LDAP_SUCCESS ck2
            end
          else Some (LDAP_SUCCESS, ck1)
      end
  end.

Definition enum_tree (fuel : nat) (be : BackendDB) (fs : filesys)
    (ck : enumCookie) : option (Z * enumCookie) :=
  let pdn := dnParent (o_req_dn (ck_op ck)) in
  let pndn := dnParent (o_req_ndn (ck_op ck)) in
  let path := pathbuf_of (dn2path be (o_req_ndn (ck_op ck))) in
  r_enum_tree fuel fs ck path
    (if length (o_req_ndn (ck_op ck)) =? 0 then true else false) pdn pndn.

(** [ldif_back_search]: the result code ([rs->sr_err]) and what was sent
    before the final result. *)
Definition ldif_back_search (fuel : nat) (be : BackendDB) (fs : filesys)
    (op : Operation) : option (Z * list reply) :=
  let ck := {| ck_op := op; ck_rs := Some {| sr_sent := [] |};
               ck_entries := None; ck_elen := 0%N; ck_eind := 0%N |} in
  match enum_tree fuel be fs ck with
  | Some (rc, ck') => Some (rc, match ck_rs ck' with
                                | Some rs => sr_sent rs
                                | None => []
                                end)
  | None => None
  end.

(** ** Bind *)

Inductive rootdn_bind :=
  | SLAP_CB_CONTINUE
  | rootdn_settled (sr_err : Z).

Record bind_result := {
  bind_return : Z;             (* the value returned *)
  bind_sr_err : option Z;      (* rs->sr_err, None when left as it was *)
  bind_result_sent : bool      (* send_ldap_result was called *)
}.

Definition ldif_back_bind (be : BackendDB) (fs : filesys) (op : Operation)
    (rootdn : rootdn_bind) (rb_cred : berval) : bind_result :=
  match rootdn with
  | rootdn_settled err =>
      (* in case of success, front end will send result;
         otherwise, be_rootdn_bind() did *)
      {| bind_return := err; bind_sr_err := Some err; bind_result_sent := false |}
  | SLAP_CB_CONTINUE =>
      let password := slap_schema_si_ad_userPassword in
      match get_entry be fs op false with
      | (_, None, _) =>
          (* no object is found for them: return_val is not success *)
          {| bind_return := LDAP_INVALID_CREDENTIALS;
             bind_sr_err := Some LDAP_INVALID_CREDENTIALS;
             bind_result_sent := true |}
      | (return_val, Some entry, _) =>
          if negb (return_val =? LDAP_SUCCESS)%Z then
            {| bind_return := LDAP_INVALID_CREDENTIALS;
               bind_sr_err := Some LDAP_INVALID_CREDENTIALS;
               bind_result_sent := true |}
          else
            match attr_find (e_attrs entry) password with
            | None =>
                (* they don't have userpassword *)
                {| bind_return := 1;
                   bind_sr_err := Some LDAP_INAPPROPRIATE_AUTH;
                   bind_result_sent := true |}
            | Some a =>
                if negb (slap_passwd_check entry a rb_cred =? 0)%Z then
                  (* authentication actually failed *)
                  {| bind_return := 1;
                     bind_sr_err := Some LDAP_INVALID_CREDENTIALS;
                     bind_result_sent := true |}
                else
                  (* let the front-end send success *)
                  {| bind_return := 0; bind_sr_err := None;
                     bind_result_sent := false |}
            end
      end
  end.

(** ** Add and delete *)

(** Get the parent directory path: the path up to its last separator
    (the whole loop runs [i] from [dnpathlen] down to 1). *)
Fixpoint get_parent_path_scan (dnpath : berval) (i : nat) : nat :=
  match i with
  | 0 => 0
  | S j => if ch_eq (nth i dnpath NUL) LDAP_DIRSEP then i
           else get_parent_path_scan dnpath j
  end.

Definition get_parent_path (dnpath : berval) : berval :=
  firstn (get_parent_path_scan dnpath (length dnpath)) dnpath.

Record add_calls := {
  ac_schema_check : Z;             (* entry_schema_check *)
  ac_add_opattrs : Z;              (* slap_add_opattrs *)
  ac_stat_base : option fault;     (* stat of the container *)
  ac_stat_parent : option fault;   (* stat of the container's entry file *)
  ac_mkdir : option fault;
  ac_stat_leaf : option fault;
  ac_write : write_calls
}.

(** "container was possibly created, move on to add the entry" *)
Definition ldif_back_add_leaf (env : add_calls) (fs : filesys) (e : Entry)
    (leaf_path : berval) : Z * filesys :=
  match sys_stat (ac_stat_leaf env) fs leaf_path with
  | Err en =>
      if bool_decide (en = ENOENT)
      then ldif_write_entry (ac_write env) fs e leaf_path
      else (LDAP_UNWILLING_TO_PERFORM, fs)
  | Ok _ => (LDAP_ALREADY_EXISTS, fs)   (* it already exists *)
  end.

(** [ldif_back_add]: [rs->sr_err] and the file system it leaves. *)
Definition ldif_back_add (env : add_calls) (be : BackendDB) (fs : filesys)
    (e : Entry) : Z * filesys :=
  let dn := e_nname e in
  if negb (ac_schema_check env =? LDAP_SUCCESS)%Z then (ac_schema_check env, fs)
  else if negb (ac_add_opattrs env =? LDAP_SUCCESS)%Z then (ac_add_opattrs env, fs)
  else
    let leaf_path := dn2path be dn in
    (* build path to container and ldif of container *)
    let base := get_parent_path leaf_path in
    let '(sr_err, fs1) :=
      match sys_stat (ac_stat_base env) fs base with
      | Err ENOENT =>
          (* container missing *)
          match sys_stat (ac_stat_parent env) fs (base ++ LDIF) with
          | Err ENOENT => (LDAP_NO_SUCH_OBJECT, fs)   (* parent doesn't exist *)
          | Ok _ =>
              (* create parent *)
              match sys_mkdir (ac_mkdir env) fs base 488 (* 0750 *) with
              | (Err _, fs1) => (LDAP_UNWILLING_TO_PERFORM, fs1)
              | (Ok _, fs1) => (LDAP_SUCCESS, fs1)
              end
          | Err _ => (LDAP_UNWILLING_TO_PERFORM, fs)
          end
      | _ => (LDAP_SUCCESS, fs)
      end in
    if (sr_err =? LDAP_SUCCESS)%Z
    then ldif_back_add_leaf env fs1 e leaf_path
    else (sr_err, fs1).

Record delete_calls := {
  dc_rmdir : option fault;
  dc_unlink : option fault
}.

(** [ldif_back_delete]: [rs->sr_err] and the file system it leaves. *)
Definition ldif_back_delete (env : delete_calls) (be : BackendDB)
    (fs : filesys) (op : Operation) : Z * filesys :=
  let path := dn2path be (o_req_ndn op) in
  let dir := firstn (length path - length LDIF) path in   (* ldif2dir_len/name *)
  let '(rc, fs1) :=
    match sys_rmdir (dc_rmdir env) fs dir with
    | (Ok _, fs1) => (LDAP_SUCCESS, fs1)
    | (Err ENOTEMPTY, fs1) => (LDAP_NOT_ALLOWED_ON_NONLEAF, fs1)
    | (Err ENOENT, fs1) => (LDAP_SUCCESS, fs1)    (* is leaf, go on *)
    | (Err _, fs1) => (LDAP_OTHER, fs1)
    end in
  if (rc =? LDAP_SUCCESS)%Z then
    (* dir2ldif_name *)
    match sys_unlink (dc_unlink env) fs1 path with
    | (Ok _, fs2) => (rc, fs2)
    | (Err en, fs2) =>
        (if negb (bool_decide (en = ENOENT)) then LDAP_OTHER
         else LDAP_NO_SUCH_OBJECT, fs2)
    end
  else (rc, fs1).

(** ** Slap tools *)

Definition li_set_current (li : ldif_info) (cur : ID) : ldif_info :=
  {| li_base_path := li_base_path li; li_tool_cookie := li_tool_cookie li;
     li_tool_current := cur |}.

Definition li_set_cookie (li : ldif_info) (ck : enumCookie) : ldif_info :=
  {| li_base_path := li_base_path li; li_tool_cookie := ck;
     li_tool_current := li_tool_current li |}.

Definition ldif_tool_entry_open (li : ldif_info) : Z * ldif_info :=
  (0%Z, li_set_current li 0%N).

Definition ldif_tool_entry_next (li : ldif_info) : ID * ldif_info :=
  if (ck_eind (li_tool_cookie li) <=? li_tool_current li)%N then (NOID, li)
  else ((li_tool_current li + 1)%N, li_set_current li (li_tool_current li + 1)%N).

Definition ldif_tool_entry_get (li : ldif_info) (id : ID)
    : option Entry * ldif_info :=
  let ck := li_tool_cookie li in
  if (ck_eind ck <? id)%N || (id <? 1)%N then (None, li)
  else
    match ck_entries ck with
    | None => (None, li)   (* not reached: eind is 0 while entries is NULL *)
    | Some entries =>
        let i := N.to_nat (id - 1) in
        let e := mjoin (entries !! i) in
        (e, li_set_cookie li
              {| ck_op := ck_op ck; ck_rs := ck_rs ck;
                 ck_entries := Some (<[i := None]> entries);
                 ck_elen := ck_elen ck; ck_eind := ck_eind ck |})
    end.

End Operations.

(** ** The configuration of the specification's scenarios

    Suffix [dc=example,dc=com], [directory=/var/data]. *)

Definition example_op (dn : berval) (s : scope) : Operation :=
  {| o_req_dn := dn; o_req_ndn := dn; ors_scope := s;
     ors_filter := fun _ => true; o_manageDSAit := false |}.

Definition example_li : ldif_info :=
  {| li_base_path := bv "/var/data";
     li_tool_cookie := {| ck_op := example_op [] LDAP_SCOPE_SUBTREE;
                          ck_rs := None; ck_entries := None;
                          ck_elen := 0%N; ck_eind := 0%N |};
     li_tool_current := 0%N |}.

Definition example_be : BackendDB :=
  {| be_private := example_li;
     be_suffix := bv "dc=example,dc=com";
     be_nsuffix := bv "dc=example,dc=com" |}.

(** Stand-ins for the collaborators in the scenarios: an entry file holds
    the DN, and after a newline the userPassword value if there is one;
    sending always succeeds and no entry is a referral. *)

Definition NEWLINE : ascii := "010"%char.

Fixpoint until_char (c : ascii) (s : berval) : berval :=
  match s with
  | [] => []
  | x :: t => if ch_eq x c then [] else x :: until_char c t
  end.

Fixpoint after_char (c : ascii) (s : berval) : option berval :=
  match s with
  | [] => None
  | x :: t => if ch_eq x c then Some t else after_char c t
  end.

Definition example_str2entry (data : berval) : option Entry :=
  Some {| e_name := until_char NEWLINE data;
          e_nname := until_char NEWLINE data;
          e_attrs := match after_char NEWLINE data with
                     | Some pw => [ {| a_desc := slap_schema_si_ad_userPassword;
                                       a_vals := [pw] |} ]
                     | None => []
                     end;
          e_ocflags := 0 |}.

Definition example_entry2str (e : Entry) : option berval :=
  Some (e_name e ++
        match attr_find (e_attrs e) slap_schema_si_ad_userPassword with
        | Some a => NEWLINE :: concat (a_vals a)
        | None => []
        end).

Definition example_slapd : Slapd := {|
  dnRdn := until_char ","%char;
  dnParent := fun dn => default [] (after_char ","%char dn);
  entry2str := example_entry2str;
  str2entry := example_str2entry;
  is_entry_referral := fun _ => false;
  send_search_entry := fun _ _ => LDAP_SUCCESS;
  send_search_reference := fun _ _ => LDAP_SUCCESS;
  slap_passwd_check := fun _ a cred =>
    if existsb (bv_eqb cred) (a_vals a) then 0%Z else 1%Z
|}.

(** The directory of the scenarios: the suffix entry, its subtree
    directory, and two children, one of them with a password. *)
Definition example_fs : filesys :=
  list_to_map
    [ (bv "/var/data", IDir 488 [bv "dc=example,dc=com.ldif"; bv "dc=example,dc=com"]);
      (bv "/var/data/dc=example,dc=com.ldif", IFile (bv "dc=example"));
      (bv "/var/data/dc=example,dc=com", IDir 488 [bv "cn=bob.ldif"; bv "cn=alice.ldif"]);
      (bv "/var/data/dc=example,dc=com/cn=alice.ldif",
         IFile (bv "cn=alice" ++ NEWLINE :: bv "secret"));
      (bv "/var/data/dc=example,dc=com/cn=bob.ldif", IFile (bv "cn=bob")) ].

(** A tool cookie after an enumeration that found one entry. *)
Definition tool_li_example : ldif_info :=
  {| li_base_path := bv "/var/data";
     li_tool_cookie :=
       {| ck_op := example_op [] LDAP_SCOPE_SUBTREE; ck_rs := None;
          ck_entries := Some [Some {| e_name := bv "dc=example,dc=com";
                                      e_nname := bv "dc=example,dc=com";
                                      e_attrs := []; e_ocflags := 0 |};
                              None; None];
          ck_elen := 3%N; ck_eind := 1%N |};
     li_tool_current := 0%N |}.

(** ** Predicates used in the statements *)

(** The shape of what [dn2path] writes for a byte, as a check that can
    be run on every byte. *)
Definition char_shape (c : ascii) : bool :=
  if LDIF_NEED_ESCAPE c then
    bv_eqb (dn2path_char c) [LDIF_ESCAPE_CHAR; hex_hi c; hex_lo c]
    && negb (ch_eq (hex_hi c) LDIF_ESCAPE_CHAR)
    && negb (ch_eq (hex_lo c) LDIF_ESCAPE_CHAR)
    && negb (LDIF_NEED_ESCAPE (hex_hi c))
    && negb (LDIF_NEED_ESCAPE (hex_lo c))
    && escapes_as (hex_hi c) (hex_lo c)
  else bv_eqb (dn2path_char c) [c].

Definition sepfree (c : berval) : Prop :=
  Forall (fun x => DN_SEPARATOR x = false) c.

(** A DN prefix that is not empty and does not start with a separator. *)
Definition proper (X : berval) : Prop :=
  match X with
  | [] => False
  | c :: _ => DN_SEPARATOR c = false
  end.

(** A path that does not name a directory. *)
Definition not_dir (o : option inode) : Prop :=
  forall m ns, o <> Some (IDir m ns).

(** ** Scenario: adding [cn=carol] below [cn=bob] *)

Definition example_write_calls : write_calls :=
  {| wc_tempname := true; wc_seed := 7; wc_mkstemp := None;
     wc_write := [W_wrote 2; W_err EINTR]; wc_close := None; wc_move := None |}.

Definition example_add_calls : add_calls :=
  {| ac_schema_check := LDAP_SUCCESS; ac_add_opattrs := LDAP_SUCCESS;
     ac_stat_base := None; ac_stat_parent := None; ac_mkdir := None;
     ac_stat_leaf := None; ac_write := example_write_calls |}.

Definition example_carol : Entry :=
  {| e_name := bv "cn=carol,cn=bob,dc=example,dc=com";
     e_nname := bv "cn=carol,cn=bob,dc=example,dc=com";
     e_attrs := []; e_ocflags := 0 |}.

(** ** Scenario: three ordered siblings under [cn=config] *)

Definition ordered_be : BackendDB :=
  {| be_private := {| li_base_path := bv "/etc/slapd.d";
                      li_tool_cookie := li_tool_cookie example_li;
                      li_tool_current := 0%N |};
     be_suffix := bv "cn=config";
     be_nsuffix := bv "cn=config" |}.

Definition ordered_fs : filesys :=
  list_to_map
    [ (bv "/etc/slapd.d", IDir 488 [bv "cn=config.ldif"; bv "cn=config"]);
      (bv "/etc/slapd.d/cn=config.ldif", IFile (bv "cn=config"));
      (bv "/etc/slapd.d/cn=config",
         IDir 488 [bv "{10}x.ldif"; bv "{0}x.ldif"; bv "{2}x.ldif"]);
      (bv "/etc/slapd.d/cn=config/{0}x.ldif", IFile (bv "{0}x"));
      (bv "/etc/slapd.d/cn=config/{10}x.ldif", IFile (bv "{10}x"));
      (bv "/etc/slapd.d/cn=config/{2}x.ldif", IFile (bv "{2}x")) ].

(** The same directory with indices that are not plain decimal numbers:
    one with a leading zero, one beyond the range of [int]. *)
Definition octal_fs : filesys :=
  list_to_map
    [ (bv "/etc/slapd.d", IDir 488 [bv "cn=config.ldif"; bv "cn=config"]);
      (bv "/etc/slapd.d/cn=config.ldif", IFile (bv "cn=config"));
      (bv "/etc/slapd.d/cn=config",
         IDir 488 [bv "{9}x.ldif"; bv "{010}x.ldif"; bv "{3000000000}x.ldif"]);
      (bv "/etc/slapd.d/cn=config/{9}x.ldif", IFile (bv "{9}x"));
      (bv "/etc/slapd.d/cn=config/{010}x.ldif", IFile (bv "{010}x"));
      (bv "/etc/slapd.d/cn=config/{3000000000}x.ldif", IFile (bv "{3000000000}x")) ].

(** The entry read from the file [n] of that directory. *)
Definition ordered_child (n : berval) : Entry :=
  let dn := firstn (length n - length LDIF) n ++ bv ",cn=config" in
  {| e_name := dn; e_nname := dn; e_attrs := []; e_ocflags := 0 |}.

(** ** Further parts of ldif.c *)

(** The room [dn2path] allocates: "Room for dir, dirsep, dn, LDIF,
    "\hexpair"-escaping of unsafe chars". *)
Definition dn2path_len (be : BackendDB) (dn : berval) : nat :=
  fold_left (fun len ch => if LDIF_NEED_ESCAPE ch then len + 2 else len) dn
    (length (li_base_path (be_private be)) + length dn + (1 + length LDIF)).

(** The number of bytes of [s] that are hex-escaped. *)
Definition escapes (s : berval) : nat := length (List.filter LDIF_NEED_ESCAPE s).

(** A directory entry name the enumerator keeps: longer than ".ldif"
    and ending in it. *)
Definition ends_ldif (fname : berval) : bool :=
  (length LDIF <? length fname)
  && bv_eqb (skipn (length fname - length LDIF) fname) LDIF.

(** The first '{' of the name is directly followed by '}'. *)
Definition empty_braces (fname : berval) : bool :=
  match ber_bvchr fname IX_FSL with
  | Some i => ch_eq (nth (S i) fname NUL) IX_FSR
  | None => false
  end.

(** ** Ordered RDNs as the directory writes them

    The index of an ordered RDN is a number in decimal, "{0}", "{10}":
    digits with no leading zero.  [decimal_value] is the number the
    digits stand for. *)

Definition is_decimal_digit (c : ascii) : bool :=
  ((48 <=? code c) && (code c <=? 57))%Z.

Definition decimal_value (ds : berval) : Z :=
  fold_left (fun acc c => (acc * 10 + (code c - 48))%Z) ds 0%Z.

Definition plain_index (ds : berval) : bool :=
  forallb is_decimal_digit ds
  && match ds with
     | [] => false
     | [_] => true
     | c :: _ => negb (ch_eq c "0"%char)
     end.

(** The entry file of an ordered sibling: [key], the index [ds] in
    braces, the rest of the RDN and ".ldif". *)
Definition ordered_fname (key : berval) (s : berval * berval) : berval :=
  key ++ IX_FSL :: fst s ++ IX_FSR :: snd s ++ LDIF.

(** The order the insertion loop keeps: by the C string of the node (the
    name, or what comes before the index of an ordered name), then by the
    number. *)
Definition bvl_key (b : bvlist) : berval := cstr (bvl_bv b).

Definition bvl_le (a b : bvlist) : Prop :=
  (strcmp (bvl_key a) (bvl_key b) < 0)%Z \/
  (strcmp (bvl_key a) (bvl_key b) = 0%Z /\ (bvl_inum a <= bvl_inum b)%Z).

(** A node as [bvlist_of] makes it of the name of an entry file: the key
    of a plain name ends in the 'f' of ".ldif" and its number is left 0,
    the key of an ordered name ends in the brace; and the number is far
    from the limits of [int]. *)
Definition bvl_wf (b : bvlist) : Prop :=
  (- 2 ^ 30 <= bvl_inum b < 2 ^ 30)%Z /\
  match bvl_num b with
  | None => bvl_inum b = 0%Z /\ List.last (bvl_key b) NUL = "f"%char
  | Some _ => List.last (bvl_key b) NUL = IX_FSL
  end.

(** Ordered siblings of one attribute: the node's C string is [key] (the
    name up to and including its '{'), it has a number, and the number
    is far from the limits of [int]. *)
Definition ordered_sibling (key : berval) (b : bvlist) : Prop :=
  cstr (bvl_bv b) = key /\ bvl_num b <> None /\
  (- 2 ^ 30 <= bvl_inum b < 2 ^ 30)%Z.

(** The ids [n] successive calls of [ldif_tool_entry_next] return. *)
Fixpoint tool_scan (n : nat) (li : ldif_info) : list ID :=
  match n with
  | 0 => []
  | S n' => let '(id, li') := ldif_tool_entry_next li in id :: tool_scan n' li'
  end.

(** The buffer of a cookie is consistent: no buffer and no entry yet, or
    [elen] slots (at least one) of which the first [eind] are in use. *)
Definition cookie_ok (ck : enumCookie) : Prop :=
  match ck_entries ck with
  | None => ck_eind ck = 0%N
  | Some entries =>
      length entries = N.to_nat (ck_elen ck) /\
      (ck_eind ck <= ck_elen ck)%N /\ (0 < ck_elen ck)%N
  end.

(** The entries queued so far. *)
Definition ck_buffered (ck : enumCookie) : list (option Entry) :=
  firstn (N.to_nat (ck_eind ck)) (default [] (ck_entries ck)).

(** The bytes a read(2) outcome hands over. *)
Definition read_chunk (r : result berval) : berval :=
  match r with
  | Ok chunk => chunk
  | Err _ => []
  end.

(** A read(2) outcome after which the loop of [ldif_read_file] goes on:
    some bytes, or an interrupted call. *)
Definition read_goes_on (r : result berval) : bool :=
  match r with
  | Ok chunk => negb (length chunk =? 0)
  | Err e => bool_decide (e = EINTR)
  end.

(** A write(2) outcome that makes [spew_file] give up. *)
Definition hard_error (w : write_outcome) : bool :=
  match w with
  | W_err e => negb (bool_decide (e = EINTR))
  | W_wrote _ => false
  end.

(** ** Further operations of the back end *)

Definition LDAP_NO_SUCH_ATTRIBUTE : Z := 16.

Definition reply_entry (r : reply) : Entry :=
  match r with
  | SearchEntry e => e
  | SearchReference e => e
  end.

Section MoreOperations.
Context `{!Slapd}.

(** [ldif_back_entry_get]: the entry of [ndn], read with the operation's
    DN set to [ndn] for the call.  [oc] is the test
    [is_entry_objectclass_or_sub( *e, oc )], None when [oc] is NULL.
    The entry is None where [*e] is NULL or left as the caller had it. *)
Definition ldif_back_entry_get (be : BackendDB) (fs : filesys) (op : Operation)
    (ndn : berval) (oc : option (Entry -> bool)) : Z * option Entry :=
  let op' := {| o_req_dn := ndn; o_req_ndn := ndn; ors_scope := ors_scope op;
                ors_filter := ors_filter op;
                o_manageDSAit := o_manageDSAit op |} in
  let '(rc, e, _) := get_entry be fs op' false in
  if (rc =? LDAP_SUCCESS)%Z
     && match oc, e with
        | Some is_entry_objectclass_or_sub, Some entry =>
            negb (is_entry_objectclass_or_sub entry)
        | _, _ => false
        end
  then (LDAP_NO_SUCH_ATTRIBUTE, None)
  else (rc, e).

(** [ldif_tool_entry_put]: the ID returned, [res], and the file system
    it leaves.  The outcomes of the calls are those of [add_calls]; no
    schema check is made here, so its two fields for them are not
    read. *)
Definition ldif_tool_entry_put (env : add_calls) (be : BackendDB) (fs : filesys)
    (e : Entry) : ID * Z * filesys :=
  let leaf_path := dn2path be (e_nname e) in
  (* build path to container, and path to ldif of container *)
  let base := get_parent_path leaf_path in
  let '(res, fs1) :=
    match sys_stat (ac_stat_base env) fs base with
    | Err ENOENT =>
        (* container missing *)
        match sys_stat (ac_stat_parent env) fs (base ++ LDIF) with
        | Err ENOENT => (LDAP_NO_SUCH_OBJECT, fs)   (* parent doesn't exist *)
        | Ok _ =>
            (* create parent *)
            match sys_mkdir (ac_mkdir env) fs base 488 (* 0750 *) with
            | (Err _, fs1) => (LDAP_UNWILLING_TO_PERFORM, fs1)
            | (Ok _, fs1) => (LDAP_SUCCESS, fs1)
            end
        | Err _ => (LDAP_UNWILLING_TO_PERFORM, fs)
        end
    | _ => (LDAP_SUCCESS, fs)
    end in
  (* container was possibly created, move on to add the entry *)
  let '(res, fs2) :=
    if (res =? LDAP_SUCCESS)%Z then
      match sys_stat (ac_stat_leaf env) fs1 leaf_path with
      | Err en =>
          if bool_decide (en = ENOENT)
          then ldif_write_entry (ac_write env) fs1 e leaf_path
          else (LDAP_ALREADY_EXISTS, fs1)
      | Ok _ => (LDAP_ALREADY_EXISTS, fs1)   (* it already exists *)
      end
    else (res, fs1) in
  (if (res =? LDAP_SUCCESS)%Z then 1%N else NOID, res, fs2).

(** [ldif_tool_entry_first]: the tree is enumerated once, into the tool
    cookie, by a subtree search from the suffix.  The cookie's [op] is
    only read by the enumeration, which this function sets it for; it is
    left set here where the source resets the pointer.  None is "out of
    fuel". *)
Definition ldif_tool_entry_first (fuel : nat) (be : BackendDB) (fs : filesys)
    : option (ID * ldif_info) :=
  let li := be_private be in
  match ck_entries (li_tool_cookie li) with
  | None =>
      let op := {| o_req_dn := be_suffix be; o_req_ndn := be_nsuffix be;
                   ors_scope := LDAP_SCOPE_SUBTREE;
                   ors_filter := fun _ => false;   (* NULL: not consulted *)
                   o_manageDSAit := false |} in
      match enum_tree fuel be fs (ck_set_op (li_tool_cookie li) op) with
      | Some (_, ck) => Some (ldif_tool_entry_next (li_set_cookie li ck))
      | None => None
      end
  | Some _ => Some (ldif_tool_entry_next li)
  end.

End MoreOperations.

(** The tool's cookie [ckt] has buffered, after [pre], the entries that
    a search with the cookie [cks] has sent; the search's filter lets
    every entry pass. *)
Definition buffers_what_is_sent (pre : list (option Entry))
    (cks ckt : enumCookie) : Prop :=
  ors_scope (ck_op cks) = ors_scope (ck_op ckt) /\
  (forall e, ors_filter (ck_op cks) e = true) /\
  ck_rs ckt = None /\ cookie_ok ckt /\
  exists rs, ck_rs cks = Some rs /\
    ck_buffered ckt = pre ++ map (fun r => Some (reply_entry r)) (sr_sent rs).

Section Sending.
Context `{!Slapd}.

(** What the sender answered for the reply [r], sent after [sent]. *)
Definition send_result (sent : list reply) (r : reply) : Z :=
  match r with
  | SearchEntry e => send_search_entry sent e
  | SearchReference e => send_search_reference sent e
  end.

(** Every reply of [more], sent in this order after [sent], was
    accepted. *)
Fixpoint all_accepted (sent more : list reply) : bool :=
  match more with
  | [] => true
  | r :: more' => (send_result sent r =? 0)%Z && all_accepted (sent ++ [r]) more'
  end.

(** The replies [more] sent after [sent], with the result [rc] in the
    end: all were accepted, or all but the last, and the result is what
    the sender answered on the last. *)
Definition stops_when_refused (sent more : list reply) (rc : Z) : Prop :=
  all_accepted sent more = true \/
  exists before r,
    more = before ++ [r] /\ all_accepted sent before = true /\
    send_result (sent ++ before) r = rc /\ rc <> 0%Z.

End Sending.

Definition LDAP_SIZELIMIT_EXCEEDED : Z := 4.

(** The stand-ins of the scenarios with a sender that accepts [limit]
    entries and refuses what comes after. *)
Definition sizelimit_slapd (limit : nat) : Slapd := {|
  dnRdn := until_char ","%char;
  dnParent := fun dn => default [] (after_char ","%char dn);
  entry2str := example_entry2str;
  str2entry := example_str2entry;
  is_entry_referral := fun _ => false;
  send_search_entry := fun sent _ =>
    if length sent <? limit then LDAP_SUCCESS else LDAP_SIZELIMIT_EXCEEDED;
  send_search_reference := fun _ _ => LDAP_SUCCESS;
  slap_passwd_check := fun _ a cred =>
    if existsb (bv_eqb cred) (a_vals a) then 0%Z else 1%Z
|}.

(** ** Modify *)

(** [sm_op]: the five operations [apply_modify_to_entry] has a case
    for, and any other value. *)
Inductive mod_op :=
  | LDAP_MOD_ADD | LDAP_MOD_DELETE | LDAP_MOD_REPLACE | LDAP_MOD_INCREMENT
  | SLAP_MOD_SOFTADD
  | MOD_other.

Record Modification := {
  sm_op : mod_op;
  sm_desc : berval;
  sm_values : list berval
}.

Definition LDAP_TYPE_OR_VALUE_EXISTS : Z := 20.
Definition LDAP_INSUFFICIENT_ACCESS : Z := 50.

Definition slap_schema_si_ad_objectClass : berval := bv "objectClass".

(** The collaborators of modify and rename: access control, the value
    operations of mods.c (which change the entry in place and return a
    result code), the schema check, what [slap_mods_opattrs] leaves
    reachable from the first modification of a list that is not empty,
    and the DN normalizer. *)
Class SlapdModify := {
  acl_check_modlist : Entry -> list Modification -> bool;
  modify_add_values : Entry -> Modification -> Z * Entry;
  modify_delete_values : Entry -> Modification -> Z * Entry;
  modify_replace_values : Entry -> Modification -> Z * Entry;
  modify_increment_values : Entry -> Modification -> Z * Entry;
  entry_schema_check : Entry -> Z;
  slap_mods_opattrs : list Modification -> list Modification;
  dnNormalize : berval -> berval
}.

Definition with_op (mods : Modification) (o : mod_op) : Modification :=
  {| sm_op := o; sm_desc := sm_desc mods; sm_values := sm_values mods |}.

Definition with_ocflags (e : Entry) (flags : Z) : Entry :=
  {| e_name := e_name e; e_nname := e_nname e; e_attrs := e_attrs e;
     e_ocflags := flags |}.

Section Modify.
Context `{!Slapd} `{!SlapdModify}.

(** One turn of the loop of [apply_modify_to_entry]: the switch on
    [sm_op], which has no default case. *)
Definition apply_modification (rc : Z) (entry : Entry) (mods : Modification)
    : Z * Entry :=
  match sm_op mods with
  | LDAP_MOD_ADD => modify_add_values entry mods
  | LDAP_MOD_DELETE => modify_delete_values entry mods
  | LDAP_MOD_REPLACE => modify_replace_values entry mods
  | LDAP_MOD_INCREMENT => modify_increment_values entry mods
  | SLAP_MOD_SOFTADD =>
      let '(rc, entry) := modify_add_values entry (with_op mods LDAP_MOD_ADD) in
      (if (rc =? LDAP_TYPE_OR_VALUE_EXISTS)%Z then LDAP_SUCCESS else rc, entry)
  | MOD_other => (rc, entry)
  end.

(** The loop: [rc], the entry and [is_oc] after the modifications. *)
Fixpoint apply_modify_loop (modlist : list Modification) (rc : Z)
    (entry : Entry) (is_oc : bool) : Z * Entry * bool :=
  match modlist with
  | [] => (rc, entry, is_oc)
  | mods :: modlist' =>
      let is_oc :=
        if bv_eqb (sm_desc mods) slap_schema_si_ad_objectClass then true
        else is_oc in
      let '(rc, entry) := apply_modification rc entry mods in
      if negb (rc =? LDAP_SUCCESS)%Z then (rc, entry, is_oc)
      else apply_modify_loop modlist' rc entry is_oc
  end.

(** [apply_modify_to_entry]: the result code and the entry as the
    modifications left it. *)
Definition apply_modify_to_entry (entry : Entry) (modlist : list Modification)
    : Z * Entry :=
  let rc := match modlist with
            | [] => LDAP_SUCCESS
            | _ :: _ => LDAP_UNWILLING_TO_PERFORM
            end in
  if negb (acl_check_modlist entry modlist) then (LDAP_INSUFFICIENT_ACCESS, entry)
  else
    let '(rc, entry, is_oc) := apply_modify_loop modlist rc entry false in
    if (rc =? LDAP_SUCCESS)%Z then
      let entry := if is_oc then with_ocflags entry 0 else entry in
      (* check that the entry still obeys the schema *)
      (entry_schema_check entry, entry)
    else (rc, entry).

(** [ldif_back_modify]: [rs->sr_err] and the file system it leaves.
    [modlst] is taken from the operation before [slap_mods_opattrs]
    runs: an empty list stays empty. *)
Definition ldif_back_modify (env : write_calls) (be : BackendDB) (fs : filesys)
    (op : Operation) (orm_modlist : list Modification) : Z * filesys :=
  let modlst := match orm_modlist with
                | [] => []
                | _ :: _ => slap_mods_opattrs orm_modlist
                end in
  match get_entry be fs op false with
  | (rc, Some entry, path) =>
      if (rc =? LDAP_SUCCESS)%Z then
        let '(rc, entry) := apply_modify_to_entry entry modlst in
        if (rc =? LDAP_SUCCESS)%Z
        then ldif_write_entry env fs entry path
        else (rc, fs)
      else (rc, fs)
  | (rc, None, _) => (rc, fs)
  end.

End Modify.

(** Stand-ins for the collaborators of modify in the scenarios: every
    modification is allowed, an attribute is a description with its
    values, every entry obeys the schema, and no operational attributes
    are added. *)
Definition example_add_values (e : Entry) (m : Modification) : Z * Entry :=
  match attr_find (e_attrs e) (sm_desc m) with
  | Some _ => (LDAP_TYPE_OR_VALUE_EXISTS, e)
  | None =>
      (LDAP_SUCCESS,
       {| e_name := e_name e; e_nname := e_nname e;
          e_attrs := e_attrs e ++ [ {| a_desc := sm_desc m; a_vals := sm_values m |} ];
          e_ocflags := e_ocflags e |})
  end.

Definition example_delete_values (e : Entry) (m : Modification) : Z * Entry :=
  match attr_find (e_attrs e) (sm_desc m) with
  | None => (LDAP_NO_SUCH_ATTRIBUTE, e)
  | Some _ =>
      (LDAP_SUCCESS,
       {| e_name := e_name e; e_nname := e_nname e;
          e_attrs := List.filter (fun a => negb (bv_eqb (a_desc a) (sm_desc m)))
                       (e_attrs e);
          e_ocflags := e_ocflags e |})
  end.

Definition example_replace_values (e : Entry) (m : Modification) : Z * Entry :=
  (LDAP_SUCCESS,
   {| e_name := e_name e; e_nname := e_nname e;
      e_attrs := List.filter (fun a => negb (bv_eqb (a_desc a) (sm_desc m)))
                   (e_attrs e)
                 ++ [ {| a_desc := sm_desc m; a_vals := sm_values m |} ];
      e_ocflags := e_ocflags e |}).

Definition example_modify : SlapdModify := {|
  acl_check_modlist := fun _ _ => true;
  modify_add_values := example_add_values;
  modify_delete_values := example_delete_values;
  modify_replace_values := example_replace_values;
  modify_increment_values := fun e _ => (LDAP_UNWILLING_TO_PERFORM, e);
  entry_schema_check := fun _ => LDAP_SUCCESS;
  slap_mods_opattrs := fun modlist => modlist;
  dnNormalize := fun dn => dn
|}.

Definition example_password_mod (o : mod_op) : Modification :=
  {| sm_op := o; sm_desc := slap_schema_si_ad_userPassword;
     sm_values := [bv "hunter2"] |}.

(** ** Renaming an entry *)

(** [p] is the directory [dir] or lies below it. *)
Definition in_tree (dir p : berval) : bool :=
  bv_eqb (firstn (length dir) p) dir
  && match skipn (length dir) p with
     | [] => true
     | c :: _ => ch_eq c LDAP_DIRSEP
     end.

(** The path in the tree of [new] that a path in the tree of [old]
    becomes. *)
Definition reroot (old new p : berval) : berval := new ++ skipn (length old) p.

(** The directory [old] with all that lies below it, moved to [new];
    the parents' lists of names follow. *)
Definition fs_move_tree (old new : berval) (fs : filesys) : filesys :=
  let moved := filter (fun kv => in_tree old kv.1 = true) fs in
  let rest := filter (fun kv => in_tree old kv.1 = false) fs in
  alter (add_name (path_basename new)) (path_dirname new)
    (alter (del_name (path_basename old)) (path_dirname old)
       (list_to_map (map (fun kv => (reroot old new kv.1, kv.2)) (map_to_list moved))
        ∪ rest)).

(** rename(2) where [from] may be a directory, as far as
    [ldif_move_entry] looks at it: whether it succeeded, and the file
    system it leaves.  A directory takes what lies below it along; it
    replaces an empty directory but no other, cannot be moved below
    itself, and needs the directory of [to] to exist. *)
Definition sys_rename_tree (inj : option fault) (fs : filesys) (from to : berval)
    : bool * filesys :=
  match inj with
  | Some _ => (false, fs)
  | None =>
      match fs !! from with
      | None => (false, fs)
      | Some (IFile _) =>
          match sys_rename None fs from to with
          | (Ok _, fs') => (true, fs')
          | (Err _, fs') => (false, fs')
          end
      | Some (IDir _ _) =>
          if bv_eqb from to then (true, fs)
          else if in_tree from to then (false, fs)
          else
            match fs !! to with
            | Some (IFile _) => (false, fs)
            | Some (IDir _ (_ :: _)) => (false, fs)
            | _ =>
                if is_dir fs (path_dirname to)
                then (true, fs_move_tree from to fs)
                else (false, fs)
            end
      end
  end.

(** open( path, O_RDONLY ): the descriptor, [fd] if the path can be
    opened. *)
Definition sys_open (inj : option fault) (fd : Z) (fs : filesys) (p : berval)
    : result Z :=
  match inj with
  | Some f => Err (fault_errno f)
  | None =>
      match fs !! p with
      | Some _ => Ok fd
      | None => Err (absent_errno fs p)
      end
  end.

(** The parent DN for the new name, or the result code that ends the
    operation. *)
Inductive new_parent :=
  | Ok_dn (p_dn : berval)
  | Err_rc (rc : Z).

Record move_calls := {
  mv_open : option fault;
  mv_fd : Z;                    (* the descriptor a successful open returns *)
  mv_write : write_calls;
  mv_unlink : option fault;
  mv_rename : option fault
}.

Section Rename.
Context `{!Slapd} `{!SlapdModify}.

(** [ldif_move_entry]: [res] and the file system it leaves.  What
    unlink() and rename() return is not looked at. *)
Definition ldif_move_entry (env : move_calls) (be : BackendDB) (fs : filesys)
    (entry : Entry) (oldpath : berval) : Z * filesys :=
  let newpath := dn2path be (e_nname entry) in
  (* do the modrdn *)
  match sys_open (mv_open env) (mv_fd env) fs newpath with
  | Err en =>
      if bool_decide (en = ENOENT) then
        let '(res, fs1) := ldif_write_entry (mv_write env) fs entry newpath in
        if (res =? LDAP_SUCCESS)%Z then
          (* if this fails we should log something bad *)
          let fs2 := snd (sys_unlink (mv_unlink env) fs1 oldpath) in
          let olddir := firstn (length oldpath - length LDIF) oldpath in
          let newdir := firstn (length newpath - length LDIF) newpath in
          let fs3 := snd (sys_rename_tree (mv_rename env) fs2 olddir newdir) in
          (LDAP_SUCCESS, fs3)
        else (res, fs1)
      else (LDAP_ALREADY_EXISTS, fs)   (* exists_res is -1, which is not 0 *)
  | Ok exists_res =>
      if (exists_res =? 0)%Z then (LDAP_UNWILLING_TO_PERFORM, fs)
      else (LDAP_ALREADY_EXISTS, fs)
  end.

(** [ldif_back_modrdn]: [rs->sr_err] and the file system it leaves.
    [newSup] is the new superior's DN and normalized DN, None when
    NULL; [orr_modlist] is the operation's list after
    [slap_mods_opattrs]. *)
Definition ldif_back_modrdn (env : move_calls) (be : BackendDB) (fs : filesys)
    (op : Operation) (newSup : option (berval * berval)) (newrdn : berval)
    (orr_modlist : list Modification) : Z * filesys :=
  match get_entry be fs op false with
  | (rc, Some entry, old_path) =>
      if (rc =? LDAP_SUCCESS)%Z then
        (* build new dn, and new ndn for the entry *)
        let p_dn :=
          match newSup with
          | Some (sup, nsup) =>
              (* new superior *)
              let op' := {| o_req_dn := sup; o_req_ndn := nsup;
                            ors_scope := ors_scope op; ors_filter := ors_filter op;
                            o_manageDSAit := o_manageDSAit op |} in
              let '(rc, _, _) := get_entry be fs op' false in
              if negb (rc =? LDAP_SUCCESS)%Z then Err_rc rc else Ok_dn sup
          | None => Ok_dn (dnParent (e_name entry))
          end in
        match p_dn with
        | Err_rc rc => (rc, fs)
        | Ok_dn p_dn =>
            let new_dn := build_new_dn p_dn newrdn in
            let new_ndn := dnNormalize new_dn in
            let entry := {| e_name := new_dn; e_nname := new_ndn;
                            e_attrs := e_attrs entry;
                            e_ocflags := e_ocflags entry |} in
            (* perform the modifications *)
            let '(rc, entry) := apply_modify_to_entry entry orr_modlist in
            if (rc =? LDAP_SUCCESS)%Z
            then ldif_move_entry env be fs entry old_path
            else (rc, fs)
        end
      else (rc, fs)
  | (rc, None, _) => (rc, fs)
  end.

End Rename.

(** ** Scenario: renaming [cn=bob], which has a child, to [cn=rob] *)

Definition rename_fs : filesys :=
  <[bv "/var/data/dc=example,dc=com/cn=bob/cn=carol.ldif" := IFile (bv "cn=carol")]>
    (<[bv "/var/data/dc=example,dc=com/cn=bob" := IDir 488 [bv "cn=carol.ldif"]]>
       example_fs).

Definition example_move_calls : move_calls :=
  {| mv_open := None; mv_fd := 3; mv_write := example_write_calls;
     mv_unlink := None; mv_rename := None |}.

Definition example_rob : Entry :=
  {| e_name := bv "cn=rob,dc=example,dc=com";
     e_nname := bv "cn=rob,dc=example,dc=com";
     e_attrs := []; e_ocflags := 0 |}.

(** ** Referrals *)

Definition LDAP_REFERRAL : Z := 10.

(** The collaborators of the referral check: the referrals an entry
    holds, their rewriting for a target (None is NULL), and the default
    referral of the server. *)
Class SlapdReferral := {
  get_entry_referrals : Entry -> option (list berval);
  referral_rewrite :
    option (list berval) -> option berval -> berval -> option (list berval);
  default_referral : option (list berval)
}.

Record referral_check := {
  chk_rc : Z;                          (* the value returned *)
  chk_sent : option (list berval);     (* the referrals sent with LDAP_REFERRAL *)
  chk_matched : option berval          (* rs->sr_matched when they were sent *)
}.

Definition with_dn (op : Operation) (dn ndn : berval) : Operation :=
  {| o_req_dn := dn; o_req_ndn := ndn; ors_scope := ors_scope op;
     ors_filter := ors_filter op; o_manageDSAit := o_manageDSAit op |}.

Section Referrals.
Context `{!Slapd} `{!SlapdReferral}.

(** [for ( ; entry == NULL; )]: the nearest ancestor that can be read,
    if there is one not shorter than [min_dnlen].  None is "out of
    fuel". *)
Fixpoint referral_ancestor (fuel : nat) (be : BackendDB) (fs : filesys)
    (op : Operation) (pndn : berval) (min_dnlen : nat) : option (option Entry) :=
  match fuel with
  | 0 => None
  | S fuel' =>
      let pndn := dnParent pndn in
      if length pndn <? min_dnlen then Some None
      else
        match get_entry be fs (with_dn op pndn pndn) false with
        | (_, Some entry, _) => Some (Some entry)
        | (_, None, _) => referral_ancestor fuel' be fs op pndn min_dnlen
        end
  end.

Definition ldif_back_referrals (fuel : nat) (be : BackendDB) (fs : filesys)
    (op : Operation) : option referral_check :=
  let done := {| chk_rc := LDAP_SUCCESS; chk_sent := None; chk_matched := None |} in
  if o_manageDSAit op then
    (* let op take care of DSA management *)
    Some done
  else if length (o_req_ndn op) =? 0 then
    (* the empty DN cannot be a referral *)
    Some done
  else
    match get_entry be fs op false with
    | (_, None, _) =>
        (* no object is found for them *)
        let min_dnlen :=
          if length (be_nsuffix be) =? 0 then 1   (* catch empty DN *)
          else length (be_nsuffix be) in
        match referral_ancestor fuel be fs op (o_req_ndn op) min_dnlen with
        | None => None
        | Some found =>
            let '(rc, sr_ref, sr_matched) :=
              match found with
              | Some entry =>
                  if is_entry_referral entry then
                    let sr_ref := get_entry_referrals entry in
                    (LDAP_OTHER, sr_ref,
                     match sr_ref with
                     | Some _ => Some (e_name entry)
                     | None => None
                     end)
                  else (LDAP_SUCCESS, None, None)
              | None =>
                  match default_referral with
                  | Some refs =>
                      (LDAP_OTHER,
                       referral_rewrite (Some refs) None (o_req_dn op), None)
                  | None => (LDAP_SUCCESS, None, None)
                  end
              end in
            match sr_ref with
            | Some refs =>
                (* send referrals *)
                Some {| chk_rc := LDAP_REFERRAL; chk_sent := Some refs;
                        chk_matched := sr_matched |}
            | None => Some {| chk_rc := rc; chk_sent := None; chk_matched := None |}
            end
        end
    | (_, Some entry, _) =>
        if is_entry_referral entry then
          (* entry is a referral *)
          let refs := get_entry_referrals entry in
          match referral_rewrite refs (Some (e_name entry)) (o_req_dn op) with
          | Some sr_ref =>
              Some {| chk_rc := LDAP_REFERRAL; chk_sent := Some sr_ref;
                      chk_matched := Some (e_name entry) |}
          | None => Some {| chk_rc := LDAP_OTHER; chk_sent := None;
                            chk_matched := None |}
          end
        else Some done
    end.

End Referrals.

(** Stand-ins for the scenarios: no entry holds referrals, and the
    server has one default referral. *)
Definition example_referral : SlapdReferral := {|
  get_entry_referrals := fun _ => None;
  referral_rewrite := fun refs _ _ => refs;
  default_referral := Some [bv "ldap://other.example.com/"]
|}.

(** ** Scenario: a regular file where a subtree directory would be *)

Definition blocked_fs : filesys :=
  <[bv "/var/data/dc=example,dc=com/cn=bob" := IFile []]>
    (<[bv "/var/data/dc=example,dc=com" :=
         IDir 488 [bv "cn=bob.ldif"; bv "cn=alice.ldif"; bv "cn=bob"]]>
       example_fs).

Definition example_dave : Entry :=
  {| e_name := bv "cn=dave,cn=erin,cn=bob,dc=example,dc=com";
     e_nname := bv "cn=dave,cn=erin,cn=bob,dc=example,dc=com";
     e_attrs := []; e_ocflags := 0 |}.

(** ** Scenario: an RDN with empty braces; an entry file edited by hand *)

Definition example_braces : Entry :=
  {| e_name := bv "cn={}x,dc=example,dc=com";
     e_nname := bv "cn={}x,dc=example,dc=com";
     e_attrs := []; e_ocflags := 0 |}.

Definition example_zed : Entry :=
  {| e_name := bv "o=z,dc=example,dc=com";
     e_nname := bv "o=z,dc=example,dc=com";
     e_attrs := []; e_ocflags := 0 |}.

Definition edited_fs : filesys :=
  <[bv "/var/data/dc=example,dc=com/cn=bob.ldif" := IFile (bv "cn=x,cn=y")]>
    example_fs.

(** ** Scenario: a directory named like an entry file among the children *)

Definition spoiled_fs : filesys :=
  <[bv "/var/data/dc=example,dc=com/cn=b.ldif" := IDir 488 []]>
    (<[bv "/var/data/dc=example,dc=com" :=
         IDir 488 [bv "cn=bob.ldif"; bv "cn=b.ldif"; bv "cn=alice.ldif"]]>
       example_fs).

Definition example_alice : Entry :=
  {| e_name := bv "cn=alice,dc=example,dc=com";
     e_nname := bv "cn=alice,dc=example,dc=com";
     e_attrs := [ {| a_desc := slap_schema_si_ad_userPassword;
                     a_vals := [bv "secret"] |} ];
     e_ocflags := 0 |}.

(** * Properties of the path codec *)

Lemma ch_eq_true a b : ch_eq a b = true <-> a = b.
Proof. apply Ascii.eqb_eq. Qed.

Lemma ch_eq_refl a : ch_eq a a = true.
Proof. apply Ascii.eqb_refl. Qed.

Lemma ch_eq_false a b : ch_eq a b = false <-> a <> b.
Proof. apply Ascii.eqb_neq. Qed.

Lemma bv_eqb_true a b : bv_eqb a b = true <-> a = b.
Proof.
  revert b; induction a as [|x a IH]; intros [|y b]; simpl; split;
    try congruence; try discriminate; auto.
  - intros [Hx Hab]%andb_true_iff. apply ch_eq_true in Hx.
    apply IH in Hab. congruence.
  - intros [= -> ->]. rewrite ch_eq_refl. simpl. now apply IH.
Qed.

(** A property of bytes checked on all 256 of them. *)
Lemma all_bytes_check (P : ascii -> bool) :
  forallb P all_bytes = true -> forall c, P c = true.
Proof.
  intros H c. rewrite forallb_forall in H. apply H.
  unfold all_bytes. apply in_map_iff. exists (nat_of_ascii c). split.
  - apply ascii_nat_embedding.
  - apply in_seq. pose proof (nat_ascii_bounded c). lia.
Qed.

Lemma char_shape_all c : char_shape c = true.
Proof. apply all_bytes_check. vm_compute. reflexivity. Qed.

(** Bytes that are copied, and bytes that are hex-escaped. *)
Lemma dn2path_char_plain c :
  LDIF_NEED_ESCAPE c = false -> dn2path_char c = [c].
Proof.
  intros H. pose proof (char_shape_all c) as S. unfold char_shape in S.
  rewrite H in S. now apply bv_eqb_true.
Qed.

Lemma dn2path_char_escaped c :
  LDIF_NEED_ESCAPE c = true ->
  dn2path_char c = [LDIF_ESCAPE_CHAR; hex_hi c; hex_lo c] /\
  hex_hi c <> LDIF_ESCAPE_CHAR /\ hex_lo c <> LDIF_ESCAPE_CHAR /\
  LDIF_NEED_ESCAPE (hex_hi c) = false /\ LDIF_NEED_ESCAPE (hex_lo c) = false /\
  escapes_as (hex_hi c) (hex_lo c) = true.
Proof.
  intros H. pose proof (char_shape_all c) as S. unfold char_shape in S.
  rewrite H in S. repeat (apply andb_true_iff in S as [S ?]).
  apply bv_eqb_true in S.
  repeat match goal with
         | X : negb _ = true |- _ => apply negb_true_iff in X
         | X : ch_eq _ _ = false |- _ => apply ch_eq_false in X
         end.
  repeat split; assumption.
Qed.

Lemma escape_char_plain : LDIF_NEED_ESCAPE LDIF_ESCAPE_CHAR = false.
Proof. reflexivity. Qed.

Lemma hex_pair_inj x y :
  LDIF_NEED_ESCAPE x = true -> LDIF_NEED_ESCAPE y = true ->
  hex_hi x = hex_hi y -> hex_lo x = hex_lo y -> x = y.
Proof.
  intros Hx Hy Hh Hl.
  pose proof (all_bytes_check
    (fun x => forallb (fun y =>
       implb (LDIF_NEED_ESCAPE x && LDIF_NEED_ESCAPE y
              && ch_eq (hex_hi x) (hex_hi y) && ch_eq (hex_lo x) (hex_lo y))
             (ch_eq x y)) all_bytes)) as A.
  assert (E : forall a b : ascii, forallb (fun y =>
       implb (LDIF_NEED_ESCAPE a && LDIF_NEED_ESCAPE y
              && ch_eq (hex_hi a) (hex_hi y) && ch_eq (hex_lo a) (hex_lo y))
             (ch_eq a y)) all_bytes = true ->
       implb (LDIF_NEED_ESCAPE a && LDIF_NEED_ESCAPE b
              && ch_eq (hex_hi a) (hex_hi b) && ch_eq (hex_lo a) (hex_lo b))
             (ch_eq a b) = true).
  { intros a b H. exact (all_bytes_check _ H b). }
  specialize (E x y (A ltac:(vm_compute; reflexivity) x)).
  rewrite Hx, Hy, Hh, Hl, !ch_eq_refl in E. simpl in E.
  now apply ch_eq_true.
Qed.

Lemma dirsep_not_in_char c : ~ In LDAP_DIRSEP (dn2path_char c).
Proof.
  pose proof (all_bytes_check
    (fun c => negb (existsb (ch_eq LDAP_DIRSEP) (dn2path_char c)))
    ltac:(vm_compute; reflexivity) c) as H.
  apply negb_true_iff in H. intros I.
  assert (existsb (ch_eq LDAP_DIRSEP) (dn2path_char c) = true); [|congruence].
  apply existsb_exists. exists LDAP_DIRSEP. split; [assumption|apply ch_eq_refl].
Qed.

Lemma dirsep_not_in_encode s : ~ In LDAP_DIRSEP (dn2path_encode s).
Proof.
  unfold dn2path_encode. rewrite in_flat_map. intros [c [_ H]].
  exact (dirsep_not_in_char c H).
Qed.

Lemma dot_not_in_char c : ~ In LDIF_FILETYPE_SEP (dn2path_char c).
Proof.
  pose proof (all_bytes_check
    (fun c => negb (existsb (ch_eq LDIF_FILETYPE_SEP) (dn2path_char c)))
    ltac:(vm_compute; reflexivity) c) as H.
  apply negb_true_iff in H. intros I.
  assert (existsb (ch_eq LDIF_FILETYPE_SEP) (dn2path_char c) = true); [|congruence].
  apply existsb_exists. exists LDIF_FILETYPE_SEP.
  split; [assumption|apply ch_eq_refl].
Qed.

(** ** Injectivity of the component encoding *)

Lemma no_hexpair_alias_tail c t :
  no_hexpair_alias (c :: t) = true -> no_hexpair_alias t = true.
Proof. simpl. now intros [_ H]%andb_true_iff. Qed.

Lemma no_hexpair_alias_app_l a b :
  no_hexpair_alias (a ++ b) = true -> no_hexpair_alias a = true.
Proof.
  induction a as [|c a IH]; [reflexivity|].
  simpl. intros [H1 H2]%andb_true_iff. rewrite (IH H2), andb_true_r.
  destruct (ch_eq c LDIF_ESCAPE_CHAR); [|reflexivity].
  destruct a as [|h1 [|h2 a]]; try reflexivity. exact H1.
Qed.

Lemma no_hexpair_alias_app_r a b :
  no_hexpair_alias (a ++ b) = true -> no_hexpair_alias b = true.
Proof.
  induction a as [|c a IH]; [auto|].
  intros H. apply IH. exact (no_hexpair_alias_tail _ _ H).
Qed.

Lemma encode_cons c s :
  dn2path_encode (c :: s) = dn2path_char c ++ dn2path_encode s.
Proof. reflexivity. Qed.

(** An escape sequence in the output that was not written by the
    encoder must already have been in the input. *)
Lemma encode_alias x a b :
  LDIF_NEED_ESCAPE x = true ->
  dn2path_encode b = hex_hi x :: hex_lo x :: a ->
  exists b', b = hex_hi x :: hex_lo x :: b'.
Proof.
  intros Hx E.
  destruct (dn2path_char_escaped x Hx) as (_ & Hh & Hl & Nh & Nl & _).
  destruct b as [|y1 b]; [discriminate|].
  rewrite encode_cons in E.
  destruct (LDIF_NEED_ESCAPE y1) eqn:N1.
  { destruct (dn2path_char_escaped y1 N1) as (S1 & _). rewrite S1 in E.
    injection E as E _. congruence. }
  rewrite (dn2path_char_plain y1 N1) in E. injection E as -> E.
  destruct b as [|y2 b]; [discriminate|].
  rewrite encode_cons in E.
  destruct (LDIF_NEED_ESCAPE y2) eqn:N2.
  { destruct (dn2path_char_escaped y2 N2) as (S2 & _). rewrite S2 in E.
    injection E as E _. congruence. }
  rewrite (dn2path_char_plain y2 N2) in E. injection E as -> E.
  eauto.
Qed.

Lemma alias_rejected x b :
  LDIF_NEED_ESCAPE x = true ->
  no_hexpair_alias (LDIF_ESCAPE_CHAR :: hex_hi x :: hex_lo x :: b) = false.
Proof.
  intros Hx. destruct (dn2path_char_escaped x Hx) as (_ & _ & _ & _ & _ & A).
  cbn [no_hexpair_alias]. rewrite ch_eq_refl, A. reflexivity.
Qed.

Lemma dn2path_encode_inj a b :
  no_hexpair_alias a = true -> no_hexpair_alias b = true ->
  dn2path_encode a = dn2path_encode b -> a = b.
Proof.
  revert b. induction a as [|x a IH]; intros [|y b] Ha Hb E.
  - reflexivity.
  - rewrite encode_cons in E. destruct (LDIF_NEED_ESCAPE y) eqn:Ny.
    + destruct (dn2path_char_escaped y Ny) as (S & _). rewrite S in E. discriminate.
    + rewrite (dn2path_char_plain y Ny) in E. discriminate.
  - rewrite encode_cons in E. destruct (LDIF_NEED_ESCAPE x) eqn:Nx.
    + destruct (dn2path_char_escaped x Nx) as (S & _). rewrite S in E. discriminate.
    + rewrite (dn2path_char_plain x Nx) in E. discriminate.
  - rewrite !encode_cons in E.
    pose proof (no_hexpair_alias_tail _ _ Ha) as Ha'.
    pose proof (no_hexpair_alias_tail _ _ Hb) as Hb'.
    destruct (LDIF_NEED_ESCAPE x) eqn:Nx, (LDIF_NEED_ESCAPE y) eqn:Ny.
    + destruct (dn2path_char_escaped x Nx) as (Sx & _).
      destruct (dn2path_char_escaped y Ny) as (Sy & _).
      rewrite Sx, Sy in E. injection E as Eh El E.
      rewrite (hex_pair_inj x y Nx Ny Eh El). f_equal. now apply IH.
    + destruct (dn2path_char_escaped x Nx) as (Sx & _).
      rewrite Sx, (dn2path_char_plain y Ny) in E. injection E as Ey E.
      symmetry in E. destruct (encode_alias x _ _ Nx E) as [b' ->].
      subst y. rewrite (alias_rejected x b' Nx) in Hb. discriminate.
    + destruct (dn2path_char_escaped y Ny) as (Sy & _).
      rewrite Sy, (dn2path_char_plain x Nx) in E. injection E as Ex E.
      destruct (encode_alias y _ _ Ny E) as [a' ->].
      subst x. rewrite (alias_rejected y a' Ny) in Ha. discriminate.
    + rewrite (dn2path_char_plain x Nx), (dn2path_char_plain y Ny) in E.
      injection E as -> E. f_equal. now apply IH.
Qed.

(** Two encoded components followed by the start of the next segment
    (or by nothing) can be told apart at the separator. *)
Lemma segment_split (x y r1 r2 : berval) :
  ~ In LDAP_DIRSEP x -> ~ In LDAP_DIRSEP y ->
  (r1 = [] \/ exists t, r1 = LDAP_DIRSEP :: t) ->
  (r2 = [] \/ exists t, r2 = LDAP_DIRSEP :: t) ->
  x ++ r1 = y ++ r2 -> x = y /\ r1 = r2.
Proof.
  revert y. induction x as [|c x IH]; intros [|d y] Hx Hy H1 H2 E; simpl in *.
  - auto.
  - exfalso. destruct H1 as [->|[t ->]]; [discriminate|].
    injection E as <- _. apply Hy. now left.
  - exfalso. destruct H2 as [->|[t ->]]; [discriminate|].
    injection E as -> _. apply Hx. now left.
  - injection E as -> E.
    destruct (IH y) as [-> ->]; auto.
Qed.

(** ** The component loop of dn2path *)

Lemma separator_is_comma s : DN_SEPARATOR s = true -> s = ","%char.
Proof. apply ch_eq_true. Qed.

Lemma last_separator (X : berval) :
  sepfree X \/
  exists P s c, X = P ++ s :: c /\ DN_SEPARATOR s = true /\ sepfree c.
Proof.
  induction X as [|x X IH] using rev_ind.
  - left. constructor.
  - destruct (DN_SEPARATOR x) eqn:Hx.
    + right. exists X, x, []. repeat split; auto. constructor.
    + destruct IH as [F | (P & s & c & -> & Hs & F)].
      * left. apply Forall_app. split; auto.
      * right. exists P, s, (c ++ [x]). repeat split; auto.
        -- now rewrite <- app_assoc.
        -- apply Forall_app. split; auto.
Qed.

Lemma nth_middle_app (pre : berval) x post :
  nth (length pre) (pre ++ x :: post) NUL = x.
Proof. induction pre; simpl; auto. Qed.

Lemma dn2path_scan_sepfree c : forall pre rest,
  sepfree c ->
  dn2path_scan (pre ++ c ++ rest) (length pre + length c)
  = dn2path_scan (pre ++ c ++ rest) (length pre).
Proof.
  induction c as [|x c IH] using rev_ind; intros pre rest F.
  - simpl. now rewrite Nat.add_0_r.
  - apply Forall_app in F as [F Fx]. inversion Fx as [|? ? Hx _]; subst.
    rewrite length_app. simpl length.
    replace (length pre + (length c + 1)) with (S (length pre + length c)) by lia.
    cbn [dn2path_scan].
    replace (pre ++ (c ++ [x]) ++ rest) with ((pre ++ c) ++ x :: rest)
      by (now rewrite <- !app_assoc).
    replace (length pre + length c) with (length (pre ++ c))
      by (now rewrite length_app).
    rewrite nth_middle_app, Hx.
    rewrite length_app, <- app_assoc. now apply IH.
Qed.

Lemma dn2path_scan_component P s c rest :
  DN_SEPARATOR s = true -> sepfree c ->
  dn2path_scan (P ++ s :: c ++ rest) (length P + 1 + length c)
  = (S (length P), length P).
Proof.
  intros Hs F.
  replace (P ++ s :: c ++ rest) with ((P ++ [s]) ++ c ++ rest)
    by (now rewrite <- app_assoc).
  replace (length P + 1 + length c) with (length (P ++ [s]) + length c)
    by (rewrite length_app; simpl; lia).
  rewrite dn2path_scan_sepfree by assumption.
  rewrite length_app. simpl length.
  replace (length P + 1) with (S (length P)) by lia.
  cbn [dn2path_scan]. rewrite <- app_assoc. simpl app.
  now rewrite nth_middle_app, Hs.
Qed.

Lemma dn2path_scan_first c rest :
  sepfree c -> dn2path_scan (c ++ rest) (length c) = (0, 0).
Proof.
  intros F. exact (dn2path_scan_sepfree c [] rest F).
Qed.

Lemma slice_component (P : berval) s c rest :
  slice (P ++ s :: c ++ rest) (S (length P)) (length P + 1 + length c) = c.
Proof.
  unfold slice.
  replace (P ++ s :: c ++ rest) with ((P ++ [s]) ++ c ++ rest)
    by (now rewrite <- app_assoc).
  replace (S (length P)) with (length (P ++ [s]))
    by (rewrite length_app; simpl; lia).
  rewrite drop_app_length.
  replace (length P + 1 + length c - length (P ++ [s])) with (length c)
    by (rewrite length_app; simpl; lia).
  apply take_app_length.
Qed.

Lemma slice_first (c rest : berval) : slice (c ++ rest) 0 (length c) = c.
Proof.
  unfold slice. rewrite Nat.sub_0_r. simpl. apply take_app_length.
Qed.

Lemma dn2path_loop_end f dn : dn2path_loop f dn 0 0 = [].
Proof. destruct f; reflexivity. Qed.

Lemma dn2path_loop_component f P s c rest :
  DN_SEPARATOR s = true -> sepfree c ->
  dn2path_loop (S f) (P ++ s :: c ++ rest)
    (length P + 1 + length c) (length P + 1 + length c)
  = (LDAP_DIRSEP :: dn2path_encode c)
      ++ dn2path_loop f (P ++ s :: c ++ rest) (length P) (length P).
Proof.
  intros Hs F. cbn [dn2path_loop].
  replace (length P + 1 + length c =? 0) with false
    by (symmetry; apply Nat.eqb_neq; lia).
  rewrite dn2path_scan_component by assumption.
  now rewrite slice_component.
Qed.

Lemma dn2path_loop_first f (c : berval) rest :
  sepfree c -> c <> [] ->
  dn2path_loop (S f) (c ++ rest) (length c) (length c)
  = LDAP_DIRSEP :: dn2path_encode c.
Proof.
  intros F Hc. cbn [dn2path_loop].
  replace (length c =? 0) with false
    by (symmetry; apply Nat.eqb_neq; destruct c; simpl; [congruence|lia]).
  rewrite dn2path_scan_first by assumption.
  now rewrite slice_first, dn2path_loop_end, app_nil_r.
Qed.

Lemma proper_prefix (P : berval) s c :
  proper (P ++ s :: c) -> DN_SEPARATOR s = true -> proper P.
Proof.
  destruct P as [|p P]; simpl; [congruence|auto].
Qed.

Lemma dn2path_loop_head f X rest :
  proper X -> length X <= f ->
  exists t, dn2path_loop f (X ++ rest) (length X) (length X) = LDAP_DIRSEP :: t.
Proof.
  intros HX Hf.
  destruct f as [|f]; [destruct X; simpl in *; [tauto|lia]|].
  destruct (last_separator X) as [F | (P & s & c & -> & Hs & F)].
  - rewrite dn2path_loop_first; eauto. destruct X; simpl in HX; [tauto|congruence].
  - rewrite <- app_assoc. simpl app.
    replace (length (P ++ s :: c)) with (length P + 1 + length c)
      by (rewrite length_app; simpl; lia).
    rewrite dn2path_loop_component by assumption. simpl. eauto.
Qed.

Lemma dn2path_loop_inj n : forall X1 X2 r1 r2 f1 f2,
  length X1 <= n ->
  proper X1 -> proper X2 ->
  no_hexpair_alias X1 = true -> no_hexpair_alias X2 = true ->
  length X1 <= f1 -> length X2 <= f2 ->
  dn2path_loop f1 (X1 ++ r1) (length X1) (length X1)
  = dn2path_loop f2 (X2 ++ r2) (length X2) (length X2) ->
  X1 = X2.
Proof.
  induction n as [|n IH]; intros X1 X2 r1 r2 f1 f2 Hn G1 G2 A1 A2 F1 F2 E.
  { destruct X1; simpl in *; [tauto|lia]. }
  destruct f1 as [|f1]; [destruct X1; simpl in *; [tauto|lia]|].
  destruct f2 as [|f2]; [destruct X2; simpl in *; [tauto|lia]|].
  assert (N1 : X1 <> []) by (destruct X1; simpl in G1; [tauto|congruence]).
  assert (N2 : X2 <> []) by (destruct X2; simpl in G2; [tauto|congruence]).
  destruct (last_separator X1) as [S1 | (P1 & s1 & c1 & -> & Hs1 & S1)];
  destruct (last_separator X2) as [S2 | (P2 & s2 & c2 & -> & Hs2 & S2)].
  - rewrite !dn2path_loop_first in E by assumption.
    injection E as E. now apply dn2path_encode_inj.
  - exfalso.
    rewrite dn2path_loop_first in E by assumption.
    rewrite <- (app_assoc P2) in E. simpl app in E.
    replace (length (P2 ++ s2 :: c2)) with (length P2 + 1 + length c2) in E
      by (rewrite length_app; simpl; lia).
    rewrite dn2path_loop_component in E by assumption.
    destruct (dn2path_loop_head f2 P2 (s2 :: c2 ++ r2)) as [t Ht].
    { eapply proper_prefix; eauto. }
    { rewrite length_app in F2. simpl in F2. lia. }
    rewrite Ht in E. simpl in E. injection E as E.
    rewrite <- (app_nil_r (dn2path_encode X1)) in E.
    apply segment_split in E as [_ E]; auto using dirsep_not_in_encode; eauto.
    discriminate.
  - exfalso.
    rewrite (dn2path_loop_first f2) in E by assumption.
    rewrite <- (app_assoc P1) in E. simpl app in E.
    replace (length (P1 ++ s1 :: c1)) with (length P1 + 1 + length c1) in E
      by (rewrite length_app; simpl; lia).
    rewrite dn2path_loop_component in E by assumption.
    destruct (dn2path_loop_head f1 P1 (s1 :: c1 ++ r1)) as [t Ht].
    { eapply proper_prefix; eauto. }
    { rewrite length_app in F1. simpl in F1. lia. }
    rewrite Ht in E. simpl in E. injection E as E.
    rewrite <- (app_nil_r (dn2path_encode X2)) in E.
    apply segment_split in E as [_ E]; auto using dirsep_not_in_encode; eauto.
    discriminate.
  - rewrite <- (app_assoc P1), <- (app_assoc P2) in E. simpl app in E.
    replace (length (P1 ++ s1 :: c1)) with (length P1 + 1 + length c1) in E
      by (rewrite length_app; simpl; lia).
    replace (length (P2 ++ s2 :: c2)) with (length P2 + 1 + length c2) in E
      by (rewrite length_app; simpl; lia).
    rewrite !dn2path_loop_component in E by assumption.
    rewrite length_app in Hn, F1, F2. simpl in Hn, F1, F2.
    destruct (dn2path_loop_head f1 P1 (s1 :: c1 ++ r1)) as [t1 Ht1];
      [eapply proper_prefix; eauto | lia |].
    destruct (dn2path_loop_head f2 P2 (s2 :: c2 ++ r2)) as [t2 Ht2];
      [eapply proper_prefix; eauto | lia |].
    simpl in E. injection E as E.
    apply segment_split in E as [Ec El];
      auto using dirsep_not_in_encode; [| rewrite Ht1; eauto | rewrite Ht2; eauto].
    apply dn2path_encode_inj in Ec.
    2:{ apply no_hexpair_alias_app_r in A1. exact (no_hexpair_alias_tail _ _ A1). }
    2:{ apply no_hexpair_alias_app_r in A2. exact (no_hexpair_alias_tail _ _ A2). }
    apply (IH P1 P2) in El; try lia.
    + rewrite (separator_is_comma _ Hs1), (separator_is_comma _ Hs2). congruence.
    + eapply proper_prefix; eauto.
    + eapply proper_prefix; eauto.
    + eapply no_hexpair_alias_app_l; eauto.
    + eapply no_hexpair_alias_app_l; eauto.
Qed.

(** ** dn2path is injective on normalized DNs under the suffix *)

Lemma dnIsSuffix_inv dn suffix :
  dnIsSuffix dn suffix = true ->
  dn = suffix \/ exists C s, dn = C ++ s :: suffix /\ DN_SEPARATOR s = true.
Proof.
  unfold dnIsSuffix. intros [H|H]%orb_true_iff.
  - left. now apply bv_eqb_true.
  - right. apply andb_true_iff in H as [H Hs]. apply andb_true_iff in H as [Hl Hc].
    apply Nat.ltb_lt in Hl. apply bv_eqb_true in Hs.
    set (d := length dn - length suffix) in *.
    assert (Hd : dn = firstn d dn ++ suffix)
      by (rewrite <- Hs; symmetry; apply firstn_skipn).
    assert (Ld : length (firstn d dn) = d) by (rewrite length_firstn; subst d; lia).
    destruct (exists_last (l := firstn d dn)) as (X & x & EX).
    { intros Z. rewrite Z in Ld. simpl in Ld. subst d. lia. }
    rewrite EX in Hd, Ld. exists X, x. split.
    + rewrite Hd at 1. now rewrite <- app_assoc.
    + rewrite length_app in Ld. simpl in Ld.
      replace (d - 1) with (length X) in Hc by lia.
      rewrite Hd, <- app_assoc in Hc. simpl app in Hc.
      now rewrite nth_middle_app in Hc.
Qed.

Lemma normalized_inv dn :
  normalized dn = true ->
  (dn = [] \/ proper dn) /\ no_hexpair_alias dn = true.
Proof.
  unfold normalized. intros [H1 H2]%andb_true_iff. split; [|assumption].
  destruct dn as [|c dn]; [now left|right]. simpl. now apply negb_true_iff.
Qed.

Lemma dn2path_loop_self f (S : berval) :
  S <> [] ->
  dn2path_loop (Datatypes.S f) S (length S - length S) (length S)
  = LDAP_DIRSEP :: dn2path_encode S.
Proof.
  intros HS. cbn [dn2path_loop].
  replace (length S =? 0) with false
    by (symmetry; apply Nat.eqb_neq; destruct S; simpl; [congruence|lia]).
  rewrite Nat.sub_diag. cbn [dn2path_scan].
  unfold slice. rewrite Nat.sub_0_r. simpl drop.
  now rewrite firstn_all, dn2path_loop_end, app_nil_r.
Qed.

Lemma dn2path_loop_suffix f (C : berval) s (S : berval) :
  DN_SEPARATOR s = true ->
  dn2path_loop (Datatypes.S f) (C ++ s :: S)
    (length (C ++ s :: S) - length S) (length (C ++ s :: S))
  = (LDAP_DIRSEP :: dn2path_encode S)
      ++ dn2path_loop f (C ++ s :: S) (length C) (length C).
Proof.
  intros Hs. cbn [dn2path_loop].
  replace (length (C ++ s :: S) =? 0) with false
    by (symmetry; apply Nat.eqb_neq; rewrite length_app; simpl; lia).
  replace (length (C ++ s :: S) - length S) with (Datatypes.S (length C))
    by (rewrite length_app; simpl; lia).
  cbn [dn2path_scan]. rewrite nth_middle_app, Hs.
  replace (slice (C ++ s :: S) (Datatypes.S (length C)) (length (C ++ s :: S)))
    with S; [reflexivity|].
  pose proof (slice_component C s S []) as Sl. rewrite app_nil_r in Sl.
  rewrite <- Sl at 1. f_equal. rewrite length_app. simpl. lia.
Qed.

(** The body of the path, between the base directory and ".ldif",
    determines the DN. *)
Lemma dn2path_body_inj (S A B : berval) :
  dnIsSuffix A S = true -> dnIsSuffix B S = true ->
  normalized A = true -> normalized B = true ->
  dn2path_loop (length A) A (length A - length S) (length A)
  = dn2path_loop (length B) B (length B - length S) (length B) ->
  A = B.
Proof.
  intros SA SB NA NB E.
  apply normalized_inv in NA as [PA HA]. apply normalized_inv in NB as [PB HB].
  destruct S as [|s0 S'].
  - (* the empty suffix: the whole DN is walked *)
    simpl length in E. rewrite !Nat.sub_0_r in E.
    destruct PA as [->|PA], PB as [->|PB]; auto.
    + destruct (dn2path_loop_head (length B) B [] PB) as [t Ht]; [lia|].
      rewrite app_nil_r in Ht. rewrite Ht in E. discriminate.
    + destruct (dn2path_loop_head (length A) A [] PA) as [t Ht]; [lia|].
      rewrite app_nil_r in Ht. rewrite Ht in E. discriminate.
    + apply (dn2path_loop_inj (length A) A B [] [] (length A) (length B));
        auto. now rewrite !app_nil_r.
  - assert (NS : s0 :: S' <> []) by discriminate.
    assert (LS : length (s0 :: S') = Datatypes.S (length S')) by reflexivity.
    remember (s0 :: S') as S eqn:ES. clear ES.
    apply dnIsSuffix_inv in SA as [->|(CA & sa & -> & Hsa)];
    apply dnIsSuffix_inv in SB as [->|(CB & sb & -> & Hsb)].
    + reflexivity.
    + exfalso.
      rewrite LS in E at 1.
      rewrite (dn2path_loop_self (length S') S NS) in E.
      assert (LB : length (CB ++ sb :: S) = Datatypes.S (length CB + length S))
        by (rewrite length_app; simpl; lia).
      rewrite LB in E at 1. rewrite dn2path_loop_suffix in E by assumption.
      destruct PB as [PB|PB]; [destruct CB; discriminate|].
      destruct (dn2path_loop_head (length CB + length S) CB (sb :: S)) as [t Ht];
        [eapply proper_prefix; eauto | lia |].
      rewrite Ht in E. simpl in E. injection E as E.
      rewrite <- (app_nil_r (dn2path_encode S)) in E at 1.
      apply app_inv_head in E. discriminate.
    + exfalso. symmetry in E.
      rewrite LS in E at 1.
      rewrite (dn2path_loop_self (length S') S NS) in E.
      assert (LA : length (CA ++ sa :: S) = Datatypes.S (length CA + length S))
        by (rewrite length_app; simpl; lia).
      rewrite LA in E at 1. rewrite dn2path_loop_suffix in E by assumption.
      destruct PA as [PA|PA]; [destruct CA; discriminate|].
      destruct (dn2path_loop_head (length CA + length S) CA (sa :: S)) as [t Ht];
        [eapply proper_prefix; eauto | lia |].
      rewrite Ht in E. simpl in E. injection E as E.
      rewrite <- (app_nil_r (dn2path_encode S)) in E at 1.
      apply app_inv_head in E. discriminate.
    + assert (LA : length (CA ++ sa :: S) = Datatypes.S (length CA + length S))
        by (rewrite length_app; simpl; lia).
      assert (LB : length (CB ++ sb :: S) = Datatypes.S (length CB + length S))
        by (rewrite length_app; simpl; lia).
      rewrite LA in E at 1. rewrite LB in E at 1.
      rewrite !dn2path_loop_suffix in E by assumption.
      apply app_inv_head in E.
      destruct PA as [PA|PA]; [destruct CA; discriminate|].
      destruct PB as [PB|PB]; [destruct CB; discriminate|].
      apply (dn2path_loop_inj (length CA)) in E; try lia.
      * rewrite (separator_is_comma _ Hsa), (separator_is_comma _ Hsb). congruence.
      * eapply proper_prefix; eauto.
      * eapply proper_prefix; eauto.
      * eapply no_hexpair_alias_app_l; eauto.
      * eapply no_hexpair_alias_app_l; eauto.
Qed.

(** C1. Path encoding is injective: two distinct normalized DNs that both
    have the backend's suffix are given different paths by [dn2path]. *)
Theorem dn2path_injective (be : BackendDB) (A B : berval) :
  dnIsSuffix A (be_nsuffix be) = true ->
  dnIsSuffix B (be_nsuffix be) = true ->
  normalized A = true -> normalized B = true ->
  A <> B ->
  dn2path be A <> dn2path be B.
Proof.
  intros SA SB NA NB Hne E. apply Hne. unfold dn2path in E.
  apply app_inv_head in E. apply app_inv_tail in E.
  now apply (dn2path_body_inj (be_nsuffix be)).
Qed.

Lemma dn2path_injective_witness :
  dnIsSuffix (bv "cn=alice,dc=example,dc=com") (be_nsuffix example_be) = true /\
  dnIsSuffix (bv "cn=a/b,dc=example,dc=com") (be_nsuffix example_be) = true /\
  normalized (bv "cn=alice,dc=example,dc=com") = true /\
  normalized (bv "cn=a/b,dc=example,dc=com") = true /\
  dn2path example_be (bv "cn=alice,dc=example,dc=com")
  <> dn2path example_be (bv "cn=a/b,dc=example,dc=com").
Proof.
  split; [vm_compute; reflexivity|]. split; [vm_compute; reflexivity|].
  split; [vm_compute; reflexivity|]. split; [vm_compute; reflexivity|].
  apply dn2path_injective; [vm_compute; reflexivity .. |].
  intros E. apply (f_equal (@length ascii)) in E. vm_compute in E.
  discriminate E.
Defined.

(** The normalization hypothesis cannot be dropped: as a function of raw
    bytes the encoding maps '/' and the three bytes of its own escape
    sequence to the same file name. *)
Remark dn2path_raw_bytes_collide :
  bv "cn=a/b,dc=example,dc=com" <> bv "cn=a\2Fb,dc=example,dc=com" /\
  dnIsSuffix (bv "cn=a\2Fb,dc=example,dc=com") (be_nsuffix example_be) = true /\
  normalized (bv "cn=a\2Fb,dc=example,dc=com") = false /\
  dn2path example_be (bv "cn=a/b,dc=example,dc=com")
  = dn2path example_be (bv "cn=a\2Fb,dc=example,dc=com").
Proof.
  split.
  { intros E. apply (f_equal (@length ascii)) in E. vm_compute in E. discriminate E. }
  split; [vm_compute; reflexivity|]. split; [vm_compute; reflexivity|].
  vm_compute; reflexivity.
Qed.

(** ** The '.' of the file type never comes from an RDN *)

Lemma dot_not_in_encode s : ~ In LDIF_FILETYPE_SEP (dn2path_encode s).
Proof.
  unfold dn2path_encode. rewrite in_flat_map. intros [c [_ H]].
  exact (dot_not_in_char c H).
Qed.

Lemma dot_not_in_loop f : forall dn next end_,
  ~ In LDIF_FILETYPE_SEP (dn2path_loop f dn next end_).
Proof.
  induction f as [|f IH]; intros dn next end_; cbn [dn2path_loop]; [cbn; tauto|].
  destruct (end_ =? 0); [cbn; tauto|].
  destruct (dn2path_scan dn next) as [p next'].
  intros H. apply in_app_or in H as [H|H].
  - destruct H as [H|H]; [discriminate H|]. exact (dot_not_in_encode _ H).
  - exact (IH _ _ _ H).
Qed.

(** The subtree directory of an entry: its file name without ".ldif". *)
Lemma dn2path_dir be dn :
  firstn (length (dn2path be dn) - length LDIF) (dn2path be dn)
  = li_base_path (be_private be)
      ++ dn2path_loop (length dn) dn (length dn - length (be_nsuffix be)) (length dn).
Proof.
  unfold dn2path. rewrite app_assoc.
  set (d := li_base_path (be_private be) ++ _).
  rewrite length_app, Nat.add_sub. apply take_app_length.
Qed.

(** C7. Every '.' of an RDN is hex-escaped: no '.' is left in an encoded
    component, [cn=file.ldif] becomes the segment [cn=file\2Eldif], and so
    the subtree directory of an entry is never the entry file of another
    one; in particular that of [cn=file.ldif] is not the file of
    [cn=file]. *)
Theorem dn2path_escapes_dot :
  dn2path_char "."%char = LDIF_ESCAPE_CHAR :: bv "2E" /\
  (forall rdn, ~ In "."%char (dn2path_encode rdn)) /\
  dn2path_encode (bv "cn=file.ldif") = bv "cn=file\2Eldif" /\
  dn2path example_be (bv "cn=file.ldif,dc=example,dc=com")
    = bv "/var/data/dc=example,dc=com/cn=file\2Eldif.ldif" /\
  dn2path example_be (bv "cn=file,dc=example,dc=com")
    = bv "/var/data/dc=example,dc=com/cn=file.ldif" /\
  (forall be A B,
     firstn (length (dn2path be A) - length LDIF) (dn2path be A)
     <> dn2path be B).
Proof.
  split; [vm_compute; reflexivity|]. split; [exact dot_not_in_encode|].
  split; [vm_compute; reflexivity|]. split; [vm_compute; reflexivity|].
  split; [vm_compute; reflexivity|].
  intros be A B E. rewrite dn2path_dir in E. unfold dn2path in E.
  apply app_inv_head in E.
  apply (dot_not_in_loop (length A) A (length A - length (be_nsuffix be)) (length A)).
  rewrite E. apply in_or_app. right. now left.
Qed.

(** * Properties of ldif_read_file *)

Lemma ldif_read_file_rc env errno0 datap_null :
  let r := ldif_read_file env errno0 datap_null in
  rr_rc r = LDAP_SUCCESS \/ rr_rc r = LDAP_NO_SUCH_OBJECT \/ rr_rc r = LDAP_OTHER.
Proof.
  unfold ldif_read_file. cbv zeta.
  match goal with |- context [Z.eqb (rs_res ?s) 0] => destruct (Z.eqb (rs_res s) 0) end.
  - now left.
  - right. cbn [rr_rc].
    match goal with |- context [if ?b then _ else _] => destruct b end; auto.
Qed.

(** The result is "no such object" only if some call failed and errno
    is ENOENT when the result is chosen. *)
Lemma ldif_read_file_no_such_object env errno0 datap_null :
  rr_rc (ldif_read_file env errno0 datap_null) = LDAP_NO_SUCH_OBJECT ->
  rr_errno (ldif_read_file env errno0 datap_null) = Some ENOENT.
Proof.
  unfold ldif_read_file. cbv zeta.
  match goal with |- context [Z.eqb (rs_res ?s) 0] =>
    generalize s; intros st; destruct (Z.eqb (rs_res st) 0) end.
  - cbn [rr_rc]. discriminate.
  - cbn [rr_rc rr_errno].
    destruct (rs_res st <? 0)%Z; cbn [andb]; [|discriminate].
    destruct (bool_decide (rs_errno st = Some ENOENT)) eqn:D; [|discriminate].
    intros _. now apply bool_decide_eq_true in D.
Qed.

(** C10. A file whose size, as fstat reports it, exceeds INT_MAX - 2 is
    not read: no buffer is allocated, read is not called, and the result
    is LDAP_OTHER (close does not fail with ENOENT).  Whatever the file,
    LDAP_NO_SUCH_OBJECT is returned only with errno equal to ENOENT. *)
Theorem ldif_read_file_oversized (env : read_calls) (errno0 : option errno)
    (st_size : Z) :
  rc_open env = Ok tt ->
  rc_fstat env = Ok st_size ->
  (st_size > INT_MAX - 2)%Z ->
  rc_close env <> Err ENOENT ->
  (let r := ldif_read_file env errno0 false in
   rr_rc r = LDAP_OTHER /\ rr_rc r <> LDAP_NO_SUCH_OBJECT /\
   rr_data r = None /\
   rr_calls r = [SYS_open; SYS_fstat; SYS_close]) /\
  (forall env' errno0' datap_null,
     rr_rc (ldif_read_file env' errno0' datap_null) = LDAP_NO_SUCH_OBJECT ->
     rr_errno (ldif_read_file env' errno0' datap_null) = Some ENOENT).
Proof.
  intros Ho Hf Hs Hc. split; [|exact ldif_read_file_no_such_object].
  unfold ldif_read_file. cbv zeta. rewrite Ho, Hf.
  replace (st_size >? INT_MAX - 2)%Z with true by (symmetry; apply Z.gtb_lt; lia).
  destruct (rc_close env) as [[]|e] eqn:Ec; cbn.
  - repeat split; try reflexivity. discriminate.
  - destruct (bool_decide (Some e = Some ENOENT)) eqn:D.
    + apply bool_decide_eq_true in D. congruence.
    + repeat split; try reflexivity. discriminate.
Qed.

Lemma ldif_read_file_oversized_witness :
  let env := {| rc_stat := Ok tt; rc_open := Ok tt; rc_fstat := Ok 2147483646%Z;
                rc_malloc := true; rc_read := [Ok (bv "dn: cn=x")];
                rc_close := Err EIO |} in
  rr_rc (ldif_read_file env (Some ENOENT) false) = LDAP_OTHER.
Proof.
  intros env.
  refine (proj1 (proj1 (ldif_read_file_oversized env (Some ENOENT) 2147483646
                          eq_refl eq_refl _ _))).
  - reflexivity.
  - discriminate.
Defined.

(** * The tool cursor *)

(** C9. [ldif_tool_entry_get] returns no entry, and changes nothing, for
    an id outside 1..eind; for an id inside it hands over what slot
    [id - 1] holds and clears that slot, so that asking again for the same
    id gives no entry. *)
Theorem ldif_tool_entry_get_once (li : ldif_info) (id : ID)
    (entries : list (option Entry)) :
  ck_entries (li_tool_cookie li) = Some entries ->
  (N.to_nat (ck_eind (li_tool_cookie li)) <= length entries) ->
  ((id < 1 \/ ck_eind (li_tool_cookie li) < id)%N ->
   ldif_tool_entry_get li id = (None, li)) /\
  ((1 <= id <= ck_eind (li_tool_cookie li))%N ->
   let '(e, li') := ldif_tool_entry_get li id in
   Some e = entries !! N.to_nat (id - 1) /\
   ck_entries (li_tool_cookie li') = Some (<[N.to_nat (id - 1) := None]> entries) /\
   ck_eind (li_tool_cookie li') = ck_eind (li_tool_cookie li) /\
   fst (ldif_tool_entry_get li' id) = None).
Proof.
  intros He Hl. split.
  - intros Hid. unfold ldif_tool_entry_get.
    destruct Hid as [Hid|Hid].
    + replace (id <? 1)%N with true by (symmetry; apply N.ltb_lt; lia).
      now rewrite orb_true_r.
    + replace (ck_eind (li_tool_cookie li) <? id)%N with true
        by (symmetry; apply N.ltb_lt; lia).
      reflexivity.
  - intros [H1 H2]. unfold ldif_tool_entry_get.
    replace (id <? 1)%N with false by (symmetry; apply N.ltb_ge; lia).
    replace (ck_eind (li_tool_cookie li) <? id)%N with false
      by (symmetry; apply N.ltb_ge; lia).
    cbn [orb]. rewrite He. cbn.
    replace (id <? 1)%N with false by (symmetry; apply N.ltb_ge; lia).
    replace (ck_eind (li_tool_cookie li) <? id)%N with false
      by (symmetry; apply N.ltb_ge; lia).
    cbn.
    assert (Hi : N.to_nat (id - 1) < length entries) by lia.
    destruct (lookup_lt_is_Some_2 entries _ Hi) as [slot Hs].
    rewrite Hs. cbn. repeat split; try reflexivity.
    now rewrite list_lookup_insert_eq.
Qed.

Lemma ldif_tool_entry_get_once_witness :
  ldif_tool_entry_get tool_li_example 2%N = (None, tool_li_example) /\
  fst (ldif_tool_entry_get (snd (ldif_tool_entry_get tool_li_example 1%N)) 1%N)
  = None.
Proof.
  pose proof (ldif_tool_entry_get_once tool_li_example) as T.
  split.
  - refine (proj1 (T 2%N _ eq_refl _) _); cbn; lia.
  - pose proof (proj2 (T 1%N _ eq_refl ltac:(cbn; lia)) ltac:(cbn; lia)) as P.
    destruct (ldif_tool_entry_get tool_li_example 1%N) as [e li'].
    exact (proj2 (proj2 (proj2 P))).
Defined.

(** * Reading entry files from the file system *)

Lemma ldif_read_file_absent (fs : filesys) path :
  fs !! path = None ->
  ldif_read_file (read_calls_of fs path) None false
  = {| rr_rc := LDAP_NO_SUCH_OBJECT; rr_data := None;
       rr_errno := Some ENOENT; rr_calls := [SYS_open] |}.
Proof. intros H. unfold read_calls_of. rewrite H. reflexivity. Qed.

Lemma ldif_read_file_regular (fs : filesys) path d :
  fs !! path = Some (IFile d) ->
  (Z.of_nat (length d) <= INT_MAX - 2)%Z ->
  rr_rc (ldif_read_file (read_calls_of fs path) None false) = LDAP_SUCCESS /\
  rr_data (ldif_read_file (read_calls_of fs path) None false) = Some d.
Proof.
  intros H Hs. unfold read_calls_of. rewrite H.
  unfold ldif_read_file. cbv zeta. cbn [rc_open rc_fstat rc_malloc rc_read rc_close].
  replace (Z.of_nat (length d) >? INT_MAX - 2)%Z with false
    by (symmetry; rewrite Z.gtb_ltb; apply Z.ltb_ge; lia).
  cbn [ldif_read_loop].
  replace (Z.of_nat (length d) + 1 =? 0)%Z with false
    by (symmetry; apply Z.eqb_neq; lia).
  replace (firstn (Z.to_nat (Z.of_nat (length d) + 1)) d) with d
    by (symmetry; apply firstn_all2; lia).
  destruct d as [|c d].
  - cbn. auto.
  - replace (Z.of_nat (length (c :: d)) =? 0)%Z with false
      by (symmetry; apply Z.eqb_neq; cbn [length]; lia).
    replace (Z.of_nat (length (c :: d)) + 1 - Z.of_nat (length (c :: d)))%Z
      with 1%Z by lia.
    cbn. auto.
Qed.

Lemma ldif_read_file_directory (fs : filesys) path m ns :
  fs !! path = Some (IDir m ns) ->
  rr_rc (ldif_read_file (read_calls_of fs path) None false) = LDAP_OTHER.
Proof. intros H. unfold read_calls_of. rewrite H. reflexivity. Qed.

Section ReadEntry.
Context `{SL : !Slapd}.

Lemma ldif_read_entry_absent (fs : filesys) path parent :
  fs !! path = None ->
  ldif_read_entry fs path parent false = (LDAP_NO_SUCH_OBJECT, None).
Proof.
  intros H. unfold ldif_read_entry. rewrite (ldif_read_file_absent fs path H).
  reflexivity.
Qed.

Lemma ldif_read_entry_fails (fs : filesys) path parent rc :
  fst (ldif_read_entry fs path parent false) = rc ->
  rc <> LDAP_SUCCESS ->
  snd (ldif_read_entry fs path parent false) = None.
Proof.
  unfold ldif_read_entry.
  destruct (rr_rc _ =? LDAP_SUCCESS)%Z eqn:E; [|reflexivity].
  cbn. destruct (str2entry _); [|reflexivity].
  destruct parent as [[[|c pdn] pndn]|]; cbn; congruence.
Qed.

(** * Bind *)

(** C8, as the code has it.  When the root DN shortcut leaves the bind to
    the backend: a missing entry (or one that cannot be read) and a failed
    password check give LDAP_INVALID_CREDENTIALS, an entry without
    userPassword gives LDAP_INAPPROPRIATE_AUTH, and 0 is returned only for
    an entry that exists, has a userPassword and passes the check. *)
Theorem ldif_back_bind_codes (be : BackendDB) (fs : filesys) (op : Operation)
    (cred : berval) :
  let r := ldif_back_bind be fs op SLAP_CB_CONTINUE cred in
  let got := fst (get_entry be fs op false) in
  (fs !! dn2path be (o_req_ndn op) = None ->
   bind_sr_err r = Some LDAP_INVALID_CREDENTIALS) /\
  (fst got <> LDAP_SUCCESS ->
   bind_sr_err r = Some LDAP_INVALID_CREDENTIALS /\
   bind_return r = LDAP_INVALID_CREDENTIALS) /\
  (forall entry, got = (LDAP_SUCCESS, Some entry) ->
     match attr_find (e_attrs entry) slap_schema_si_ad_userPassword with
     | None =>
         bind_sr_err r = Some LDAP_INAPPROPRIATE_AUTH /\ bind_return r = 1%Z
     | Some a =>
         if (slap_passwd_check entry a cred =? 0)%Z
         then bind_return r = 0%Z /\ bind_sr_err r = None
         else bind_sr_err r = Some LDAP_INVALID_CREDENTIALS /\ bind_return r = 1%Z
     end) /\
  (bind_return r = 0%Z ->
   exists entry a,
     got = (LDAP_SUCCESS, Some entry) /\
     attr_find (e_attrs entry) slap_schema_si_ad_userPassword = Some a /\
     slap_passwd_check entry a cred = 0%Z).
Proof.
  cbv zeta. unfold ldif_back_bind, get_entry.
  split; [|split; [|split]].
  - intros H. rewrite (ldif_read_entry_absent fs _ _ H). reflexivity.
  - destruct (ldif_read_entry fs _ _ false) as [rc [e|]] eqn:E; cbn [fst snd].
    + intros Hrc. replace (rc =? LDAP_SUCCESS)%Z with false
        by (symmetry; now apply Z.eqb_neq). cbn. auto.
    + auto.
  - intros entry. destruct (ldif_read_entry fs _ _ false) as [rc e] eqn:E.
    cbn [fst]. intros [= -> ->]. cbn [negb Z.eqb LDAP_SUCCESS].
    destruct (attr_find _ _) as [a|]; [|auto].
    destruct (slap_passwd_check entry a cred =? 0)%Z; cbn; auto.
  - destruct (ldif_read_entry fs _ _ false) as [rc [e|]] eqn:E; cbn [fst];
      [|cbn; discriminate].
    destruct (rc =? LDAP_SUCCESS)%Z eqn:Hrc; cbn [negb]; [|cbn; discriminate].
    apply Z.eqb_eq in Hrc. subst rc.
    destruct (attr_find _ _) as [a|] eqn:Ha; [|cbn; discriminate].
    destruct (slap_passwd_check e a cred =? 0)%Z eqn:Hp; cbn [negb];
      [|cbn; discriminate].
    intros _. exists e, a. apply Z.eqb_eq in Hp. auto.
Qed.

End ReadEntry.

Lemma ldif_back_bind_codes_witness :
  bind_sr_err (@ldif_back_bind example_slapd example_be example_fs
                 (example_op (bv "cn=carol,dc=example,dc=com") LDAP_SCOPE_BASE)
                 SLAP_CB_CONTINUE (bv "secret"))
  = Some LDAP_INVALID_CREDENTIALS.
Proof.
  refine (proj1 (@ldif_back_bind_codes example_slapd example_be example_fs
                   (example_op (bv "cn=carol,dc=example,dc=com") LDAP_SCOPE_BASE)
                   (bv "secret")) _).
  vm_compute. reflexivity.
Defined.

(** The claim of C8 fails for an entry without userPassword: bob exists
    and has no password, and the bind is answered with
    LDAP_INAPPROPRIATE_AUTH, not LDAP_INVALID_CREDENTIALS. *)
Lemma ldif_back_bind_no_password_counterexample :
  let op := example_op (bv "cn=bob,dc=example,dc=com") LDAP_SCOPE_BASE in
  let r := @ldif_back_bind example_slapd example_be example_fs op
             SLAP_CB_CONTINUE (bv "secret") in
  (exists entry,
     fst (@get_entry example_slapd example_be example_fs op false)
     = (LDAP_SUCCESS, Some entry) /\
     attr_find (e_attrs entry) slap_schema_si_ad_userPassword = None) /\
  bind_sr_err r = Some LDAP_INAPPROPRIATE_AUTH /\
  bind_sr_err r <> Some LDAP_INVALID_CREDENTIALS /\
  bind_return r <> LDAP_INVALID_CREDENTIALS.
Proof.
  cbv zeta. split; [|split; [|split]].
  - eexists. split; vm_compute; reflexivity.
  - vm_compute. reflexivity.
  - vm_compute. discriminate.
  - vm_compute. discriminate.
Qed.

(** * The file system model *)

Lemma fault_errno_not_ENOENT f : fault_errno f <> ENOENT.
Proof. destruct f; discriminate. Qed.

Lemma fault_errno_not_ENOTEMPTY f : fault_errno f <> ENOTEMPTY.
Proof. destruct f; discriminate. Qed.

Lemma fs_unlink_gone (fs : filesys) p : fs_unlink p fs !! p = None.
Proof. unfold fs_unlink. apply lookup_delete_eq. Qed.

Lemma fs_link_there (fs : filesys) p i : fs_link p i fs !! p = Some i.
Proof. unfold fs_link. apply lookup_insert_eq. Qed.

Lemma fs_unlink_keeps_absent (fs : filesys) p q :
  fs !! q = None -> fs_unlink p fs !! q = None.
Proof.
  intros H. unfold fs_unlink. rewrite lookup_delete. case_decide; [reflexivity|].
  rewrite lookup_alter. case_decide as E; [rewrite E|]; now rewrite H.
Qed.

Lemma last_slash_scan (a s : berval) : forall k,
  k <= length s -> ~ In "/"%char s ->
  last_slash (a ++ s) (length a + k) = last_slash a (length a).
Proof.
  induction k as [|k IH]; intros Hk Hs.
  - rewrite Nat.add_0_r.
    assert (G : forall i, i <= length a -> last_slash (a ++ s) i = last_slash a i).
    { induction i as [|i IHi]; intros Hi; [reflexivity|]. cbn [last_slash].
      rewrite app_nth1 by lia. rewrite IHi by lia. reflexivity. }
    apply G. lia.
  - replace (length a + S k) with (S (length a + k)) by lia. cbn [last_slash].
    rewrite app_nth2 by lia.
    replace (length a + k - length a) with k by lia.
    replace (ch_eq (nth k s NUL) "/"%char) with false.
    + apply IH; [lia|exact Hs].
    + symmetry. apply ch_eq_false. intros E. apply Hs. rewrite <- E.
      apply nth_In. lia.
Qed.

Lemma last_slash_le (p : berval) i : last_slash p i <= i.
Proof.
  induction i as [|i IH]; cbn [last_slash]; [lia|].
  destruct (ch_eq _ _); lia.
Qed.

Lemma path_dirname_app (a s : berval) :
  ~ In "/"%char s -> path_dirname (a ++ s) = path_dirname a.
Proof.
  intros Hs. unfold path_dirname. rewrite length_app.
  rewrite (last_slash_scan a s (length s) (le_n _) Hs).
  rewrite firstn_app.
  replace (last_slash a (length a) - length a) with 0
    by (pose proof (last_slash_le a (length a)); lia).
  cbn [firstn]. now rewrite app_nil_r.
Qed.

Lemma last_slash_lt (p : berval) i : 0 < i -> last_slash p i < i.
Proof.
  destruct i as [|i]; [lia|]. intros _. cbn [last_slash].
  pose proof (last_slash_le p i). destruct (ch_eq _ _); lia.
Qed.

Lemma path_dirname_shorter (p : berval) :
  p <> [] -> length (path_dirname p) < length p.
Proof.
  intros Hp. unfold path_dirname. rewrite length_firstn.
  assert (0 < length p) by (destruct p; [contradiction|cbn; lia]).
  pose proof (last_slash_lt p (length p)). lia.
Qed.

Lemma has_slash_app (a s : berval) :
  ~ In "/"%char s -> has_slash (a ++ s) = has_slash a.
Proof.
  intros Hs. unfold has_slash. rewrite existsb_app.
  replace (existsb _ s) with false; [apply orb_false_r|].
  symmetry. apply not_true_is_false. intros E.
  apply existsb_exists in E as (c & I & E).
  apply ch_eq_true in E. subst c. exact (Hs I).
Qed.

(** The walk up the ancestors ends within [length p] steps. *)
Lemma nearest_ancestor_fuel (fs : filesys) : forall f1 f2 p,
  length p <= f1 -> length p <= f2 ->
  nearest_ancestor f1 fs p = nearest_ancestor f2 fs p.
Proof.
  induction f1 as [|f1 IH]; intros f2 p H1 H2.
  - destruct p; [|cbn in H1; lia]. destruct f2; reflexivity.
  - destruct f2 as [|f2].
    + destruct p; [reflexivity|cbn in H2; lia].
    + cbn [nearest_ancestor]. destruct (has_slash p) eqn:Hs; [|reflexivity].
      destruct (fs !! path_dirname p); [reflexivity|].
      assert (Hp : p <> []) by (intros ->; discriminate Hs).
      pose proof (path_dirname_shorter p Hp). apply IH; lia.
Qed.

Lemma absent_errno_cases (fs : filesys) p :
  absent_errno fs p = ENOENT \/ absent_errno fs p = ENOTDIR.
Proof.
  unfold absent_errno. destruct (nearest_ancestor _ _ _) as [[d|m ns]|]; auto.
Qed.

(** The entry file and the subtree directory of an entry have the same
    ancestors. *)
Lemma absent_errno_app (fs : filesys) (a s : berval) :
  ~ In "/"%char s -> absent_errno fs (a ++ s) = absent_errno fs a.
Proof.
  intros Hs. unfold absent_errno.
  replace (nearest_ancestor (length (a ++ s)) fs (a ++ s))
    with (nearest_ancestor (length a) fs a); [reflexivity|].
  rewrite length_app.
  destruct a as [|c a].
  - cbn [length app Nat.add nearest_ancestor].
    destruct (length s); [reflexivity|]. cbn [nearest_ancestor].
    rewrite <- (app_nil_l s), has_slash_app by exact Hs. reflexivity.
  - cbn [length Nat.add]. cbn [nearest_ancestor].
    rewrite has_slash_app, path_dirname_app by exact Hs.
    destruct (has_slash (c :: a)) eqn:Hsl; [|reflexivity].
    destruct (fs !! path_dirname (c :: a)); [reflexivity|].
    pose proof (path_dirname_shorter (c :: a) ltac:(discriminate)) as Hl.
    cbn [length] in Hl. apply nearest_ancestor_fuel; lia.
Qed.

Lemma absent_errno_in_dir (fs : filesys) p :
  is_dir fs (path_dirname p) = true -> absent_errno fs p = ENOENT.
Proof.
  unfold is_dir, absent_errno. intros Hd.
  destruct p as [|c p]; [reflexivity|]. cbn [length nearest_ancestor].
  destruct (has_slash (c :: p)); [|reflexivity].
  destruct (fs !! path_dirname (c :: p)) as [[d|m ns]|];
    [discriminate Hd|reflexivity|discriminate Hd].
Qed.

Lemma absent_errno_below_file (fs : filesys) p d :
  has_slash p = true -> fs !! path_dirname p = Some (IFile d) ->
  absent_errno fs p = ENOTDIR.
Proof.
  unfold absent_errno. intros Hs Hd.
  destruct p as [|c p]; [discriminate Hs|]. cbn [length nearest_ancestor].
  now rewrite Hs, Hd.
Qed.

Lemma last_slash_none (p : berval) :
  has_slash p = false -> forall i, i <= length p -> last_slash p i = 0.
Proof.
  intros H. induction i as [|i IH]; intros Hi; [reflexivity|].
  cbn [last_slash].
  replace (ch_eq (nth i p NUL) "/"%char) with false; [apply IH; lia|].
  symmetry. apply ch_eq_false. intros E.
  assert (X : has_slash p = true).
  { apply existsb_exists. exists (nth i p NUL).
    split; [apply nth_In; lia|]. rewrite E. apply ch_eq_refl. }
  congruence.
Qed.

(** An absent name below an absent directory that resolves with ENOTDIR
    resolves with ENOTDIR too. *)
Lemma absent_errno_up (fs : filesys) p :
  fs !! path_dirname p = None ->
  absent_errno fs (path_dirname p) = ENOTDIR -> absent_errno fs p = ENOTDIR.
Proof.
  intros Hd He. destruct (has_slash p) eqn:Hs.
  - unfold absent_errno in *. destruct p as [|c p]; [discriminate Hs|].
    cbn [length nearest_ancestor]. rewrite Hs, Hd.
    pose proof (path_dirname_shorter (c :: p) ltac:(discriminate)) as Hl.
    cbn [length] in Hl.
    rewrite (nearest_ancestor_fuel fs (length p)
               (length (path_dirname (c :: p))) (path_dirname (c :: p)));
      [exact He|lia|lia].
  - unfold path_dirname in He.
    rewrite (last_slash_none p Hs (length p) (le_n _)) in He.
    discriminate He.
Qed.

Lemma dn2path_has_slash (be : BackendDB) (dn : berval) :
  dn <> [] -> has_slash (dn2path be dn) = true.
Proof.
  intros Hdn. unfold dn2path, has_slash. rewrite existsb_app.
  apply orb_true_iff. right. rewrite existsb_app. apply orb_true_iff. left.
  destruct dn as [|c dn]; [contradiction|].
  cbn [length dn2path_loop Nat.eqb].
  destruct (dn2path_scan _ _) as [p next']. cbn [app existsb].
  reflexivity.
Qed.

(** [get_parent_path] gives the directory part of a path. *)
Lemma get_parent_path_dirname (p : berval) : get_parent_path p = path_dirname p.
Proof.
  unfold get_parent_path, path_dirname. f_equal.
  assert (G : forall i, get_parent_path_scan p i = last_slash p (S i)).
  { induction i as [|i IH].
    - cbn [get_parent_path_scan last_slash]. now destruct (ch_eq _ _).
    - cbn [get_parent_path_scan]. rewrite IH. reflexivity. }
  rewrite G. cbn [last_slash]. rewrite nth_overflow by lia. reflexivity.
Qed.

(** * Delete *)

Lemma dn2path_split be dn :
  dn2path be dn
  = firstn (length (dn2path be dn) - length LDIF) (dn2path be dn) ++ LDIF.
Proof.
  rewrite dn2path_dir. unfold dn2path. now rewrite app_assoc.
Qed.

Lemma dn2path_dir_neq be dn :
  firstn (length (dn2path be dn) - length LDIF) (dn2path be dn) <> dn2path be dn.
Proof.
  intros E. apply (f_equal (@length ascii)) in E.
  rewrite (dn2path_split be dn) in E at 3.
  rewrite length_app in E. cbn [LDIF bv list_ascii_of_string length] in E.
  set (n := length (firstn _ _)) in *. lia.
Qed.

(** C3. Delete tries rmdir on the subtree directory first: a directory
    that is not empty gives LDAP_NOT_ALLOWED_ON_NONLEAF and nothing is
    removed; rmdir failing for any reason other than ENOTEMPTY and ENOENT
    (a failure of its own, a regular file in the directory's place, a
    regular file among the ancestors) gives LDAP_OTHER and nothing is
    removed; a directory missing with ENOENT is passed over, and an empty
    one is removed.  Removing the entry file then gives
    LDAP_NO_SUCH_OBJECT if it is missing and LDAP_OTHER for any other
    failure; and after LDAP_SUCCESS neither the entry file nor the
    subtree directory exists. *)
Theorem ldif_back_delete_outcomes (env : delete_calls) (be : BackendDB)
    (fs : filesys) (op : Operation) :
  let path := dn2path be (o_req_ndn op) in
  let dir := firstn (length path - length LDIF) path in
  let rc := fst (ldif_back_delete env be fs op) in
  let fs' := snd (ldif_back_delete env be fs op) in
  (forall m n ns, dc_rmdir env = None -> fs !! dir = Some (IDir m (n :: ns)) ->
     rc = LDAP_NOT_ALLOWED_ON_NONLEAF /\ fs' = fs) /\
  (forall f, dc_rmdir env = Some f -> rc = LDAP_OTHER /\ fs' = fs) /\
  (forall d, dc_rmdir env = None -> fs !! dir = Some (IFile d) ->
     rc = LDAP_OTHER /\ fs' = fs) /\
  (dc_rmdir env = None -> fs !! dir = None -> absent_errno fs dir = ENOTDIR ->
     rc = LDAP_OTHER /\ fs' = fs) /\
  (dc_rmdir env = None -> fs !! dir = None -> absent_errno fs dir = ENOENT ->
     (fs !! path = None -> dc_unlink env = None ->
        rc = LDAP_NO_SUCH_OBJECT /\ fs' = fs) /\
     (forall f, dc_unlink env = Some f -> rc = LDAP_OTHER /\ fs' = fs) /\
     (forall m ns, fs !! path = Some (IDir m ns) -> dc_unlink env = None ->
        rc = LDAP_OTHER /\ fs' = fs) /\
     (forall d, fs !! path = Some (IFile d) -> dc_unlink env = None ->
        rc = LDAP_SUCCESS)) /\
  (forall m, dc_rmdir env = None -> fs !! dir = Some (IDir m []) ->
     (fs !! path = None -> dc_unlink env = None -> rc = LDAP_NO_SUCH_OBJECT) /\
     (forall f, dc_unlink env = Some f -> rc = LDAP_OTHER) /\
     (forall d, fs !! path = Some (IFile d) -> dc_unlink env = None ->
        rc = LDAP_SUCCESS)) /\
  (rc = LDAP_SUCCESS -> fs' !! path = None /\ fs' !! dir = None).
Proof.
  cbv zeta. unfold ldif_back_delete.
  set (path := dn2path be (o_req_ndn op)).
  set (dir := firstn (length path - length LDIF) path).
  assert (Hne : dir <> path) by apply dn2path_dir_neq.
  clearbody path dir.
  unfold sys_rmdir, sys_unlink.
  split; [|split; [|split; [|split; [|split; [|split]]]]].
  - intros m n ns -> ->. cbn. auto.
  - intros f ->. destruct f; cbn; auto.
  - intros d -> ->. cbn. auto.
  - intros -> -> ->. cbn. auto.
  - intros -> Hd He. rewrite Hd, He. cbn [fst snd Z.eqb LDAP_SUCCESS].
    split; [|split; [|split]].
    + intros -> ->. cbn. auto.
    + intros f ->. destruct f; cbn; auto.
    + intros m ns -> ->. cbn. auto.
    + intros d -> ->. reflexivity.
  - intros m -> ->. cbn [fst snd Z.eqb LDAP_SUCCESS].
    split; [|split].
    + intros Hp ->. now rewrite (fs_unlink_keeps_absent fs dir path Hp).
    + intros f ->. destruct f; reflexivity.
    + intros d Hp ->.
      assert (Hp1 : fs_unlink dir fs !! path = Some (IFile d)).
      { unfold fs_unlink. rewrite lookup_delete_ne by exact Hne.
        rewrite lookup_alter. case_decide as E; [rewrite E|]; now rewrite Hp. }
      now rewrite Hp1.
  - destruct (dc_rmdir env) as [f|].
    { destruct f; cbn; discriminate. }
    destruct (fs !! dir) as [[d|m [|n ns]]|] eqn:Hd; cbn [fst snd Z.eqb LDAP_SUCCESS];
      try (cbn; discriminate).
    + (* the empty directory was removed *)
      destruct (dc_unlink env) as [f|]; [destruct f; cbn; discriminate|].
      destruct (fs_unlink dir fs !! path) as [[d|m' ns']|] eqn:Hp;
        cbn; try discriminate.
      intros _. split; [apply fs_unlink_gone|].
      apply fs_unlink_keeps_absent, fs_unlink_gone.
    + (* there was no directory *)
      destruct (absent_errno_cases fs dir) as [He|He]; rewrite He;
        cbn [fst snd Z.eqb LDAP_SUCCESS LDAP_OTHER]; [|cbn; discriminate].
      destruct (dc_unlink env) as [f|]; [destruct f; cbn; discriminate|].
      destruct (fs !! path) as [[d|m' ns']|] eqn:Hp; cbn; try discriminate.
      intros _. split; [apply fs_unlink_gone|].
      now apply fs_unlink_keeps_absent.
Qed.

(** The scenario directory is not a leaf; and below a regular file the
    delete ends with LDAP_OTHER. *)
Lemma ldif_back_delete_outcomes_witness :
  fst (ldif_back_delete {| dc_rmdir := None; dc_unlink := None |} example_be
         example_fs (example_op (bv "dc=example,dc=com") LDAP_SCOPE_BASE))
  = LDAP_NOT_ALLOWED_ON_NONLEAF /\
  ldif_back_delete {| dc_rmdir := None; dc_unlink := None |} example_be
    blocked_fs (example_op (bv "cn=erin,cn=bob,dc=example,dc=com") LDAP_SCOPE_BASE)
  = (LDAP_OTHER, blocked_fs).
Proof.
  split.
  - refine (proj1 (proj1 (ldif_back_delete_outcomes
             {| dc_rmdir := None; dc_unlink := None |} example_be example_fs
             (example_op (bv "dc=example,dc=com") LDAP_SCOPE_BASE))
             488%Z (bv "cn=bob.ldif") [bv "cn=alice.ldif"] eq_refl _)).
    vm_compute. reflexivity.
  - pose proof (proj1 (proj2 (proj2 (proj2 (ldif_back_delete_outcomes
             {| dc_rmdir := None; dc_unlink := None |} example_be blocked_fs
             (example_op (bv "cn=erin,cn=bob,dc=example,dc=com") LDAP_SCOPE_BASE)))))
             eq_refl) as H.
    cbv zeta in H. destruct H as [H1 H2].
    + vm_compute. reflexivity.
    + vm_compute. reflexivity.
    + destruct (ldif_back_delete _ _ _ _) as [rc fs']. cbn [fst snd] in *.
      now subst.
Defined.

(** * Writing an entry file *)

Lemma names_change_keeps_files (f : inode -> inode) (fs : filesys) k q :
  (forall d, f (IFile d) = IFile d) ->
  not_dir (fs !! q) ->
  alter f k fs !! q = fs !! q.
Proof.
  intros Hf Hq. rewrite lookup_alter. case_decide as E; [|reflexivity].
  subst k. destruct (fs !! q) as [[d|m ns]|]; cbn; [now rewrite Hf| |reflexivity].
  now destruct (Hq m ns).
Qed.

Lemma fs_link_other (fs : filesys) p i q :
  q <> p -> not_dir (fs !! q) -> fs_link p i fs !! q = fs !! q.
Proof.
  intros Hne Hq. unfold fs_link. rewrite lookup_insert_ne by congruence.
  now apply names_change_keeps_files.
Qed.

Lemma fs_unlink_other (fs : filesys) p q :
  q <> p -> not_dir (fs !! q) -> fs_unlink p fs !! q = fs !! q.
Proof.
  intros Hne Hq. unfold fs_unlink. rewrite lookup_delete_ne by congruence.
  now apply names_change_keeps_files.
Qed.

Lemma fs_append_at (fs : filesys) fd d0 data :
  fs !! fd = Some (IFile d0) ->
  fs_append fs fd data !! fd = Some (IFile (d0 ++ data)).
Proof. intros H. unfold fs_append. now rewrite lookup_alter_eq, H. Qed.

Lemma fs_append_other (fs : filesys) fd data q :
  q <> fd -> fs_append fs fd data !! q = fs !! q.
Proof. intros H. unfold fs_append. now rewrite lookup_alter_ne by congruence. Qed.

(** [spew_file] returns -1 or a count; what it wrote is a prefix of the
    data, all of it unless -1 is returned; no other file is touched. *)
Lemma spew_file_spec writes : forall (fs : filesys) fd spew wr se d0,
  fs !! fd = Some (IFile d0) ->
  (0 <= wr \/ wr = -1 /\ spew <> [])%Z ->
  exists res se' fs1 written,
    spew_file writes fs fd spew wr se = (res, se', fs1) /\
    fs1 !! fd = Some (IFile (d0 ++ written)) /\
    (forall q, q <> fd -> fs1 !! q = fs !! q) /\
    ((0 <= res)%Z /\ written = spew \/ res = (-1)%Z).
Proof.
  induction writes as [|w writes IH]; intros fs fd spew wr se d0 Hfd Hwr.
  - destruct spew as [|c spew]; cbn [spew_file].
    + exists wr, se, fs, []. rewrite app_nil_r. repeat split; auto.
      destruct Hwr as [Hwr|[_ Hwr]]; [left; auto | congruence].
    + exists (Z.of_nat (length (c :: spew))), se,
        (fs_append fs fd (c :: spew)), (c :: spew).
      repeat split; auto using fs_append_at, fs_append_other.
      left. split; [lia|reflexivity].
  - destruct spew as [|c spew]; cbn [spew_file].
    + exists wr, se, fs, []. rewrite app_nil_r. repeat split; auto.
      destruct Hwr as [Hwr|[_ Hwr]]; [left; auto | congruence].
    + destruct w as [extra|e].
      * set (n := Nat.min (S extra) (length (c :: spew))).
        destruct (IH (fs_append fs fd (firstn n (c :: spew))) fd
                    (skipn n (c :: spew)) (Z.of_nat n) se
                    (d0 ++ firstn n (c :: spew)))
          as (res & se' & fs1 & written & E & Hf & Ho & Hr).
        { now apply fs_append_at. }
        { left. lia. }
        exists res, se', fs1, (firstn n (c :: spew) ++ written).
        split; [exact E|]. split; [now rewrite app_assoc|]. split.
        { intros q Hq. rewrite (Ho q Hq). now apply fs_append_other. }
        destruct Hr as [[Hr ->]|Hr]; [left|now right].
        split; [assumption|apply firstn_skipn].
      * destruct (decide (e = EINTR)) as [->|Hne].
        -- destruct (IH fs fd (c :: spew) (-1)%Z (Some EINTR) d0 Hfd)
             as (res & se' & fs1 & written & E & Hf & Ho & Hr).
           { right. split; [reflexivity|discriminate]. }
           exists res, se', fs1, written. auto.
        -- exists (-1)%Z, (Some e), fs, []. rewrite app_nil_r.
           repeat split; auto.
Qed.

Lemma mkstemp_name_length path seed :
  length (firstn (length (ldif_tempname path) - 6) (ldif_tempname path)
          ++ mkstemp_chars 6 seed)
  = length path - length LDIF + 7.
Proof.
  unfold ldif_tempname. rewrite !length_app, length_firstn, !length_app, length_firstn.
  cbn [mkstemp_chars length bv list_ascii_of_string LDIF]. lia.
Qed.

Lemma mkstemp_name_fresh path seed :
  firstn (length (ldif_tempname path) - 6) (ldif_tempname path)
    ++ mkstemp_chars 6 seed <> path.
Proof.
  intros E. apply (f_equal (@length ascii)) in E.
  rewrite mkstemp_name_length in E. cbn [LDIF bv list_ascii_of_string length] in E.
  lia.
Qed.

Lemma sys_unlink_file (fs : filesys) p d :
  fs !! p = Some (IFile d) -> sys_unlink None fs p = (Ok tt, fs_unlink p fs).
Proof. intros H. unfold sys_unlink. now rewrite H. Qed.

Lemma alter_keeps_absent (f : inode -> inode) (fs : filesys) k q :
  fs !! q = None -> alter f k fs !! q = None.
Proof.
  intros H. rewrite lookup_alter. case_decide as E; [rewrite E|]; now rewrite H.
Qed.

Section WriteEntry.
Context `{SL : !Slapd}.

(** C2. [ldif_write_entry] is failure-atomic.  If it returns
    LDAP_SUCCESS then no step failed, the target holds the serialized
    entry and the temporary file is gone under its own name.  If it
    returns anything else, every path that was not a directory holds
    what it held before (the target keeps its contents or stays absent,
    and no temporary file is left).  And it does not return LDAP_SUCCESS
    when the temporary file cannot be made, the entry cannot be
    serialized, close fails or the rename fails. *)
Theorem ldif_write_entry_atomic (env : write_calls) (fs : filesys) (e : Entry)
    (path : berval) :
  let tmp := firstn (length (ldif_tempname path) - 6) (ldif_tempname path)
             ++ mkstemp_chars 6 (wc_seed env) in
  let rc := fst (ldif_write_entry env fs e path) in
  let fs' := snd (ldif_write_entry env fs e path) in
  (rc = LDAP_SUCCESS ->
   wc_tempname env = true /\ wc_mkstemp env = None /\
   wc_close env = None /\ wc_move env = None /\
   fs !! tmp = None /\
   exists data, entry2str (stored_entry e) = Some data /\
                fs' !! path = Some (IFile data) /\ fs' !! tmp = None) /\
  (rc <> LDAP_SUCCESS ->
   forall q, not_dir (fs !! q) -> fs' !! q = fs !! q).
Proof.
  cbv zeta. unfold ldif_write_entry.
  set (tmp := firstn _ _ ++ _).
  assert (Htmp : tmp <> path) by apply mkstemp_name_fresh.
  destruct (wc_tempname env); cycle 1.
  { cbn. split; [discriminate|auto]. }
  unfold sys_mkstemp. fold tmp.
  destruct (wc_mkstemp env) as [f|].
  { destruct f; cbn; (split; [discriminate|auto]). }
  destruct (is_dir fs (path_dirname tmp)) eqn:Hpd; cycle 1.
  { cbn -[bool_decide]. destruct (bool_decide _); cbn;
      (split; [discriminate|auto]). }
  cbn [negb].
  destruct (fs !! tmp) as [i|] eqn:Hfree.
  { cbn. split; [discriminate|auto]. }
  set (fs0 := fs_link tmp (IFile []) fs).
  assert (H0 : fs0 !! tmp = Some (IFile [])) by apply fs_link_there.
  assert (H0o : forall q, q <> tmp -> not_dir (fs !! q) -> fs0 !! q = fs !! q)
    by (intros; now apply fs_link_other).
  (* what the clean-up leaves, whatever was written to the temporary file *)
  assert (Clean : forall (fs1 : filesys) d,
    fs1 !! tmp = Some (IFile d) ->
    (forall q, q <> tmp -> fs1 !! q = fs0 !! q) ->
    forall q, not_dir (fs !! q) -> (sys_unlink None fs1 tmp).2 !! q = fs !! q).
  { intros fs1 d H1 H1o q Hq. rewrite (sys_unlink_file fs1 tmp d H1). cbn [snd].
    destruct (decide (q = tmp)) as [->|Hne].
    - now rewrite fs_unlink_gone.
    - rewrite fs_unlink_other; auto.
      + rewrite H1o by assumption. now apply H0o.
      + rewrite H1o by assumption. rewrite H0o by assumption. assumption. }
  assert (Failed : forall se (fs1 : filesys) d,
    fs1 !! tmp = Some (IFile d) ->
    (forall q, q <> tmp -> fs1 !! q = fs0 !! q) ->
    let r := if (LDAP_OTHER =? LDAP_OTHER)%Z && bool_decide (se = Some ENOENT)
             then (LDAP_NO_SUCH_OBJECT, (sys_unlink None fs1 tmp).2)
             else (LDAP_OTHER, (sys_unlink None fs1 tmp).2) in
    r.1 <> LDAP_SUCCESS /\
    forall q, not_dir (fs !! q) -> r.2 !! q = fs !! q).
  { intros se fs1 d H1 H1o. cbv zeta. cbn [Z.eqb LDAP_OTHER andb].
    destruct (bool_decide (se = Some ENOENT)); cbn [fst snd];
      (split; [discriminate|now apply (Clean fs1 d)]). }
  destruct (entry2str (stored_entry e)) as [data|] eqn:Es.
  2:{ (* the entry cannot be serialized *)
      destruct (wc_close env) as [f|];
        cbn -[sys_unlink bool_decide];
        (destruct (Failed None fs0 [] H0 ltac:(auto)) as [Fr Ff];
         split; [intros X; now destruct (Fr X) | intros _; exact Ff]). }
  destruct (spew_file_spec (wc_write env) fs0 tmp data 0%Z None [] H0
              ltac:(left; lia))
    as (res & se & fs1 & written & E & H1 & H1o & Hres).
  rewrite E. cbn [app] in H1.
  destruct Hres as [[Hres ->]| ->].
  2:{ (* a write failed *)
      destruct (wc_close env) as [f|];
        cbn -[sys_unlink bool_decide];
        (destruct (Failed se fs1 written H1 H1o) as [Fr Ff];
         split; [intros X; now destruct (Fr X) | intros _; exact Ff]). }
  replace (res >=? 0)%Z with true
    by (symmetry; rewrite Z.geb_leb; now apply Z.leb_le).
  destruct (wc_close env) as [f|].
  { (* close failed *)
    cbn -[sys_unlink bool_decide].
    destruct (Failed (Some (fault_errno f)) fs1 data H1 H1o) as [Fr Ff].
    split; [intros X; now destruct (Fr X) | intros _; exact Ff]. }
  replace (res >=? 0)%Z with true
    by (symmetry; rewrite Z.geb_leb; now apply Z.leb_le).
  unfold sys_rename.
  destruct (wc_move env) as [f|].
  { cbn -[sys_unlink bool_decide].
    destruct (Failed (Some (fault_errno f)) fs1 data H1 H1o) as [Fr Ff].
    split; [intros X; now destruct (Fr X) | intros _; exact Ff]. }
  rewrite H1.
  destruct (fs1 !! path) as [[dp|mp nsp]|] eqn:Hp.
  - destruct (is_dir fs1 (path_dirname path)).
    + cbn. split; [|congruence]. intros _. repeat split; auto.
      exists data. split; [reflexivity|]. split; [apply fs_link_there|].
      unfold fs_link. rewrite lookup_insert_ne by congruence.
      apply alter_keeps_absent, fs_unlink_gone.
    + cbn -[sys_unlink bool_decide].
      destruct (Failed (Some (absent_errno fs1 path)) fs1 data H1 H1o) as [Fr Ff].
      split; [intros X; now destruct (Fr X) | intros _; exact Ff].
  - cbn -[sys_unlink bool_decide].
    destruct (Failed (Some EISDIR) fs1 data H1 H1o) as [Fr Ff].
    split; [intros X; now destruct (Fr X) | intros _; exact Ff].
  - destruct (is_dir fs1 (path_dirname path)).
    + cbn. split; [|congruence]. intros _. repeat split; auto.
      exists data. split; [reflexivity|]. split; [apply fs_link_there|].
      unfold fs_link. rewrite lookup_insert_ne by congruence.
      apply alter_keeps_absent, fs_unlink_gone.
    + cbn -[sys_unlink bool_decide].
      destruct (Failed (Some (absent_errno fs1 path)) fs1 data H1 H1o) as [Fr Ff].
      split; [intros X; now destruct (Fr X) | intros _; exact Ff].
Qed.

End WriteEntry.

Lemma ldif_write_entry_atomic_witness :
  exists data,
    snd (@ldif_write_entry example_slapd example_write_calls example_fs
           example_carol (bv "/var/data/dc=example,dc=com/cn=carol.ldif"))
    !! bv "/var/data/dc=example,dc=com/cn=carol.ldif" = Some (IFile data).
Proof.
  destruct (proj1 (@ldif_write_entry_atomic example_slapd example_write_calls
                     example_fs example_carol
                     (bv "/var/data/dc=example,dc=com/cn=carol.ldif")))
    as (_ & _ & _ & _ & _ & data & _ & Hd & _).
  - vm_compute. reflexivity.
  - exists data. exact Hd.
Defined.

(** * The tree enumerator *)

Section Enumerator.
Context `{SL : !Slapd}.

(** A child visited with scope BASE: its file is read, it is sent if the
    filter matches, and there is no descent. *)
Lemma r_enum_tree_base_scope (f : nat) (fs : filesys) ck rs path pdn pndn :
  ors_scope (ck_op ck) = LDAP_SCOPE_BASE ->
  ck_rs ck = Some rs ->
  r_enum_tree (S f) fs ck path false pdn pndn
  = match ldif_read_entry fs (cstr (pb_val path)) (Some (pdn, pndn)) false with
    | (rc, Some e) =>
        if negb (rc =? LDAP_SUCCESS)%Z then Some (LDAP_NO_SUCH_OBJECT, ck)
        else if ors_filter (ck_op ck) e
        then Some (send_search_entry (sr_sent rs) e, ck_send ck (SearchEntry e))
        else Some (LDAP_SUCCESS, ck)
    | (_, None) => Some (LDAP_NO_SUCH_OBJECT, ck)
    end.
Proof.
  intros Hs Hrs. cbn [r_enum_tree]. unfold enum_self_entry.
  destruct (ldif_read_entry fs _ _ false) as [rc [e|]]; [|reflexivity].
  destruct (negb (rc =? LDAP_SUCCESS)%Z); [reflexivity|].
  rewrite Hs, Hrs. cbn [bool_decide decide_rel orb negb andb].
  rewrite !bool_decide_eq_true_2 by reflexivity.
  cbn [orb negb andb]. rewrite andb_false_r. cbn [andb].
  destruct (ors_filter (ck_op ck) e).
  - destruct (send_search_entry (sr_sent rs) e =? 0)%Z eqn:Hz; cbn [negb].
    + apply Z.eqb_eq in Hz. rewrite Hz.
      replace (ors_scope (ck_op (ck_send ck (SearchEntry e)))) with LDAP_SCOPE_BASE
        by (now rewrite <- Hs).
      rewrite bool_decide_eq_true_2 by reflexivity. reflexivity.
    + reflexivity.
  - cbn. rewrite Hs. rewrite bool_decide_eq_true_2 by reflexivity. reflexivity.
Qed.

(** The children of a directory, all readable, visited with scope BASE
    and a sink that accepts everything: the matching ones are sent in
    the order of the list. *)
Lemma enum_children_base_scope (f : nat) (fs : filesys) dir cpdn cpndn :
  (forall sent e, send_search_entry sent e = LDAP_SUCCESS) ->
  forall lst es ck rs,
  ors_scope (ck_op ck) = LDAP_SCOPE_BASE ->
  ck_rs ck = Some rs ->
  Forall2 (fun ptr e =>
             ldif_read_entry fs (cstr (pb_val (fullpath dir (bvlist_restore ptr))))
               (Some (cpdn, cpndn)) false = (LDAP_SUCCESS, Some e)) lst es ->
  exists ck',
    enum_children (fun ck p => r_enum_tree (S f) fs ck p false cpdn cpndn)
      dir lst LDAP_SUCCESS ck = Some (LDAP_SUCCESS, ck') /\
    ck_op ck' = ck_op ck /\
    ck_rs ck' = Some {| sr_sent := sr_sent rs
                          ++ map SearchEntry (List.filter (ors_filter (ck_op ck)) es) |}.
Proof.
  intros Hsend lst. induction lst as [|ptr lst IH]; intros es ck rs Hs Hrs HF.
  - inversion HF; subst. exists ck. cbn. rewrite app_nil_r.
    repeat split; auto. rewrite Hrs. now destruct rs.
  - inversion HF as [|? e ? es' Hr HF']; subst. cbn [enum_children].
    cbn [Z.eqb LDAP_SUCCESS].
    rewrite (r_enum_tree_base_scope f fs ck rs _ _ _ Hs Hrs), Hr.
    cbn [negb Z.eqb LDAP_SUCCESS List.filter].
    destruct (ors_filter (ck_op ck) e) eqn:Hf.
    + rewrite Hsend.
      assert (Hrs' : ck_rs (ck_send ck (SearchEntry e))
                     = Some {| sr_sent := sr_sent rs ++ [SearchEntry e] |})
        by (cbn; now rewrite Hrs).
      destruct (IH es' (ck_send ck (SearchEntry e)) _ Hs Hrs' HF')
        as (ck' & E & Ho & Hr').
      exists ck'. split; [exact E|]. split; [exact Ho|].
      rewrite Hr'. cbn [sr_sent ck_send ck_op map]. now rewrite <- app_assoc.
    + destruct (IH es' ck rs Hs Hrs HF') as (ck' & E & Ho & Hr').
      exists ck'. auto.
Qed.

End Enumerator.

Section Search.
Context `{SL : !Slapd}.

Lemma ldif_read_entry_dn (fs : filesys) path pdn pndn e :
  ldif_read_entry fs path (Some (pdn, pndn)) false = (LDAP_SUCCESS, Some e) ->
  pdn <> [] ->
  exists e0, e_name e = build_new_dn pdn (e_name e0) /\
             e_nname e = build_new_dn pndn (e_nname e0).
Proof.
  unfold ldif_read_entry.
  destruct (rr_rc _ =? LDAP_SUCCESS)%Z; [|discriminate].
  destruct (str2entry _) as [e0|]; [|discriminate].
  destruct pdn as [|c pdn]; [congruence|].
  intros [= <-] _. exists e0. auto.
Qed.

Lemma ck_queue_op ck e : ck_op (ck_queue ck e) = ck_op ck.
Proof.
  unfold ck_queue. destruct (ck_entries ck); cbn;
    match goal with |- context [N.leb ?a ?b] => destruct (N.leb a b) end;
    reflexivity.
Qed.

(** Reading and delivering the entry itself never changes the operation,
    and so not the scope. *)
Lemma enum_self_entry_op (fs : filesys) ck path base pdn pndn :
  ck_op match enum_self_entry fs ck path base pdn pndn with
        | SelfReturn _ ck' => ck'
        | SelfDone _ ck' => ck'
        end = ck_op ck.
Proof.
  unfold enum_self_entry. destruct base; [reflexivity|].
  destruct (ldif_read_entry fs _ _ false) as [rc [e|]]; [|reflexivity].
  destruct (negb (rc =? LDAP_SUCCESS)%Z); [reflexivity|].
  destruct (_ || _); [|reflexivity].
  destruct (ck_rs ck) as [rs|]; [|apply ck_queue_op].
  destruct (_ && _).
  - destruct (negb _); reflexivity.
  - destruct (ors_filter _ _); [destruct (negb _); reflexivity|reflexivity].
Qed.

(** A ONELEVEL search below an existing base entry: the children of the
    base's directory, all readable, are sent if they match; the base
    entry is not, and nothing is read below the children. *)
Lemma onelevel_search (f : nat) (be : BackendDB) (fs : filesys) (op : Operation)
    (eb : Entry) (names : list berval) (es : list Entry) :
  let path := pathbuf_of (dn2path be (o_req_ndn op)) in
  let dir := ldif2dir path in
  ors_scope op = LDAP_SCOPE_ONELEVEL ->
  o_req_ndn op <> [] ->
  ldif_read_entry fs (cstr (pb_val path))
    (Some (dnParent (o_req_dn op), dnParent (o_req_ndn op))) false
  = (LDAP_SUCCESS, Some eb) ->
  sys_readdir fs (cstr (pb_val dir)) = Ok names ->
  Forall2 (fun ptr e =>
             ldif_read_entry fs (cstr (pb_val (fullpath dir (bvlist_restore ptr))))
               (Some (e_name eb, e_nname eb)) false = (LDAP_SUCCESS, Some e))
          (enum_readdir names []) es ->
  (forall sent e, send_search_entry sent e = LDAP_SUCCESS) ->
  ldif_back_search (S (S f)) be fs op
  = Some (LDAP_SUCCESS, map SearchEntry (List.filter (ors_filter op) es)).
Proof.
  intros path dir Hsc Hne Hb Hd Hch Hsend.
  remember (S f) as f1 eqn:Hf1.
  unfold ldif_back_search, enum_tree. cbn [ck_op].
  replace (length (o_req_ndn op) =? 0) with false
    by (symmetry; apply Nat.eqb_neq; destruct (o_req_ndn op); simpl; [congruence|lia]).
  fold path. cbn [r_enum_tree]. unfold enum_self_entry. rewrite Hb.
  cbn [negb Z.eqb LDAP_SUCCESS ck_op]. rewrite Hsc.
  cbn [bool_decide decide_rel orb negb andb].
  rewrite !bool_decide_eq_false_2 by discriminate.
  cbn [orb negb ck_op]. rewrite Hsc.
  rewrite !bool_decide_eq_false_2 by discriminate. cbn [negb].
  fold dir. rewrite Hd.
  rewrite bool_decide_eq_true_2 by reflexivity.
  set (ck2 := ck_set_op _ _). subst f1.
  destruct (enum_children_base_scope f fs dir (e_name eb) (e_nname eb) Hsend
              (enum_readdir names []) es ck2 {| sr_sent := [] |}
              eq_refl eq_refl Hch)
    as (ck' & E & _ & Hr).
  rewrite E, Hr. reflexivity.
Qed.

End Search.

(** * Ordered RDNs *)

Lemma permutation_of_three {A} (a b c : A) (l : list A) :
  Permutation l [a; b; c] ->
  l = [a; b; c] \/ l = [a; c; b] \/ l = [b; a; c] \/
  l = [b; c; a] \/ l = [c; a; b] \/ l = [c; b; a].
Proof.
  intros P.
  destruct (Permutation_vs_cons_inv P) as (l1 & l2 & ->).
  apply Permutation_sym, Permutation_cons_app_inv in P.
  apply Permutation_length_2_inv in P.
  destruct l1 as [|x [|y [|z l1]]]; simpl in *;
    destruct P as [P|P]; try discriminate P;
    try (destruct l1; discriminate P);
    try (subst l2; auto 7; fail);
    try (injection P as -> ->; auto 7; fail);
    try (injection P as -> -> ->; auto 7; fail).
Qed.

(** In whatever order readdir reports them, the three files come out of
    the insertion loop in the order of their numbers. *)
Lemma enum_readdir_ordered (names : list berval) :
  Permutation names [bv "{0}x.ldif"; bv "{10}x.ldif"; bv "{2}x.ldif"] ->
  map bvlist_restore (enum_readdir (bv "." :: bv ".." :: names) [])
  = [bv "{0}x.ldif"; bv "{2}x.ldif"; bv "{10}x.ldif"] /\
  map bvl_inum (enum_readdir (bv "." :: bv ".." :: names) []) = [0; 2; 10]%Z.
Proof.
  intros P.
  destruct (permutation_of_three _ _ _ _ P) as [->|[->|[->|[->|[->| ->]]]]];
    split; vm_compute; reflexivity.
Qed.

(** * Further properties of the path codec *)

Lemma escapes_app a b : escapes (a ++ b) = escapes a + escapes b.
Proof. unfold escapes. now rewrite List.filter_app, length_app. Qed.

Lemma dn2path_len_escapes be dn :
  dn2path_len be dn
  = length (li_base_path (be_private be)) + length dn + (1 + length LDIF)
    + 2 * escapes dn.
Proof.
  unfold dn2path_len.
  generalize (length (li_base_path (be_private be)) + length dn + (1 + length LDIF)).
  induction dn as [|c dn IH]; intros n; cbn [fold_left].
  - unfold escapes. simpl. lia.
  - rewrite IH. unfold escapes. cbn [List.filter].
    destruct (LDIF_NEED_ESCAPE c); cbn [length]; lia.
Qed.

Lemma dn2path_encode_length s :
  length (dn2path_encode s) = length s + 2 * escapes s.
Proof.
  induction s as [|c s IH]; [reflexivity|].
  rewrite encode_cons, length_app, IH. unfold escapes. cbn [List.filter].
  destruct (LDIF_NEED_ESCAPE c) eqn:N.
  - destruct (dn2path_char_escaped c N) as (-> & _). cbn [length]. lia.
  - rewrite (dn2path_char_plain c N). cbn [length]. lia.
Qed.

Lemma dn2path_scan_range dn next :
  let '(p, next') := dn2path_scan dn next in
  p <= next /\ (p = S next' \/ p = 0 /\ next' = 0).
Proof.
  induction next as [|n IH]; cbn [dn2path_scan]; [lia|].
  destruct (DN_SEPARATOR (nth n dn NUL)); [lia|].
  destruct (dn2path_scan dn n) as [p next']. lia.
Qed.

Lemma firstn_slice (dn : berval) p end_ :
  p <= end_ -> firstn end_ dn = firstn p dn ++ slice dn p end_.
Proof.
  intros H. unfold slice. rewrite <- skipn_firstn_comm.
  rewrite <- (firstn_skipn p (firstn end_ dn)) at 1. f_equal.
  rewrite firstn_firstn. f_equal. lia.
Qed.

Lemma escapes_firstn_le (dn : berval) a b :
  a <= b -> escapes (firstn a dn) <= escapes (firstn b dn).
Proof.
  intros H. rewrite (firstn_slice dn a b H), escapes_app. lia.
Qed.

Lemma dn2path_loop_length f : forall dn next end_,
  next <= end_ ->
  length (dn2path_loop f dn next end_)
  <= (if end_ =? 0 then 0 else end_ + 1) + 2 * escapes (firstn end_ dn).
Proof.
  induction f as [|f IH]; intros dn next end_ Hn; cbn [dn2path_loop].
  { simpl. lia. }
  destruct (end_ =? 0) eqn:E0; [simpl; lia|]. apply Nat.eqb_neq in E0.
  pose proof (dn2path_scan_range dn next) as R.
  destruct (dn2path_scan dn next) as [p next']. destruct R as [Hp Hs].
  specialize (IH dn next' next' (Nat.le_refl _)).
  cbn [app length]. rewrite length_app, dn2path_encode_length.
  assert (Hpe : p <= end_) by lia.
  assert (Hsl : length (slice dn p end_) <= end_ - p)
    by (unfold slice; rewrite length_firstn; lia).
  assert (He : escapes (firstn next' dn) + escapes (slice dn p end_)
               <= escapes (firstn end_ dn)).
  { rewrite (firstn_slice dn p end_ Hpe), escapes_app.
    assert (escapes (firstn next' dn) <= escapes (firstn p dn))
      by (apply escapes_firstn_le; lia). lia. }
  destruct (next' =? 0) eqn:E1.
  - apply Nat.eqb_eq in E1. lia.
  - apply Nat.eqb_neq in E1. lia.
Qed.

(** X1. The buffer [dn2path] allocates is large enough for the path it
    writes: the assertion [res->bv_len <= len] at its end always holds. *)
Theorem dn2path_fits (be : BackendDB) (dn : berval) :
  length (dn2path be dn) <= dn2path_len be dn.
Proof.
  rewrite dn2path_len_escapes. unfold dn2path. rewrite !length_app.
  pose proof (dn2path_loop_length (length dn) dn
                (length dn - length (be_nsuffix be)) (length dn)
                ltac:(lia)) as L.
  rewrite firstn_all in L.
  destruct (length dn =? 0); lia.
Qed.

(** ** The path of a child and the path of its parent *)

(** The leaf RDN is the last segment the loop writes. *)
Lemma dn2path_loop_leaf n : forall (Y r : berval) s rest rest' f f',
  length Y <= n ->
  sepfree r -> r <> [] -> DN_SEPARATOR s = true -> proper Y ->
  length (r ++ s :: Y) <= f -> length Y <= f' ->
  dn2path_loop f ((r ++ s :: Y) ++ rest) (length (r ++ s :: Y)) (length (r ++ s :: Y))
  = dn2path_loop f' (Y ++ rest') (length Y) (length Y)
      ++ LDAP_DIRSEP :: dn2path_encode r.
Proof.
  induction n as [|n IH]; intros Y r s rest rest' f f' Hn Fr Nr Hs PY Hf Hf'.
  { destruct Y; simpl in *; [tauto|lia]. }
  assert (NY : Y <> []) by (destruct Y; simpl in PY; [tauto|congruence]).
  rewrite length_app in Hf. cbn [length] in Hf.
  destruct f as [|f]; [lia|].
  destruct f' as [|f']; [destruct Y; simpl in *; [tauto|lia]|].
  destruct (last_separator Y) as [FY | (P & s' & c & -> & Hs' & Fc)].
  - (* the parent is a single component *)
    rewrite (dn2path_loop_first f' Y rest' FY NY).
    rewrite <- app_assoc. cbn [app].
    replace (length (r ++ s :: Y)) with (length r + 1 + length Y)
      by (rewrite length_app; simpl; lia).
    rewrite (dn2path_loop_component f r s Y rest Hs FY).
    destruct f as [|f]; [destruct r; simpl in *; [congruence|lia]|].
    rewrite (dn2path_loop_first f r (s :: Y ++ rest) Fr Nr).
    reflexivity.
  - rewrite length_app in Hn, Hf, Hf'. cbn [length] in Hn, Hf, Hf'.
    assert (PP : proper P) by (eapply proper_prefix; eauto).
    replace ((r ++ s :: P ++ s' :: c) ++ rest)
      with ((r ++ s :: P) ++ s' :: c ++ rest)
      by (now rewrite <- !app_assoc; cbn [app]; rewrite <- !app_assoc).
    replace (length (r ++ s :: P ++ s' :: c))
      with (length (r ++ s :: P) + 1 + length c)
      by (rewrite !length_app; cbn [length]; rewrite length_app; cbn [length]; lia).
    rewrite (dn2path_loop_component f (r ++ s :: P) s' c rest Hs' Fc).
    replace ((P ++ s' :: c) ++ rest') with (P ++ s' :: c ++ rest')
      by (now rewrite <- app_assoc).
    replace (length (P ++ s' :: c)) with (length P + 1 + length c)
      by (rewrite length_app; cbn [length]; lia).
    rewrite (dn2path_loop_component f' P s' c rest' Hs' Fc).
    rewrite (IH P r s (s' :: c ++ rest) (s' :: c ++ rest') f f');
      auto; try lia.
    + now rewrite <- app_assoc.
    + rewrite length_app. cbn [length]. lia.
Qed.

Lemma nth_after_middle (X : berval) c t k :
  nth (length X + 1 + k) (X ++ c :: t) NUL = nth k t NUL.
Proof.
  induction X as [|x X IH]; cbn [length app Nat.add nth]; [reflexivity|exact IH].
Qed.

Lemma nth_not_dirsep (t : berval) k :
  ~ In LDAP_DIRSEP t -> ch_eq (nth k t NUL) LDAP_DIRSEP = false.
Proof.
  intros H. apply ch_eq_false. intros E.
  destruct (nth_in_or_default k t NUL) as [I|D].
  - apply H. now rewrite <- E.
  - rewrite D in E. discriminate E.
Qed.

(** [get_parent_path] cuts a path at its last separator. *)
Lemma get_parent_path_last (X t : berval) :
  ~ In LDAP_DIRSEP t -> get_parent_path (X ++ LDAP_DIRSEP :: t) = X.
Proof.
  intros Ht. unfold get_parent_path.
  assert (Sc : forall k,
    get_parent_path_scan (X ++ LDAP_DIRSEP :: t) (length X + 1 + k) = length X).
  { induction k as [|k IH].
    - replace (length X + 1 + 0) with (S (length X)) by lia.
      cbn [get_parent_path_scan].
      replace (S (length X)) with (length X + 1 + 0) by lia.
      rewrite nth_after_middle, nth_not_dirsep by assumption.
      destruct (length X) as [|j] eqn:L; [reflexivity|].
      cbn [get_parent_path_scan]. rewrite <- L, nth_middle_app, ch_eq_refl.
      reflexivity.
    - replace (length X + 1 + S k) with (S (length X + 1 + k)) by lia.
      cbn [get_parent_path_scan].
      replace (S (length X + 1 + k)) with (length X + 1 + S k) by lia.
      now rewrite nth_after_middle, nth_not_dirsep by assumption. }
  replace (length (X ++ LDAP_DIRSEP :: t)) with (length X + 1 + length t)
    by (rewrite length_app; cbn [length]; lia).
  rewrite Sc. apply take_app_length.
Qed.

Lemma dn2path_loop_child (S r B : berval) :
  sepfree r -> r <> [] -> proper B -> dnIsSuffix B S = true ->
  dn2path_loop (length (r ++ ","%char :: B)) (r ++ ","%char :: B)
    (length (r ++ ","%char :: B) - length S) (length (r ++ ","%char :: B))
  = dn2path_loop (length B) B (length B - length S) (length B)
      ++ LDAP_DIRSEP :: dn2path_encode r.
Proof.
  intros Fr Nr PB SB.
  assert (Hs : DN_SEPARATOR ","%char = true) by reflexivity.
  destruct S as [|s0 S'].
  - cbn [length]. rewrite !Nat.sub_0_r.
    pose proof (dn2path_loop_leaf (length B) B r ","%char [] []
                  (length (r ++ ","%char :: B)) (length B)) as L.
    rewrite !app_nil_r in L. apply L; auto.
  - assert (NS : s0 :: S' <> []) by discriminate.
    assert (LS : length (s0 :: S') = Datatypes.S (length S')) by reflexivity.
    remember (s0 :: S') as S eqn:ES. clear ES.
    apply dnIsSuffix_inv in SB as [->|(C & s' & -> & Hs')].
    + assert (R : dn2path_loop (length S) S (length S - length S) (length S)
                  = LDAP_DIRSEP :: dn2path_encode S).
      { rewrite LS at 1. apply (dn2path_loop_self (length S') S NS). }
      rewrite R. clear R.
      replace (length (r ++ ","%char :: S)) with (Datatypes.S (length r + length S)) at 1
        by (rewrite length_app; cbn [length]; lia).
      rewrite (dn2path_loop_suffix _ r ","%char S Hs).
      assert (R : dn2path_loop (length r + length S) (r ++ ","%char :: S)
                    (length r) (length r)
                  = LDAP_DIRSEP :: dn2path_encode r).
      { rewrite LS.
        replace (length r + Datatypes.S (length S'))
          with (Datatypes.S (length r + length S')) by lia.
        apply (dn2path_loop_first _ r (","%char :: S) Fr Nr). }
      rewrite R. reflexivity.
    + assert (PC : proper C) by (eapply proper_prefix; eauto).
      replace (r ++ ","%char :: C ++ s' :: S) with ((r ++ ","%char :: C) ++ s' :: S)
        by (now rewrite <- app_assoc).
      replace (length ((r ++ ","%char :: C) ++ s' :: S))
        with (Datatypes.S (length (r ++ ","%char :: C) + length S)) at 1
        by (rewrite !length_app; cbn [length]; lia).
      rewrite (dn2path_loop_suffix _ (r ++ ","%char :: C) s' S Hs').
      replace (length (C ++ s' :: S)) with (Datatypes.S (length C + length S)) at 1
        by (rewrite !length_app; cbn [length]; lia).
      rewrite (dn2path_loop_suffix _ C s' S Hs').
      rewrite (dn2path_loop_leaf (length C) C r ","%char (s' :: S) (s' :: S)
                 (length (r ++ ","%char :: C) + length S) (length C + length S));
        auto; try lia.
      now rewrite <- app_assoc.
Qed.

(** X2. The path of a child is the subtree directory of its parent, a
    separator, the encoded RDN and ".ldif"; so the container that add and
    the tool's put look at ([get_parent_path]) is the parent's subtree
    directory, and the file they probe beside it is the parent's entry
    file. *)
Theorem dn2path_child (be : BackendDB) (r B : berval) :
  sepfree r -> r <> [] -> proper B ->
  dnIsSuffix B (be_nsuffix be) = true ->
  let parent_dir := firstn (length (dn2path be B) - length LDIF) (dn2path be B) in
  dn2path be (r ++ ","%char :: B)
  = parent_dir ++ LDAP_DIRSEP :: dn2path_encode r ++ LDIF /\
  get_parent_path (dn2path be (r ++ ","%char :: B)) = parent_dir /\
  get_parent_path (dn2path be (r ++ ","%char :: B)) ++ LDIF = dn2path be B.
Proof.
  intros Fr Nr PB SB parent_dir.
  assert (E : dn2path be (r ++ ","%char :: B)
              = parent_dir ++ LDAP_DIRSEP :: dn2path_encode r ++ LDIF).
  { unfold parent_dir. rewrite dn2path_dir. unfold dn2path.
    rewrite (dn2path_loop_child (be_nsuffix be) r B Fr Nr PB SB).
    now rewrite <- !app_assoc. }
  assert (G : get_parent_path (dn2path be (r ++ ","%char :: B)) = parent_dir).
  { rewrite E. apply get_parent_path_last. intros I.
    apply in_app_or in I as [I|I].
    - exact (dirsep_not_in_encode r I).
    - vm_compute in I. intuition discriminate. }
  split; [exact E|]. split; [exact G|].
  rewrite G. unfold parent_dir. symmetry. apply dn2path_split.
Qed.

Lemma dn2path_child_witness :
  get_parent_path (dn2path example_be (bv "cn=alice" ++ ","%char :: bv "dc=example,dc=com"))
    ++ LDIF
  = dn2path example_be (bv "dc=example,dc=com").
Proof.
  refine (proj2 (proj2 (dn2path_child example_be (bv "cn=alice")
                          (bv "dc=example,dc=com") _ _ _ _))).
  - repeat constructor.
  - discriminate.
  - reflexivity.
  - vm_compute. reflexivity.
Defined.

(** * The list of children *)

Lemma ber_bvchr_Some s c k :
  ber_bvchr s c = Some k -> k < length s /\ nth k s NUL = c.
Proof.
  revert k. induction s as [|x s IH]; intros k; cbn [ber_bvchr]; [discriminate|].
  destruct (ch_eq x c) eqn:E.
  - intros [= <-]. apply ch_eq_true in E. cbn. split; [lia|assumption].
  - destruct (ber_bvchr s c) as [j|]; [|discriminate].
    cbn. intros [= <-]. destruct (IH j eq_refl). cbn. split; [lia|assumption].
Qed.

Lemma nth_skipn_NUL (s : berval) a k : nth k (skipn a s) NUL = nth (a + k) s NUL.
Proof.
  revert s. induction a as [|a IH]; intros s; [reflexivity|].
  destruct s as [|x s]; cbn [skipn Nat.add nth]; [now destruct k|apply IH].
Qed.

Lemma bvlist_of_restored (fname : berval) :
  empty_braces fname = false ->
  bvlist_restore (bvlist_of fname) = fname.
Proof.
  unfold empty_braces, bvlist_of. intros Hq.
  destruct (ber_bvchr fname IX_FSL) as [i|] eqn:Ei; [|reflexivity].
  destruct (ber_bvchr (skipn (S i) fname) IX_FSR) as [len|] eqn:El; [|reflexivity].
  destruct (ber_bvchr_Some _ _ _ El) as [Hl Hc].
  rewrite length_skipn in Hl. rewrite nth_skipn_NUL in Hc.
  assert (Hlen : len <> 0).
  { intros ->. rewrite Nat.add_0_r in Hc. apply ch_eq_false in Hq. contradiction. }
  unfold bvlist_restore. cbn [bvl_num bvl_off bvl_bv].
  assert (Ls : length (slice fname (S i) (S i + len)) = len)
    by (unfold slice; rewrite length_firstn, length_skipn; lia).
  rewrite Ls.
  rewrite take_insert_ge by lia.
  rewrite drop_insert_lt by lia.
  rewrite app_assoc, <- (firstn_slice fname (S i) (S i + len)) by lia.
  apply firstn_skipn.
Qed.

(** X3. Apart from names whose first '{' is directly followed by '}',
    splitting off the "{num}" of a name and copying it back gives the
    name again: the child is looked up under the name readdir reported.
    For every name, the copy kept in the list has the length of the
    name (one byte is overwritten, none is removed), which is the
    length [fullpath] allocates for. *)
Theorem bvlist_restore_of (fname : berval) :
  length (bvl_bv (bvlist_of fname)) = length fname /\
  (empty_braces fname = false -> bvlist_restore (bvlist_of fname) = fname).
Proof.
  split; [|apply bvlist_of_restored].
  unfold bvlist_of.
  destruct (ber_bvchr fname IX_FSL) as [i|]; [|reflexivity].
  destruct (ber_bvchr (skipn (S i) fname) IX_FSR) as [len|]; [|reflexivity].
  cbn [bvl_bv]. apply length_insert.
Qed.

Lemma bvlist_restore_of_witness :
  bvlist_restore (bvlist_of (bv "olcDatabase={12}mdb.ldif"))
  = bv "olcDatabase={12}mdb.ldif".
Proof.
  apply (proj2 (bvlist_restore_of (bv "olcDatabase={12}mdb.ldif"))).
  vm_compute. reflexivity.
Defined.

Lemma cstr_take_NUL (s : berval) k :
  k < length s -> cstr (<[k := NUL]> s) = cstr (firstn k s).
Proof.
  revert s. induction k as [|k IH]; intros [|x s] H; cbn in H; try lia.
  - reflexivity.
  - cbn [firstn cstr]. cbn. destruct (ch_eq x NUL); [reflexivity|].
    f_equal. apply IH. lia.
Qed.

(** X4. A name whose first '{' is directly followed by '}' is not put
    back together: the '}' is overwritten and nothing is copied back, so
    the child's path is built from the name cut after the '{'. *)
Theorem bvlist_restore_empty_braces (fname : berval) (i : nat) :
  ber_bvchr fname IX_FSL = Some i ->
  nth (S i) fname NUL = IX_FSR ->
  bvlist_restore (bvlist_of fname) = <[S i := NUL]> fname /\
  cstr (bvlist_restore (bvlist_of fname)) = cstr (firstn (S i) fname) /\
  (forall base, length (pb_val base) = pb_len base ->
     pb_val (fullpath base (bvlist_restore (bvlist_of fname)))
     = pb_val base ++ LDAP_DIRSEP :: cstr (firstn (S i) fname)).
Proof.
  intros Ei Hc. destruct (ber_bvchr_Some _ _ _ Ei) as [Hi _].
  assert (Hlt : S i < length fname).
  { destruct (Nat.lt_ge_cases (S i) (length fname)) as [L|G]; [exact L|].
    rewrite nth_overflow in Hc by lia. discriminate Hc. }
  assert (El : ber_bvchr (skipn (S i) fname) IX_FSR = Some 0).
  { rewrite <- (firstn_skipn (S i) fname) in Hc.
    destruct (skipn (S i) fname) as [|x t] eqn:Es.
    - apply (f_equal (@length ascii)) in Es. rewrite length_skipn in Es.
      cbn in Es. lia.
    - replace (S i) with (length (firstn (S i) fname)) in Hc at 1
        by (rewrite length_firstn; lia).
      rewrite nth_middle_app in Hc. subst x. cbn [ber_bvchr].
      now rewrite ch_eq_refl. }
  assert (R : bvlist_restore (bvlist_of fname) = <[S i := NUL]> fname).
  { unfold bvlist_of. rewrite Ei, El. unfold bvlist_restore.
    cbn [bvl_num bvl_off bvl_bv]. unfold slice.
    replace (S i + 0 - S i) with 0 by lia. cbn [firstn app length].
    rewrite Nat.add_0_r. apply firstn_skipn. }
  split; [exact R|]. split.
  - rewrite R. now apply cstr_take_NUL.
  - intros base Hb. unfold fullpath. cbn [pb_val].
    rewrite Hb, Nat.ltb_irrefl, R. now rewrite cstr_take_NUL.
Qed.

Lemma bvlist_restore_empty_braces_witness :
  cstr (bvlist_restore (bvlist_of (bv "cn={}x.ldif"))) = bv "cn={".
Proof.
  refine (proj1 (proj2 (bvlist_restore_empty_braces (bv "cn={}x.ldif") 3 _ _)));
    vm_compute; reflexivity.
Defined.

Lemma cstr_no_NUL s : ~ In NUL (cstr s).
Proof.
  induction s as [|c s IH]; cbn [cstr]; [tauto|].
  destruct (ch_eq c NUL) eqn:E; [cbn; tauto|].
  apply ch_eq_false in E. cbn. intros [H|H]; [congruence|tauto].
Qed.

Lemma code_inj a b : code a = code b -> a = b.
Proof.
  unfold code. intros H. apply N2Z.inj in H.
  rewrite <- (ascii_N_embedding a), <- (ascii_N_embedding b). now rewrite H.
Qed.

Lemma code_zero a : code a = 0%Z -> a = NUL.
Proof. intros H. apply code_inj. rewrite H. reflexivity. Qed.

Lemma strcmp_refl a : strcmp a a = 0%Z.
Proof. induction a as [|x a IH]; cbn [strcmp]; [reflexivity|]. now rewrite ch_eq_refl. Qed.

(** On C strings, [strcmp] is 0 exactly for equal strings. *)
Lemma strcmp_eq a b :
  ~ In NUL a -> ~ In NUL b -> (strcmp a b = 0%Z <-> a = b).
Proof.
  revert b. induction a as [|x a IH]; intros [|y b] Ha Hb; cbn [strcmp].
  - tauto.
  - split; [|discriminate]. intros H. exfalso. apply Hb. left.
    apply code_zero. lia.
  - split; [|discriminate]. intros H. exfalso. apply Ha. left.
    now apply code_zero.
  - destruct (ch_eq x y) eqn:E.
    + apply ch_eq_true in E. subst y. rewrite IH.
      * split; congruence.
      * intros I. apply Ha. now right.
      * intros I. apply Hb. now right.
    + apply ch_eq_false in E. split.
      * intros H. exfalso. apply E, code_inj. lia.
      * congruence.
Qed.

Lemma bvlist_insert_perm bvl lst : Permutation (bvlist_insert bvl lst) (bvl :: lst).
Proof.
  induction lst as [|ptr lst IH]; cbn [bvlist_insert]; [reflexivity|].
  match goal with |- context [if ?c then _ else _] => destruct c end;
    [reflexivity|].
  rewrite IH. apply perm_swap.
Qed.

Lemma in_skipn_in {A} (x : A) n l : In x (skipn n l) -> In x l.
Proof.
  intros H. rewrite <- (firstn_skipn n l). apply in_or_app. now right.
Qed.

Lemma enum_readdir_keeps names : forall lst,
  Permutation (enum_readdir names lst)
    (rev (map bvlist_of (List.filter ends_ldif (map cstr names))) ++ lst).
Proof.
  induction names as [|d names IH]; intros lst; cbn [enum_readdir map List.filter].
  { reflexivity. }
  unfold ends_ldif at 1.
  destruct (length (cstr d) <=? length LDIF) eqn:El.
  - apply Nat.leb_le in El.
    replace (length LDIF <? length (cstr d)) with false
      by (symmetry; apply Nat.ltb_ge; lia).
    cbn [andb]. apply IH.
  - apply Nat.leb_gt in El.
    replace (length LDIF <? length (cstr d)) with true
      by (symmetry; apply Nat.ltb_lt; lia).
    cbn [andb].
    destruct (bv_eqb (skipn (length (cstr d) - length LDIF) (cstr d)) LDIF) eqn:Eb.
    + apply bv_eqb_true in Eb. rewrite Eb, strcmp_refl. cbn [Z.eqb negb].
      rewrite IH. cbn [map rev]. rewrite <- app_assoc. cbn [app].
      apply Permutation_app_head. apply bvlist_insert_perm.
    + assert (Hs : (strcmp (skipn (length (cstr d) - length LDIF) (cstr d)) LDIF
                    =? 0)%Z = false).
      { apply Z.eqb_neq. intros H. apply strcmp_eq in H.
        - rewrite H in Eb. assert (bv_eqb LDIF LDIF = true) by reflexivity. congruence.
        - intros I. apply in_skipn_in in I. exact (cstr_no_NUL d I).
        - vm_compute. intuition discriminate. }
      rewrite Hs. cbn [negb]. apply IH.
Qed.

(** X5. The list of children holds exactly the directory entries whose
    name is longer than ".ldif" and ends in ".ldif", each once; and when
    no such name has "{}" for its first braces, the names the children
    are looked up under are exactly these names. *)
Theorem enum_readdir_exact (names : list berval) :
  Permutation (enum_readdir names [])
    (map bvlist_of (List.filter ends_ldif (map cstr names))) /\
  (Forall (fun fname => empty_braces fname = false)
          (List.filter ends_ldif (map cstr names)) ->
   Permutation (map bvlist_restore (enum_readdir names []))
     (List.filter ends_ldif (map cstr names))).
Proof.
  assert (P : Permutation (enum_readdir names [])
                (map bvlist_of (List.filter ends_ldif (map cstr names)))).
  { rewrite enum_readdir_keeps, app_nil_r. symmetry. apply Permutation_rev. }
  split; [exact P|]. intros F.
  rewrite P, map_map. clear P.
  remember (List.filter ends_ldif (map cstr names)) as l eqn:El. clear El.
  induction F as [|fname l Hf F IH]; cbn [map]; [reflexivity|].
  rewrite (bvlist_of_restored fname Hf). now apply perm_skip.
Qed.

Lemma enum_readdir_exact_witness :
  Permutation
    (map bvlist_restore
       (enum_readdir [bv "."; bv ".."; bv "cn=bob.ldif"; bv "cn=bob"; bv ".ldif";
                      bv "cn={1}a.ldif"] []))
    [bv "cn=bob.ldif"; bv "cn={1}a.ldif"].
Proof.
  refine (proj2 (enum_readdir_exact
            [bv "."; bv ".."; bv "cn=bob.ldif"; bv "cn=bob"; bv ".ldif";
             bv "cn={1}a.ldif"]) _).
  let l := eval vm_compute in
    (List.filter ends_ldif
       (map cstr [bv "."; bv ".."; bv "cn=bob.ldif"; bv "cn=bob"; bv ".ldif";
                  bv "cn={1}a.ldif"])) in
  change (List.filter ends_ldif
       (map cstr [bv "."; bv ".."; bv "cn=bob.ldif"; bv "cn=bob"; bv ".ldif";
                  bv "cn={1}a.ldif"])) with l.
  repeat (apply List.Forall_cons; [vm_compute; reflexivity|]).
  apply List.Forall_nil.
Defined.

(** ** Numeric order of ordered siblings *)

Lemma int_wrap_small z : (- 2 ^ 31 <= z < 2 ^ 31)%Z -> int_wrap z = z.
Proof.
  intros H. unfold int_wrap. rewrite Z.mod_small; lia.
Qed.

Lemma bvlist_insert_sorted key bvl lst :
  ordered_sibling key bvl ->
  Forall (ordered_sibling key) lst ->
  Sorted (fun a b => (bvl_inum a <= bvl_inum b)%Z) lst ->
  Sorted (fun a b => (bvl_inum a <= bvl_inum b)%Z) (bvlist_insert bvl lst).
Proof.
  intros Hb F Hs. destruct Hb as (Hk & Hn & Hr).
  induction lst as [|ptr lst IH]; cbn [bvlist_insert].
  { repeat constructor. }
  apply Forall_cons_iff in F as [(Pk & Pn & Pr) F'].
  pose proof Hs as Hs0. apply Sorted_inv in Hs as [Hs' Hd].
  rewrite Hk, Pk, strcmp_refl. cbn [Z.eqb andb].
  rewrite bool_decide_eq_true_2 by assumption.
  rewrite int_wrap_small by lia.
  destruct (bvl_inum bvl - bvl_inum ptr <? 0)%Z eqn:C.
  - apply Z.ltb_lt in C. constructor; [assumption|]. constructor. lia.
  - apply Z.ltb_ge in C. constructor; [now apply IH|].
    destruct lst as [|q lst]; cbn [bvlist_insert].
    + constructor. lia.
    + apply Forall_cons_iff in F' as [(Qk & Qn & Qr) _].
      rewrite Hk, Qk, strcmp_refl. cbn [Z.eqb andb].
      rewrite bool_decide_eq_true_2 by assumption.
      rewrite int_wrap_small by lia.
      apply HdRel_inv in Hd.
      destruct (bvl_inum bvl - bvl_inum q <? 0)%Z; constructor; lia.
Qed.

Lemma bvlist_insert_Forall (P : bvlist -> Prop) bvl lst :
  P bvl -> Forall P lst -> Forall P (bvlist_insert bvl lst).
Proof.
  intros Hb F. eapply Permutation_Forall; [symmetry; apply bvlist_insert_perm|].
  now constructor.
Qed.

Lemma enum_readdir_sorted key names : forall lst,
  Forall (fun fname => ordered_sibling key (bvlist_of fname))
         (List.filter ends_ldif (map cstr names)) ->
  Forall (ordered_sibling key) lst ->
  Sorted (fun a b => (bvl_inum a <= bvl_inum b)%Z) lst ->
  Sorted (fun a b => (bvl_inum a <= bvl_inum b)%Z) (enum_readdir names lst).
Proof.
  induction names as [|d names IH]; intros lst F Fl Hs;
    cbn [enum_readdir map List.filter] in *; [assumption|].
  unfold ends_ldif in F at 1.
  destruct (length (cstr d) <=? length LDIF) eqn:El.
  - apply Nat.leb_le in El.
    replace (length LDIF <? length (cstr d)) with false in F
      by (symmetry; apply Nat.ltb_ge; lia).
    cbn [andb] in F. now apply IH.
  - apply Nat.leb_gt in El.
    replace (length LDIF <? length (cstr d)) with true in F
      by (symmetry; apply Nat.ltb_lt; lia).
    cbn [andb] in F.
    destruct (strcmp (skipn (length (cstr d) - length LDIF) (cstr d)) LDIF =? 0)%Z
      eqn:Es; cbn [negb].
    + apply Z.eqb_eq, strcmp_eq in Es.
      2:{ intros I. apply in_skipn_in in I. exact (cstr_no_NUL d I). }
      2:{ vm_compute. intuition discriminate. }
      rewrite Es in F. change (bv_eqb LDIF LDIF) with true in F.
      apply Forall_cons_iff in F as [Hb F'].
      apply IH; [assumption| |].
      * now apply bvlist_insert_Forall.
      * now apply (bvlist_insert_sorted key).
    + destruct (bv_eqb (skipn (length (cstr d) - length LDIF) (cstr d)) LDIF) eqn:Eb.
      * apply bv_eqb_true in Eb. rewrite Eb, strcmp_refl in Es. discriminate Es.
      * now apply IH.
Qed.

(** X6. Ordered siblings of one attribute are visited in ascending order
    of the numbers strtol() reads from their indices with base 0,
    whatever the order readdir reports them in, as far as these numbers
    lie between -2^30 and 2^30, where the int subtraction that compares
    them cannot wrap: if every kept name is cut to the same key and has
    such a number, the numbers of the list are ascending. *)
Theorem enum_readdir_numeric_order (key : berval) (names : list berval) :
  Forall (fun fname => ordered_sibling key (bvlist_of fname))
         (List.filter ends_ldif (map cstr names)) ->
  Sorted Z.le (map bvl_inum (enum_readdir names [])).
Proof.
  intros F.
  pose proof (enum_readdir_sorted key names [] F (List.Forall_nil _) (Sorted_nil _)) as Hs.
  induction Hs as [|b l Hs IH Hd]; cbn [map]; constructor; auto.
  destruct Hd; cbn [map]; constructor; assumption.
Qed.

Lemma enum_readdir_numeric_order_witness :
  Sorted Z.le
    (map bvl_inum
       (enum_readdir [bv "olcDatabase={2}mdb.ldif"; bv "olcDatabase={-1}frontend.ldif";
                      bv "olcDatabase={10}monitor.ldif"; bv "olcDatabase={0}config.ldif"]
          [])).
Proof.
  apply (enum_readdir_numeric_order (bv "olcDatabase={")).
  assert (O : forall fname,
    (bv_eqb (cstr (bvl_bv (bvlist_of fname))) (bv "olcDatabase={")
     && match bvl_num (bvlist_of fname) with Some _ => true | None => false end
     && (- 2 ^ 30 <=? bvl_inum (bvlist_of fname))%Z
     && (bvl_inum (bvlist_of fname) <? 2 ^ 30)%Z) = true ->
    ordered_sibling (bv "olcDatabase={") (bvlist_of fname)).
  { intros fname H. repeat (apply andb_true_iff in H as [H ?]).
    apply bv_eqb_true in H. split; [exact H|]. split.
    - destruct (bvl_num (bvlist_of fname)); [discriminate|discriminate].
    - split; [now apply Z.leb_le|now apply Z.ltb_lt]. }
  let l := eval vm_compute in
    (List.filter ends_ldif
       (map cstr [bv "olcDatabase={2}mdb.ldif"; bv "olcDatabase={-1}frontend.ldif";
                  bv "olcDatabase={10}monitor.ldif"; bv "olcDatabase={0}config.ldif"])) in
  change (List.filter ends_ldif
       (map cstr [bv "olcDatabase={2}mdb.ldif"; bv "olcDatabase={-1}frontend.ldif";
                  bv "olcDatabase={10}monitor.ldif"; bv "olcDatabase={0}config.ldif"]))
    with l.
  repeat (apply List.Forall_cons; [apply O; vm_compute; reflexivity|]).
  apply List.Forall_nil.
Defined.

(** * The tool cursor and its buffer *)

Lemma tool_scan_from (n : nat) : forall li,
  (li_tool_current li <= ck_eind (li_tool_cookie li))%N ->
  tool_scan n li
  = map (fun k => (li_tool_current li + N.of_nat k)%N)
        (seq 1 (Nat.min n (N.to_nat (ck_eind (li_tool_cookie li) - li_tool_current li))))
    ++ replicate (n - N.to_nat (ck_eind (li_tool_cookie li) - li_tool_current li)) NOID.
Proof.
  induction n as [|n IH]; intros li Hc; [reflexivity|].
  cbn [tool_scan]. unfold ldif_tool_entry_next.
  destruct (ck_eind (li_tool_cookie li) <=? li_tool_current li)%N eqn:E.
  - apply N.leb_le in E.
    rewrite (IH li Hc).
    replace (N.to_nat (ck_eind (li_tool_cookie li) - li_tool_current li)) with 0 by lia.
    rewrite !Nat.min_0_r, !Nat.sub_0_r. reflexivity.
  - apply N.leb_gt in E.
    rewrite IH by (cbn; lia). cbn [li_set_current li_tool_current li_tool_cookie].
    set (d := N.to_nat (ck_eind (li_tool_cookie li) - li_tool_current li)).
    replace (N.to_nat (ck_eind (li_tool_cookie li) - (li_tool_current li + 1)))
      with (d - 1) by (subst d; lia).
    assert (Hd : 0 < d) by (subst d; lia).
    replace (Nat.min (S n) d) with (S (Nat.min n (d - 1))) by lia.
    replace (S n - d) with (n - (d - 1)) by lia.
    cbn [seq map]. rewrite app_comm_cons. f_equal. f_equal.
    rewrite <- (seq_shift (Nat.min n (d - 1)) 1), map_map. apply map_ext. intros k. lia.
Qed.

(** X7. After [ldif_tool_entry_open], successive calls of
    [ldif_tool_entry_next] return 1, 2, ..., eind and from then on NOID:
    every id the cursor hands out is one [ldif_tool_entry_get] accepts. *)
Theorem ldif_tool_entry_next_ids (li : ldif_info) (n : nat) :
  let eind := N.to_nat (ck_eind (li_tool_cookie li)) in
  tool_scan n (snd (ldif_tool_entry_open li))
  = map N.of_nat (seq 1 (Nat.min n eind)) ++ replicate (n - eind) NOID.
Proof.
  cbv zeta. rewrite tool_scan_from by (cbn; lia).
  cbn [ldif_tool_entry_open snd li_set_current li_tool_current li_tool_cookie].
  rewrite N.sub_0_r. reflexivity.
Qed.

Lemma ck_queue_buffer (ck : enumCookie) (e : Entry) :
  cookie_ok ck ->
  cookie_ok (ck_queue ck e) /\
  ck_buffered (ck_queue ck e) = ck_buffered ck ++ [Some e].
Proof.
  unfold cookie_ok, ck_buffered, ck_queue.
  destruct (ck_entries ck) as [entries|] eqn:Ee.
  - intros (Hl & Hi & H0).
    destruct (ck_elen ck <=? ck_eind ck)%N eqn:Eg;
      cbn [ck_entries ck_elen ck_eind ck_op ck_rs default].
    + apply N.leb_le in Eg. assert (Heq : ck_eind ck = ck_elen ck) by lia.
      repeat split; try lia.
      * rewrite length_insert, length_app, length_replicate. lia.
      * rewrite Heq, <- Hl.
        rewrite insert_app_r_alt by lia. rewrite Nat.sub_diag.
        replace (N.to_nat (N.of_nat (length entries) + 1)) with (length entries + 1)
          by lia.
        replace (N.to_nat (ck_elen ck + 1)) with (length entries + 1) by lia.
        rewrite firstn_all.
        destruct (N.to_nat (ck_elen ck)) as [|k] eqn:Ek; [lia|].
        cbn [replicate]. cbn.
        rewrite take_app_add'; [|reflexivity]. rewrite Hl. reflexivity.
    + apply N.leb_gt in Eg.
      repeat split; try lia.
      * now rewrite length_insert.
      * replace (N.to_nat (ck_eind ck + 1)) with (S (N.to_nat (ck_eind ck))) by lia.
        assert (Hlt : N.to_nat (ck_eind ck) < length entries) by lia.
        rewrite (take_S_r _ _ (Some e)) by (apply list_lookup_insert_eq; lia).
        unfold id. now rewrite take_insert_ge by lia.
  - intros Hi. rewrite Hi.
    cbn [ck_entries ck_elen ck_eind ck_op ck_rs default N.leb N.compare
         ENTRY_BUFF_INCREMENT].
    split; [split; [vm_compute; reflexivity|split; [discriminate|reflexivity]]|].
    vm_compute; reflexivity.
Qed.

Lemma ck_queue_rs ck e : ck_rs (ck_queue ck e) = ck_rs ck.
Proof.
  unfold ck_queue. destruct (ck_entries ck); cbn;
    match goal with |- context [N.leb ?a ?b] => destruct (N.leb a b) end;
    reflexivity.
Qed.

(** X8. Queueing an entry for the tool keeps the buffer consistent: the
    entry is stored in slot [eind] inside the buffer (which is allocated
    with 500 slots or doubled when full), the entries queued before stay
    where they were, and [eind] grows by one. *)
Theorem ck_queue_ok (ck : enumCookie) (e : Entry) :
  cookie_ok ck ->
  cookie_ok (ck_queue ck e) /\
  ck_eind (ck_queue ck e) = (ck_eind ck + 1)%N /\
  ck_buffered (ck_queue ck e) = ck_buffered ck ++ [Some e] /\
  ck_op (ck_queue ck e) = ck_op ck /\ ck_rs (ck_queue ck e) = ck_rs ck.
Proof.
  intros Hok. destruct (ck_queue_buffer ck e Hok) as [Hc Hb].
  split; [exact Hc|]. split.
  - unfold ck_queue. destruct (ck_entries ck); cbn;
      match goal with |- context [N.leb ?a ?b] => destruct (N.leb a b) end;
      reflexivity.
  - split; [exact Hb|]. split; [apply ck_queue_op|apply ck_queue_rs].
Qed.

Lemma ck_queue_ok_witness :
  ck_buffered (ck_queue (li_tool_cookie example_li) example_carol)
  = [Some example_carol].
Proof.
  refine (proj1 (proj2 (proj2 (ck_queue_ok (li_tool_cookie example_li)
                                 example_carol _)))).
  reflexivity.
Defined.

(** * Reading and writing files: retries, growth and close *)

Lemma ldif_read_loop_spec reads : forall len st buf,
  forallb read_goes_on reads = true ->
  (0 <= len)%Z ->
  let data := concat (map read_chunk reads) in
  let st' := ldif_read_loop reads len st buf in
  ((Z.of_nat (length data) < len)%Z ->
     rs_res st' = 0%Z /\ rs_data st' = Some (buf ++ data)) /\
  ((len <= Z.of_nat (length data))%Z -> (0 < len \/ 0 < rs_res st)%Z ->
     (0 < rs_res st')%Z).
Proof.
  induction reads as [|r reads IH]; intros len st buf Hg Hlen; cbv zeta.
  - cbn [ldif_read_loop map concat length]. rewrite app_nil_r.
    destruct (len =? 0)%Z eqn:E0.
    + apply Z.eqb_eq in E0. cbn. split; [lia|]. intros _ [H|H]; lia.
    + apply Z.eqb_neq in E0. cbn. split; [auto|]. intros H. cbn in H. lia.
  - cbn [forallb] in Hg. apply andb_prop in Hg as [Hr Hg].
    cbn [ldif_read_loop map concat]. rewrite length_app.
    destruct (len =? 0)%Z eqn:E0.
    { apply Z.eqb_eq in E0. cbn. split; [lia|]. intros _ [H|H]; lia. }
    apply Z.eqb_neq in E0.
    destruct r as [chunk|e]; cbn [read_chunk read_goes_on] in *.
    + apply negb_true_iff, Nat.eqb_neq in Hr.
      set (got := firstn (Z.to_nat len) chunk).
      assert (Hgot : length got = Nat.min (Z.to_nat len) (length chunk))
        by apply length_firstn.
      replace (Z.of_nat (length got) =? 0)%Z with false
        by (symmetry; apply Z.eqb_neq; lia).
      match goal with |- context [ldif_read_loop reads ?l ?s ?b] =>
        destruct (IH l s b Hg ltac:(lia)) as [I1 I2] end.
      split.
      * intros Hlt. assert (Hall : got = chunk)
          by (subst got; apply firstn_all2; lia).
        rewrite Hall in *. destruct I1 as [R D]; [lia|].
        split; [exact R|]. now rewrite D, app_assoc.
      * intros Hle _. apply I2; [lia|]. right. cbn [rs_res]. lia.
    + apply bool_decide_eq_true in Hr. subst e.
      destruct (decide (EINTR = EINTR)) as [_|N]; [|congruence].
      match goal with |- context [ldif_read_loop reads ?l ?s ?b] =>
        destruct (IH l s b Hg Hlen) as [I1 I2] end.
      cbn [length Nat.add] in *. split; [exact I1|].
      intros Hle _. apply I2; [exact Hle|]. left. lia.
Qed.

(** X9. [ldif_read_file] with reads that hand over some bytes or are
    interrupted (EINTR) until the end of the file: interrupted reads are
    retried; when the file holds no more than fstat() reported, the
    result is LDAP_SUCCESS with exactly the bytes read, in order; when it
    holds more (it grew), the extra byte asked for is filled and the
    result is LDAP_OTHER with no data. *)
Theorem ldif_read_file_reads (env : read_calls) (errno0 : option errno) (size : Z) :
  rc_open env = Ok tt ->
  rc_fstat env = Ok size ->
  (0 <= size <= INT_MAX - 2)%Z ->
  rc_malloc env = true ->
  rc_close env = Ok tt ->
  forallb read_goes_on (rc_read env) = true ->
  let data := concat (map read_chunk (rc_read env)) in
  let r := ldif_read_file env errno0 false in
  ((Z.of_nat (length data) <= size)%Z ->
     rr_rc r = LDAP_SUCCESS /\ rr_data r = Some data) /\
  ((size < Z.of_nat (length data))%Z ->
     rr_rc r = LDAP_OTHER /\ rr_data r = None).
Proof.
  intros Ho Hf Hs Hm Hc Hg. cbv zeta. unfold ldif_read_file. cbv zeta.
  rewrite Ho, Hf, Hm, Hc.
  replace (size >? INT_MAX - 2)%Z with false
    by (symmetry; rewrite Z.gtb_ltb; apply Z.ltb_ge; lia).
  match goal with |- context [ldif_read_loop ?rd ?l ?s ?b] =>
    destruct (ldif_read_loop_spec rd l s b Hg ltac:(lia)) as [I1 I2];
    set (st' := ldif_read_loop rd l s b) in * end.
  cbn [rs_res rs_errno rs_data rs_calls] in *. split.
  - intros Hle. destruct I1 as [R D]; [lia|]. rewrite R, D. cbn. auto.
  - intros Hlt. specialize (I2 ltac:(lia) ltac:(left; lia)).
    replace (rs_res st' =? 0)%Z with false by (symmetry; apply Z.eqb_neq; lia).
    replace (rs_res st' <? 0)%Z with false by (symmetry; apply Z.ltb_ge; lia).
    cbn. auto.
Qed.

Lemma ldif_read_file_reads_witness :
  let env := {| rc_stat := Ok tt; rc_open := Ok tt; rc_fstat := Ok 5%Z;
                rc_malloc := true;
                rc_read := [Ok (bv "dn"); Err EINTR; Ok (bv ": x")];
                rc_close := Ok tt |} in
  rr_rc (ldif_read_file env None false) = LDAP_SUCCESS /\
  rr_data (ldif_read_file env None false) = Some (bv "dn: x").
Proof.
  cbv zeta.
  refine (proj1 (ldif_read_file_reads _ None 5 _ _ _ _ _ _) _);
    try reflexivity; vm_compute; try split; congruence.
Defined.

(** X10. When close() fails after a successful open(), [ldif_read_file]
    hands over no data and does not return LDAP_SUCCESS, whatever was
    read; the result is LDAP_NO_SUCH_OBJECT exactly when close() left
    ENOENT in errno. *)
Theorem ldif_read_file_close_fails (env : read_calls) (errno0 : option errno)
    (e : errno) :
  rc_open env = Ok tt ->
  rc_close env = Err e ->
  let r := ldif_read_file env errno0 false in
  rr_data r = None /\ rr_rc r <> LDAP_SUCCESS /\
  (rr_rc r = LDAP_NO_SUCH_OBJECT <-> e = ENOENT).
Proof.
  intros Ho Hc. cbv zeta. unfold ldif_read_file. cbv zeta. rewrite Ho, Hc.
  cbn [rs_res rs_errno Z.eqb Z.ltb Z.compare andb].
  destruct (bool_decide (Some e = Some ENOENT)) eqn:E; cbn [rr_rc rr_data].
  - apply bool_decide_eq_true in E. split; [reflexivity|].
    split; [discriminate|]. split; congruence.
  - apply bool_decide_eq_false in E. split; [reflexivity|].
    split; [discriminate|]. split; [discriminate|congruence].
Qed.

Lemma ldif_read_file_close_fails_witness :
  let env := {| rc_stat := Ok tt; rc_open := Ok tt; rc_fstat := Ok 2%Z;
                rc_malloc := true; rc_read := [Ok (bv "dn")];
                rc_close := Err EIO |} in
  rr_rc (ldif_read_file env None false) <> LDAP_SUCCESS.
Proof.
  cbv zeta.
  refine (proj1 (proj2 (ldif_read_file_close_fails _ None EIO _ _)));
    reflexivity.
Defined.

Lemma spew_file_outcome writes : forall (fs : filesys) fd spew wr se d0,
  fs !! fd = Some (IFile d0) ->
  (0 <= wr)%Z \/ spew <> [] ->
  exists res se' fs1 written,
    spew_file writes fs fd spew wr se = (res, se', fs1) /\
    fs1 !! fd = Some (IFile (d0 ++ written)) /\
    (forall q, q <> fd -> fs1 !! q = fs !! q) /\
    ((0 <= res)%Z /\ written = spew \/
     res = (-1)%Z /\ length written < length spew /\
     written = firstn (length written) spew /\
     exists e, se' = Some e /\ e <> EINTR /\ In (W_err e) writes).
Proof.
  induction writes as [|w writes IH]; intros fs fd spew wr se d0 Hfd Hwr.
  - destruct spew as [|c spew]; cbn [spew_file].
    + exists wr, se, fs, []. rewrite app_nil_r. repeat split; auto.
      destruct Hwr as [Hwr|Hwr]; [left; auto | congruence].
    + exists (Z.of_nat (length (c :: spew))), se,
        (fs_append fs fd (c :: spew)), (c :: spew).
      repeat split; auto using fs_append_at, fs_append_other.
      left. split; [lia|reflexivity].
  - destruct spew as [|c spew]; cbn [spew_file].
    + exists wr, se, fs, []. rewrite app_nil_r. repeat split; auto.
      destruct Hwr as [Hwr|Hwr]; [left; auto | congruence].
    + destruct w as [extra|e].
      * set (n := Nat.min (S extra) (length (c :: spew))).
        destruct (IH (fs_append fs fd (firstn n (c :: spew))) fd
                    (skipn n (c :: spew)) (Z.of_nat n) se
                    (d0 ++ firstn n (c :: spew)))
          as (res & se' & fs1 & written & E & Hf & Ho & Hr).
        { now apply fs_append_at. }
        { left. lia. }
        exists res, se', fs1, (firstn n (c :: spew) ++ written).
        split; [exact E|]. split; [now rewrite app_assoc|]. split.
        { intros q Hq. rewrite (Ho q Hq). now apply fs_append_other. }
        destruct Hr as [[Hr ->]|(Hr & Hl & Hp & e & He & Hne & Hin)].
        { left. split; [exact Hr|apply firstn_skipn]. }
        right. split; [exact Hr|].
        assert (Hn : length (firstn n (c :: spew)) = n)
          by (rewrite length_firstn; subst n; lia).
        rewrite length_skipn in Hl. rewrite length_app, Hn.
        split; [subst n; lia|]. split.
        { rewrite <- take_take_drop, <- Hp. reflexivity. }
        exists e. repeat split; auto. now right.
      * destruct (decide (e = EINTR)) as [->|Hne].
        { destruct (IH fs fd (c :: spew) (-1)%Z (Some EINTR) d0 Hfd)
            as (res & se' & fs1 & written & E & Hf & Ho & Hr);
            [right; discriminate|].
          exists res, se', fs1, written. repeat split; auto.
          destruct Hr as [Hr|(Hr & Hl & Hp & e & He & Hne & Hin)]; [now left|].
          right. repeat split; auto. exists e. repeat split; auto. now right. }
        exists (-1)%Z, (Some e), fs, []. rewrite app_nil_r.
        repeat split; auto. right. repeat split; cbn [length]; try lia.
        exists e. repeat split; auto. now left.
Qed.

(** X11. [spew_file] on an open file "returns nonnegative for success or
    -1 for error" and never less: the bytes already accepted are not
    written again after a partial write or an interrupted one; a
    nonnegative result means the file received all the data; -1 means a
    write failed with something else than EINTR, which is what
    [save_errno] holds, and the file received a proper prefix of the data.
    No other file is touched, and when no write fails other than by
    EINTR the result is nonnegative. *)
Theorem spew_file_result (writes : list write_outcome) (fs : filesys)
    (fd spew d0 : berval) :
  fs !! fd = Some (IFile d0) ->
  let res := fst (fst (spew_file writes fs fd spew 0 None)) in
  let save_errno := snd (fst (spew_file writes fs fd spew 0 None)) in
  let fs1 := snd (spew_file writes fs fd spew 0 None) in
  (-1 <= res)%Z /\
  (forall q, q <> fd -> fs1 !! q = fs !! q) /\
  ((0 <= res)%Z -> fs1 !! fd = Some (IFile (d0 ++ spew))) /\
  (res = (-1)%Z ->
     exists e written,
       save_errno = Some e /\ e <> EINTR /\ In (W_err e) writes /\
       fs1 !! fd = Some (IFile (d0 ++ written)) /\
       length written < length spew /\
       written = firstn (length written) spew) /\
  (existsb hard_error writes = false -> (0 <= res)%Z).
Proof.
  intros Hfd. cbv zeta.
  destruct (spew_file_outcome writes fs fd spew 0%Z None d0 Hfd ltac:(left; lia))
    as (res & se & fs1 & written & E & Hf & Ho & Hr).
  rewrite E. cbn [fst snd].
  destruct Hr as [[Hr ->]|(-> & Hl & Hp & e & -> & Hne & Hin)].
  - split; [lia|]. split; [exact Ho|]. split; [auto|]. split; [lia|auto].
  - split; [lia|]. split; [exact Ho|]. split; [lia|]. split.
    + intros _. exists e, written. repeat split; auto.
    + intros Hx. exfalso.
      assert (Hex : existsb hard_error writes = true).
      { apply existsb_exists. exists (W_err e). split; [exact Hin|].
        cbn [hard_error]. apply negb_true_iff, bool_decide_eq_false. exact Hne. }
      congruence.
Qed.

Lemma spew_file_result_witness :
  let fs : filesys := {[ bv "/tmp/x" := IFile (bv "a") ]} in
  snd (spew_file [W_wrote 0; W_err EINTR; W_wrote 0] fs (bv "/tmp/x") (bv "bcde") 0 None)
    !! bv "/tmp/x" = Some (IFile (bv "abcde")).
Proof.
  cbv zeta.
  refine (proj1 (proj2 (proj2 (spew_file_result _ _ _ _ (bv "a") _))) _).
  - vm_compute; reflexivity.
  - vm_compute; congruence.
Defined.

(** * Writing an entry file: success *)

Lemma fs_link_is_dir (fs : filesys) p i d :
  is_dir fs d = true -> d <> p -> is_dir (fs_link p i fs) d = true.
Proof.
  unfold is_dir, fs_link. intros H Hne.
  rewrite lookup_insert_ne by congruence. rewrite lookup_alter.
  case_decide as E.
  - rewrite E. destruct (fs !! d) as [[x|m ns]|]; try discriminate. reflexivity.
  - exact H.
Qed.

Lemma fs_link_not_dir (fs : filesys) p i q :
  q <> p -> not_dir (fs !! q) -> not_dir (fs_link p i fs !! q).
Proof. intros Hne Hq. now rewrite fs_link_other. Qed.

Ltac write_fails :=
  cbn -[sys_unlink bool_decide];
  match goal with
  | |- context [bool_decide ?P] => destruct (bool_decide P)
  end; cbn [fst]; discriminate.

Section WriteSuccess.
Context `{SL : !Slapd}.

Lemma ldif_write_entry_success (env : write_calls) (fs : filesys) (e : Entry)
    (path : berval) :
  fst (ldif_write_entry env fs e path) = LDAP_SUCCESS ->
  exists data,
    entry2str (stored_entry e) = Some data /\
    snd (ldif_write_entry env fs e path) !! path = Some (IFile data) /\
    forall q, q <> path -> not_dir (fs !! q) ->
      snd (ldif_write_entry env fs e path) !! q = fs !! q.
Proof.
  unfold ldif_write_entry.
  set (tmp := firstn (length (ldif_tempname path) - 6) (ldif_tempname path)
              ++ mkstemp_chars 6 (wc_seed env)).
  assert (Htmp : tmp <> path) by apply mkstemp_name_fresh.
  destruct (wc_tempname env); cycle 1.
  { cbn. discriminate. }
  unfold sys_mkstemp. fold tmp.
  destruct (wc_mkstemp env) as [f|].
  { destruct f; cbn; discriminate. }
  destruct (is_dir fs (path_dirname tmp)) eqn:Hpd; cycle 1.
  { write_fails. }
  cbn [negb].
  destruct (fs !! tmp) as [i|] eqn:Hfree.
  { cbn. discriminate. }
  set (fs0 := fs_link tmp (IFile []) fs).
  assert (H0 : fs0 !! tmp = Some (IFile [])) by apply fs_link_there.
  destruct (entry2str (stored_entry e)) as [data|] eqn:Es.
  2:{ destruct (wc_close env) as [f|]; write_fails. }
  destruct (spew_file_outcome (wc_write env) fs0 tmp data 0%Z None [] H0
              ltac:(left; lia))
    as (res & se & fs1 & written & E & H1 & H1o & Hres).
  rewrite E. cbn [app] in H1.
  destruct Hres as [[Hres ->]|(-> & _)].
  2:{ destruct (wc_close env) as [f|]; write_fails. }
  replace (res >=? 0)%Z with true
    by (symmetry; rewrite Z.geb_leb; now apply Z.leb_le).
  destruct (wc_close env) as [f|].
  { write_fails. }
  replace (res >=? 0)%Z with true
    by (symmetry; rewrite Z.geb_leb; now apply Z.leb_le).
  unfold sys_rename.
  destruct (wc_move env) as [f|].
  { write_fails. }
  rewrite H1.
  assert (Done : forall q, q <> path -> not_dir (fs !! q) ->
            fs_link path (IFile data) (fs_unlink tmp fs1) !! q = fs !! q).
  { intros q Hq Hnd. destruct (decide (q = tmp)) as [->|Hqt].
    - rewrite fs_link_other; [| exact Hq |]; rewrite fs_unlink_gone;
        [now rewrite Hfree | intros m ns; discriminate].
    - assert (Hq0 : fs0 !! q = fs !! q) by (now apply fs_link_other).
      assert (Hq1 : fs1 !! q = fs !! q) by (now rewrite H1o).
      rewrite fs_link_other; [| exact Hq |].
      + rewrite fs_unlink_other; [exact Hq1 | exact Hqt | now rewrite Hq1].
      + rewrite fs_unlink_other; [now rewrite Hq1 | exact Hqt | now rewrite Hq1]. }
  destruct (fs1 !! path) as [[dp|mp nsp]|] eqn:Hp.
  - destruct (is_dir fs1 (path_dirname path)).
    + cbn. intros _. exists data. split; [reflexivity|].
      split; [apply fs_link_there|exact Done].
    + write_fails.
  - write_fails.
  - destruct (is_dir fs1 (path_dirname path)).
    + cbn. intros _. exists data. split; [reflexivity|].
      split; [apply fs_link_there|exact Done].
    + write_fails.
Qed.

(** Nothing stands in the way of the write: it returns LDAP_SUCCESS. *)
Lemma ldif_write_entry_goes_through (env : write_calls) (fs : filesys)
    (e : Entry) (path data : berval) :
  let tmp := firstn (length (ldif_tempname path) - 6) (ldif_tempname path)
             ++ mkstemp_chars 6 (wc_seed env) in
  wc_tempname env = true -> wc_mkstemp env = None ->
  wc_close env = None -> wc_move env = None ->
  existsb hard_error (wc_write env) = false ->
  entry2str (stored_entry e) = Some data ->
  is_dir fs (path_dirname tmp) = true -> fs !! tmp = None ->
  is_dir fs (path_dirname path) = true -> not_dir (fs !! path) ->
  fst (ldif_write_entry env fs e path) = LDAP_SUCCESS.
Proof.
  cbv zeta. set (tmp := firstn _ _ ++ _).
  intros Ht Hm Hc Hmv Hw Es Hdt Hfree Hdp Hnd.
  assert (Htmp : tmp <> path) by apply mkstemp_name_fresh.
  unfold ldif_write_entry. rewrite Ht, Hm, Hc, Hmv, Es.
  unfold sys_mkstemp. fold tmp. rewrite Hdt, Hfree. cbn [negb].
  set (fs0 := fs_link tmp (IFile []) fs).
  assert (H0 : fs0 !! tmp = Some (IFile [])) by apply fs_link_there.
  destruct (spew_file_outcome (wc_write env) fs0 tmp data 0%Z None [] H0
              ltac:(left; lia))
    as (res & se & fs1 & written & E & H1 & H1o & Hres).
  rewrite E. cbn [app] in H1.
  destruct Hres as [[Hres ->]|(_ & _ & _ & x & _ & Hne & Hin)].
  2:{ exfalso. assert (Hex : existsb hard_error (wc_write env) = true).
      { apply existsb_exists. exists (W_err x). split; [exact Hin|].
        cbn [hard_error]. apply negb_true_iff, bool_decide_eq_false. exact Hne. }
      congruence. }
  replace (res >=? 0)%Z with true
    by (symmetry; rewrite Z.geb_leb; now apply Z.leb_le).
  unfold sys_rename. rewrite H1.
  assert (Hp1 : fs1 !! path = fs !! path).
  { rewrite H1o by congruence. apply fs_link_other; [congruence|exact Hnd]. }
  assert (Hd1 : is_dir fs1 (path_dirname path) = true).
  { assert (Hne : path_dirname path <> tmp).
    { intros X. unfold is_dir in Hdp. rewrite X, Hfree in Hdp. discriminate. }
    unfold is_dir. rewrite H1o by exact Hne.
    apply (fs_link_is_dir fs tmp (IFile []) _ Hdp Hne). }
  rewrite Hp1, Hd1.
  destruct (fs !! path) as [[dp|mp nsp]|] eqn:Hp; [reflexivity| |reflexivity].
  now destruct (Hnd mp nsp).
Qed.

(** X12. [ldif_write_entry] succeeds when nothing stands in its way: the
    temporary name is free and its directory exists, the entry can be
    serialized, no write fails other than by EINTR, close and rename do
    not fail, the target's directory exists and the target is not a
    directory.  Then the target holds the serialized entry, and every
    other path that was not a directory (the temporary name among them)
    is as before. *)
Theorem ldif_write_entry_succeeds (env : write_calls) (fs : filesys) (e : Entry)
    (path data : berval) :
  let tmp := firstn (length (ldif_tempname path) - 6) (ldif_tempname path)
             ++ mkstemp_chars 6 (wc_seed env) in
  wc_tempname env = true -> wc_mkstemp env = None ->
  wc_close env = None -> wc_move env = None ->
  existsb hard_error (wc_write env) = false ->
  entry2str (stored_entry e) = Some data ->
  is_dir fs (path_dirname tmp) = true -> fs !! tmp = None ->
  is_dir fs (path_dirname path) = true -> not_dir (fs !! path) ->
  fst (ldif_write_entry env fs e path) = LDAP_SUCCESS /\
  snd (ldif_write_entry env fs e path) !! path = Some (IFile data) /\
  forall q, q <> path -> not_dir (fs !! q) ->
    snd (ldif_write_entry env fs e path) !! q = fs !! q.
Proof.
  cbv zeta. set (tmp := firstn _ _ ++ _).
  intros Ht Hm Hc Hmv Hw Es Hdt Hfree Hdp Hnd.
  assert (Htmp : tmp <> path) by apply mkstemp_name_fresh.
  assert (Hrc : fst (ldif_write_entry env fs e path) = LDAP_SUCCESS)
    by (now apply (ldif_write_entry_goes_through env fs e path data)).
  split; [exact Hrc|].
  destruct (ldif_write_entry_success env fs e path Hrc) as (d & Ed & Hf & Ho).
  rewrite Es in Ed. injection Ed as <-. split; [exact Hf|exact Ho].
Qed.

End WriteSuccess.

Lemma ldif_write_entry_succeeds_witness :
  let path := bv "/var/data/dc=example,dc=com/cn=bob/cn=carol.ldif" in
  let fs : filesys :=
    <[bv "/var/data/dc=example,dc=com/cn=bob" := IDir 488 []]> example_fs in
  fst (@ldif_write_entry example_slapd example_write_calls fs example_carol path)
  = LDAP_SUCCESS.
Proof.
  cbv zeta.
  refine (proj1 (@ldif_write_entry_succeeds example_slapd example_write_calls _
                   example_carol _ (bv "cn=carol") _ _ _ _ _ _ _ _ _ _));
    try (vm_compute; reflexivity).
  intros m ns. vm_compute. discriminate.
Defined.

(** * Reading back what was written; the tool's put; entry_get *)

Section WriteRead.
Context `{SL : !Slapd}.

(** X13. An entry file written by [ldif_write_entry] at the path of a DN
    is what [get_entry] reads for that DN afterwards: the entry parsed
    from exactly the bytes [entry2str] produced for the entry cut to its
    RDN, with the parent of the requested DN appended again (unless that
    parent is empty). *)
Theorem ldif_write_then_get_entry (env : write_calls) (be : BackendDB)
    (fs : filesys) (e e0 : Entry) (op : Operation) (data : berval) :
  let path := dn2path be (o_req_ndn op) in
  fst (ldif_write_entry env fs e path) = LDAP_SUCCESS ->
  entry2str (stored_entry e) = Some data ->
  (Z.of_nat (length data) <= INT_MAX - 2)%Z ->
  str2entry data = Some e0 ->
  get_entry be (snd (ldif_write_entry env fs e path)) op false
  = (LDAP_SUCCESS,
     Some (match dnParent (o_req_dn op) with
           | [] => e0
           | _ :: _ =>
               {| e_name := build_new_dn (dnParent (o_req_dn op)) (e_name e0);
                  e_nname := build_new_dn (dnParent (o_req_ndn op)) (e_nname e0);
                  e_attrs := e_attrs e0; e_ocflags := e_ocflags e0 |}
           end),
     path).
Proof.
  cbv zeta. intros Hrc Es Hlen Hp.
  destruct (ldif_write_entry_success env fs e _ Hrc) as (d & Ed & Hf & _).
  rewrite Es in Ed. injection Ed as <-.
  destruct (ldif_read_file_regular _ _ _ Hf Hlen) as [Hr Hd].
  unfold get_entry, ldif_read_entry. rewrite Hr, Hd. cbn [Z.eqb LDAP_SUCCESS default].
  cbn. rewrite Hp. destruct (dnParent (o_req_dn op)); reflexivity.
Qed.

(** X14. [ldif_tool_entry_put] and [ldif_back_add] (once its schema
    check and operational attributes have passed) do the same to the
    file system and agree on the result, except that [ldif_back_add]
    answers a stat() failure on the entry file other than ENOENT with
    LDAP_UNWILLING_TO_PERFORM where the tool reports
    LDAP_ALREADY_EXISTS.  That is so for a failure of stat()'s own, and
    for the ENOTDIR of an entry file whose place is below a regular
    file.  The tool returns ID 1 on success and NOID otherwise. *)
Theorem ldif_tool_entry_put_as_add (env : add_calls) (be : BackendDB)
    (fs : filesys) (e : Entry) :
  ac_schema_check env = LDAP_SUCCESS ->
  ac_add_opattrs env = LDAP_SUCCESS ->
  let leaf := dn2path be (e_nname e) in
  let id := fst (fst (ldif_tool_entry_put env be fs e)) in
  let res := snd (fst (ldif_tool_entry_put env be fs e)) in
  let rc := fst (ldif_back_add env be fs e) in
  let fs' := snd (ldif_back_add env be fs e) in
  snd (ldif_tool_entry_put env be fs e) = fs' /\
  id = (if (res =? LDAP_SUCCESS)%Z then 1%N else NOID) /\
  (res = LDAP_SUCCESS <-> rc = LDAP_SUCCESS) /\
  (res = rc \/
   res = LDAP_ALREADY_EXISTS /\ rc = LDAP_UNWILLING_TO_PERFORM /\
   exists en, sys_stat (ac_stat_leaf env) fs' leaf = Err en /\ en <> ENOENT) /\
  (ac_stat_base env = None -> ac_stat_leaf env = None ->
   fs !! get_parent_path leaf = None ->
   absent_errno fs (get_parent_path leaf) = ENOTDIR ->
   fs !! leaf = None ->
   res = LDAP_ALREADY_EXISTS /\ rc = LDAP_UNWILLING_TO_PERFORM /\ fs' = fs).
Proof.
  intros Hs Ha. cbv zeta.
  match goal with |- ?A /\ ?B /\ ?C /\ ?D /\ ?E =>
    enough (G : (A /\ B /\ C /\ D) /\ E) by tauto end.
  split.
  - unfold ldif_tool_entry_put, ldif_back_add.
    rewrite Hs, Ha. cbn [Z.eqb LDAP_SUCCESS negb].
    set (leaf := dn2path be (e_nname e)). set (base := get_parent_path leaf).
    match goal with |- context [let '(res, fs1) := ?c in _] =>
      generalize c; intros [r fs1] end.
    unfold ldif_back_add_leaf.
    destruct (r =? LDAP_SUCCESS)%Z eqn:Er; cycle 1.
    { cbn [fst snd]. rewrite Er. apply Z.eqb_neq in Er.
      unfold LDAP_SUCCESS. repeat split; auto. }
    unfold sys_stat. destruct (ac_stat_leaf env) as [f|].
    + replace (bool_decide (fault_errno f = ENOENT)) with false
        by (symmetry; apply bool_decide_eq_false, fault_errno_not_ENOENT).
      cbn. repeat split; try discriminate. right. repeat split.
      exists (fault_errno f). split; [reflexivity|apply fault_errno_not_ENOENT].
    + destruct (fs1 !! leaf) as [i|] eqn:Hl.
      * cbn. repeat split; auto.
      * destruct (absent_errno_cases fs1 leaf) as [He|He]; rewrite He.
        -- rewrite bool_decide_eq_true_2 by reflexivity.
           destruct (ldif_write_entry (ac_write env) fs1 e leaf) as [w fs2].
           cbn [fst snd]. repeat split; auto.
        -- rewrite bool_decide_eq_false_2 by discriminate.
           cbn. rewrite Hl, He. repeat split; try discriminate.
           right. repeat split. exists ENOTDIR. split; [reflexivity|discriminate].
  - intros Hsb Hsl Hb He Hl.
    assert (Hel : absent_errno fs (dn2path be (e_nname e)) = ENOTDIR).
    { rewrite get_parent_path_dirname in Hb, He. now apply absent_errno_up. }
    unfold ldif_tool_entry_put, ldif_back_add, ldif_back_add_leaf, sys_stat.
    rewrite Hs, Ha, Hsb, Hsl, Hb, He, Hl, Hel. cbn. auto.
Qed.

(** X15. "Return LDAP_SUCCESS IFF we retrieve the specified entry":
    [ldif_back_entry_get] hands over an entry exactly when it returns
    LDAP_SUCCESS, and an entry handed over passes the object class test
    when one was asked for; an entry that was read and fails the test
    gives LDAP_NO_SUCH_ATTRIBUTE and is not handed over. *)
Theorem ldif_back_entry_get_iff (be : BackendDB) (fs : filesys) (op : Operation)
    (ndn : berval) (oc : option (Entry -> bool)) :
  let rc := fst (ldif_back_entry_get be fs op ndn oc) in
  let e := snd (ldif_back_entry_get be fs op ndn oc) in
  let op' := {| o_req_dn := ndn; o_req_ndn := ndn; ors_scope := ors_scope op;
                ors_filter := ors_filter op;
                o_manageDSAit := o_manageDSAit op |} in
  (rc = LDAP_SUCCESS <-> exists entry, e = Some entry) /\
  (forall entry is_oc, e = Some entry -> oc = Some is_oc -> is_oc entry = true) /\
  (forall entry is_oc,
     fst (get_entry be fs op' false) = (LDAP_SUCCESS, Some entry) ->
     oc = Some is_oc -> is_oc entry = false ->
     rc = LDAP_NO_SUCH_ATTRIBUTE /\ e = None).
Proof.
  cbv zeta. split; [|split].
  3:{ intros entry is_oc Hg -> Ho. unfold ldif_back_entry_get.
      destruct (get_entry be fs _ false) as [[rc0 e0] p0].
      cbn [fst] in Hg. injection Hg as -> ->.
      rewrite Ho. cbn. auto. }
  all: unfold ldif_back_entry_get, get_entry, ldif_read_entry;
    set (r := ldif_read_file _ _ _);
    pose proof (ldif_read_file_rc (read_calls_of fs (dn2path be ndn)) None false) as Hrr;
    cbv zeta in Hrr; fold r in Hrr; cbn [o_req_dn o_req_ndn];
    destruct (rr_rc r =? LDAP_SUCCESS)%Z eqn:Er.
  - cbn [negb orb]. destruct (str2entry (default [] (rr_data r))) as [entry|].
    + set (e1 := match dnParent ndn with [] => _ | _ => _ end).
      assert (E1 : exists x, e1 = (LDAP_SUCCESS, Some x)).
      { subst e1. destruct (dnParent ndn); eauto. }
      destruct E1 as [x ->]. cbn [Z.eqb LDAP_SUCCESS andb].
      destruct oc as [is_oc|]; [destruct (is_oc x) eqn:Eo|]; cbn [negb fst snd].
      * split; eauto.
      * split; [discriminate|intros [? ?]; discriminate].
      * split; eauto.
    + cbn. split; [discriminate|intros [? ?]; discriminate].
  - cbn [fst snd andb]. rewrite Er. cbn [andb fst snd].
    apply Z.eqb_neq in Er.
    split; [congruence|intros [? ?]; discriminate].
  - cbn [negb orb]. destruct (str2entry (default [] (rr_data r))) as [entry|].
    + set (e1 := match dnParent ndn with [] => _ | _ => _ end).
      assert (E1 : exists x, e1 = (LDAP_SUCCESS, Some x)).
      { subst e1. destruct (dnParent ndn); eauto. }
      destruct E1 as [x ->]. cbn [Z.eqb LDAP_SUCCESS andb].
      destruct oc as [is_oc|]; [destruct (is_oc x) eqn:Eo|]; cbn [negb fst snd].
      * intros ? ? [= <-] [= <-]. exact Eo.
      * discriminate.
      * discriminate.
    + cbn. discriminate.
  - cbn [fst snd andb]. rewrite Er. cbn [andb fst snd]. discriminate.
Qed.

End WriteRead.

Lemma ldif_write_then_get_entry_witness :
  let fs : filesys :=
    <[bv "/var/data/dc=example,dc=com/cn=bob" := IDir 488 []]> example_fs in
  let op := example_op (bv "cn=carol,cn=bob,dc=example,dc=com") LDAP_SCOPE_BASE in
  let path := dn2path example_be (o_req_ndn op) in
  fst (fst (@get_entry example_slapd example_be
         (snd (@ldif_write_entry example_slapd example_write_calls fs
                 example_carol path)) op false))
  = LDAP_SUCCESS.
Proof.
  cbv zeta.
  rewrite (@ldif_write_then_get_entry example_slapd example_write_calls example_be
             _ example_carol
             {| e_name := bv "cn=carol"; e_nname := bv "cn=carol";
                e_attrs := []; e_ocflags := 0 |}
             _ (bv "cn=carol")); try (vm_compute; reflexivity).
  vm_compute. discriminate.
Defined.

(** In the scenario with a regular file where the subtree directory of
    cn=bob would be, an entry two levels below it is answered with
    LDAP_ALREADY_EXISTS by the tool and with LDAP_UNWILLING_TO_PERFORM by
    the add. *)
Lemma ldif_tool_entry_put_as_add_witness :
  snd (fst (@ldif_tool_entry_put example_slapd example_add_calls example_be
              blocked_fs example_dave))
  = LDAP_ALREADY_EXISTS /\
  fst (@ldif_back_add example_slapd example_add_calls example_be blocked_fs
         example_dave)
  = LDAP_UNWILLING_TO_PERFORM.
Proof.
  destruct (proj2 (proj2 (proj2 (proj2
             (@ldif_tool_entry_put_as_add example_slapd example_add_calls
                example_be blocked_fs example_dave eq_refl eq_refl)))))
    as (H1 & H2 & _); try (vm_compute; reflexivity).
  split; [exact H1|exact H2].
Defined.

(** * The tool's enumeration and the subtree search *)

Section ToolEnumeration.
Context `{SL : !Slapd}.
Hypothesis send_entry_ok : forall sent e, send_search_entry sent e = LDAP_SUCCESS.
Hypothesis send_reference_ok :
  forall sent e, send_search_reference sent e = LDAP_SUCCESS.

Lemma buffers_sent (pre : list (option Entry)) cks ckt rs r :
  buffers_what_is_sent pre cks ckt ->
  ck_rs cks = Some rs ->
  buffers_what_is_sent pre (ck_send cks r) (ck_queue ckt (reply_entry r)).
Proof.
  intros (Hs & Hf & Hn & Hok & rs' & Hrs & Hb) Hrs0.
  destruct (ck_queue_buffer ckt (reply_entry r) Hok) as [Hok' Hb'].
  split; [now rewrite ck_queue_op|]. split; [exact Hf|].
  split; [now rewrite ck_queue_rs|]. split; [exact Hok'|].
  exists {| sr_sent := sr_sent rs' ++ [r] |}. split.
  - cbn. now rewrite Hrs.
  - rewrite Hb', Hb. cbn [sr_sent]. now rewrite map_app, <- app_assoc.
Qed.

Lemma buffers_set_scope (pre : list (option Entry)) cks ckt s :
  buffers_what_is_sent pre cks ckt ->
  buffers_what_is_sent pre (ck_set_op cks (set_scope (ck_op cks) s))
    (ck_set_op ckt (set_scope (ck_op ckt) s)).
Proof.
  intros (Hs & Hf & Hn & Hok & rs & Hrs & Hb).
  split; [reflexivity|]. split; [exact Hf|]. split; [exact Hn|].
  split; [exact Hok|]. exists rs. split; [exact Hrs|exact Hb].
Qed.

(** Reading and delivering the entry itself: the search sends what the
    tool queues. *)
Lemma enum_self_entry_buffers (pre : list (option Entry)) (fs : filesys)
    cks ckt path base pdn pndn :
  buffers_what_is_sent pre cks ckt ->
  match enum_self_entry fs cks path base pdn pndn,
        enum_self_entry fs ckt path base pdn pndn with
  | SelfReturn rc cks', SelfReturn rc' ckt' =>
      rc = rc' /\ buffers_what_is_sent pre cks' ckt'
  | SelfDone e cks', SelfDone e' ckt' =>
      e = e' /\ buffers_what_is_sent pre cks' ckt'
  | _, _ => False
  end.
Proof.
  intros HR. pose proof HR as (Hs & Hf & Hn & Hok & rs & Hrs & Hb).
  unfold enum_self_entry. destruct base; [split; [reflexivity|exact HR]|].
  destruct (ldif_read_entry fs _ _ false) as [rc [e|]];
    [|split; [reflexivity|exact HR]].
  destruct (negb (rc =? LDAP_SUCCESS)%Z); [split; [reflexivity|exact HR]|].
  rewrite <- Hs.
  destruct (bool_decide (ors_scope (ck_op cks) = LDAP_SCOPE_BASE)
            || bool_decide (ors_scope (ck_op cks) = LDAP_SCOPE_SUBTREE));
    [|split; [reflexivity|exact HR]].
  rewrite Hrs, Hn, Hf, send_entry_ok, send_reference_ok.
  destruct (negb (o_manageDSAit (ck_op cks))
            && negb (bool_decide (ors_scope (ck_op cks) = LDAP_SCOPE_BASE))
            && is_entry_referral e);
    cbn [Z.eqb LDAP_SUCCESS negb]; (split; [reflexivity|]).
  - exact (buffers_sent pre cks ckt rs (SearchReference e) HR Hrs).
  - exact (buffers_sent pre cks ckt rs (SearchEntry e) HR Hrs).
Qed.

Lemma enum_children_buffers (pre : list (option Entry))
    (rec_s rec_t : enumCookie -> pathbuf -> option (Z * enumCookie)) path :
  (forall cks ckt p,
     buffers_what_is_sent pre cks ckt ->
     match rec_s cks p, rec_t ckt p with
     | Some (rc, cks'), Some (rc', ckt') =>
         rc = rc' /\ buffers_what_is_sent pre cks' ckt'
     | None, None => True
     | _, _ => False
     end) ->
  forall lst rc cks ckt,
  buffers_what_is_sent pre cks ckt ->
  match enum_children rec_s path lst rc cks,
        enum_children rec_t path lst rc ckt with
  | Some (rc1, cks'), Some (rc2, ckt') =>
      rc1 = rc2 /\ buffers_what_is_sent pre cks' ckt'
  | None, None => True
  | _, _ => False
  end.
Proof.
  intros Hrec lst. induction lst as [|ptr lst IH]; intros rc cks ckt HR.
  - cbn. auto.
  - cbn [enum_children]. destruct (rc =? LDAP_SUCCESS)%Z; [|now apply IH].
    specialize (Hrec cks ckt (fullpath path (bvlist_restore ptr)) HR).
    destruct (rec_s cks _) as [[rc1 cks1]|], (rec_t ckt _) as [[rc2 ckt1]|];
      try contradiction; [|exact I].
    destruct Hrec as [<- HR1]. now apply IH.
Qed.

Lemma r_enum_tree_buffers (pre : list (option Entry)) (fs : filesys) (fuel : nat) :
  forall cks ckt path base pdn pndn,
  buffers_what_is_sent pre cks ckt ->
  match r_enum_tree fuel fs cks path base pdn pndn,
        r_enum_tree fuel fs ckt path base pdn pndn with
  | Some (rc, cks'), Some (rc', ckt') =>
      rc = rc' /\ buffers_what_is_sent pre cks' ckt'
  | None, None => True
  | _, _ => False
  end.
Proof.
  induction fuel as [|fuel IH]; intros cks ckt path base pdn pndn HR; [exact I|].
  cbn [r_enum_tree].
  pose proof (enum_self_entry_buffers pre fs cks ckt path base pdn pndn HR) as Hself.
  destruct (enum_self_entry fs cks path base pdn pndn) as [rc cks1|e cks1],
           (enum_self_entry fs ckt path base pdn pndn) as [rc' ckt1|e' ckt1];
    try contradiction; [exact Hself|].
  destruct Hself as [<- HR1]. pose proof HR1 as (Hs & _).
  rewrite <- Hs.
  destruct (negb (bool_decide (ors_scope (ck_op cks1) = LDAP_SCOPE_BASE)));
    [|split; [reflexivity|exact HR1]].
  destruct (sys_readdir fs _) as [names|en]; [|split; [reflexivity|exact HR1]].
  apply enum_children_buffers.
  - intros a b p Hab. apply IH. exact Hab.
  - destruct (bool_decide (ors_scope (ck_op cks1) = LDAP_SCOPE_ONELEVEL));
      [now apply buffers_set_scope|].
    destruct (bool_decide (ors_scope (ck_op cks1) = LDAP_SCOPE_SUBORDINATE));
      [now apply buffers_set_scope|exact HR1].
Qed.

(** X16. The tool's first pass buffers what a subtree search sees: when
    sending never fails, [ldif_tool_entry_first] on a cookie without a
    buffer leaves in the buffer, in order, exactly the entries that a
    SUBTREE search from the suffix with a filter every entry passes sends
    (as entries or as references); the two run out of fuel together.
    The ID returned is 1 when there is such an entry and NOID when there
    is none. *)
Theorem ldif_tool_entry_first_buffers (fuel : nat) (be : BackendDB) (fs : filesys)
    (manageDSAit : bool) :
  ck_entries (li_tool_cookie (be_private be)) = None ->
  ck_eind (li_tool_cookie (be_private be)) = 0%N ->
  ck_rs (li_tool_cookie (be_private be)) = None ->
  li_tool_current (be_private be) = 0%N ->
  let op := {| o_req_dn := be_suffix be; o_req_ndn := be_nsuffix be;
               ors_scope := LDAP_SCOPE_SUBTREE; ors_filter := fun _ => true;
               o_manageDSAit := manageDSAit |} in
  match ldif_back_search fuel be fs op, ldif_tool_entry_first fuel be fs with
  | Some (_, sent), Some (id, li) =>
      ck_buffered (li_tool_cookie li) = map (fun r => Some (reply_entry r)) sent /\
      id = (match sent with [] => NOID | _ :: _ => 1%N end)
  | None, None => True
  | _, _ => False
  end.
Proof.
  intros He Hi Hn Hc. cbv zeta.
  unfold ldif_back_search, ldif_tool_entry_first, enum_tree. rewrite He.
  cbn [ck_op o_req_dn o_req_ndn ck_set_op].
  match goal with
  | |- context [r_enum_tree fuel fs ?a ?p ?b ?d ?n] =>
      match goal with
      | |- context [r_enum_tree fuel fs ?c p b d n] =>
          lazymatch c with
          | a => fail
          | _ => pose proof (r_enum_tree_buffers [] fs fuel a c p b d n) as Hsim
          end
      end
  end.
  match type of Hsim with ?P -> _ => assert (HR : P) end.
  { split; [reflexivity|]. split; [reflexivity|]. split; [exact Hn|].
    split; [unfold cookie_ok; cbn; now rewrite He|].
    exists {| sr_sent := [] |}. split; [reflexivity|].
    unfold ck_buffered. cbn. now rewrite Hi. }
  specialize (Hsim HR). clear HR.
  match type of Hsim with
  | match ?x with _ => _ end =>
      destruct x as [[rc cks]|]
  end;
  match type of Hsim with
  | match ?y with _ => _ end => destruct y as [[rc' ckt]|]
  end; try contradiction; [|exact I].
  destruct Hsim as (_ & _ & _ & _ & Hok & rs & Hrs & Hb).
  rewrite Hrs. cbn [app] in Hb.
  unfold ldif_tool_entry_next. cbn [li_set_cookie li_tool_cookie li_tool_current].
  rewrite Hc.
  assert (Hlen : N.to_nat (ck_eind ckt) = length (sr_sent rs)).
  { apply (f_equal (@length _)) in Hb. rewrite length_map in Hb. rewrite <- Hb.
    unfold ck_buffered. rewrite length_firstn.
    unfold cookie_ok in Hok. destruct (ck_entries ckt) as [entries|].
    - cbn [default]. unfold id. lia.
    - rewrite Hok. reflexivity. }
  destruct (sr_sent rs) as [|r sent] eqn:Es.
  - replace (ck_eind ckt <=? 0)%N with true
      by (symmetry; apply N.leb_le; cbn in Hlen; lia).
    cbn [li_tool_cookie]. split; [exact Hb|reflexivity].
  - replace (ck_eind ckt <=? 0)%N with false
      by (symmetry; apply N.leb_gt; cbn in Hlen; lia).
    cbn [li_set_current li_tool_cookie]. split; [exact Hb|reflexivity].
Qed.

End ToolEnumeration.

Lemma ldif_tool_entry_first_buffers_witness :
  match @ldif_tool_entry_first example_slapd 3 example_be example_fs with
  | Some (id, li) => id = 1%N /\ N.to_nat (ck_eind (li_tool_cookie li)) = 3
  | None => False
  end.
Proof.
  pose proof (@ldif_tool_entry_first_buffers example_slapd
                (fun _ _ => eq_refl) (fun _ _ => eq_refl)
                3 example_be example_fs false eq_refl eq_refl eq_refl eq_refl) as H.
  cbv zeta in H.
  destruct (@ldif_back_search example_slapd 3 example_be example_fs _)
    as [[rc sent]|] eqn:Es;
    destruct (@ldif_tool_entry_first example_slapd 3 example_be example_fs)
    as [[id li]|] eqn:Et; try contradiction.
  - vm_compute in Es. injection Es as <- <-. destruct H as [Hb ->].
    split; [reflexivity|].
    vm_compute in Et. injection Et as <-. vm_compute. reflexivity.
  - vm_compute in Es. discriminate Es.
Defined.

(** * What a search sends *)

Section SearchSends.
Context `{SL : !Slapd}.

Lemma all_accepted_app (sent a b : list reply) :
  all_accepted sent (a ++ b) = all_accepted sent a && all_accepted (sent ++ a) b.
Proof.
  revert sent. induction a as [|r a IH]; intros sent; cbn [all_accepted app].
  - now rewrite app_nil_r.
  - rewrite IH, <- app_assoc, andb_assoc. reflexivity.
Qed.

Lemma stops_when_refused_nil (sent : list reply) rc :
  stops_when_refused sent [] rc.
Proof. now left. Qed.

(** Going on after [more] with result 0. *)
Lemma stops_when_refused_app (sent more more' : list reply) rc :
  all_accepted sent more = true ->
  stops_when_refused (sent ++ more) more' rc ->
  stops_when_refused sent (more ++ more') rc.
Proof.
  intros Ha [Hb|(before & r & -> & Hb & Hr & Hne)].
  - left. now rewrite all_accepted_app, Ha, Hb.
  - right. exists (more ++ before), r. rewrite app_assoc. split; [reflexivity|].
    split; [now rewrite all_accepted_app, Ha, Hb|].
    split; [now rewrite app_assoc|exact Hne].
Qed.

(** A refused reply leaves a result that is not success. *)
Lemma stops_when_refused_ok (sent more : list reply) :
  stops_when_refused sent more 0%Z -> all_accepted sent more = true.
Proof. intros [H|(? & ? & _ & _ & _ & H)]; [exact H|congruence]. Qed.

Lemma enum_self_entry_sends (fs : filesys) ck rs path base pdn pndn :
  ck_rs ck = Some rs ->
  exists more,
    match enum_self_entry fs ck path base pdn pndn with
    | SelfReturn rc ck' =>
        ck_rs ck' = Some {| sr_sent := sr_sent rs ++ more |} /\
        stops_when_refused (sr_sent rs) more rc
    | SelfDone _ ck' =>
        ck_rs ck' = Some {| sr_sent := sr_sent rs ++ more |} /\
        all_accepted (sr_sent rs) more = true
    end.
Proof.
  intros Hrs.
  assert (Hsame : ck_rs ck = Some {| sr_sent := sr_sent rs ++ [] |})
    by (rewrite app_nil_r, Hrs; now destruct rs).
  unfold enum_self_entry. destruct base; [exists []; auto|].
  destruct (ldif_read_entry fs _ _ false) as [rc [e|]];
    [|exists []; split; [exact Hsame|apply stops_when_refused_nil]].
  destruct (negb (rc =? LDAP_SUCCESS)%Z);
    [exists []; split; [exact Hsame|apply stops_when_refused_nil]|].
  destruct (_ || _); [|exists []; auto].
  rewrite Hrs.
  assert (Sent : forall r,
    exists more,
      match (if negb (send_result (sr_sent rs) r =? 0)%Z
             then SelfReturn (send_result (sr_sent rs) r) (ck_send ck r)
             else SelfDone (Some e) (ck_send ck r)) with
      | SelfReturn rc0 ck' =>
          ck_rs ck' = Some {| sr_sent := sr_sent rs ++ more |} /\
          stops_when_refused (sr_sent rs) more rc0
      | SelfDone _ ck' =>
          ck_rs ck' = Some {| sr_sent := sr_sent rs ++ more |} /\
          all_accepted (sr_sent rs) more = true
      end).
  { intros r. exists [r].
    destruct (send_result (sr_sent rs) r =? 0)%Z eqn:E; cbn [negb].
    - split; [cbn; now rewrite Hrs|]. cbn [all_accepted]. now rewrite E.
    - split; [cbn; now rewrite Hrs|]. right. exists [], r.
      rewrite app_nil_r. repeat split. now apply Z.eqb_neq. }
  destruct (_ && _).
  - exact (Sent (SearchReference e)).
  - destruct (ors_filter (ck_op ck) e).
    + exact (Sent (SearchEntry e)).
    + cbn [Z.eqb LDAP_SUCCESS negb]. exists []. auto.
Qed.

Lemma enum_children_sends
    (recurse : enumCookie -> pathbuf -> option (Z * enumCookie)) path :
  (forall ck rs p rc ck',
     ck_rs ck = Some rs -> recurse ck p = Some (rc, ck') ->
     exists more,
       ck_rs ck' = Some {| sr_sent := sr_sent rs ++ more |} /\
       stops_when_refused (sr_sent rs) more rc) ->
  forall lst rc0 ck rs rc ck',
  ck_rs ck = Some rs ->
  enum_children recurse path lst rc0 ck = Some (rc, ck') ->
  (rc0 =? LDAP_SUCCESS)%Z = false /\ rc = rc0 /\ ck' = ck \/
  (rc0 =? LDAP_SUCCESS)%Z = true /\
  exists more,
    ck_rs ck' = Some {| sr_sent := sr_sent rs ++ more |} /\
    stops_when_refused (sr_sent rs) more rc.
Proof.
  intros Hrec lst. induction lst as [|ptr lst IH]; intros rc0 ck rs rc ck' Hrs E.
  - cbn in E. injection E as <- <-.
    destruct (rc0 =? LDAP_SUCCESS)%Z eqn:E0; [right|left; auto].
    split; [reflexivity|]. exists []. rewrite app_nil_r.
    split; [rewrite Hrs; now destruct rs|now left].
  - cbn [enum_children] in E. destruct (rc0 =? LDAP_SUCCESS)%Z eqn:E0.
    + right. split; [reflexivity|].
      destruct (recurse ck _) as [[rc1 ck1]|] eqn:Er; [|discriminate].
      destruct (Hrec _ _ _ _ _ Hrs Er) as (more1 & Hrs1 & Hst1).
      destruct (IH rc1 ck1 _ rc ck' Hrs1 E)
        as [(E1 & -> & ->)|(E1 & more2 & Hrs2 & Hst2)].
      * exists more1. auto.
      * apply Z.eqb_eq in E1. subst rc1. cbn [sr_sent] in *.
        exists (more1 ++ more2). rewrite app_assoc. split; [exact Hrs2|].
        apply stops_when_refused_app; [|exact Hst2].
        now apply stops_when_refused_ok.
    + destruct (IH rc0 ck rs rc ck' Hrs E)
        as [(_ & -> & ->)|(E1 & _)]; [left; auto|congruence].
Qed.

Lemma r_enum_tree_sends (fs : filesys) (fuel : nat) :
  forall ck rs path base pdn pndn rc ck',
  ck_rs ck = Some rs ->
  r_enum_tree fuel fs ck path base pdn pndn = Some (rc, ck') ->
  exists more,
    ck_rs ck' = Some {| sr_sent := sr_sent rs ++ more |} /\
    stops_when_refused (sr_sent rs) more rc.
Proof.
  induction fuel as [|fuel IH]; intros ck rs path base pdn pndn rc ck' Hrs E;
    [discriminate|].
  cbn [r_enum_tree] in E.
  destruct (enum_self_entry_sends fs ck rs path base pdn pndn Hrs) as (more & Hself).
  destruct (enum_self_entry fs ck path base pdn pndn) as [rc1 ck1|e ck1].
  - injection E as <- <-. exists more. exact Hself.
  - destruct Hself as [Hrs1 Hacc].
    assert (Here : exists more0,
              ck_rs ck1 = Some {| sr_sent := sr_sent rs ++ more0 |} /\
              forall c, stops_when_refused (sr_sent rs) more0 c)
      by (exists more; split; [exact Hrs1|now left]).
    destruct (negb (bool_decide (ors_scope (ck_op ck1) = LDAP_SCOPE_BASE)));
      [|injection E as <- <-; destruct Here as (m & ? & ?); exists m; auto].
    destruct (sys_readdir fs _) as [names|en];
      [|injection E as <- <-; destruct Here as (m & ? & ?); exists m; auto].
    match type of E with
    | enum_children ?rec ?p ?l ?r0 ?c = _ =>
        assert (Hrs2 : ck_rs c = Some {| sr_sent := sr_sent rs ++ more |})
          by (destruct (bool_decide _); [exact Hrs1|];
              destruct (bool_decide _); exact Hrs1);
        destruct (enum_children_sends rec p
                    ltac:(intros a b q c0 d Ha Hq; exact (IH a b q false _ _ c0 d Ha Hq))
                    l r0 c _ rc ck' Hrs2 E)
          as [(E0 & _)|(_ & more2 & Hrs3 & Hst)]
    end; [discriminate|].
    cbn [sr_sent] in *. exists (more ++ more2). rewrite app_assoc.
    split; [exact Hrs3|]. now apply stops_when_refused_app.
Qed.

(** X17. A search never sends anything after the sender has refused a
    reply: every reply that [ldif_back_search] sent but the last was
    accepted, and if the last one was refused, the search ends with what
    the sender answered on it. *)
Theorem ldif_back_search_stops_when_refused (fuel : nat) (be : BackendDB)
    (fs : filesys) (op : Operation) (rc : Z) (sent : list reply) :
  ldif_back_search fuel be fs op = Some (rc, sent) ->
  stops_when_refused [] sent rc.
Proof.
  unfold ldif_back_search, enum_tree.
  destruct (r_enum_tree fuel fs _ _ _ _ _) as [[rc' ck']|] eqn:E; [|discriminate].
  eapply r_enum_tree_sends in E as (more & Hrs & Hst); [|reflexivity].
  rewrite Hrs. cbn [sr_sent app] in *. intros [= <- <-]. exact Hst.
Qed.

End SearchSends.

Lemma ldif_back_search_stops_when_refused_witness :
  match @ldif_back_search (sizelimit_slapd 1) 3 example_be example_fs
          (example_op (bv "dc=example,dc=com") LDAP_SCOPE_SUBTREE) with
  | Some (rc, sent) =>
      rc = LDAP_SIZELIMIT_EXCEEDED /\ length sent = 2 /\
      @stops_when_refused (sizelimit_slapd 1) [] sent rc
  | None => False
  end.
Proof.
  destruct (@ldif_back_search (sizelimit_slapd 1) 3 example_be example_fs _)
    as [[rc sent]|] eqn:E.
  - split; [|split];
      [| | exact (@ldif_back_search_stops_when_refused (sizelimit_slapd 1) 3
                    example_be example_fs _ rc sent E)];
      vm_compute in E; injection E as <- <-; reflexivity.
  - vm_compute in E. discriminate E.
Defined.

(** * Searches that do not descend *)

Section SearchEdges.
Context `{SL : !Slapd}.

Lemma ldif_read_entry_same (fs fs' : filesys) path parent entryp_null :
  fs !! path = fs' !! path ->
  ldif_read_entry fs path parent entryp_null
  = ldif_read_entry fs' path parent entryp_null.
Proof. intros H. unfold ldif_read_entry, read_calls_of. now rewrite H. Qed.

Lemma base_flag (ndn : berval) :
  (if length ndn =? 0 then true else false) = match ndn with [] => true | _ => false end.
Proof. now destruct ndn. Qed.

(** X18. A search with scope BASE depends on nothing but the file of the
    base entry: on two file systems that agree on that one path it gives
    the same result, whatever directories there are; it always ends (one
    level of recursion is enough), sends at most one reply, and for the
    empty DN sends nothing and succeeds. *)
Theorem ldif_back_search_base_scope (f f' : nat) (be : BackendDB)
    (fs fs' : filesys) (op : Operation) :
  ors_scope op = LDAP_SCOPE_BASE ->
  fs !! cstr (dn2path be (o_req_ndn op)) = fs' !! cstr (dn2path be (o_req_ndn op)) ->
  ldif_back_search (S f) be fs op = ldif_back_search (S f') be fs' op /\
  exists rc sent,
    ldif_back_search (S f) be fs op = Some (rc, sent) /\ length sent <= 1 /\
    (o_req_ndn op = [] -> rc = LDAP_SUCCESS /\ sent = []).
Proof.
  intros Hs Hp. unfold ldif_back_search, enum_tree. cbn [ck_op].
  rewrite base_flag. destruct (o_req_ndn op) as [|c ndn] eqn:En.
  - cbn [r_enum_tree enum_self_entry ck_op]. rewrite Hs.
    rewrite bool_decide_eq_true_2 by reflexivity. cbn [negb ck_rs sr_sent].
    split; [reflexivity|]. exists LDAP_SUCCESS, []. cbn [length]. auto.
  - rewrite !(r_enum_tree_base_scope _ _ _ {| sr_sent := [] |}) by (cbn; auto).
    cbn [pathbuf_of pb_val]. rewrite (ldif_read_entry_same fs fs' _ _ _ Hp).
    split; [reflexivity|].
    destruct (ldif_read_entry fs' _ _ false) as [rc [e|]].
    + destruct (negb (rc =? LDAP_SUCCESS)%Z).
      * exists LDAP_NO_SUCH_OBJECT, []. cbn. split; [reflexivity|].
        split; [lia|discriminate].
      * cbn [ck_op]. destruct (ors_filter op e).
        -- eexists _, _. split; [reflexivity|]. cbn. split; [lia|discriminate].
        -- eexists _, _. split; [reflexivity|]. cbn. split; [lia|discriminate].
    + exists LDAP_NO_SUCH_OBJECT, []. cbn. split; [reflexivity|].
      split; [lia|discriminate].
Qed.

(** X19. Whatever keeps the base entry from being read — no file, a
    directory in its place, a file that is too big or cannot be parsed —
    a search for a DN that is not empty ends with LDAP_NO_SUCH_OBJECT and
    sends nothing, in every scope. *)
Theorem ldif_back_search_no_base (f : nat) (be : BackendDB) (fs : filesys)
    (op : Operation) :
  o_req_ndn op <> [] ->
  fst (ldif_read_entry fs (cstr (dn2path be (o_req_ndn op)))
         (Some (dnParent (o_req_dn op), dnParent (o_req_ndn op))) false)
    <> LDAP_SUCCESS ->
  ldif_back_search (S f) be fs op = Some (LDAP_NO_SUCH_OBJECT, []).
Proof.
  intros Hne Hrc. unfold ldif_back_search, enum_tree. cbn [ck_op].
  rewrite base_flag. destruct (o_req_ndn op) as [|c ndn] eqn:En; [congruence|].
  cbn [r_enum_tree]. unfold enum_self_entry. cbn [pathbuf_of pb_val].
  pose proof (ldif_read_entry_fails fs (cstr (dn2path be (c :: ndn)))
                (Some (dnParent (o_req_dn op), dnParent (c :: ndn))) _ eq_refl Hrc)
    as Hnone.
  destruct (ldif_read_entry fs _ _ false) as [rc [e|]]; [discriminate|].
  reflexivity.
Qed.

(** X20. A search that descends (scope other than BASE) from an entry
    that has no subtree directory ends with LDAP_SUCCESS; if a regular
    file sits where the directory would be, it ends with LDAP_BUSY.  In
    both cases the base entry has been sent before if the scope is
    SUBTREE (as a reference if it is a referral and manageDSAit is off,
    else as an entry if the filter matches), and nothing else. *)
Theorem ldif_back_search_leaf (f : nat) (be : BackendDB) (fs : filesys)
    (op : Operation) (e : Entry) :
  let path := dn2path be (o_req_ndn op) in
  let dir := cstr (firstn (length path - length LDIF) path) in
  let reply :=
    if negb (o_manageDSAit op) && is_entry_referral e then [SearchReference e]
    else if ors_filter op e then [SearchEntry e] else [] in
  let sent := if bool_decide (ors_scope op = LDAP_SCOPE_SUBTREE) then reply else [] in
  o_req_ndn op <> [] ->
  ors_scope op <> LDAP_SCOPE_BASE ->
  ldif_read_entry fs (cstr path)
    (Some (dnParent (o_req_dn op), dnParent (o_req_ndn op))) false
  = (LDAP_SUCCESS, Some e) ->
  (forall sent e, send_search_entry sent e = LDAP_SUCCESS) ->
  (forall sent e, send_search_reference sent e = LDAP_SUCCESS) ->
  (fs !! dir = None -> ldif_back_search (S f) be fs op = Some (LDAP_SUCCESS, sent)) /\
  (forall d, fs !! dir = Some (IFile d) ->
     ldif_back_search (S f) be fs op = Some (LDAP_BUSY, sent)).
Proof.
  cbv zeta. intros Hne Hsc Hr Hse Hsr.
  assert (Hcase : forall i rcd,
    sys_readdir fs (cstr (firstn (length (dn2path be (o_req_ndn op)) - length LDIF)
                            (dn2path be (o_req_ndn op)))) = Err i ->
    (if negb (bool_decide (i = ENOENT)) then LDAP_BUSY else LDAP_SUCCESS) = rcd ->
    ldif_back_search (S f) be fs op
    = Some (rcd,
            if bool_decide (ors_scope op = LDAP_SCOPE_SUBTREE)
            then if negb (o_manageDSAit op) && is_entry_referral e
                 then [SearchReference e]
                 else if ors_filter op e then [SearchEntry e] else []
            else [])).
  { intros i rcd Hd <-. unfold ldif_back_search, enum_tree. cbn [ck_op].
    rewrite base_flag. destruct (o_req_ndn op) as [|c ndn] eqn:En; [congruence|].
    cbn [r_enum_tree]. unfold enum_self_entry. cbn [pathbuf_of pb_val ck_op ck_rs].
    rewrite Hr. cbn [Z.eqb LDAP_SUCCESS negb].
    rewrite (bool_decide_eq_false_2 (ors_scope op = LDAP_SCOPE_BASE)) by exact Hsc.
    cbn [orb andb negb]. rewrite andb_true_r.
    unfold ldif2dir, pathbuf_of. cbn [pb_val pb_len].
    destruct (bool_decide (ors_scope op = LDAP_SCOPE_SUBTREE)) eqn:Est.
    - rewrite Hse, Hsr.
      destruct (negb (o_manageDSAit op) && is_entry_referral e);
        [|destruct (ors_filter op e)];
        cbn [Z.eqb LDAP_SUCCESS negb ck_send ck_op ck_rs option_map sr_sent app];
        rewrite (bool_decide_eq_false_2 (ors_scope op = LDAP_SCOPE_BASE)) by exact Hsc;
        cbn [negb]; rewrite Hd; reflexivity.
    - cbn [ck_op]. rewrite (bool_decide_eq_false_2 (ors_scope op = LDAP_SCOPE_BASE))
        by exact Hsc.
      cbn [negb]. rewrite Hd. reflexivity. }
  split.
  - intros Hd. apply (Hcase ENOENT); [unfold sys_readdir; now rewrite Hd|reflexivity].
  - intros d Hd. apply (Hcase ENOTDIR); [unfold sys_readdir; now rewrite Hd|reflexivity].
Qed.

End SearchEdges.

Lemma ldif_back_search_base_scope_witness :
  @ldif_back_search example_slapd 1 example_be example_fs
    (example_op (bv "cn=bob,dc=example,dc=com") LDAP_SCOPE_BASE)
  = @ldif_back_search example_slapd 1 example_be
      (delete (bv "/var/data/dc=example,dc=com/cn=alice.ldif") example_fs)
      (example_op (bv "cn=bob,dc=example,dc=com") LDAP_SCOPE_BASE).
Proof.
  refine (proj1 (@ldif_back_search_base_scope example_slapd 0 0 example_be
                   example_fs _
                   (example_op (bv "cn=bob,dc=example,dc=com") LDAP_SCOPE_BASE)
                   eq_refl _)).
  vm_compute. reflexivity.
Defined.

Lemma ldif_back_search_no_base_witness :
  @ldif_back_search example_slapd 1 example_be example_fs
    (example_op (bv "cn=zoe,dc=example,dc=com") LDAP_SCOPE_SUBTREE)
  = Some (LDAP_NO_SUCH_OBJECT, []).
Proof.
  refine (@ldif_back_search_no_base example_slapd 0 example_be example_fs _ _ _).
  - discriminate.
  - vm_compute. discriminate.
Defined.

Lemma ldif_back_search_leaf_witness :
  @ldif_back_search example_slapd 1 example_be example_fs
    (example_op (bv "cn=bob,dc=example,dc=com") LDAP_SCOPE_SUBTREE)
  = Some (LDAP_SUCCESS,
          [SearchEntry {| e_name := bv "cn=bob,dc=example,dc=com";
                          e_nname := bv "cn=bob,dc=example,dc=com";
                          e_attrs := []; e_ocflags := 0 |}]).
Proof.
  refine (proj1 (@ldif_back_search_leaf example_slapd 0 example_be example_fs
                   (example_op (bv "cn=bob,dc=example,dc=com") LDAP_SCOPE_SUBTREE)
                   _ _ _ _ _ _) _).
  - discriminate.
  - discriminate.
  - vm_compute. reflexivity.
  - reflexivity.
  - reflexivity.
  - vm_compute. reflexivity.
Defined.

(** * What a delete leaves behind *)

(** X21. [ldif_back_delete] touches no regular file but the entry's
    own, whatever its result, and a delete that fails leaves the entry
    file as well.  But it is not all-or-nothing: an empty subtree
    directory is removed before the entry file is tried, and stays
    removed when the delete then fails, with LDAP_OTHER when unlink()
    fails and with LDAP_NO_SUCH_OBJECT when there is no entry file. *)
Theorem ldif_back_delete_effect (env : delete_calls) (be : BackendDB)
    (fs : filesys) (op : Operation) :
  let path := dn2path be (o_req_ndn op) in
  let dir := firstn (length path - length LDIF) path in
  let rc := fst (ldif_back_delete env be fs op) in
  let fs' := snd (ldif_back_delete env be fs op) in
  (forall q, q <> path -> not_dir (fs !! q) -> fs' !! q = fs !! q) /\
  (rc <> LDAP_SUCCESS -> not_dir (fs !! path) -> fs' !! path = fs !! path) /\
  (forall m, dc_rmdir env = None -> fs !! dir = Some (IDir m []) ->
     fs' !! dir = None /\
     (forall f, dc_unlink env = Some f -> rc = LDAP_OTHER) /\
     (dc_unlink env = None -> fs !! path = None -> rc = LDAP_NO_SUCH_OBJECT)).
Proof.
  cbv zeta. unfold ldif_back_delete.
  set (path := dn2path be (o_req_ndn op)).
  set (dir := firstn (length path - length LDIF) path).
  assert (Hne : dir <> path) by apply dn2path_dir_neq.
  clearbody path dir.
  assert (Unlink : forall (fs1 : filesys),
    let r := match sys_unlink (dc_unlink env) fs1 path with
             | (Ok _, fs2) => (LDAP_SUCCESS, fs2)
             | (Err en, fs2) =>
                 (if negb (bool_decide (en = ENOENT)) then LDAP_OTHER
                  else LDAP_NO_SUCH_OBJECT, fs2)
             end in
    (forall q, q <> path -> not_dir (fs1 !! q) -> snd r !! q = fs1 !! q) /\
    (fst r <> LDAP_SUCCESS -> snd r = fs1) /\
    (forall f, dc_unlink env = Some f -> fst r = LDAP_OTHER) /\
    (dc_unlink env = None -> fs1 !! path = None -> fst r = LDAP_NO_SUCH_OBJECT)).
  { intros fs1. cbv zeta. unfold sys_unlink.
    destruct (dc_unlink env) as [f|].
    - cbn [fst snd]. repeat split; auto; try discriminate.
      intros f0 _.
      now rewrite (bool_decide_eq_false_2 _ (fault_errno_not_ENOENT f)).
    - destruct (fs1 !! path) as [[d|m ns]|] eqn:Hp; cbn [fst snd];
        repeat split; auto; try discriminate; try congruence.
      intros q Hq Hnd. now apply fs_unlink_other. }
  unfold sys_rmdir. destruct (dc_rmdir env) as [f|].
  { destruct f; cbn; repeat split; auto; discriminate. }
  destruct (fs !! dir) as [[d|m [|n ns]]|] eqn:Hd;
    cbn [fst snd Z.eqb LDAP_SUCCESS Z.eqb LDAP_NOT_ALLOWED_ON_NONLEAF LDAP_OTHER].
  - cbn. repeat split; auto; discriminate.
  - (* the empty directory is removed *)
    destruct (Unlink (fs_unlink dir fs)) as (U1 & U2 & U3 & U4).
    destruct (sys_unlink (dc_unlink env) (fs_unlink dir fs) path) as [[u|en] fs2];
      cbn [fst snd] in *.
    + split; [|split; [congruence|]].
      * intros q Hq Hnd.
        assert (Hqd : q <> dir) by (intros ->; now apply (Hnd m [])).
        rewrite U1; [now apply fs_unlink_other| exact Hq |].
        now rewrite fs_unlink_other.
      * intros m0 _ _. split; [|split; [exact U3|]].
        -- destruct (decide (dir = path)) as [X|X]; [contradiction|].
           rewrite U1; [apply fs_unlink_gone|exact X|].
           rewrite fs_unlink_gone. intros ? ?; discriminate.
        -- intros Hu Hp. apply U4; [exact Hu|].
           now apply fs_unlink_keeps_absent.
    + split; [|split].
      * intros q Hq Hnd.
        assert (Hqd : q <> dir) by (intros ->; now apply (Hnd m [])).
        rewrite U1; [now apply fs_unlink_other| exact Hq |].
        now rewrite fs_unlink_other.
      * intros Hrc Hnd. rewrite U2 by exact Hrc. now apply fs_unlink_other.
      * intros m0 _ _. split; [|split; [exact U3|]].
        -- destruct (decide (dir = path)) as [X|X]; [contradiction|].
           rewrite U1; [apply fs_unlink_gone|exact X|].
           rewrite fs_unlink_gone. intros ? ?; discriminate.
        -- intros Hu Hp. apply U4; [exact Hu|].
           now apply fs_unlink_keeps_absent.
  - cbn. repeat split; auto; discriminate.
  - (* there is no directory *)
    destruct (absent_errno_cases fs dir) as [He|He]; rewrite He;
      cbn [fst snd Z.eqb LDAP_SUCCESS LDAP_OTHER];
      [|cbn; repeat split; auto; discriminate].
    destruct (Unlink fs) as (U1 & U2 & U3 & U4).
    destruct (sys_unlink (dc_unlink env) fs path) as [[u|en] fs2];
      cbn [fst snd] in *.
    + split; [exact U1|]. split; [congruence|]. intros; discriminate.
    + split; [exact U1|]. split; [|intros; discriminate].
      intros Hrc _. now rewrite U2.
Qed.

(** * Modify *)

Section ModifyProperties.
Context `{SL : !Slapd} `{SM : !SlapdModify}.

(** Once the loop has taken a turn and goes on, [rc] is LDAP_SUCCESS:
    going through [l1 ++ l2] is going through [l1] and, if that went
    well, through [l2]. *)
Lemma apply_modify_loop_app (l1 l2 : list Modification) : forall rc e b,
  apply_modify_loop (l1 ++ l2) rc e b
  = match l1 with
    | [] => apply_modify_loop l2 rc e b
    | _ :: _ =>
        let '(rc1, e1, b1) := apply_modify_loop l1 rc e b in
        if negb (rc1 =? LDAP_SUCCESS)%Z then (rc1, e1, b1)
        else apply_modify_loop l2 LDAP_SUCCESS e1 b1
    end.
Proof.
  induction l1 as [|m l1 IH]; intros rc e b; [reflexivity|].
  cbn [app apply_modify_loop].
  destruct (apply_modification rc e m) as [rc1 e1].
  destruct (rc1 =? LDAP_SUCCESS)%Z eqn:E1; cbn [negb].
  - apply Z.eqb_eq in E1. subst rc1. rewrite IH. destruct l1 as [|m' l1].
    + reflexivity.
    + destruct (apply_modify_loop (m' :: l1) _ _ _) as [[rc2 e2] b2]. reflexivity.
  - now rewrite E1.
Qed.

(** X22. The switch on the kind of modification has no default case:
    a modification of another kind is refused with
    LDAP_UNWILLING_TO_PERFORM only when it is the first of the list (the
    entry is then left as it was); in any later place it is passed over,
    and the result is that of the list without it. *)
Theorem apply_modify_to_entry_other_kind (entry : Entry) (m : Modification)
    (l1 l2 : list Modification) :
  sm_op m = MOD_other ->
  (acl_check_modlist entry (m :: l2) = true ->
   apply_modify_to_entry entry (m :: l2) = (LDAP_UNWILLING_TO_PERFORM, entry)) /\
  (l1 <> [] ->
   bv_eqb (sm_desc m) slap_schema_si_ad_objectClass = false ->
   acl_check_modlist entry (l1 ++ m :: l2) = acl_check_modlist entry (l1 ++ l2) ->
   apply_modify_to_entry entry (l1 ++ m :: l2)
   = apply_modify_to_entry entry (l1 ++ l2)).
Proof.
  intros Hm. split.
  - intros Ha. unfold apply_modify_to_entry. rewrite Ha. cbn [negb apply_modify_loop].
    unfold apply_modification. rewrite Hm. reflexivity.
  - intros Hl Hd Ha. unfold apply_modify_to_entry. rewrite Ha.
    destruct l1 as [|m1 l1]; [congruence|]. cbn [app].
    destruct (negb (acl_check_modlist entry (m1 :: l1 ++ l2))); [reflexivity|].
    change (m1 :: l1 ++ m :: l2) with ((m1 :: l1) ++ m :: l2).
    change (m1 :: l1 ++ l2) with ((m1 :: l1) ++ l2).
    rewrite !apply_modify_loop_app.
    destruct (apply_modify_loop (m1 :: l1) _ _ _) as [[rc1 e1] b1].
    destruct (negb (rc1 =? LDAP_SUCCESS)%Z); [reflexivity|].
    cbn [apply_modify_loop]. rewrite Hd. unfold apply_modification at 1.
    rewrite Hm. cbn [Z.eqb LDAP_SUCCESS negb]. reflexivity.
Qed.

(** X23. [apply_modify_to_entry] stops at the first modification that
    fails: its result code is returned, the modifications after it are
    not applied, and the schema is not checked.  It returns LDAP_SUCCESS
    only if access was granted and the entry it leaves has passed the
    schema check.  A SOFTADD that finds the value present counts as
    done. *)
Theorem apply_modify_to_entry_stops (entry e1 : Entry) (m : Modification)
    (l1 l2 : list Modification) (rc1 : Z) (is_oc : bool) :
  acl_check_modlist entry (l1 ++ m :: l2) = true ->
  apply_modify_loop l1 LDAP_UNWILLING_TO_PERFORM entry false = (rc1, e1, is_oc) ->
  l1 = [] \/ rc1 = LDAP_SUCCESS ->
  (fst (apply_modification rc1 e1 m) <> LDAP_SUCCESS ->
   apply_modify_to_entry entry (l1 ++ m :: l2) = apply_modification rc1 e1 m) /\
  (forall modlist e',
     apply_modify_to_entry entry modlist = (LDAP_SUCCESS, e') ->
     acl_check_modlist entry modlist = true /\
     entry_schema_check e' = LDAP_SUCCESS) /\
  (sm_op m = SLAP_MOD_SOFTADD ->
   fst (modify_add_values e1 (with_op m LDAP_MOD_ADD)) = LDAP_TYPE_OR_VALUE_EXISTS ->
   fst (apply_modification rc1 e1 m) = LDAP_SUCCESS).
Proof.
  intros Ha Hl Hok. split; [|split].
  - intros Hf. unfold apply_modify_to_entry. rewrite Ha. cbn [negb].
    destruct l1 as [|m1 l1].
    + cbn in Hl. injection Hl as <- <- _. cbn [app apply_modify_loop].
      destruct (apply_modification LDAP_UNWILLING_TO_PERFORM entry m) as [rc e2].
      cbn [fst] in Hf. apply Z.eqb_neq in Hf. rewrite Hf. cbn [negb].
      now rewrite Hf.
    + destruct Hok as [Hok | ->]; [discriminate|].
      cbn [app]. change (m1 :: l1 ++ m :: l2) with ((m1 :: l1) ++ (m :: l2)).
      rewrite apply_modify_loop_app. cbv beta iota. rewrite Hl.
      replace (negb (LDAP_SUCCESS =? LDAP_SUCCESS)%Z) with false by reflexivity.
      cbn [apply_modify_loop].
      destruct (apply_modification LDAP_SUCCESS e1 m) as [rc e2] eqn:Em.
      cbn [fst] in Hf. apply Z.eqb_neq in Hf.
      rewrite Hf. cbn [negb]. now rewrite Hf.
  - intros modlist e' H. unfold apply_modify_to_entry in H.
    destruct (acl_check_modlist entry modlist); cbn [negb] in H; [|discriminate].
    split; [reflexivity|].
    revert H. destruct (apply_modify_loop modlist _ entry false) as [[rc e2] b2].
    destruct (rc =? LDAP_SUCCESS)%Z eqn:E; intros H.
    + injection H as H1 <-. exact H1.
    + injection H as -> _. discriminate E.
  - intros Hk Hv. unfold apply_modification. rewrite Hk.
    destruct (modify_add_values e1 (with_op m LDAP_MOD_ADD)) as [rc e2].
    cbn [fst] in Hv. subst rc. reflexivity.
Qed.

End ModifyProperties.

Section ModifyEntry.
Context `{SL : !Slapd} `{SM : !SlapdModify}.

Lemma ldif_read_entry_none (fs : filesys) path parent rc :
  ldif_read_entry fs path parent false = (rc, None) -> rc <> LDAP_SUCCESS.
Proof.
  unfold ldif_read_entry.
  destruct (rr_rc _ =? LDAP_SUCCESS)%Z eqn:E.
  - destruct (str2entry _); [|intros [= <-]; discriminate].
    destruct parent as [[[|c pdn] pndn]|]; discriminate.
  - intros [= <-]. now apply Z.eqb_neq.
Qed.

Lemma get_entry_result (be : BackendDB) (fs : filesys) (op : Operation) rc e path :
  get_entry be fs op false = (rc, e, path) ->
  path = dn2path be (o_req_ndn op) /\
  (rc = LDAP_SUCCESS <-> exists entry, e = Some entry).
Proof.
  unfold get_entry.
  destruct (ldif_read_entry fs _ _ false) as [rc0 e0] eqn:Er.
  intros [= <- <- <-]. split; [reflexivity|].
  destruct e0 as [entry|].
  - split; [eauto|]. intros _.
    destruct (Z.eq_dec rc0 LDAP_SUCCESS) as [H|H]; [exact H|].
    pose proof (ldif_read_entry_fails fs _ _ rc0 ltac:(now rewrite Er) H) as Hn.
    rewrite Er in Hn. discriminate.
  - split; [|intros [? ?]; discriminate].
    intros H. now destruct (ldif_read_entry_none _ _ _ _ Er).
Qed.

(** X24. [ldif_back_modify] writes only after the entry has been read
    and the modifications and the schema check have gone through: a
    failure of either is the result and leaves the file system as it
    was.  On LDAP_SUCCESS the entry's own file holds the modified entry
    as serialized, and every other path that was not a directory is as
    before.  For an empty list of modifications nothing is applied, not
    even what [slap_mods_opattrs] adds: the entry is written back as
    read. *)
Theorem ldif_back_modify_effect (env : write_calls) (be : BackendDB)
    (fs : filesys) (op : Operation) (orm_modlist : list Modification) :
  let modlst := match orm_modlist with
                | [] => []
                | _ :: _ => slap_mods_opattrs orm_modlist
                end in
  let path := dn2path be (o_req_ndn op) in
  let got := get_entry be fs op false in
  let r := ldif_back_modify env be fs op orm_modlist in
  (fst r = LDAP_SUCCESS ->
   exists e e' data,
     got = (LDAP_SUCCESS, Some e, path) /\
     apply_modify_to_entry e modlst = (LDAP_SUCCESS, e') /\
     entry_schema_check e' = LDAP_SUCCESS /\
     entry2str (stored_entry e') = Some data /\
     snd r !! path = Some (IFile data) /\
     forall q, q <> path -> not_dir (fs !! q) -> snd r !! q = fs !! q) /\
  (fst (fst got) <> LDAP_SUCCESS -> r = (fst (fst got), fs)) /\
  (forall e, got = (LDAP_SUCCESS, Some e, path) ->
     fst (apply_modify_to_entry e modlst) <> LDAP_SUCCESS ->
     r = (fst (apply_modify_to_entry e modlst), fs)) /\
  (orm_modlist = [] ->
   forall e, got = (LDAP_SUCCESS, Some e, path) ->
     acl_check_modlist e [] = true -> entry_schema_check e = LDAP_SUCCESS ->
     r = ldif_write_entry env fs e path).
Proof.
  cbv zeta. unfold ldif_back_modify.
  set (modlst := match orm_modlist with [] => [] | _ => _ end).
  destruct (get_entry be fs op false) as [[rc e] path] eqn:G.
  destruct (get_entry_result be fs op rc e path G) as [-> Hiff].
  cbn [fst snd]. split; [|split; [|split]].
  - destruct e as [e|]; cycle 1.
    { cbn [fst]. intros Hrc. apply Hiff in Hrc as [? ?]. discriminate. }
    destruct (rc =? LDAP_SUCCESS)%Z eqn:E; cycle 1.
    { cbn [fst]. intros Hrc. apply Z.eqb_neq in E. contradiction. }
    apply Z.eqb_eq in E. subst rc.
    destruct (apply_modify_to_entry e modlst) as [rc2 e'] eqn:Em.
    destruct (rc2 =? LDAP_SUCCESS)%Z eqn:E2; cycle 1.
    { cbn [fst]. intros Hrc. apply Z.eqb_neq in E2. contradiction. }
    apply Z.eqb_eq in E2. subst rc2. intros Hrc.
    destruct (ldif_write_entry_success env fs e' _ Hrc) as (data & Ed & Hf & Ho).
    exists e, e', data. repeat split; auto.
    unfold apply_modify_to_entry in Em.
    destruct (acl_check_modlist e modlst); cbn [negb] in Em; [|discriminate].
    revert Em. destruct (apply_modify_loop modlst _ e false) as [[rc3 e3] b3].
    destruct (rc3 =? LDAP_SUCCESS)%Z eqn:E3; intros Em.
    + injection Em as H1 <-. exact H1.
    + injection Em as -> _. discriminate E3.
  - intros Hrc. destruct e as [e|]; [|reflexivity].
    apply Z.eqb_neq in Hrc. now rewrite Hrc.
  - intros e0 [= -> ->] Hf. cbn [Z.eqb LDAP_SUCCESS].
    destruct (apply_modify_to_entry e0 modlst) as [rc2 e'].
    cbn [fst] in *. apply Z.eqb_neq in Hf. now rewrite Hf.
  - intros -> e0 [= -> ->] Ha Hs. cbn [Z.eqb LDAP_SUCCESS]. subst modlst.
    unfold apply_modify_to_entry. rewrite Ha. cbn [negb apply_modify_loop].
    cbn [Z.eqb LDAP_SUCCESS]. rewrite Hs. reflexivity.
Qed.

End ModifyEntry.

Lemma apply_modify_to_entry_other_kind_witness :
  let alice := {| e_name := bv "cn=alice,dc=example,dc=com";
                  e_nname := bv "cn=alice,dc=example,dc=com";
                  e_attrs := []; e_ocflags := 0 |} in
  @apply_modify_to_entry example_modify alice
    [example_password_mod MOD_other; example_password_mod LDAP_MOD_ADD]
  = (LDAP_UNWILLING_TO_PERFORM, alice).
Proof.
  cbv zeta.
  refine (proj1 (@apply_modify_to_entry_other_kind example_modify _
                   (example_password_mod MOD_other) []
                   [example_password_mod LDAP_MOD_ADD] eq_refl) eq_refl).
Defined.

Lemma apply_modify_to_entry_stops_witness :
  let alice := {| e_name := bv "cn=alice,dc=example,dc=com";
                  e_nname := bv "cn=alice,dc=example,dc=com";
                  e_attrs := []; e_ocflags := 0 |} in
  fst (@apply_modify_to_entry example_modify alice
         [example_password_mod LDAP_MOD_ADD; example_password_mod LDAP_MOD_ADD;
          example_password_mod LDAP_MOD_DELETE])
  = LDAP_TYPE_OR_VALUE_EXISTS.
Proof.
  cbv zeta.
  pose proof (proj1 (@apply_modify_to_entry_stops example_modify
                    {| e_name := bv "cn=alice,dc=example,dc=com";
                       e_nname := bv "cn=alice,dc=example,dc=com";
                       e_attrs := []; e_ocflags := 0 |}
                    {| e_name := bv "cn=alice,dc=example,dc=com";
                       e_nname := bv "cn=alice,dc=example,dc=com";
                       e_attrs := [ {| a_desc := slap_schema_si_ad_userPassword;
                                       a_vals := [bv "hunter2"] |} ];
                       e_ocflags := 0 |}
                    (example_password_mod LDAP_MOD_ADD)
                    [example_password_mod LDAP_MOD_ADD]
                    [example_password_mod LDAP_MOD_DELETE] LDAP_SUCCESS false
                    eq_refl eq_refl (or_intror eq_refl))) as E.
  cbn [app] in E. rewrite E.
  - reflexivity.
  - vm_compute. discriminate.
Defined.

Lemma ldif_back_modify_effect_witness :
  fst (@ldif_back_modify example_slapd example_modify example_write_calls
         example_be example_fs
         (example_op (bv "cn=zoe,dc=example,dc=com") LDAP_SCOPE_BASE)
         [example_password_mod LDAP_MOD_REPLACE])
  = LDAP_NO_SUCH_OBJECT.
Proof.
  rewrite (proj1 (proj2 (@ldif_back_modify_effect example_slapd example_modify
                           example_write_calls example_be example_fs
                           (example_op (bv "cn=zoe,dc=example,dc=com") LDAP_SCOPE_BASE)
                           [example_password_mod LDAP_MOD_REPLACE]))).
  - vm_compute. reflexivity.
  - vm_compute. discriminate.
Defined.

(** * Renaming: moving a directory with what lies below it *)

Lemma in_tree_split (dir p : berval) :
  in_tree dir p = true <->
  exists rest, p = dir ++ rest /\ (rest = [] \/ exists t, rest = LDAP_DIRSEP :: t).
Proof.
  unfold in_tree. rewrite andb_true_iff, bv_eqb_true. split.
  - intros [Hp Hr]. exists (skipn (length dir) p). split.
    + transitivity (firstn (length dir) p ++ skipn (length dir) p);
        [symmetry; apply firstn_skipn|]. f_equal; exact Hp.
    + destruct (skipn (length dir) p) as [|c t]; [now left|right].
      apply ch_eq_true in Hr. subst c. now exists t.
  - intros (rest & -> & Hr). rewrite take_app_length, drop_app_length.
    split; [reflexivity|].
    destruct Hr as [->|(t & ->)]; [reflexivity|apply ch_eq_refl].
Qed.

Lemma reroot_in_tree (old new p : berval) :
  in_tree old p = true -> in_tree new (reroot old new p) = true.
Proof.
  intros (rest & -> & Hr)%in_tree_split. apply in_tree_split.
  exists rest. unfold reroot. now rewrite drop_app_length.
Qed.

Lemma reroot_inj (old new p q : berval) :
  in_tree old p = true -> in_tree old q = true ->
  reroot old new p = reroot old new q -> p = q.
Proof.
  intros (r1 & -> & _)%in_tree_split (r2 & -> & _)%in_tree_split.
  unfold reroot. rewrite !drop_app_length. intros H.
  apply app_inv_head in H. now subst.
Qed.

(** The keys of the moved part. *)
Lemma moved_keys (old new : berval) (fs : filesys) k v :
  (k, v) ∈ map (fun kv : berval * inode => (reroot old new kv.1, kv.2))
             (map_to_list (filter (fun kv => in_tree old kv.1 = true) fs)) <->
  exists k0, k = reroot old new k0 /\ in_tree old k0 = true /\ fs !! k0 = Some v.
Proof.
  rewrite list_elem_of_In, in_map_iff. split.
  - intros ([k0 v0] & [= <- <-] & Hin). apply list_elem_of_In in Hin.
    apply elem_of_map_to_list in Hin.
    apply map_lookup_filter_Some in Hin as [Hl Ht]. exists k0. auto.
  - intros (k0 & -> & Ht & Hl). exists (k0, v). split; [reflexivity|].
    apply list_elem_of_In, elem_of_map_to_list, map_lookup_filter_Some. auto.
Qed.

Lemma moved_keys_NoDup (old new : berval) (fs : filesys) :
  NoDup (map fst (map (fun kv : berval * inode => (reroot old new kv.1, kv.2))
                    (map_to_list (filter (fun kv => in_tree old kv.1 = true) fs)))).
Proof.
  rewrite map_map. cbn [fst].
  apply (NoDup_fmap_2_strong (fun kv : berval * inode => reroot old new kv.1)).
  - intros [k1 v1] [k2 v2] H1 H2 E. cbn [fst] in E.
    apply elem_of_map_to_list in H1, H2.
    apply map_lookup_filter_Some in H1 as [L1 T1], H2 as [L2 T2]. cbn [fst] in *.
    assert (k1 = k2) by (eapply reroot_inj; eauto). subst k2.
    apply (map_lookup_filter_Some_2 (fun kv => in_tree old kv.1 = true)) in L1, L2;
      auto.
    congruence.
  - apply NoDup_map_to_list.
Qed.

(** The body of [fs_move_tree], before the parents' lists of names are
    brought up to date. *)
Lemma moved_tree_there (old new : berval) (fs : filesys) k v :
  in_tree old k = true -> fs !! k = Some v ->
  (list_to_map (map (fun kv : berval * inode => (reroot old new kv.1, kv.2))
                  (map_to_list (filter (fun kv => in_tree old kv.1 = true) fs)))
   ∪ filter (fun kv => in_tree old kv.1 = false) fs : filesys)
    !! reroot old new k = Some v.
Proof.
  intros Ht Hl. apply lookup_union_Some_l.
  apply elem_of_list_to_map_1; [apply moved_keys_NoDup|].
  apply moved_keys. exists k. auto.
Qed.

Lemma moved_tree_elsewhere (old new : berval) (fs : filesys) q :
  in_tree new q = false ->
  (list_to_map (map (fun kv : berval * inode => (reroot old new kv.1, kv.2))
                  (map_to_list (filter (fun kv => in_tree old kv.1 = true) fs)))
   ∪ filter (fun kv => in_tree old kv.1 = false) fs : filesys) !! q
  = if in_tree old q then None else fs !! q.
Proof.
  intros Hn.
  assert (Hleft : (list_to_map (map (fun kv : berval * inode =>
                                       (reroot old new kv.1, kv.2))
                     (map_to_list (filter (fun kv => in_tree old kv.1 = true) fs)))
                   : filesys) !! q = None).
  { apply not_elem_of_list_to_map_1. intros Hin.
    apply list_elem_of_fmap in Hin as ([k v] & Hk & Hin). cbn [fst] in Hk. subst k.
    apply moved_keys in Hin as (k0 & -> & Ht & _).
    apply (reroot_in_tree old new) in Ht. congruence. }
  rewrite lookup_union_r by exact Hleft.
  destruct (in_tree old q) eqn:Ho.
  - apply map_lookup_filter_None. right. intros x _. cbn [fst]. congruence.
  - destruct (fs !! q) as [i|] eqn:Hq.
    + apply map_lookup_filter_Some. auto.
    + apply map_lookup_filter_None. left. exact Hq.
Qed.

Lemma names_change_twice (f g : inode -> inode) (m : filesys) k1 k2 q :
  (forall d, f (IFile d) = IFile d) -> (forall d, g (IFile d) = IFile d) ->
  not_dir (m !! q) ->
  alter f k1 (alter g k2 m) !! q = m !! q.
Proof.
  intros Hf Hg Hq.
  assert (E2 : alter g k2 m !! q = m !! q)
    by (now apply names_change_keeps_files).
  rewrite names_change_keeps_files; [exact E2|exact Hf|now rewrite E2].
Qed.

(** A file below the directory that is moved is found below the new
    directory afterwards. *)
Lemma fs_move_tree_there (old new : berval) (fs : filesys) k d :
  in_tree old k = true -> fs !! k = Some (IFile d) ->
  fs_move_tree old new fs !! reroot old new k = Some (IFile d).
Proof.
  intros Ht Hl. unfold fs_move_tree.
  pose proof (moved_tree_there old new fs k (IFile d) Ht Hl) as H.
  rewrite names_change_twice; [exact H|reflexivity|reflexivity|].
  rewrite H. intros m ns; discriminate.
Qed.

(** What is neither below the old nor below the new directory stays,
    if it is not a directory; below the old one nothing is left. *)
Lemma fs_move_tree_elsewhere (old new : berval) (fs : filesys) q :
  in_tree new q = false -> not_dir (fs !! q) ->
  fs_move_tree old new fs !! q = if in_tree old q then None else fs !! q.
Proof.
  intros Hn Hd. unfold fs_move_tree.
  pose proof (moved_tree_elsewhere old new fs q Hn) as H.
  rewrite names_change_twice; [exact H|reflexivity|reflexivity|].
  rewrite H. destruct (in_tree old q); [intros m ns; discriminate|exact Hd].
Qed.

(** * Renaming an entry *)

Lemma fs_unlink_is_dir (fs : filesys) p d :
  is_dir fs d = true -> d <> p -> is_dir (fs_unlink p fs) d = true.
Proof.
  unfold is_dir, fs_unlink. intros H Hne.
  rewrite lookup_delete_ne by congruence. rewrite lookup_alter.
  case_decide as E.
  - rewrite E. destruct (fs !! d) as [[x|m ns]|]; try discriminate. reflexivity.
  - exact H.
Qed.

Lemma is_dir_neq (fs : filesys) p q d :
  is_dir fs q = true -> fs !! p = Some (IFile d) \/ fs !! p = None -> q <> p.
Proof.
  unfold is_dir. intros H [Hp|Hp] ->; rewrite Hp in H; discriminate.
Qed.

Ltac dirs_done H :=
  cbn -[sys_unlink bool_decide];
  repeat match goal with
         | |- context [bool_decide ?P] => destruct (bool_decide P)
         end;
  cbn [snd]; exact H.

Section MoveEntry.
Context `{SL : !Slapd} `{SM : !SlapdModify}.

(** Writing an entry file removes no directory. *)
Lemma ldif_write_entry_keeps_dirs (env : write_calls) (fs : filesys) (e : Entry)
    (path q : berval) :
  is_dir fs q = true ->
  is_dir (snd (ldif_write_entry env fs e path)) q = true.
Proof.
  intros Hq. unfold ldif_write_entry.
  set (tmp := firstn (length (ldif_tempname path) - 6) (ldif_tempname path)
              ++ mkstemp_chars 6 (wc_seed env)).
  destruct (wc_tempname env); cycle 1.
  { dirs_done Hq. }
  unfold sys_mkstemp. fold tmp.
  destruct (wc_mkstemp env) as [f|].
  { dirs_done Hq. }
  destruct (is_dir fs (path_dirname tmp)) eqn:Hpd; cycle 1.
  { dirs_done Hq. }
  cbn [negb].
  destruct (fs !! tmp) as [i|] eqn:Hfree.
  { dirs_done Hq. }
  set (fs0 := fs_link tmp (IFile []) fs).
  assert (Hqt : q <> tmp) by (apply (is_dir_neq fs tmp q []); auto).
  assert (H0 : fs0 !! tmp = Some (IFile [])) by apply fs_link_there.
  assert (Hq0 : is_dir fs0 q = true) by (now apply fs_link_is_dir).
  (* whatever was written, the directory is there after the clean-up *)
  assert (Clean : forall (fs1 : filesys) d,
    fs1 !! tmp = Some (IFile d) ->
    (forall p, p <> tmp -> fs1 !! p = fs0 !! p) ->
    is_dir fs1 q = true /\ is_dir (snd (sys_unlink None fs1 tmp)) q = true).
  { intros fs1 d H1 H1o.
    assert (Hq1 : is_dir fs1 q = true)
      by (unfold is_dir in *; now rewrite H1o).
    split; [exact Hq1|]. rewrite (sys_unlink_file fs1 tmp d H1). cbn [snd].
    now apply fs_unlink_is_dir. }
  destruct (entry2str (stored_entry e)) as [data|] eqn:Es.
  2:{ destruct (Clean fs0 [] H0 ltac:(auto)) as [_ Hc].
      destruct (wc_close env) as [f|]; dirs_done Hc. }
  destruct (spew_file_outcome (wc_write env) fs0 tmp data 0%Z None [] H0
              ltac:(left; lia))
    as (res & se & fs1 & written & E & H1 & H1o & Hres).
  rewrite E. cbn [app] in H1.
  destruct (Clean fs1 written H1 H1o) as [Hq1 Hc].
  destruct (res >=? 0)%Z eqn:Eres; cycle 1.
  { destruct (wc_close env) as [f|]; rewrite ?Eres; dirs_done Hc. }
  destruct (wc_close env) as [f|].
  { dirs_done Hc. }
  rewrite Eres. unfold sys_rename.
  destruct (wc_move env) as [f|].
  { dirs_done Hc. }
  rewrite H1.
  destruct (fs1 !! path) as [[dp|mp nsp]|] eqn:Hp.
  - destruct (is_dir fs1 (path_dirname path)).
    + cbn. apply fs_link_is_dir.
      * now apply fs_unlink_is_dir.
      * apply (is_dir_neq fs1 path q dp); auto.
    + dirs_done Hc.
  - dirs_done Hc.
  - destruct (is_dir fs1 (path_dirname path)).
    + cbn. apply fs_link_is_dir.
      * now apply fs_unlink_is_dir.
      * apply (is_dir_neq fs1 path q []); auto.
    + dirs_done Hc.
Qed.

(** X25. [ldif_move_entry] probes the new entry file with open(): any
    failure other than ENOENT (a failure of open()'s own, or ENOTDIR
    where a regular file is among the ancestors of the new entry file)
    is taken for "already exists", as is a file or directory that can be
    opened, unless the descriptor is 0, which gives
    LDAP_UNWILLING_TO_PERFORM; nothing is changed then.  If open() fails
    with ENOENT, the result is that of writing the new entry file,
    whatever becomes of removing the old file and of moving the subtree
    directory; and after a failed write nothing more is done. *)
Theorem ldif_move_entry_result (env : move_calls) (be : BackendDB) (fs : filesys)
    (entry : Entry) (oldpath : berval) :
  let newpath := dn2path be (e_nname entry) in
  let r := ldif_move_entry env be fs entry oldpath in
  let w := ldif_write_entry (mv_write env) fs entry newpath in
  (forall f, mv_open env = Some f -> r = (LDAP_ALREADY_EXISTS, fs)) /\
  (forall i, mv_open env = None -> fs !! newpath = Some i ->
     r = (if (mv_fd env =? 0)%Z then LDAP_UNWILLING_TO_PERFORM
          else LDAP_ALREADY_EXISTS, fs)) /\
  (mv_open env = None -> fs !! newpath = None ->
     absent_errno fs newpath = ENOTDIR -> r = (LDAP_ALREADY_EXISTS, fs)) /\
  (mv_open env = None -> fs !! newpath = None ->
     absent_errno fs newpath = ENOENT ->
     fst r = fst w /\ (fst w <> LDAP_SUCCESS -> r = w)).
Proof.
  cbv zeta. unfold ldif_move_entry, sys_open. split; [|split; [|split]].
  - intros f ->.
    now rewrite (bool_decide_eq_false_2 _ (fault_errno_not_ENOENT f)).
  - intros i -> ->. now destruct (mv_fd env =? 0)%Z.
  - intros -> -> ->. now rewrite bool_decide_eq_false_2 by discriminate.
  - intros -> -> ->. rewrite bool_decide_eq_true_2 by reflexivity.
    destruct (ldif_write_entry (mv_write env) fs entry _) as [res fs1].
    destruct (res =? LDAP_SUCCESS)%Z eqn:E; cbn [fst].
    + apply Z.eqb_eq in E. split; [now rewrite E|]. intros H. contradiction.
    + split; [reflexivity|]. reflexivity.
Qed.

(** X26. A rename moves the subtree: when the new entry file has been
    written, the old entry file is a regular file, the old subtree
    directory exists and the new one does not, and unlink() and rename()
    do not fail, then afterwards the new entry file holds the entry as
    serialized, the old entry file is gone, and every regular file below
    the old directory is found, with its contents, at the same place
    below the new directory and no longer below the old one. *)
Theorem ldif_move_entry_moves_subtree (env : move_calls) (be : BackendDB)
    (fs : filesys) (entry : Entry) (oldpath d0 : berval) :
  let newpath := dn2path be (e_nname entry) in
  let olddir := firstn (length oldpath - length LDIF) oldpath in
  let newdir := firstn (length newpath - length LDIF) newpath in
  let r := ldif_move_entry env be fs entry oldpath in
  mv_open env = None -> mv_unlink env = None -> mv_rename env = None ->
  fs !! newpath = None ->
  fst (ldif_write_entry (mv_write env) fs entry newpath) = LDAP_SUCCESS ->
  fs !! oldpath = Some (IFile d0) ->
  is_dir fs olddir = true ->
  fs !! newdir = None ->
  is_dir fs (path_dirname newdir) = true ->
  in_tree olddir oldpath = false ->
  in_tree olddir newdir = false ->
  in_tree olddir newpath = false ->
  in_tree newdir oldpath = false ->
  fst r = LDAP_SUCCESS /\
  (exists data, entry2str (stored_entry entry) = Some data /\
                snd r !! newpath = Some (IFile data)) /\
  snd r !! oldpath = None /\
  forall k d, in_tree olddir k = true -> fs !! k = Some (IFile d) ->
    snd r !! reroot olddir newdir k = Some (IFile d) /\
    (in_tree newdir k = false -> snd r !! k = None).
Proof.
  cbv zeta.
  set (newpath := dn2path be (e_nname entry)).
  set (olddir := firstn (length oldpath - length LDIF) oldpath).
  set (newdir := firstn (length newpath - length LDIF) newpath).
  intros Ho Hu Hr Hnew Hw Hold Hod Hnd Hpd T1 T2 T3 T4.
  assert (Hnn : in_tree newdir newpath = false).
  { unfold newdir, newpath. rewrite (dn2path_split be (e_nname entry)) at 3.
    unfold in_tree. rewrite take_app_length, drop_app_length.
    apply andb_false_iff. right. reflexivity. }
  destruct (ldif_write_entry_success (mv_write env) fs entry newpath Hw)
    as (data & Ed & Hf & Hframe).
  pose proof (ldif_write_entry_keeps_dirs (mv_write env) fs entry newpath) as Hdirs.
  assert (He : absent_errno fs newpath = ENOENT).
  { apply absent_errno_in_dir. unfold newpath.
    rewrite (dn2path_split be (e_nname entry)), path_dirname_app;
      [exact Hpd|vm_compute; intuition discriminate]. }
  unfold ldif_move_entry, sys_open. fold newpath. rewrite Ho, Hnew, He.
  rewrite bool_decide_eq_true_2 by reflexivity.
  destruct (ldif_write_entry (mv_write env) fs entry newpath) as [res fs1] eqn:Ew.
  cbn [fst snd] in *. subst res. cbn [Z.eqb LDAP_SUCCESS fst snd].
  fold olddir newdir.
  assert (Hne : oldpath <> newpath) by congruence.
  assert (Hold1 : fs1 !! oldpath = Some (IFile d0)).
  { rewrite Hframe; [exact Hold|exact Hne|rewrite Hold; intros m ns; discriminate]. }
  rewrite Hu, (sys_unlink_file fs1 oldpath d0 Hold1). cbn [snd].
  set (fs2 := fs_unlink oldpath fs1).
  (* regular files after the write and the unlink *)
  assert (F2 : forall q, q <> newpath -> q <> oldpath -> not_dir (fs !! q) ->
                 fs2 !! q = fs !! q).
  { intros q Q1 Q2 Q3. unfold fs2.
    rewrite fs_unlink_other; [now apply Hframe|exact Q2|].
    now rewrite Hframe. }
  assert (D2 : forall q, is_dir fs q = true -> is_dir fs2 q = true).
  { intros q Q. apply fs_unlink_is_dir; [now apply Hdirs|].
    apply (is_dir_neq fs oldpath q d0); auto. }
  assert (Hnd2 : fs2 !! newdir = None).
  { apply fs_unlink_keeps_absent. rewrite Hframe; [exact Hnd| |].
    - exact (dn2path_dir_neq be (e_nname entry)).
    - rewrite Hnd. intros m ns; discriminate. }
  assert (Hnew2 : fs2 !! newpath = Some (IFile data)).
  { unfold fs2. rewrite fs_unlink_other; [exact Hf|congruence|].
    rewrite Hf. intros m ns; discriminate. }
  assert (Hold2 : fs2 !! oldpath = None) by apply fs_unlink_gone.
  unfold sys_rename_tree. rewrite Hr.
  pose proof (D2 olddir Hod) as Hod2. unfold is_dir in Hod2.
  destruct (fs2 !! olddir) as [[x|m ns]|] eqn:Eod; try discriminate.
  assert (Hneq : bv_eqb olddir newdir = false).
  { destruct (bv_eqb olddir newdir) eqn:E; [|reflexivity].
    apply bv_eqb_true in E. rewrite <- E in Hnd2. congruence. }
  rewrite Hneq, T2, Hnd2, (D2 _ Hpd). cbn [snd].
  split; [reflexivity|]. split; [|split].
  - exists data. split; [exact Ed|].
    rewrite fs_move_tree_elsewhere; [now rewrite T3|exact Hnn|].
    rewrite Hnew2. intros ? ?; discriminate.
  - rewrite fs_move_tree_elsewhere; [now rewrite T1|exact T4|].
    rewrite Hold2. intros ? ?; discriminate.
  - intros k d Hk Hkd.
    assert (K1 : k <> newpath) by (intros ->; congruence).
    assert (K2 : k <> oldpath) by (intros ->; congruence).
    assert (Hk2 : fs2 !! k = Some (IFile d)).
    { rewrite F2; auto. rewrite Hkd. intros ? ?; discriminate. }
    split; [now apply fs_move_tree_there|].
    intros Hkn. rewrite fs_move_tree_elsewhere; [now rewrite Hk|exact Hkn|].
    rewrite Hk2. intros ? ?; discriminate.
Qed.

End MoveEntry.

(** A new name whose entry file would lie below a regular file is
    answered with LDAP_ALREADY_EXISTS. *)
Lemma ldif_move_entry_result_witness :
  @ldif_move_entry example_slapd example_move_calls example_be blocked_fs
    example_dave (bv "/var/data/dc=example,dc=com/cn=alice.ldif")
  = (LDAP_ALREADY_EXISTS, blocked_fs).
Proof.
  refine (proj1 (proj2 (proj2
            (@ldif_move_entry_result example_slapd example_move_calls
               example_be blocked_fs example_dave
               (bv "/var/data/dc=example,dc=com/cn=alice.ldif")))) _ _ _);
    vm_compute; reflexivity.
Defined.

Lemma ldif_move_entry_moves_subtree_witness :
  snd (@ldif_move_entry example_slapd example_move_calls example_be rename_fs
         example_rob (bv "/var/data/dc=example,dc=com/cn=bob.ldif"))
    !! bv "/var/data/dc=example,dc=com/cn=rob/cn=carol.ldif"
  = Some (IFile (bv "cn=carol")).
Proof.
  refine (proj1 (proj2 (proj2 (proj2
            (@ldif_move_entry_moves_subtree example_slapd example_move_calls
               example_be rename_fs example_rob
               (bv "/var/data/dc=example,dc=com/cn=bob.ldif") (bv "cn=bob")
               _ _ _ _ _ _ _ _ _ _ _ _ _)))
            (bv "/var/data/dc=example,dc=com/cn=bob/cn=carol.ldif")
            (bv "cn=carol") _ _));
    vm_compute; reflexivity.
Defined.

Section Modrdn.
Context `{SL : !Slapd} `{SM : !SlapdModify}.

Lemma get_entry_exists (be : BackendDB) (fs : filesys) (op : Operation) e path :
  get_entry be fs op false = (LDAP_SUCCESS, e, path) ->
  fs !! path <> None.
Proof.
  intros G Hn. destruct (get_entry_result _ _ _ _ _ _ G) as [-> _].
  unfold get_entry in G. rewrite (ldif_read_entry_absent fs _ _ Hn) in G.
  discriminate.
Qed.


End Modrdn.


(** * The referral check *)

Section ReferralCheck.
Context `{SL : !Slapd} `{SR : !SlapdReferral}.

(** The walk up the tree ends: with parents that are shorter than their
    children, as many steps as the DN has bytes are enough. *)
Lemma referral_ancestor_ends (be : BackendDB) (fs : filesys) (op : Operation)
    (min_dnlen : nat) :
  (forall dn, dn <> [] -> length (dnParent dn) < length dn) ->
  0 < min_dnlen ->
  forall fuel pndn, length pndn <= fuel -> pndn <> [] ->
  exists found, referral_ancestor fuel be fs op pndn min_dnlen = Some found.
Proof.
  intros Hp Hm fuel. induction fuel as [|fuel IH]; intros pndn Hl Hne.
  - destruct pndn; [congruence|cbn in Hl; lia].
  - cbn [referral_ancestor]. specialize (Hp pndn Hne).
    destruct (length (dnParent pndn) <? min_dnlen) eqn:E; [eauto|].
    apply Nat.ltb_ge in E.
    destruct (get_entry be fs _ false) as [[rc [e|]] p]; [eauto|].
    apply IH; [lia|]. destruct (dnParent pndn); [cbn in E; lia|discriminate].
Qed.

(** An entry found on the way up is one whose DN is not shorter than
    the bound. *)
Lemma referral_ancestor_found (be : BackendDB) (fs : filesys) (op : Operation)
    (min_dnlen : nat) :
  forall fuel pndn entry,
  referral_ancestor fuel be fs op pndn min_dnlen = Some (Some entry) ->
  exists dn, min_dnlen <= length dn /\
    fst (get_entry be fs (with_dn op dn dn) false) = (LDAP_SUCCESS, Some entry).
Proof.
  induction fuel as [|fuel IH]; intros pndn entry H; [discriminate|].
  cbn [referral_ancestor] in H.
  destruct (length (dnParent pndn) <? min_dnlen) eqn:E; [discriminate|].
  apply Nat.ltb_ge in E.
  destruct (get_entry be fs _ false) as [[rc [e|]] p] eqn:G.
  - injection H as ->. exists (dnParent pndn). split; [exact E|].
    rewrite G. cbn [fst]. f_equal.
    destruct (get_entry_result _ _ _ _ _ _ G) as [_ Hiff].
    apply Hiff. eauto.
  - eapply IH. exact H.
Qed.


End ReferralCheck.

Lemma after_char_shorter (c : ascii) (s t : berval) :
  after_char c s = Some t -> length t < length s.
Proof.
  revert t. induction s as [|x s IH]; intros t; cbn [after_char]; [discriminate|].
  destruct (ch_eq x c).
  - intros [= <-]. cbn. lia.
  - intros H. specialize (IH t H). cbn. lia.
Qed.


(** * The temporary file; a child that cannot be read *)

Lemma mkstemp_chars_no_slash n : forall seed, ~ In "/"%char (mkstemp_chars n seed).
Proof.
  induction n as [|n IH]; intros seed; cbn [mkstemp_chars]; [intros []|].
  intros [E|I]; [|exact (IH _ I)].
  assert (Hin : In (nth (seed mod 62) mkstemp_alphabet "a"%char) mkstemp_alphabet).
  { apply nth_In. change (length mkstemp_alphabet) with 62.
    apply Nat.mod_upper_bound. lia. }
  rewrite E in Hin. revert Hin. clear.
  vm_compute. intuition discriminate.
Qed.

(** X29. The temporary file that [ldif_write_entry] makes for the entry
    file of a DN lies in the directory of that entry file, whatever name
    mkstemp() picks: the final rename never crosses a directory.  Its
    name is two bytes longer than the entry file's and differs from
    it. *)
Theorem ldif_tempname_same_directory (be : BackendDB) (dn : berval) (seed : nat) :
  let path := dn2path be dn in
  let tmp := firstn (length (ldif_tempname path) - 6) (ldif_tempname path)
             ++ mkstemp_chars 6 seed in
  path_dirname tmp = path_dirname path /\
  length tmp = length path + 2 /\
  tmp <> path.
Proof.
  cbv zeta. pose proof (dn2path_split be dn) as Hp.
  set (path := dn2path be dn) in *. clearbody path.
  set (dir := firstn (length path - length LDIF) path) in *. clearbody dir.
  assert (Hl : length path = length dir + 5)
    by (rewrite Hp, length_app; reflexivity).
  assert (Ht : firstn (length (ldif_tempname path) - 6) (ldif_tempname path)
               = dir ++ bv ".").
  { unfold ldif_tempname. rewrite Hl.
    replace (length dir + 5 - length LDIF) with (length dir)
      by (cbn [LDIF bv list_ascii_of_string length]; lia).
    rewrite Hp at 1 2. rewrite take_app_length.
    rewrite length_app. change (length (bv ".XXXXXX")) with 7.
    replace (length dir + 7 - 6) with (length dir + 1) by lia.
    rewrite firstn_app, firstn_all2 by lia.
    replace (length dir + 1 - length dir) with 1 by lia. reflexivity. }
  rewrite Ht. split; [|split].
  - rewrite <- app_assoc, path_dirname_app.
    + rewrite Hp, path_dirname_app; [reflexivity|].
      vm_compute. intuition discriminate.
    + intros [E|I]%in_app_iff; [revert E; vm_compute; intuition discriminate|].
      exact (mkstemp_chars_no_slash 6 seed I).
  - rewrite !length_app. cbn [mkstemp_chars length bv list_ascii_of_string]. lia.
  - intros E. apply (f_equal (@length ascii)) in E. rewrite !length_app in E.
    cbn [mkstemp_chars length bv list_ascii_of_string] in E. lia.
Qed.

Section UnreadableChild.
Context `{SL : !Slapd}.

Lemma enum_children_failed
    (recurse : enumCookie -> pathbuf -> option (Z * enumCookie)) path lst rc ck :
  (rc =? LDAP_SUCCESS)%Z = false ->
  enum_children recurse path lst rc ck = Some (rc, ck).
Proof.
  intros H. induction lst as [|ptr lst IH]; cbn [enum_children]; [reflexivity|].
  now rewrite H.
Qed.

Lemma enum_children_app
    (recurse : enumCookie -> pathbuf -> option (Z * enumCookie)) path l1 l2 :
  forall rc ck,
  enum_children recurse path (l1 ++ l2) rc ck
  = match enum_children recurse path l1 rc ck with
    | Some (rc1, ck1) => enum_children recurse path l2 rc1 ck1
    | None => None
    end.
Proof.
  induction l1 as [|ptr l1 IH]; intros rc ck; [reflexivity|].
  cbn [app enum_children]. destruct (rc =? LDAP_SUCCESS)%Z; [|apply IH].
  destruct (recurse ck _) as [[rc1 ck1]|]; [apply IH|reflexivity].
Qed.

(** X30. One child that cannot be read spoils a ONELEVEL search: the
    children sorted before it are sent as usual, then the search ends
    with LDAP_NO_SUCH_OBJECT, and the children after it are not
    visited, whatever they are. *)
Theorem ldif_back_search_unreadable_child (f : nat) (be : BackendDB)
    (fs : filesys) (op : Operation) (eb : Entry) (names : list berval)
    (l1 l2 : list bvlist) (ptr : bvlist) (es : list Entry) :
  let path := pathbuf_of (dn2path be (o_req_ndn op)) in
  let dir := ldif2dir path in
  ors_scope op = LDAP_SCOPE_ONELEVEL ->
  o_req_ndn op <> [] ->
  ldif_read_entry fs (cstr (pb_val path))
    (Some (dnParent (o_req_dn op), dnParent (o_req_ndn op))) false
  = (LDAP_SUCCESS, Some eb) ->
  sys_readdir fs (cstr (pb_val dir)) = Ok names ->
  enum_readdir names [] = l1 ++ ptr :: l2 ->
  Forall2 (fun ptr e =>
             ldif_read_entry fs (cstr (pb_val (fullpath dir (bvlist_restore ptr))))
               (Some (e_name eb, e_nname eb)) false = (LDAP_SUCCESS, Some e))
          l1 es ->
  fst (ldif_read_entry fs (cstr (pb_val (fullpath dir (bvlist_restore ptr))))
         (Some (e_name eb, e_nname eb)) false) <> LDAP_SUCCESS ->
  (forall sent e, send_search_entry sent e = LDAP_SUCCESS) ->
  ldif_back_search (S (S f)) be fs op
  = Some (LDAP_NO_SUCH_OBJECT, map SearchEntry (List.filter (ors_filter op) es)).
Proof.
  intros path dir Hsc Hne Hb Hd Hl Hch Hbad Hsend. subst path dir.
  remember (S f) as f1 eqn:Hf1.
  unfold ldif_back_search, enum_tree. cbn [ck_op].
  replace (length (o_req_ndn op) =? 0) with false
    by (symmetry; apply Nat.eqb_neq; destruct (o_req_ndn op); simpl; [congruence|lia]).
  cbn [r_enum_tree]. unfold enum_self_entry. rewrite Hb.
  cbn [negb Z.eqb LDAP_SUCCESS ck_op]. rewrite Hsc.
  cbn [bool_decide decide_rel orb negb andb].
  rewrite !bool_decide_eq_false_2 by discriminate.
  cbn [orb negb ck_op]. rewrite Hsc.
  rewrite !bool_decide_eq_false_2 by discriminate. cbn [negb].
  rewrite Hd, Hl.
  rewrite bool_decide_eq_true_2 by reflexivity.
  set (ck2 := ck_set_op _ _). subst f1.
  rewrite enum_children_app.
  destruct (enum_children_base_scope f fs _ (e_name eb) (e_nname eb) Hsend
              l1 es ck2 {| sr_sent := [] |} eq_refl eq_refl Hch)
    as (ck' & E & Ho & Hr).
  rewrite E. cbn [enum_children Z.eqb LDAP_SUCCESS].
  assert (Hs' : ors_scope (ck_op ck') = LDAP_SCOPE_BASE) by (now rewrite Ho).
  rewrite (r_enum_tree_base_scope f fs ck' _ _ _ _ Hs' Hr).
  pose proof (ldif_read_entry_fails fs _ _ _ eq_refl Hbad) as Hnone.
  match goal with
  | |- context [ldif_read_entry fs ?P ?Q false] =>
      destruct (ldif_read_entry fs P Q false) as [rc [e|]]
  end; [cbn [snd] in Hnone; discriminate Hnone|].
  rewrite enum_children_failed by reflexivity.
  rewrite Hr. reflexivity.
Qed.

End UnreadableChild.

Lemma ldif_back_search_unreadable_child_witness :
  @ldif_back_search example_slapd 2 example_be spoiled_fs
    (example_op (bv "dc=example,dc=com") LDAP_SCOPE_ONELEVEL)
  = Some (LDAP_NO_SUCH_OBJECT, [SearchEntry example_alice]).
Proof.
  refine (@ldif_back_search_unreadable_child example_slapd 0 example_be spoiled_fs
            (example_op (bv "dc=example,dc=com") LDAP_SCOPE_ONELEVEL)
            {| e_name := bv "dc=example,dc=com"; e_nname := bv "dc=example,dc=com";
               e_attrs := []; e_ocflags := 0 |}
            [bv "."; bv ".."; bv "cn=bob.ldif"; bv "cn=b.ldif"; bv "cn=alice.ldif"]
            [bvlist_of (bv "cn=alice.ldif")] [bvlist_of (bv "cn=bob.ldif")]
            (bvlist_of (bv "cn=b.ldif")) [example_alice]
            eq_refl _ _ _ _ _ _ _).
  - discriminate.
  - vm_compute. reflexivity.
  - vm_compute. reflexivity.
  - vm_compute. reflexivity.
  - constructor; [vm_compute; reflexivity|constructor].
  - vm_compute. discriminate.
  - reflexivity.
Defined.

(** * Add: the parent directory and the entry file *)

Lemma fs_link_mode (fs : filesys) p i d m :
  (exists ns, fs !! d = Some (IDir m ns)) -> d <> p ->
  exists ns, fs_link p i fs !! d = Some (IDir m ns).
Proof.
  unfold fs_link. intros [ns H] Hne.
  rewrite lookup_insert_ne by congruence. rewrite lookup_alter.
  case_decide as E.
  - rewrite E, H. cbn. eauto.
  - eauto.
Qed.

Lemma fs_unlink_mode (fs : filesys) p d m :
  (exists ns, fs !! d = Some (IDir m ns)) -> d <> p ->
  exists ns, fs_unlink p fs !! d = Some (IDir m ns).
Proof.
  unfold fs_unlink. intros [ns H] Hne.
  rewrite lookup_delete_ne by congruence. rewrite lookup_alter.
  case_decide as E.
  - rewrite E, H. cbn. eauto.
  - eauto.
Qed.

Lemma mode_neq (fs : filesys) p q m d :
  (exists ns, fs !! q = Some (IDir m ns)) ->
  fs !! p = Some (IFile d) \/ fs !! p = None -> q <> p.
Proof. intros [ns H] [Hp|Hp] ->; rewrite Hp in H; discriminate. Qed.

(** The temporary file of an entry file lies in the same directory. *)
Lemma tempname_dirname (be : BackendDB) (dn : berval) (seed : nat) :
  path_dirname (firstn (length (ldif_tempname (dn2path be dn)) - 6)
                  (ldif_tempname (dn2path be dn)) ++ mkstemp_chars 6 seed)
  = path_dirname (dn2path be dn).
Proof.
  pose proof (dn2path_split be dn) as Hp.
  set (path := dn2path be dn) in *. clearbody path.
  set (dir := firstn (length path - length LDIF) path) in *. clearbody dir.
  assert (Hl : length path = length dir + 5)
    by (rewrite Hp, length_app; reflexivity).
  assert (Ht : firstn (length (ldif_tempname path) - 6) (ldif_tempname path)
               = dir ++ bv ".").
  { unfold ldif_tempname. rewrite Hl.
    replace (length dir + 5 - length LDIF) with (length dir)
      by (cbn [LDIF bv list_ascii_of_string length]; lia).
    rewrite Hp at 1 2. rewrite take_app_length.
    rewrite length_app. change (length (bv ".XXXXXX")) with 7.
    replace (length dir + 7 - 6) with (length dir + 1) by lia.
    rewrite firstn_app, firstn_all2 by lia.
    replace (length dir + 1 - length dir) with 1 by lia. reflexivity. }
  rewrite Ht, <- app_assoc, path_dirname_app.
  - rewrite Hp, path_dirname_app; [reflexivity|].
    vm_compute. intuition discriminate.
  - intros [E|I]%in_app_iff; [revert E; vm_compute; intuition discriminate|].
    exact (mkstemp_chars_no_slash 6 seed I).
Qed.

Section WriteFrame.
Context `{SL : !Slapd}.

(** Writing an entry file leaves the directories their modes. *)
Lemma ldif_write_entry_keeps_mode (env : write_calls) (fs : filesys) (e : Entry)
    (path q : berval) (m : Z) :
  (exists ns, fs !! q = Some (IDir m ns)) ->
  exists ns, snd (ldif_write_entry env fs e path) !! q = Some (IDir m ns).
Proof.
  intros Hq. unfold ldif_write_entry.
  set (tmp := firstn (length (ldif_tempname path) - 6) (ldif_tempname path)
              ++ mkstemp_chars 6 (wc_seed env)).
  destruct (wc_tempname env); cycle 1.
  { dirs_done Hq. }
  unfold sys_mkstemp. fold tmp.
  destruct (wc_mkstemp env) as [f|].
  { dirs_done Hq. }
  destruct (is_dir fs (path_dirname tmp)) eqn:Hpd; cycle 1.
  { dirs_done Hq. }
  cbn [negb].
  destruct (fs !! tmp) as [i|] eqn:Hfree.
  { dirs_done Hq. }
  set (fs0 := fs_link tmp (IFile []) fs).
  assert (Hqt : q <> tmp) by (apply (mode_neq fs tmp q m []); auto).
  assert (H0 : fs0 !! tmp = Some (IFile [])) by apply fs_link_there.
  assert (Hq0 : exists ns, fs0 !! q = Some (IDir m ns)) by (now apply fs_link_mode).
  assert (Clean : forall (fs1 : filesys) d,
    fs1 !! tmp = Some (IFile d) ->
    (forall p, p <> tmp -> fs1 !! p = fs0 !! p) ->
    (exists ns, fs1 !! q = Some (IDir m ns)) /\
    exists ns, snd (sys_unlink None fs1 tmp) !! q = Some (IDir m ns)).
  { intros fs1 d H1 H1o.
    assert (Hq1 : exists ns, fs1 !! q = Some (IDir m ns))
      by (now rewrite H1o).
    split; [exact Hq1|]. rewrite (sys_unlink_file fs1 tmp d H1). cbn [snd].
    now apply fs_unlink_mode. }
  destruct (entry2str (stored_entry e)) as [data|] eqn:Es.
  2:{ destruct (Clean fs0 [] H0 ltac:(auto)) as [_ Hc].
      destruct (wc_close env) as [f|]; dirs_done Hc. }
  destruct (spew_file_outcome (wc_write env) fs0 tmp data 0%Z None [] H0
              ltac:(left; lia))
    as (res & se & fs1 & written & E & H1 & H1o & Hres).
  rewrite E. cbn [app] in H1.
  destruct (Clean fs1 written H1 H1o) as [Hq1 Hc].
  destruct (res >=? 0)%Z eqn:Eres; cycle 1.
  { destruct (wc_close env) as [f|]; rewrite ?Eres; dirs_done Hc. }
  destruct (wc_close env) as [f|].
  { dirs_done Hc. }
  rewrite Eres. unfold sys_rename.
  destruct (wc_move env) as [f|].
  { dirs_done Hc. }
  rewrite H1.
  destruct (fs1 !! path) as [[dp|mp nsp]|] eqn:Hp.
  - destruct (is_dir fs1 (path_dirname path)).
    + cbn. apply fs_link_mode.
      * now apply fs_unlink_mode.
      * apply (mode_neq fs1 path q m dp); auto.
    + dirs_done Hc.
  - dirs_done Hc.
  - destruct (is_dir fs1 (path_dirname path)).
    + cbn. apply fs_link_mode.
      * now apply fs_unlink_mode.
      * apply (mode_neq fs1 path q m []); auto.
    + dirs_done Hc.
Qed.

(** A write that fails leaves every path that was not a directory as it
    was: the target is untouched and no temporary file stays behind. *)
Lemma ldif_write_entry_failed (env : write_calls) (fs : filesys) (e : Entry)
    (path : berval) :
  fst (ldif_write_entry env fs e path) <> LDAP_SUCCESS ->
  forall q, not_dir (fs !! q) -> snd (ldif_write_entry env fs e path) !! q = fs !! q.
Proof.
  unfold ldif_write_entry.
  set (tmp := firstn (length (ldif_tempname path) - 6) (ldif_tempname path)
              ++ mkstemp_chars 6 (wc_seed env)).
  assert (Htmp : tmp <> path) by apply mkstemp_name_fresh.
  destruct (wc_tempname env); cycle 1.
  { cbn. auto. }
  unfold sys_mkstemp. fold tmp.
  destruct (wc_mkstemp env) as [f|].
  { destruct f; cbn; auto. }
  destruct (is_dir fs (path_dirname tmp)) eqn:Hpd; cycle 1.
  { cbn -[bool_decide]. destruct (bool_decide _); cbn; auto. }
  cbn [negb].
  destruct (fs !! tmp) as [i|] eqn:Hfree.
  { cbn. auto. }
  set (fs0 := fs_link tmp (IFile []) fs).
  assert (H0 : fs0 !! tmp = Some (IFile [])) by apply fs_link_there.
  assert (H0o : forall q, q <> tmp -> not_dir (fs !! q) -> fs0 !! q = fs !! q)
    by (intros; now apply fs_link_other).
  assert (Clean : forall (fs1 : filesys) d,
    fs1 !! tmp = Some (IFile d) ->
    (forall q, q <> tmp -> fs1 !! q = fs0 !! q) ->
    forall q, not_dir (fs !! q) -> (sys_unlink None fs1 tmp).2 !! q = fs !! q).
  { intros fs1 d H1 H1o q Hq. rewrite (sys_unlink_file fs1 tmp d H1). cbn [snd].
    destruct (decide (q = tmp)) as [->|Hne].
    - now rewrite fs_unlink_gone.
    - rewrite fs_unlink_other; auto.
      + rewrite H1o by assumption. now apply H0o.
      + rewrite H1o by assumption. rewrite H0o by assumption. assumption. }
  assert (Failed : forall se (fs1 : filesys) d,
    fs1 !! tmp = Some (IFile d) ->
    (forall q, q <> tmp -> fs1 !! q = fs0 !! q) ->
    let r := if (LDAP_OTHER =? LDAP_OTHER)%Z && bool_decide (se = Some ENOENT)
             then (LDAP_NO_SUCH_OBJECT, (sys_unlink None fs1 tmp).2)
             else (LDAP_OTHER, (sys_unlink None fs1 tmp).2) in
    forall q, not_dir (fs !! q) -> r.2 !! q = fs !! q).
  { intros se fs1 d H1 H1o. cbv zeta. cbn [Z.eqb LDAP_OTHER andb].
    destruct (bool_decide (se = Some ENOENT)); cbn [fst snd];
      now apply (Clean fs1 d). }
  destruct (entry2str (stored_entry e)) as [data|] eqn:Es.
  2:{ destruct (wc_close env) as [f|];
        cbn -[sys_unlink bool_decide];
        intros _; exact (Failed None fs0 [] H0 ltac:(auto)). }
  destruct (spew_file_spec (wc_write env) fs0 tmp data 0%Z None [] H0
              ltac:(left; lia))
    as (res & se & fs1 & written & E & H1 & H1o & Hres).
  rewrite E. cbn [app] in H1.
  destruct Hres as [[Hres ->]| ->].
  2:{ destruct (wc_close env) as [f|];
        cbn -[sys_unlink bool_decide];
        intros _; exact (Failed se fs1 written H1 H1o). }
  replace (res >=? 0)%Z with true
    by (symmetry; rewrite Z.geb_leb; now apply Z.leb_le).
  destruct (wc_close env) as [f|].
  { cbn -[sys_unlink bool_decide].
    intros _; exact (Failed (Some (fault_errno f)) fs1 data H1 H1o). }
  replace (res >=? 0)%Z with true
    by (symmetry; rewrite Z.geb_leb; now apply Z.leb_le).
  unfold sys_rename.
  destruct (wc_move env) as [f|].
  { cbn -[sys_unlink bool_decide].
    intros _; exact (Failed (Some (fault_errno f)) fs1 data H1 H1o). }
  rewrite H1.
  destruct (fs1 !! path) as [[dp|mp nsp]|] eqn:Hp.
  - destruct (is_dir fs1 (path_dirname path)).
    + cbn. congruence.
    + cbn -[sys_unlink bool_decide].
      intros _; exact (Failed (Some (absent_errno fs1 path)) fs1 data H1 H1o).
  - cbn -[sys_unlink bool_decide].
    intros _; exact (Failed (Some EISDIR) fs1 data H1 H1o).
  - destruct (is_dir fs1 (path_dirname path)).
    + cbn. congruence.
    + cbn -[sys_unlink bool_decide].
      intros _; exact (Failed (Some (absent_errno fs1 path)) fs1 data H1 H1o).
Qed.

End WriteFrame.

Lemma path_dirname_le (p : berval) : length (path_dirname p) <= length p.
Proof. unfold path_dirname. rewrite length_firstn. lia. Qed.

Lemma dn2path_not_nil (be : BackendDB) (dn : berval) : dn2path be dn <> [].
Proof.
  rewrite dn2path_split. intros E. apply (f_equal (@length ascii)) in E.
  rewrite length_app in E. cbn [LDIF bv list_ascii_of_string length] in E. lia.
Qed.

Section Add.
Context `{SL : !Slapd}.

(** The entry-file step of an add in a state where the parent directory
    is there. *)
Lemma ldif_back_add_leaf_in_dir (env : add_calls) (s : filesys) (e : Entry)
    (leaf : berval) :
  ac_stat_leaf env = None ->
  is_dir s (path_dirname leaf) = true ->
  (s !! leaf <> None -> ldif_back_add_leaf env s e leaf = (LDAP_ALREADY_EXISTS, s)) /\
  (s !! leaf = None ->
   ldif_back_add_leaf env s e leaf = ldif_write_entry (ac_write env) s e leaf).
Proof.
  intros Hsl Hd. unfold ldif_back_add_leaf, sys_stat. rewrite Hsl. split.
  - intros Hl. destruct (s !! leaf) as [i|]; [reflexivity|congruence].
  - intros Hl. rewrite Hl, (absent_errno_in_dir s leaf Hd).
    now rewrite bool_decide_eq_true_2 by reflexivity.
Qed.

(** C4. An add whose schema check and operational attributes are in
    order and whose stat() and mkdir() calls fail only for what the file
    system holds.  If the parent's subtree directory is missing (ENOENT):
    with the parent's entry file missing too the add fails with
    LDAP_NO_SUCH_OBJECT and the file system is as it was; with the
    parent's entry file there the directory is made, and it is in the
    final state with mode 0750, nothing else that was not a directory
    is touched but the target, and the add goes on.  Going on, with the
    directory made or there from the start: LDAP_ALREADY_EXISTS if the
    target exists; otherwise the entry is written atomically, that is,
    after LDAP_SUCCESS the target holds the serialized entry and every
    other path that was not a directory is as before, after any other
    result every path that was not a directory is as before (no target,
    no temporary file), and the result is LDAP_SUCCESS when nothing
    stands in the way of the write.  And when the parent's place lies
    below a regular file, or is a regular file, the add answers
    LDAP_UNWILLING_TO_PERFORM and changes nothing. *)
Theorem ldif_back_add_parent (env : add_calls) (be : BackendDB) (fs : filesys)
    (e : Entry) :
  ac_schema_check env = LDAP_SUCCESS ->
  ac_add_opattrs env = LDAP_SUCCESS ->
  ac_stat_base env = None -> ac_stat_parent env = None ->
  ac_mkdir env = None -> ac_stat_leaf env = None ->
  let leaf := dn2path be (e_nname e) in
  let base := get_parent_path leaf in
  let tmp := firstn (length (ldif_tempname leaf) - 6) (ldif_tempname leaf)
             ++ mkstemp_chars 6 (wc_seed (ac_write env)) in
  let rc := fst (ldif_back_add env be fs e) in
  let fs' := snd (ldif_back_add env be fs e) in
  let written (s : filesys) :=
    (rc = LDAP_SUCCESS ->
     exists data,
       entry2str (stored_entry e) = Some data /\
       fs' !! leaf = Some (IFile data) /\
       forall q, q <> leaf -> not_dir (s !! q) -> fs' !! q = s !! q) /\
    (rc <> LDAP_SUCCESS -> forall q, not_dir (s !! q) -> fs' !! q = s !! q) /\
    (forall data,
       wc_tempname (ac_write env) = true -> wc_mkstemp (ac_write env) = None ->
       wc_close (ac_write env) = None -> wc_move (ac_write env) = None ->
       existsb hard_error (wc_write (ac_write env)) = false ->
       entry2str (stored_entry e) = Some data ->
       s !! tmp = None ->
       rc = LDAP_SUCCESS) in
  (fs !! base = None -> absent_errno fs base = ENOENT ->
     (fs !! (base ++ LDIF) = None -> rc = LDAP_NO_SUCH_OBJECT /\ fs' = fs) /\
     (fs !! (base ++ LDIF) <> None -> is_dir fs (path_dirname base) = false ->
        rc = LDAP_UNWILLING_TO_PERFORM /\ fs' = fs) /\
     (fs !! (base ++ LDIF) <> None -> is_dir fs (path_dirname base) = true ->
        (exists ns, fs' !! base = Some (IDir 488 ns)) /\
        (forall q, q <> leaf -> q <> base -> not_dir (fs !! q) ->
           fs' !! q = fs !! q) /\
        (fs !! leaf <> None -> rc = LDAP_ALREADY_EXISTS) /\
        (fs !! leaf = None -> written (fs_link base (IDir 488 []) fs)))) /\
  (forall m ns, fs !! base = Some (IDir m ns) ->
     (fs !! leaf <> None -> rc = LDAP_ALREADY_EXISTS /\ fs' = fs) /\
     (fs !! leaf = None -> written fs)) /\
  (fs !! leaf = None ->
   (fs !! base = None /\ absent_errno fs base = ENOTDIR \/
    exists d, fs !! base = Some (IFile d) /\ e_nname e <> []) ->
   rc = LDAP_UNWILLING_TO_PERFORM /\ fs' = fs).
Proof.
  intros Hsc Hop Hsb Hsp Hmk Hsl leaf base tmp rc fs' written.
  assert (Hbase : base = path_dirname leaf) by apply get_parent_path_dirname.
  assert (Hleaf : leaf <> []) by apply dn2path_not_nil.
  assert (Hlb : length base < length leaf)
    by (rewrite Hbase; now apply path_dirname_shorter).
  assert (Hne1 : leaf <> base) by (intros E; rewrite E in Hlb; lia).
  assert (Hne2 : leaf <> path_dirname base).
  { intros E. pose proof (path_dirname_le base) as Hl. rewrite <- E in Hl. lia. }
  assert (Htmp : path_dirname tmp = base).
  { unfold tmp, leaf. rewrite tempname_dirname. symmetry. exact Hbase. }
  (* writing in a state where the parent directory is there *)
  assert (W : forall s : filesys,
    is_dir s base = true -> s !! leaf = None ->
    ldif_back_add env be fs e = ldif_write_entry (ac_write env) s e leaf ->
    written s).
  { intros s Hd Hl Eq. unfold written, rc, fs'. rewrite Eq.
    split; [|split].
    - intros Hrc.
      destruct (ldif_write_entry_success (ac_write env) s e leaf Hrc)
        as (data & Ed & Hf & Ho).
      exists data. auto.
    - intros Hrc. now apply ldif_write_entry_failed.
    - intros data Ht Hm Hc Hmv Hw Es Hfree.
      apply (ldif_write_entry_goes_through (ac_write env) s e leaf data);
        try assumption.
      + fold tmp. now rewrite Htmp.
      + now rewrite <- Hbase.
      + rewrite Hl. intros ? ?; discriminate. }
  (* the add up to the entry-file step *)
  assert (Estep : forall sr s,
    match sys_stat (ac_stat_base env) fs base with
    | Err ENOENT =>
        match sys_stat (ac_stat_parent env) fs (base ++ LDIF) with
        | Err ENOENT => (LDAP_NO_SUCH_OBJECT, fs)
        | Ok _ =>
            match sys_mkdir (ac_mkdir env) fs base 488 with
            | (Err _, fs1) => (LDAP_UNWILLING_TO_PERFORM, fs1)
            | (Ok _, fs1) => (LDAP_SUCCESS, fs1)
            end
        | Err _ => (LDAP_UNWILLING_TO_PERFORM, fs)
        end
    | _ => (LDAP_SUCCESS, fs)
    end = (sr, s) ->
    ldif_back_add env be fs e
    = if (sr =? LDAP_SUCCESS)%Z then ldif_back_add_leaf env s e leaf else (sr, s)).
  { intros sr s Eq. unfold ldif_back_add. rewrite Hsc, Hop.
    cbn [negb Z.eqb LDAP_SUCCESS]. fold leaf. fold base. now rewrite Eq. }
  split; [|split].
  - intros Hb He. split; [|split].
    + intros Hp. unfold rc, fs'.
      rewrite (Estep LDAP_NO_SUCH_OBJECT fs); [auto|].
      unfold sys_stat. rewrite Hsb, Hsp, Hb, He, Hp.
      replace (absent_errno fs (base ++ LDIF)) with ENOENT; [reflexivity|].
      symmetry. rewrite absent_errno_app; [exact He|].
      vm_compute. intuition discriminate.
    + intros Hp Hd. unfold rc, fs'.
      rewrite (Estep LDAP_UNWILLING_TO_PERFORM fs); [auto|].
      unfold sys_stat, sys_mkdir. rewrite Hsb, Hsp, Hmk, Hb, He, Hd.
      destruct (fs !! (base ++ LDIF)) as [i|]; [reflexivity|congruence].
    + intros Hp Hd.
      set (fs1 := fs_link base (IDir 488 []) fs).
      assert (Eq : ldif_back_add env be fs e = ldif_back_add_leaf env fs1 e leaf).
      { rewrite (Estep LDAP_SUCCESS fs1); [reflexivity|].
        unfold sys_stat, sys_mkdir. rewrite Hsb, Hsp, Hmk, Hb, He, Hd.
        destruct (fs !! (base ++ LDIF)) as [i|]; [reflexivity|congruence]. }
      assert (H1 : fs1 !! base = Some (IDir 488 [])) by apply fs_link_there.
      assert (Hd1 : is_dir fs1 (path_dirname leaf) = true)
        by (rewrite <- Hbase; unfold is_dir; now rewrite H1).
      assert (Hl1 : fs1 !! leaf = fs !! leaf).
      { unfold fs1, fs_link. rewrite lookup_insert_ne by congruence.
        rewrite lookup_alter_ne by congruence. reflexivity. }
      destruct (ldif_back_add_leaf_in_dir env fs1 e leaf Hsl Hd1) as [Lx Lw].
      split; [|split; [|split]].
      * unfold fs'. rewrite Eq.
        destruct (fs1 !! leaf) as [i|] eqn:El.
        -- rewrite Lx by discriminate. cbn [snd]. eauto.
        -- rewrite Lw by reflexivity.
           apply ldif_write_entry_keeps_mode. eauto.
      * intros q Hq1 Hq2 Hnd.
        assert (Hq : fs1 !! q = fs !! q) by (now apply fs_link_other).
        unfold fs'. rewrite Eq.
        destruct (fs1 !! leaf) as [i|] eqn:El.
        -- rewrite Lx by discriminate. exact Hq.
        -- rewrite Lw by reflexivity. rewrite <- Hq.
           destruct (Z.eq_dec (fst (ldif_write_entry (ac_write env) fs1 e leaf))
                       LDAP_SUCCESS) as [Hrc|Hrc].
           ++ destruct (ldif_write_entry_success (ac_write env) fs1 e leaf Hrc)
                as (data & _ & _ & Ho).
              apply Ho; [exact Hq1|now rewrite Hq].
           ++ apply ldif_write_entry_failed; [exact Hrc|now rewrite Hq].
      * intros Hl. unfold rc. rewrite Eq, Lx; [reflexivity|now rewrite Hl1].
      * intros Hl. apply W.
        -- unfold is_dir. now rewrite H1.
        -- now rewrite Hl1.
        -- rewrite Eq. apply Lw. now rewrite Hl1.
  - intros m ns Hb.
    assert (Eq : ldif_back_add env be fs e = ldif_back_add_leaf env fs e leaf).
    { rewrite (Estep LDAP_SUCCESS fs); [reflexivity|].
      unfold sys_stat. now rewrite Hsb, Hb. }
    assert (Hd : is_dir fs (path_dirname leaf) = true)
      by (rewrite <- Hbase; unfold is_dir; now rewrite Hb).
    destruct (ldif_back_add_leaf_in_dir env fs e leaf Hsl Hd) as [Lx Lw].
    split.
    + intros Hl. unfold rc, fs'. rewrite Eq, Lx by exact Hl. auto.
    + intros Hl. apply W; [unfold is_dir; now rewrite Hb|exact Hl|].
      rewrite Eq. now apply Lw.
  - intros Hl Hcase. unfold rc, fs'.
    assert (Eq : ldif_back_add env be fs e = ldif_back_add_leaf env fs e leaf).
    { rewrite (Estep LDAP_SUCCESS fs); [reflexivity|].
      unfold sys_stat. rewrite Hsb.
      destruct Hcase as [[Hb He]|(d & Hb & _)]; rewrite Hb; [|reflexivity].
      now rewrite He. }
    assert (He : absent_errno fs leaf = ENOTDIR).
    { destruct Hcase as [[Hb He]|(d & Hb & Hn)].
      - rewrite Hbase in Hb, He. now apply absent_errno_up.
      - rewrite Hbase in Hb. apply (absent_errno_below_file fs leaf d); [|exact Hb].
        now apply dn2path_has_slash. }
    rewrite Eq. unfold ldif_back_add_leaf, sys_stat. rewrite Hsl, Hl, He.
    rewrite bool_decide_eq_false_2 by discriminate. auto.
Qed.

End Add.

(** Adding cn=carol below cn=bob, whose subtree directory is not there
    yet: the directory is made with mode 0750 and the entry file is
    written.  And below a regular file the add is not willing. *)
Lemma ldif_back_add_parent_witness :
  let r := @ldif_back_add example_slapd example_add_calls example_be example_fs
             example_carol in
  (fst r = LDAP_SUCCESS /\
   (exists ns, snd r !! bv "/var/data/dc=example,dc=com/cn=bob"
               = Some (IDir 488 ns)) /\
   snd r !! bv "/var/data/dc=example,dc=com/cn=bob/cn=carol.ldif"
   = Some (IFile (bv "cn=carol"))) /\
  @ldif_back_add example_slapd example_add_calls example_be blocked_fs example_dave
  = (LDAP_UNWILLING_TO_PERFORM, blocked_fs).
Proof.
  cbv zeta. split.
  - destruct (@ldif_back_add_parent example_slapd example_add_calls example_be
                example_fs example_carol eq_refl eq_refl eq_refl eq_refl eq_refl
                eq_refl) as (P & _ & _).
    destruct P as (_ & _ & P); [vm_compute; reflexivity|vm_compute; reflexivity|].
    destruct P as (Hmode & _ & _ & Hw);
      [vm_compute; discriminate|vm_compute; reflexivity|].
    destruct Hw as (Ws & _ & Wl); [vm_compute; reflexivity|].
    assert (Hrc : fst (@ldif_back_add example_slapd example_add_calls example_be
                         example_fs example_carol) = LDAP_SUCCESS)
      by (apply (Wl (bv "cn=carol")); vm_compute; reflexivity).
    split; [exact Hrc|]. split; [exact Hmode|].
    destruct (Ws Hrc) as (data & Ed & Hf & _).
    vm_compute in Ed. injection Ed as <-. exact Hf.
  - destruct (@ldif_back_add_parent example_slapd example_add_calls example_be
                blocked_fs example_dave eq_refl eq_refl eq_refl eq_refl eq_refl
                eq_refl) as (_ & _ & P).
    destruct P as [H1 H2]; [vm_compute; reflexivity| |].
    + left. split; vm_compute; reflexivity.
    + destruct (ldif_back_add _ _ _ _) as [rc fs']. cbn [fst snd] in *.
      now subst.
Defined.

(** * Ordered siblings in the order of their numbers *)

Lemma cstr_id (s : berval) : ~ In NUL s -> cstr s = s.
Proof.
  induction s as [|c s IH]; intros H; cbn [cstr]; [reflexivity|].
  destruct (ch_eq c NUL) eqn:E.
  - apply ch_eq_true in E. exfalso. apply H. now left.
  - rewrite IH; [reflexivity|]. intros I. apply H. now right.
Qed.

Lemma cstr_app (a b : berval) : ~ In NUL a -> cstr (a ++ b) = a ++ cstr b.
Proof.
  induction a as [|c a IH]; intros H; cbn [cstr app]; [reflexivity|].
  destruct (ch_eq c NUL) eqn:E.
  - apply ch_eq_true in E. exfalso. apply H. now left.
  - rewrite IH; [reflexivity|]. intros I. apply H. now right.
Qed.

Lemma decimal_digit_val c :
  is_decimal_digit c = true ->
  digit_val c = Some (code c - 48)%Z /\ (0 <= code c - 48 < 10)%Z.
Proof.
  unfold is_decimal_digit, digit_val, code. intros H. rewrite H.
  apply andb_true_iff in H as [H1 H2]. apply Z.leb_le in H1, H2.
  split; [reflexivity|lia].
Qed.

Lemma decimal_digit_not c x :
  is_decimal_digit c = true -> is_decimal_digit x = false -> c <> x.
Proof. intros H1 H2 ->. congruence. Qed.

Lemma decimal_digits_no c ds :
  is_decimal_digit c = false -> forallb is_decimal_digit ds = true -> ~ In c ds.
Proof.
  intros Hc Hd I. rewrite forallb_forall in Hd. specialize (Hd c I). congruence.
Qed.

(** strtol's digit loop on decimal digits followed by '}'. *)
Lemma strtol_digits_decimal (base : Z) (ds t : berval) : forall acc,
  (10 <= base)%Z ->
  forallb is_decimal_digit ds = true ->
  strtol_digits base (ds ++ IX_FSR :: t) acc
  = fold_left (fun acc c => (acc * base + (code c - 48))%Z) ds acc.
Proof.
  induction ds as [|c ds IH]; intros acc Hb Hd; cbn [app strtol_digits fold_left].
  - reflexivity.
  - cbn [forallb] in Hd. apply andb_true_iff in Hd as [Hc Hd].
    destruct (decimal_digit_val c Hc) as [-> Hr].
    replace (code c - 48 <? base)%Z with true
      by (symmetry; apply Z.ltb_lt; lia).
    now apply IH.
Qed.

Lemma decimal_value_nonneg (ds : berval) :
  forallb is_decimal_digit ds = true -> (0 <= decimal_value ds)%Z.
Proof.
  unfold decimal_value. intros Hd.
  assert (G : forall acc, (0 <= acc)%Z ->
    (0 <= fold_left (fun acc c => (acc * 10 + (code c - 48))%Z) ds acc)%Z).
  { induction ds as [|c ds IH]; intros acc Ha; cbn [fold_left]; [exact Ha|].
    cbn [forallb] in Hd. apply andb_true_iff in Hd as [Hc Hd].
    destruct (decimal_digit_val c Hc) as [_ Hr]. apply IH; [exact Hd|lia]. }
  apply G. lia.
Qed.

(** What strtol() with base 0 makes of a plain decimal index. *)
Lemma strtol0_plain_index (ds t : berval) :
  plain_index ds = true -> (decimal_value ds <= LONG_MAX)%Z ->
  strtol0 (ds ++ IX_FSR :: t) = decimal_value ds.
Proof.
  unfold plain_index. intros Hp Hmax.
  apply andb_true_iff in Hp as [Hd Hz].
  pose proof (decimal_value_nonneg ds Hd) as H0.
  assert (Hnul : ~ In NUL ds) by (now apply decimal_digits_no).
  unfold strtol0. rewrite (cstr_app ds _ Hnul).
  change (cstr (IX_FSR :: t)) with (IX_FSR :: cstr t).
  destruct ds as [|c ds]; [discriminate Hz|].
  pose proof Hd as Hd0. cbn [forallb] in Hd0.
  apply andb_true_iff in Hd0 as [Hc Hds].
  cbn [app skip_space].
  assert (Hsp : isspace c = false).
  { unfold isspace. unfold is_decimal_digit, code in Hc.
    apply andb_true_iff in Hc as [H1 H2]. apply Z.leb_le in H1, H2.
    replace (N_of_ascii c =? 32)%N with false by (symmetry; apply N.eqb_neq; lia).
    replace (9 <=? N_of_ascii c)%N with true by (symmetry; apply N.leb_le; lia).
    replace (N_of_ascii c <=? 13)%N with false by (symmetry; apply N.leb_gt; lia).
    reflexivity. }
  rewrite Hsp.
  replace (ch_eq c "-"%char) with false
    by (symmetry; apply ch_eq_false; now apply decimal_digit_not).
  replace (ch_eq c "+"%char) with false
    by (symmetry; apply ch_eq_false; now apply decimal_digit_not).
  assert (V : strtol_digits 10 (c :: ds ++ IX_FSR :: cstr t) 0
              = decimal_value (c :: ds))
    by (apply (strtol_digits_decimal 10 (c :: ds) (cstr t) 0%Z); [lia|exact Hd]).
  assert (Hv :
    match c :: ds ++ IX_FSR :: cstr t with
    | z :: x :: h :: t0 =>
        if ch_eq z "0"%char then
          if (ch_eq x "x"%char || ch_eq x "X"%char) && is_digit_in 16 h
          then strtol_digits 16 (h :: t0) 0
          else strtol_digits 8 (c :: ds ++ IX_FSR :: cstr t) 0
        else strtol_digits 10 (c :: ds ++ IX_FSR :: cstr t) 0
    | z :: _ =>
        if ch_eq z "0"%char then strtol_digits 8 (c :: ds ++ IX_FSR :: cstr t) 0
        else strtol_digits 10 (c :: ds ++ IX_FSR :: cstr t) 0
    | [] => 0%Z
    end = decimal_value (c :: ds)).
  { destruct ds as [|c1 ds].
    - cbn [app] in *. destruct (ch_eq c "0"%char) eqn:Ez.
      + apply ch_eq_true in Ez. subst c.
        destruct (cstr t) as [|h t0]; reflexivity.
      + rewrite V. destruct (cstr t) as [|h t0]; reflexivity.
    - apply negb_true_iff in Hz. cbn [app] in *. rewrite Hz.
      destruct (ds ++ IX_FSR :: cstr t) as [|h t0] eqn:E.
      + destruct ds; discriminate E.
      + exact V. }
  cbn [app] in Hv. rewrite Hv. unfold LONG_MIN. unfold LONG_MAX in *. lia.
Qed.

Lemma ber_bvchr_first (a t : berval) c :
  ~ In c a -> ber_bvchr (a ++ c :: t) c = Some (length a).
Proof.
  induction a as [|x a IH]; intros H; cbn [app ber_bvchr length].
  - now rewrite ch_eq_refl.
  - replace (ch_eq x c) with false
      by (symmetry; apply ch_eq_false; intros ->; apply H; now left).
    rewrite IH; [reflexivity|]. intros I. apply H. now right.
Qed.

Lemma skipn_S_app (a t : berval) c : skipn (S (length a)) (a ++ c :: t) = t.
Proof.
  replace (S (length a)) with (length (a ++ [c]))
    by (rewrite length_app; cbn; lia).
  change (a ++ c :: t) with (a ++ [c] ++ t). rewrite app_assoc.
  apply drop_app_length.
Qed.

Section OrderedNames.
Variables (key : berval) (s : berval * berval).
Hypothesis key_no_brace : ~ In IX_FSL key.
Hypothesis key_no_NUL : ~ In NUL key.
Hypothesis index_plain : plain_index (fst s) = true.
Hypothesis index_small : (decimal_value (fst s) < 2 ^ 30)%Z.
Hypothesis rest_no_NUL : ~ In NUL (snd s).

Lemma index_digits : forallb is_decimal_digit (fst s) = true.
Proof. unfold plain_index in index_plain. now apply andb_true_iff in index_plain. Qed.

Lemma index_first : exists c ds, fst s = c :: ds /\ is_decimal_digit c = true.
Proof.
  pose proof index_digits as Hd. unfold plain_index in index_plain.
  destruct (fst s) as [|c ds]; [now rewrite andb_false_r in index_plain|].
  exists c, ds. split; [reflexivity|]. cbn [forallb] in Hd.
  now apply andb_true_iff in Hd.
Qed.

Lemma ordered_fname_no_NUL : ~ In NUL (ordered_fname key s).
Proof.
  unfold ordered_fname. intros I.
  apply in_app_or in I as [I|[I|I]]; [exact (key_no_NUL I)|discriminate I|].
  apply in_app_or in I as [I|[I|I]].
  - exact (decimal_digits_no NUL _ eq_refl index_digits I).
  - discriminate I.
  - apply in_app_or in I as [I|I]; [exact (rest_no_NUL I)|].
    revert I. vm_compute. intuition discriminate.
Qed.

Lemma ordered_fname_ends_ldif : ends_ldif (ordered_fname key s) = true.
Proof.
  unfold ends_ldif, ordered_fname.
  set (a := key ++ IX_FSL :: fst s ++ IX_FSR :: snd s).
  replace (key ++ IX_FSL :: fst s ++ IX_FSR :: snd s ++ LDIF) with (a ++ LDIF)
    by (unfold a; rewrite <- !app_assoc; cbn [app]; now rewrite <- app_assoc).
  assert (0 < length a) by (unfold a; rewrite length_app; cbn [length]; lia).
  rewrite length_app. apply andb_true_iff. split; [apply Nat.ltb_lt; lia|].
  replace (length a + length LDIF - length LDIF) with (length a) by lia.
  now rewrite drop_app_length.
Qed.

Lemma ordered_fname_braces : empty_braces (ordered_fname key s) = false.
Proof.
  unfold empty_braces, ordered_fname.
  rewrite (ber_bvchr_first key _ IX_FSL key_no_brace).
  destruct index_first as (c & ds & E & Hc). rewrite E.
  replace (S (length key)) with (length (key ++ [IX_FSL]))
    by (rewrite length_app; cbn; lia).
  change (key ++ IX_FSL :: (c :: ds) ++ IX_FSR :: snd s ++ LDIF)
    with (key ++ [IX_FSL] ++ c :: (ds ++ IX_FSR :: snd s ++ LDIF)).
  rewrite app_assoc, nth_middle.
  apply ch_eq_false. now apply decimal_digit_not.
Qed.

(** The list node of an ordered sibling: its C string is the key with the
    brace, its number is the value of the index. *)
Lemma bvlist_of_ordered_fname :
  ordered_sibling (key ++ [IX_FSL]) (bvlist_of (ordered_fname key s)) /\
  bvl_inum (bvlist_of (ordered_fname key s)) = decimal_value (fst s).
Proof.
  pose proof index_digits as Hd.
  pose proof (decimal_value_nonneg _ Hd) as H0.
  unfold bvlist_of, ordered_fname.
  rewrite (ber_bvchr_first key _ IX_FSL key_no_brace), skipn_S_app.
  rewrite (ber_bvchr_first (fst s) _ IX_FSR
             (decimal_digits_no IX_FSR _ eq_refl Hd)).
  cbn [bvl_bv bvl_num bvl_inum].
  assert (Hi : int_wrap (strtol0 (fst s ++ IX_FSR :: snd s ++ LDIF))
               = decimal_value (fst s)).
  { rewrite strtol0_plain_index; [|exact index_plain|unfold LONG_MAX; lia].
    apply int_wrap_small. lia. }
  split; [|exact Hi].
  unfold ordered_sibling. cbn [bvl_bv bvl_num bvl_inum]. rewrite Hi.
  split; [|split; [discriminate|lia]].
  destruct index_first as (c & ds & E & Hc). rewrite E.
  replace (S (length key)) with (length (key ++ [IX_FSL]))
    by (rewrite length_app; cbn; lia).
  change (key ++ IX_FSL :: (c :: ds) ++ IX_FSR :: snd s ++ LDIF)
    with (key ++ [IX_FSL] ++ c :: (ds ++ IX_FSR :: snd s ++ LDIF)).
  rewrite app_assoc.
  rewrite insert_app_r_alt by lia. rewrite Nat.sub_diag. cbn [insert list_insert].
  rewrite cstr_app.
  - cbn [cstr]. rewrite ch_eq_refl. apply app_nil_r.
  - intros I. apply in_app_or in I as [I|[I|[]]];
      [exact (key_no_NUL I)|discriminate I].
Qed.

End OrderedNames.

(** ** The order of the sorted list *)

Lemma code_nonneg c : (0 <= code c)%Z.
Proof. unfold code. lia. Qed.

Lemma strcmp_neg (a b : berval) : strcmp b a = (- strcmp a b)%Z.
Proof.
  revert b. induction a as [|x a IH]; intros [|y b]; cbn [strcmp]; try lia.
  destruct (ch_eq x y) eqn:E.
  - apply ch_eq_true in E. subst y. rewrite ch_eq_refl. apply IH.
  - replace (ch_eq y x) with false; [lia|].
    symmetry. apply ch_eq_false. apply ch_eq_false in E. congruence.
Qed.

Lemma strcmp_trans (a b c : berval) :
  (strcmp a b < 0)%Z -> (strcmp b c < 0)%Z -> (strcmp a c < 0)%Z.
Proof.
  revert b c. induction a as [|x a IH]; intros [|y b] [|z c]; cbn [strcmp];
    try pose proof (code_nonneg x); try pose proof (code_nonneg y);
    try pose proof (code_nonneg z); try lia.
  - destruct (ch_eq y z) eqn:E; [|lia].
    apply ch_eq_true in E. subst z. lia.
  - destruct (ch_eq x y) eqn:Exy; destruct (ch_eq y z) eqn:Eyz.
    + apply ch_eq_true in Exy, Eyz. subst y z. rewrite ch_eq_refl. apply IH.
    + apply ch_eq_true in Exy. subst y. rewrite Eyz. lia.
    + apply ch_eq_true in Eyz. subst z. rewrite Exy. lia.
    + intros Hxy Hyz. destruct (ch_eq x z) eqn:Exz; [|lia].
      apply ch_eq_true in Exz. subst z. lia.
Qed.

Lemma bvl_key_eq (a b : bvlist) :
  strcmp (bvl_key a) (bvl_key b) = 0%Z -> bvl_key a = bvl_key b.
Proof. apply strcmp_eq; apply cstr_no_NUL. Qed.

Lemma bvl_le_trans (a b c : bvlist) : bvl_le a b -> bvl_le b c -> bvl_le a c.
Proof.
  unfold bvl_le. intros [H1|[H1 I1]] [H2|[H2 I2]].
  - left. now apply (strcmp_trans _ (bvl_key b)).
  - left. now rewrite <- (bvl_key_eq _ _ H2).
  - left. now rewrite (bvl_key_eq _ _ H1).
  - right. rewrite (bvl_key_eq _ _ H1). split; [exact H2|lia].
Qed.

(** The comparison of the insertion loop agrees with the order, on nodes
    made of entry file names. *)
Lemma bvlist_insert_cmp (a p : bvlist) :
  bvl_wf a -> bvl_wf p ->
  let c := strcmp (cstr (bvl_bv a)) (cstr (bvl_bv p)) in
  let cmp := if (c =? 0)%Z && bool_decide (bvl_num a <> None)
             then int_wrap (bvl_inum a - bvl_inum p) else c in
  ((cmp <? 0)%Z = true -> bvl_le a p) /\
  ((cmp <? 0)%Z = false -> bvl_le p a).
Proof.
  intros [Ra Wa] [Rp Wp]. cbv zeta. unfold bvl_le.
  fold (bvl_key a). fold (bvl_key p).
  rewrite (strcmp_neg (bvl_key a) (bvl_key p)).
  destruct (strcmp (bvl_key a) (bvl_key p) =? 0)%Z eqn:Ec; cbn [andb].
  - apply Z.eqb_eq in Ec. pose proof (bvl_key_eq _ _ Ec) as Ek.
    destruct (bvl_num a) as [na|] eqn:Ea.
    + rewrite bool_decide_eq_true_2 by discriminate.
      rewrite int_wrap_small by lia.
      split; intros H; [apply Z.ltb_lt in H|apply Z.ltb_ge in H]; right; lia.
    + rewrite bool_decide_eq_false_2 by (intros X; now apply X).
      rewrite Ec. split; [discriminate|]. intros _. right. split; [lia|].
      destruct Wa as [Ia La]. rewrite Ek in La.
      destruct (bvl_num p) as [np|]; [|lia].
      rewrite Wp in La. discriminate La.
  - apply Z.eqb_neq in Ec.
    split; intros H; [apply Z.ltb_lt in H|apply Z.ltb_ge in H]; left; lia.
Qed.

Lemma bvlist_insert_le (a : bvlist) (l : list bvlist) :
  bvl_wf a -> Forall bvl_wf l -> Sorted bvl_le l ->
  Sorted bvl_le (bvlist_insert a l).
Proof.
  intros Wa F Hs. induction l as [|p l IH]; cbn [bvlist_insert].
  { repeat constructor. }
  apply Forall_cons_iff in F as [Wp F'].
  pose proof Hs as Hs0. apply Sorted_inv in Hs as [Hs' Hd].
  destruct (bvlist_insert_cmp a p Wa Wp) as [Lt Ge]. cbv zeta in Lt, Ge.
  match goal with |- context [if ?c then _ else _] => destruct c eqn:C end.
  - constructor; [assumption|]. constructor. now apply Lt.
  - constructor; [now apply IH|].
    destruct l as [|q l]; cbn [bvlist_insert].
    + constructor. now apply Ge.
    + match goal with |- context [if ?c then _ else _] => destruct c end.
      * constructor. now apply Ge.
      * constructor. now apply HdRel_inv in Hd.
Qed.

Lemma last_firstn_S (s : berval) i d :
  i < length s -> List.last (firstn (S i) s) d = nth i s d.
Proof.
  revert s. induction i as [|i IH]; intros [|x s] H; cbn in H; try lia.
  - reflexivity.
  - cbn [nth]. rewrite <- IH by lia.
    destruct s as [|y s]; [cbn in H; lia|reflexivity].
Qed.

Lemma last_ldif (a : berval) d : List.last (a ++ LDIF) d = "f"%char.
Proof.
  induction a as [|x a IH]; [reflexivity|].
  cbn [app]. cbn [List.last].
  destruct (a ++ LDIF) eqn:E; [|exact IH].
  destruct a; discriminate E.
Qed.

(** The node made of the name of an entry file. *)
Lemma bvlist_of_wf (fname : berval) :
  ~ In NUL fname -> ends_ldif fname = true ->
  (- 2 ^ 30 <= bvl_inum (bvlist_of fname) < 2 ^ 30)%Z ->
  bvl_wf (bvlist_of fname).
Proof.
  intros Hn He Hr. split; [exact Hr|].
  assert (Hl : List.last fname NUL = "f"%char).
  { unfold ends_ldif in He. apply andb_true_iff in He as [_ He].
    apply bv_eqb_true in He.
    rewrite <- (firstn_skipn (length fname - length LDIF) fname), He.
    apply last_ldif. }
  unfold bvlist_of in *.
  destruct (ber_bvchr fname IX_FSL) as [i|] eqn:Ei.
  2:{ cbn. unfold bvl_key. cbn. rewrite (cstr_id _ Hn). auto. }
  destruct (ber_bvchr (skipn (S i) fname) IX_FSR) as [len|] eqn:El.
  2:{ cbn. unfold bvl_key. cbn. rewrite (cstr_id _ Hn). auto. }
  destruct (ber_bvchr_Some _ _ _ Ei) as [Hi Hc].
  destruct (ber_bvchr_Some _ _ _ El) as [Hlen _]. rewrite length_skipn in Hlen.
  cbn [bvl_num]. unfold bvl_key. cbn [bvl_bv].
  rewrite cstr_take_NUL by lia.
  rewrite cstr_id.
  - now rewrite last_firstn_S.
  - intros I. apply Hn. rewrite <- (firstn_skipn (S i) fname).
    apply in_or_app. now left.
Qed.

(** The sorted list of any directory whose numbers are far from the
    limits of [int] is in order. *)
Lemma enum_readdir_le names : forall lst,
  Forall (fun fname => (- 2 ^ 30 <= bvl_inum (bvlist_of fname) < 2 ^ 30)%Z)
         (List.filter ends_ldif (map cstr names)) ->
  Forall bvl_wf lst -> Sorted bvl_le lst ->
  Sorted bvl_le (enum_readdir names lst) /\ Forall bvl_wf (enum_readdir names lst).
Proof.
  induction names as [|d names IH]; intros lst F Fl Hs;
    cbn [enum_readdir map List.filter] in *; [auto|].
  destruct (ends_ldif (cstr d)) eqn:Ee.
  - apply Forall_cons_iff in F as [Hb F'].
    pose proof Ee as Ee'. unfold ends_ldif in Ee'.
    apply andb_true_iff in Ee' as [E1 E2].
    apply Nat.ltb_lt in E1. apply bv_eqb_true in E2.
    replace (length (cstr d) <=? length LDIF) with false
      by (symmetry; apply Nat.leb_gt; lia).
    rewrite E2, strcmp_refl. cbn [Z.eqb negb].
    assert (Wb : bvl_wf (bvlist_of (cstr d)))
      by (apply bvlist_of_wf; [apply cstr_no_NUL|exact Ee|exact Hb]).
    apply IH; [exact F'| |].
    + now apply bvlist_insert_Forall.
    + now apply bvlist_insert_le.
  - destruct (length (cstr d) <=? length LDIF) eqn:El; [now apply IH|].
    destruct (strcmp (skipn (length (cstr d) - length LDIF) (cstr d)) LDIF =? 0)%Z
      eqn:Es; cbn [negb]; [|now apply IH].
    exfalso. apply Z.eqb_eq, strcmp_eq in Es.
    + unfold ends_ldif in Ee. apply Nat.leb_gt in El.
      replace (length LDIF <? length (cstr d)) with true in Ee
        by (symmetry; apply Nat.ltb_lt; lia).
      rewrite Es in Ee. discriminate Ee.
    + intros I. apply in_skipn_in in I. exact (cstr_no_NUL d I).
    + vm_compute. intuition discriminate.
Qed.

Lemma StronglySorted_before {A} (R : A -> A -> Prop) (a b : list A) (x y : A) :
  StronglySorted R (a ++ x :: b) -> In y a -> R y x.
Proof.
  induction a as [|z a IH]; intros Hs Hy; [destruct Hy|].
  cbn [app] in Hs. apply StronglySorted_inv in Hs as [Hs Hall].
  destruct Hy as [->|Hy]; [|now apply IH].
  rewrite List.Forall_forall in Hall. apply Hall. apply in_or_app. right. now left.
Qed.

(** Of two ordered siblings of one key with plain decimal indices, the
    one with the smaller number comes first in the sorted list, whatever
    else the directory holds. *)
Lemma enum_readdir_siblings_in_order (names : list berval)
    (key : berval) (s1 s2 : berval * berval) :
  let files := List.filter ends_ldif (map cstr names) in
  Forall (fun fname => (- 2 ^ 30 <= bvl_inum (bvlist_of fname) < 2 ^ 30)%Z) files ->
  Forall (fun fname => empty_braces fname = false) files ->
  ~ In IX_FSL key -> ~ In NUL key ->
  plain_index (fst s1) = true -> plain_index (fst s2) = true ->
  (decimal_value (fst s1) < decimal_value (fst s2) < 2 ^ 30)%Z ->
  In (ordered_fname key s1) files -> In (ordered_fname key s2) files ->
  exists l1 l2 l3,
    map bvlist_restore (enum_readdir names [])
    = l1 ++ ordered_fname key s1 :: l2 ++ ordered_fname key s2 :: l3.
Proof.
  intros files Hr Hb Hk1 Hk2 P1 P2 Hv I1 I2.
  pose proof (decimal_value_nonneg _ (index_digits s1 P1)) as V1.
  destruct (enum_readdir_le names [] Hr (List.Forall_nil _) (Sorted_nil _))
    as [Hs _].
  apply (Sorted_StronglySorted bvl_le_trans) in Hs.
  pose proof (enum_readdir_keeps names []) as Pk.
  rewrite app_nil_r, <- Permutation_rev in Pk. fold files in Pk.
  set (L := enum_readdir names []) in *.
  (* the nodes of the list are the nodes of the names they are restored to *)
  assert (HL : map bvlist_of (map bvlist_restore L) = L).
  { rewrite map_map. rewrite <- (map_id L) at 2. apply map_ext_in.
    intros ptr Hp. apply (Permutation_in _ Pk), in_map_iff in Hp as (f & <- & Hf).
    rewrite List.Forall_forall in Hb. now rewrite (bvlist_of_restored f (Hb f Hf)). }
  assert (Po : Permutation (map bvlist_restore L) files).
  { rewrite Pk, map_map. clear -Hb.
    induction Hb as [|f l Hf _ IH]; cbn [map]; [reflexivity|].
    rewrite (bvlist_of_restored f Hf). now apply perm_skip. }
  assert (O1 : In (ordered_fname key s1) (map bvlist_restore L))
    by (now apply (Permutation_in _ (Permutation_sym Po))).
  assert (O2 : In (ordered_fname key s2) (map bvlist_restore L))
    by (now apply (Permutation_in _ (Permutation_sym Po))).
  destruct (bvlist_of_ordered_fname key s1 Hk1 Hk2 P1 ltac:(lia)) as [(K1 & _) N1].
  destruct (bvlist_of_ordered_fname key s2 Hk1 Hk2 P2 ltac:(lia)) as [(K2 & _) N2].
  apply in_split in O2 as (a & b & E2).
  assert (Hne : ordered_fname key s1 <> ordered_fname key s2).
  { intros E. rewrite E in N1. lia. }
  rewrite E2 in O1. apply in_app_or in O1 as [O1|[O1|O1]].
  - apply in_split in O1 as (l1 & l2 & ->).
    exists l1, l2, b. rewrite E2, <- app_assoc. reflexivity.
  - now symmetry in O1.
  - exfalso. rewrite <- HL, E2, map_app in Hs. cbn [map] in Hs.
    apply in_split in O1 as (b1 & b2 & ->).
    rewrite map_app in Hs. cbn [map] in Hs.
    rewrite app_comm_cons, app_assoc in Hs.
    apply (StronglySorted_before bvl_le _ _ _
             (bvlist_of (ordered_fname key s2))) in Hs.
    + destruct Hs as [Hlt|[_ Hle]].
      * unfold bvl_key in Hlt. rewrite K1, K2, strcmp_refl in Hlt. lia.
      * lia.
    + apply in_or_app. right. now left.
Qed.

Section OrderedSearch.
Context `{SL : !Slapd}.

(** A ONELEVEL search below an existing base entry, every child of the
    sorted list readable under its restored name: the matching children
    are sent in the order of the sorted list. *)
Lemma onelevel_search_children (f : nat) (be : BackendDB) (fs : filesys)
    (op : Operation) (eb : Entry) (names : list berval) (child : berval -> Entry) :
  let path := pathbuf_of (dn2path be (o_req_ndn op)) in
  let dir := ldif2dir path in
  ors_scope op = LDAP_SCOPE_ONELEVEL ->
  o_req_ndn op <> [] ->
  ldif_read_entry fs (cstr (pb_val path))
    (Some (dnParent (o_req_dn op), dnParent (o_req_ndn op))) false
  = (LDAP_SUCCESS, Some eb) ->
  sys_readdir fs (cstr (pb_val dir)) = Ok names ->
  (forall n, In n (map bvlist_restore (enum_readdir names [])) ->
     ldif_read_entry fs (cstr (pb_val (fullpath dir n)))
       (Some (e_name eb, e_nname eb)) false = (LDAP_SUCCESS, Some (child n))) ->
  (forall sent e, send_search_entry sent e = LDAP_SUCCESS) ->
  ldif_back_search (S (S f)) be fs op
  = Some (LDAP_SUCCESS,
          map SearchEntry
            (List.filter (ors_filter op)
               (map child (map bvlist_restore (enum_readdir names []))))).
Proof.
  intros path dir Hsc Hne Hb Hd Hch Hsend.
  apply (onelevel_search f be fs op eb names _ Hsc Hne Hb Hd); [|exact Hsend].
  fold path. fold dir. fold dir in Hch.
  induction (enum_readdir names []) as [|ptr lst IH]; cbn [map]; constructor.
  - apply Hch. cbn [map]. now left.
  - apply IH. intros n Hn. apply Hch. cbn [map]. now right.
Qed.


End OrderedSearch.



(** * The scope of a search *)

Lemma ck_after_send pre ck r : ck_send (ck_after pre ck) r = ck_after pre (ck_send ck r).
Proof.
  unfold ck_send, ck_after. cbn. f_equal.
  destruct (ck_rs ck) as [rs|]; cbn; [|reflexivity].
  now rewrite app_assoc.
Qed.

Lemma ck_after_queue pre ck e : ck_queue (ck_after pre ck) e = ck_after pre (ck_queue ck e).
Proof.
  unfold ck_queue, ck_after. cbn [ck_entries ck_elen ck_eind ck_rs ck_op].
  destruct (ck_entries ck) as [entries|]; cbn;
    match goal with |- context [N.leb ?a ?b] => destruct (N.leb a b) end;
    reflexivity.
Qed.

Lemma ck_after_nil ck : ck_after [] ck = ck.
Proof.
  unfold ck_after. destruct ck as [o [[s]|] en el ei]; reflexivity.
Qed.

Section Scope.
Context `{SL : !Slapd}.
Hypothesis send_entry_ok : forall sent e, send_search_entry sent e = LDAP_SUCCESS.
Hypothesis send_reference_ok :
  forall sent e, send_search_reference sent e = LDAP_SUCCESS.

Lemma enum_self_entry_after (pre : list reply) (fs : filesys) ck path base pdn pndn :
  enum_self_entry fs (ck_after pre ck) path base pdn pndn
  = match enum_self_entry fs ck path base pdn pndn with
    | SelfReturn rc ck' => SelfReturn rc (ck_after pre ck')
    | SelfDone e ck' => SelfDone e (ck_after pre ck')
    end.
Proof.
  unfold enum_self_entry. destruct base; [reflexivity|].
  destruct (ldif_read_entry fs _ _ false) as [rc [e|]]; [|reflexivity].
  destruct (negb (rc =? LDAP_SUCCESS)%Z); [reflexivity|].
  cbn [ck_after ck_op ck_rs].
  destruct (_ || _); [|reflexivity].
  destruct (ck_rs ck) as [rs|]; cbn [option_map].
  - rewrite !send_entry_ok, !send_reference_ok.
    destruct (_ && _).
    + cbn [Z.eqb LDAP_SUCCESS negb]. now rewrite ck_after_send.
    + destruct (ors_filter (ck_op ck) e); cbn [Z.eqb LDAP_SUCCESS negb].
      * now rewrite ck_after_send.
      * reflexivity.
  - now rewrite <- ck_after_queue.
Qed.

Lemma enum_children_after (pre : list reply)
    (recurse : enumCookie -> pathbuf -> option (Z * enumCookie)) path :
  (forall ck p,
     recurse (ck_after pre ck) p
     = option_map (fun r => (fst r, ck_after pre (snd r))) (recurse ck p)) ->
  forall lst rc ck,
  enum_children recurse path lst rc (ck_after pre ck)
  = option_map (fun r => (fst r, ck_after pre (snd r)))
      (enum_children recurse path lst rc ck).
Proof.
  intros Hrec lst. induction lst as [|ptr lst IH]; intros rc ck;
    cbn [enum_children]; [reflexivity|].
  destruct (rc =? LDAP_SUCCESS)%Z; [|apply IH].
  rewrite Hrec. destruct (recurse ck _) as [[rc1 ck1]|]; cbn [option_map fst snd];
    [apply IH|reflexivity].
Qed.

(** What a search has sent before does not change what it goes on to do. *)
Lemma r_enum_tree_after (pre : list reply) (fs : filesys) (fuel : nat) :
  forall ck path base pdn pndn,
  r_enum_tree fuel fs (ck_after pre ck) path base pdn pndn
  = option_map (fun r => (fst r, ck_after pre (snd r)))
      (r_enum_tree fuel fs ck path base pdn pndn).
Proof.
  induction fuel as [|fuel IH]; intros ck path base pdn pndn; [reflexivity|].
  cbn [r_enum_tree]. rewrite enum_self_entry_after.
  destruct (enum_self_entry fs ck path base pdn pndn) as [rc1 ck1|e ck1];
    [reflexivity|].
  cbn [ck_after ck_op]. fold (ck_after pre ck1).
  destruct (negb (bool_decide (ors_scope (ck_op ck1) = LDAP_SCOPE_BASE)));
    [|reflexivity].
  destruct (sys_readdir fs _) as [names|en]; [|reflexivity].
  match goal with
  | |- enum_children ?rec ?p ?l ?r0 ?c = _ =>
      replace c with
        (ck_after pre
           (if bool_decide (ors_scope (ck_op ck1) = LDAP_SCOPE_ONELEVEL)
            then ck_set_op ck1 (set_scope (ck_op ck1) LDAP_SCOPE_BASE)
            else if bool_decide (ors_scope (ck_op ck1) = LDAP_SCOPE_SUBORDINATE)
            then ck_set_op ck1 (set_scope (ck_op ck1) LDAP_SCOPE_SUBTREE)
            else ck1))
        by (destruct (bool_decide _); [reflexivity|];
            destruct (bool_decide _); reflexivity)
  end.
  apply enum_children_after. intros ck0 p. apply IH.
Qed.

End Scope.

Ltac closed_decides :=
  repeat match goal with
         | |- context [bool_decide (?a = ?b)] =>
             first [ rewrite (bool_decide_eq_true_2 (a = b)) by reflexivity
                   | rewrite (bool_decide_eq_false_2 (a = b)) by discriminate ]
         end.

Section ScopeOfSearch.
Context `{SL : !Slapd}.

(** A SUBTREE search sends the base entry and then what the SUBORDINATE
    search sends: below the base entry the two run with the same
    scope. *)
Lemma subtree_is_base_then_subordinate (fuel : nat) (be : BackendDB)
    (fs : filesys) (op : Operation) (eb : Entry) :
  let path := pathbuf_of (dn2path be (o_req_ndn op)) in
  let base_reply :=
    if negb (o_manageDSAit op) && is_entry_referral eb then [SearchReference eb]
    else if ors_filter op eb then [SearchEntry eb] else [] in
  o_req_ndn op <> [] ->
  ldif_read_entry fs (cstr (pb_val path))
    (Some (dnParent (o_req_dn op), dnParent (o_req_ndn op))) false
  = (LDAP_SUCCESS, Some eb) ->
  (forall sent e, send_search_entry sent e = LDAP_SUCCESS) ->
  (forall sent e, send_search_reference sent e = LDAP_SUCCESS) ->
  ldif_back_search fuel be fs (set_scope op LDAP_SCOPE_SUBTREE)
  = option_map (fun r => (fst r, base_reply ++ snd r))
      (ldif_back_search fuel be fs (set_scope op LDAP_SCOPE_SUBORDINATE)).
Proof.
  intros path base_reply Hne Hb Hse Hsr.
  unfold ldif_back_search, enum_tree. cbn [ck_op set_scope o_req_dn o_req_ndn].
  replace (length (o_req_ndn op) =? 0) with false
    by (symmetry; apply Nat.eqb_neq; destruct (o_req_ndn op); simpl; [congruence|lia]).
  fold path. destruct fuel as [|fuel]; [reflexivity|].
  cbn [r_enum_tree]. unfold enum_self_entry. rewrite Hb.
  cbn [negb Z.eqb LDAP_SUCCESS ck_op ck_rs set_scope ors_scope o_manageDSAit
       ors_filter].
  closed_decides.
  cbn [orb negb andb]. rewrite Hse, Hsr. rewrite andb_true_r.
  set (ck0 := {| ck_op := set_scope op LDAP_SCOPE_SUBTREE;
                 ck_rs := Some {| sr_sent := [] |};
                 ck_entries := None; ck_elen := 0%N; ck_eind := 0%N |}).
  assert (Hgo : forall ck1,
    ck1 = ck_after base_reply ck0 ->
    match
      (if negb (bool_decide (ors_scope (ck_op ck1) = LDAP_SCOPE_BASE))
       then
         match sys_readdir fs (cstr (pb_val (ldif2dir path))) with
         | Ok names =>
             enum_children
               (fun ck p => r_enum_tree fuel fs ck p false (e_name eb) (e_nname eb))
               (ldif2dir path) (enum_readdir names []) LDAP_SUCCESS
               (if bool_decide (ors_scope (ck_op ck1) = LDAP_SCOPE_ONELEVEL)
                then ck_set_op ck1 (set_scope (ck_op ck1) LDAP_SCOPE_BASE)
                else if bool_decide (ors_scope (ck_op ck1) = LDAP_SCOPE_SUBORDINATE)
                then ck_set_op ck1 (set_scope (ck_op ck1) LDAP_SCOPE_SUBTREE)
                else ck1)
         | Err en =>
             Some (if negb (bool_decide (en = ENOENT)) then LDAP_BUSY
                   else LDAP_SUCCESS, ck1)
         end
       else Some (LDAP_SUCCESS, ck1))
    with
    | Some (rc, ck') => Some (rc, match ck_rs ck' with
                                   | Some rs => sr_sent rs
                                   | None => []
                                   end)
    | None => None
    end
    = option_map (fun r => (fst r, base_reply ++ snd r))
        match
          match sys_readdir fs (cstr (pb_val (ldif2dir path))) with
          | Ok names =>
              enum_children
                (fun ck p => r_enum_tree fuel fs ck p false (e_name eb) (e_nname eb))
                (ldif2dir path) (enum_readdir names []) LDAP_SUCCESS ck0
          | Err en =>
              Some (if negb (bool_decide (en = ENOENT)) then LDAP_BUSY
                    else LDAP_SUCCESS,
                    {| ck_op := set_scope op LDAP_SCOPE_SUBORDINATE;
                       ck_rs := Some {| sr_sent := [] |};
                       ck_entries := None; ck_elen := 0%N; ck_eind := 0%N |})
          end
        with
        | Some (rc, ck') => Some (rc, match ck_rs ck' with
                                       | Some rs => sr_sent rs
                                       | None => []
                                       end)
        | None => None
        end).
  { intros ck1 ->. cbn [ck_after ck_op ck0 set_scope ors_scope].
    closed_decides.
    cbn [negb]. destruct (sys_readdir fs _) as [names|en].
    - change {| ck_op := set_scope op LDAP_SCOPE_SUBTREE;
                ck_rs := option_map _ (ck_rs ck0);
                ck_entries := ck_entries ck0; ck_elen := ck_elen ck0;
                ck_eind := ck_eind ck0 |} with (ck_after base_reply ck0).
      rewrite (enum_children_after base_reply).
      + destruct (enum_children _ _ _ _ ck0) as [[rc ck']|] eqn:E;
          cbn [option_map fst snd ck_after ck_rs]; [|reflexivity].
        eapply (enum_children_sends
                  (fun ck p => r_enum_tree fuel fs ck p false (e_name eb) (e_nname eb))
                  (ldif2dir path)
                  ltac:(intros a b q c0 d Ha Hq;
                        exact (r_enum_tree_sends fs fuel a b q false
                                 (e_name eb) (e_nname eb) c0 d Ha Hq))
                  _ _ ck0 {| sr_sent := [] |}) in E; [|reflexivity].
        destruct E as [(E0 & _)|(_ & more & -> & _)]; [discriminate E0|].
        reflexivity.
      + intros ck p. now apply r_enum_tree_after.
    - cbn. now rewrite app_nil_r. }
  destruct (negb (o_manageDSAit op) && is_entry_referral eb) eqn:Er.
  - cbn [Z.eqb LDAP_SUCCESS negb]. apply Hgo. reflexivity.
  - destruct (ors_filter op eb) eqn:Ef; cbn [Z.eqb LDAP_SUCCESS negb]; apply Hgo;
      reflexivity.
Qed.

Lemma stored_entry_name (e : Entry) :
  e_name (stored_entry e) = firstn (length (dnRdn (e_name e))) (e_name e).
Proof.
  unfold stored_entry.
  destruct (length (dnRdn (e_name e)) =? length (e_name e)) eqn:E; cbn [negb].
  - apply Nat.eqb_eq in E. rewrite E. symmetry. apply firstn_all.
  - reflexivity.
Qed.

(** Reading an entry file that is there, is not too long and can be
    parsed, below a parent with a DN. *)
Lemma ldif_read_entry_file (fs : filesys) (path data : berval) (parent e0 : Entry) :
  fs !! path = Some (IFile data) ->
  (Z.of_nat (length data) <= INT_MAX - 2)%Z ->
  str2entry data = Some e0 ->
  e_name parent <> [] ->
  ldif_read_entry fs path (Some (e_name parent, e_nname parent)) false
  = (LDAP_SUCCESS, Some (entry_below parent e0)).
Proof.
  intros Hf Hl Hp Hn.
  destruct (ldif_read_file_regular fs path data Hf Hl) as [Hr Hd].
  unfold ldif_read_entry. rewrite Hr, Hd. cbn [Z.eqb LDAP_SUCCESS default].
  cbn. rewrite Hp. unfold entry_below.
  destruct (e_name parent); [contradiction|reflexivity].
Qed.

(** The names the children are looked up under are the names of the
    directory that end in ".ldif", when none of them has empty braces. *)
Lemma enum_readdir_restored (names : list berval) :
  Forall (fun n => empty_braces n = false) (List.filter ends_ldif (map cstr names)) ->
  Permutation (map bvlist_restore (enum_readdir names []))
    (List.filter ends_ldif (map cstr names)).
Proof.
  intros F. pose proof (enum_readdir_keeps names []) as P.
  rewrite app_nil_r, <- Permutation_rev in P.
  rewrite P, map_map. clear P.
  remember (List.filter ends_ldif (map cstr names)) as l eqn:El. clear El.
  induction F as [|n l Hn F IH]; cbn [map]; [reflexivity|].
  rewrite (bvlist_of_restored n Hn). now apply perm_skip.
Qed.

(** C6. A ONELEVEL search whose base entry can be read (the suffix entry
    in particular), over a subtree directory whose entry files can all be
    read and parsed and have no name with empty braces, and with a front
    end that accepts every entry: exactly the entries of these files that
    match the filter are sent, each once, each under the name its file
    stores followed by the DN of the base entry; that name is the RDN of
    the entry where the file holds what [ldif_write_entry] stored.  The
    base entry is not sent and nothing below the children is read,
    whatever lies there, because the children are visited with the scope
    narrowed to BASE.  And SUBORDINATE is widened to SUBTREE for the
    children: a SUBTREE search sends the base entry and then exactly
    what the SUBORDINATE search sends. *)
Theorem ldif_back_search_onelevel (f : nat) (be : BackendDB) (fs : filesys)
    (op : Operation) (eb : Entry) (m : Z) (names : list berval)
    (stored : berval -> Entry) :
  let path := pathbuf_of (dn2path be (o_req_ndn op)) in
  let dir := ldif2dir path in
  let files := List.filter ends_ldif (map cstr names) in
  let base_reply :=
    if negb (o_manageDSAit op) && is_entry_referral eb then [SearchReference eb]
    else if ors_filter op eb then [SearchEntry eb] else [] in
  ors_scope op = LDAP_SCOPE_ONELEVEL ->
  o_req_ndn op <> [] ->
  ldif_read_entry fs (cstr (pb_val path))
    (Some (dnParent (o_req_dn op), dnParent (o_req_ndn op))) false
  = (LDAP_SUCCESS, Some eb) ->
  e_name eb <> [] ->
  fs !! cstr (pb_val dir) = Some (IDir m names) ->
  Forall (fun n => empty_braces n = false) files ->
  (forall n, In n files ->
     exists data,
       fs !! cstr (pb_val (fullpath dir n)) = Some (IFile data) /\
       (Z.of_nat (length data) <= INT_MAX - 2)%Z /\
       str2entry data = Some (stored n)) ->
  (forall sent e, send_search_entry sent e = LDAP_SUCCESS) ->
  (exists order,
     Permutation order files /\
     ldif_back_search (S (S f)) be fs op
     = Some (LDAP_SUCCESS,
             map SearchEntry
               (List.filter (ors_filter op)
                  (map (fun n => entry_below eb (stored n)) order)))) /\
  ((forall e d e0, entry2str e = Some d -> str2entry d = Some e0 ->
                   e_name e0 = e_name e) ->
   forall n e' data,
     In n files ->
     fs !! cstr (pb_val (fullpath dir n)) = Some (IFile data) ->
     entry2str (stored_entry e') = Some data ->
     e_name (entry_below eb (stored n))
     = firstn (length (dnRdn (e_name e'))) (e_name e') ++ bv "," ++ e_name eb) /\
  (forall ck p pdn pndn,
     ors_scope (ck_op ck) = LDAP_SCOPE_BASE ->
     exists rc ck',
       r_enum_tree 1 fs ck p false pdn pndn = Some (rc, ck') /\
       ors_scope (ck_op ck') = LDAP_SCOPE_BASE) /\
  ((forall sent e, send_search_reference sent e = LDAP_SUCCESS) ->
   forall fuel,
     ldif_back_search fuel be fs (set_scope op LDAP_SCOPE_SUBTREE)
     = option_map (fun r => (fst r, base_reply ++ snd r))
         (ldif_back_search fuel be fs (set_scope op LDAP_SCOPE_SUBORDINATE))).
Proof.
  intros path dir files base_reply Hsc Hne Hb Hn Hd Hbr Hch Hsend.
  split; [|split; [|split]].
  - assert (Hdir : sys_readdir fs (cstr (pb_val dir))
                   = Ok (bv "." :: bv ".." :: names))
      by (unfold sys_readdir; now rewrite Hd).
    pose proof (enum_readdir_restored names Hbr) as P. fold files in P.
    exists (map bvlist_restore (enum_readdir names [])). split; [exact P|].
    rewrite (onelevel_search_children f be fs op eb (bv "." :: bv ".." :: names)
               (fun n => entry_below eb (stored n)) Hsc Hne Hb Hdir);
      [reflexivity| |exact Hsend].
    fold path. fold dir.
    change (enum_readdir (bv "." :: bv ".." :: names) [])
      with (enum_readdir names []).
    intros n Hin. apply (Permutation_in _ P) in Hin.
    destruct (Hch n Hin) as (data & Hf & Hl & Hp).
    now apply (ldif_read_entry_file fs _ data eb).
  - intros Hround n e' data Hin Hf He.
    destruct (Hch n Hin) as (data' & Hf' & _ & Hp).
    rewrite Hf in Hf'. injection Hf' as <-.
    unfold entry_below, build_new_dn. cbn [e_name].
    rewrite (Hround _ _ _ He Hp), stored_entry_name. reflexivity.
  - intros ck p pdn pndn Hs. cbn [r_enum_tree].
    pose proof (enum_self_entry_op fs ck p false pdn pndn) as Ho.
    destruct (enum_self_entry fs ck p false pdn pndn) as [rc ck'|e ck'].
    + exists rc, ck'. split; [reflexivity|]. now rewrite Ho.
    + rewrite Ho, Hs. rewrite bool_decide_eq_true_2 by reflexivity. cbn [negb].
      exists LDAP_SUCCESS, ck'. split; [reflexivity|]. now rewrite Ho.
  - intros Hsr fuel.
    now apply (subtree_is_base_then_subordinate fuel be fs op eb).
Qed.

End ScopeOfSearch.

(** The suffix of the scenario with an entry below cn=bob: the level
    below the suffix is delivered, the entry below cn=bob is not. *)
Lemma ldif_back_search_onelevel_witness :
  let op := example_op (bv "dc=example,dc=com") LDAP_SCOPE_ONELEVEL in
  let eb := {| e_name := bv "dc=example,dc=com"; e_nname := bv "dc=example,dc=com";
               e_attrs := []; e_ocflags := 0 |} in
  let stored := fun n =>
    match rename_fs !! (bv "/var/data/dc=example,dc=com/" ++ n) with
    | Some (IFile d) => default eb (example_str2entry d)
    | _ => eb
    end in
  exists order,
    Permutation order [bv "cn=bob.ldif"; bv "cn=alice.ldif"] /\
    @ldif_back_search example_slapd 2 example_be rename_fs op
    = Some (LDAP_SUCCESS,
            map SearchEntry
              (List.filter (ors_filter op)
                 (map (fun n => entry_below eb (stored n)) order))).
Proof.
  cbv zeta.
  refine (proj1 (@ldif_back_search_onelevel example_slapd 0 example_be rename_fs
            (example_op (bv "dc=example,dc=com") LDAP_SCOPE_ONELEVEL)
            {| e_name := bv "dc=example,dc=com"; e_nname := bv "dc=example,dc=com";
               e_attrs := []; e_ocflags := 0 |}
            488%Z [bv "cn=bob.ldif"; bv "cn=alice.ldif"] _
            eq_refl _ _ _ _ _ _ _)).
  - discriminate.
  - vm_compute. reflexivity.
  - discriminate.
  - vm_compute. reflexivity.
  - repeat (apply List.Forall_cons; [vm_compute; reflexivity|]).
    apply List.Forall_nil.
  - intros n [<-|[<-|[]]]; eexists;
      (split; [vm_compute; reflexivity|]);
      (split; [vm_compute; discriminate|vm_compute; reflexivity]).
  - reflexivity.
Defined.

(** An entry with the RDN [cn={}x] can be added, and from then on the
    level below the suffix is not delivered: the search ends with
    LDAP_NO_SUCH_OBJECT at that entry and sends neither it nor the
    sibling that comes after it.  And an entry file that stores a name
    of two RDNs is delivered under a DN two levels below the suffix. *)
Lemma ldif_back_search_onelevel_counterexample :
  let fs1 := snd (@ldif_back_add example_slapd example_add_calls example_be
                    example_fs example_braces) in
  let fs2 := snd (@ldif_back_add example_slapd example_add_calls example_be
                    fs1 example_zed) in
  let op := example_op (bv "dc=example,dc=com") LDAP_SCOPE_ONELEVEL in
  fs2 !! bv "/var/data/dc=example,dc=com/cn={}x.ldif" = Some (IFile (bv "cn={}x")) /\
  fs2 !! bv "/var/data/dc=example,dc=com/o=z.ldif" = Some (IFile (bv "o=z")) /\
  @ldif_back_search example_slapd 2 example_be fs2 op
  = Some (LDAP_NO_SUCH_OBJECT,
          [SearchEntry example_alice;
           SearchEntry {| e_name := bv "cn=bob,dc=example,dc=com";
                          e_nname := bv "cn=bob,dc=example,dc=com";
                          e_attrs := []; e_ocflags := 0 |}]) /\
  @ldif_back_search example_slapd 2 example_be edited_fs op
  = Some (LDAP_SUCCESS,
          [SearchEntry example_alice;
           SearchEntry {| e_name := bv "cn=x,cn=y,dc=example,dc=com";
                          e_nname := bv "cn=x,cn=y,dc=example,dc=com";
                          e_attrs := []; e_ocflags := 0 |}]).
Proof. cbv zeta. split; [|split; [|split]]; vm_compute; reflexivity. Qed.
